(* ===== verification/_CoqProject ===== *)
-Q . S2P
Prelude.v
CLib.v
Os.v
Kernel.v
Net.v
DumbCommon.v
DumbIterative.v
DumbMultithreaded.v
ClientState.v
ClientTable.v
DumbEpoll.v
DumbWorkers.v
WorkerThreads.v
DumbReactor.v
SelectChat.v
EpollChat.v
KvStore.v
KvClient.v
Threads.v
Locks.v
Futex.v
Counter.v
Bank.v
Tso.v
LabCommon.v
Calculator.v
Transfer.v
FileTransfer.v
CondVar.v
BoundedBuffer.v
RandomServer.v
TimeService.v
ReadersWriters.v
Philosophers.v
RobustMutex.v
RecordDb.v
Sensors.v
Tug.v
Eden.v
Balls.v
ArrayEraser.v
Students.v
Board.v
Personae.v
ThreadPool.v
Dice.v
Fifo.v
Pipes.v
