(* ===== verification/Prelude.v ===== *)
(** * C programs of the operating-systems course

    The repository is a course site; its programs are the C examples and labs
    under src/content.  They are small and separate, so the development is a
    shared model of C, the kernel and threads, with one file per program or
    group of programs on top of it.  In what follows servers/, sockets/,
    sync/, sync2/, shm/ and deadlocks/ are the directories of
    src/content/sop2/wyk (their code/ folders), and sop1/lab/ and sop2/lab/
    those of src/content.

    ** How a program is modelled

    A single-threaded function is a tree of system calls ([Os.prog]): a [Sys]
    node hands a call to the kernel and goes on with its reply, [Say] is an
    effect that cannot fail ([printf], an atomic increment), [Exit] ends the
    process, [Undef] is undefined behaviour reached, [Spin] a loop whose bound
    ran out.  [Os.run] runs a tree against a list of replies, one per call,
    and gives the outcome and the trace; when the replies are used up the
    program is [Blocked] in its next call.  Hence a theorem for all lists of
    replies is a theorem for all behaviours of the kernel, including errors,
    short transfers and interruptions.  [Kernel] says what a correct program
    owes at a call ([call_ok]) and what POSIX promises of the reply
    ([reply_ok]), and has the weakest-precondition calculus [wp] with its
    meaning on runs, [wp_sound].

    Threads and processes that share memory are step functions
    ([Threads.step]): one step is one load, one store, one atomic instruction
    or one call, from a local state and the shared memory to the possible next
    ones; [Threads.reachable] is the closure over all interleavings and
    [Threads.schedule] runs one of them.  [Threads] also has the interface of
    a lock: the class [Lock] (its memory and steps), what it promises
    ([LockOk]: mutual exclusion, no deadlock inside the lock) and the rule for
    its clients ([Rule], [system_invariant], [deadlock_free]).  [Locks] and
    [Futex] prove [LockOk] for six locks, [Counter] and [Bank] use any of
    them through the interface only.  [Tso] has the two programs whose point
    is that plain stores are delayed, over a store buffer per processor.

    Integers keep their width: results of int arithmetic go through
    [Prelude.checked_int], whose [None] is undefined behaviour (the program
    becomes [Undef], a thread stops), unsigned and narrowing conversions
    through [wrap_u] and [wrap_s].  Arrays are lists accessed by
    [mem_load], [mem_store] and [mem_slice], which are [None] out of range,
    so that "no access leaves the array" is part of every theorem that says
    the program does not stop.  Random numbers, times and temperatures are
    parameters or open choices; a sleep has no step.

    ** Files

    - Shared: [Prelude] (integers, arrays, tactics), [CLib] (strings, [atoi],
      [sscanf], decimal output), [Os] and [Kernel] (above), [Net] (byte order,
      SIGPIPE, datagrams), [Threads], [CondVar] (queues of condition
      variables, spurious wake-ups), [LabCommon] (sop2/lab l7_common.h,
      l8_common.h: [ERR], TEMP_FAILURE_RETRY, [bulk_read], [bulk_write]).
    - The DUMB servers, servers/: [DumbCommon] (dumb_common.c),
      [DumbIterative], [DumbMultithreaded]; [ClientState] is the state
      machine of a client that dumb_epoll.c and dumb_epoll_workers.c share,
      [ClientTable] the table of contexts and the epoll sets; [DumbEpoll],
      [DumbWorkers] (workers, acceptor and metrics thread, each by itself),
      [WorkerThreads] (workers and acceptor together, one call or one access
      to the table of contexts per step), [DumbReactor] (dumb_reactor.c: its
      own context and handlers, as callbacks).
    - The chat servers, servers/: [SelectChat], [EpollChat].
    - sockets/: [KvStore] and [KvClient], [RandomServer], [TimeService].
    - sync/: [Locks], [Futex], [Counter], [Bank], [Tso].
    - sync2/, deadlocks/ and shm/: [BoundedBuffer] (semaphores and condition
      variables), [ReadersWriters], [Philosophers], [RobustMutex] with
      [RecordDb], [Sensors], [Tug].
    - Labs: [Calculator] (sop2 l7), [Transfer] and [FileTransfer] (sop2 l8),
      [Eden] (sop2 l8 example2), [Balls], [ArrayEraser] and [Students]
      (sop1 l3: prog18.c, prog19.c, prog20.c),
      [Fifo] and [Pipes] (sop2 l5), [Personae] (sop2 l5_5: l5_5-2.c), [Board]
      (sop2 l6: l6-2_server.c, l6-2_client.c), [ThreadPool] and [Dice] (sop1
      l4: prog22.c, prog23.c).

    The files follow their sources: a definition has the name of the C
    function, a loop [while (1)] is a definition [..._iter] or [..._loop] for
    one turn, and the program counter of a thread is an inductive type with a
    constructor per access or call.

    ** What the theorems show

    - The DUMB servers.  [handle_client_responses]: the answers depend on the
      byte stream only, not on its segmentation; [conversation_exact]: the
      event-driven client state machine implements the same specification of
      a conversation; the [..._safe] theorems: buffers, descriptors and epoll
      registrations are used correctly for every behaviour of clients and
      kernel, and the only undefined behaviour left is named; the reactor's
      own handlers answer an event as those of the plain server do, but for
      the bits of the event mask they do not look at
      ([reactor_client_event]); and in every interleaving of the worker
      server's threads no context is used by two of them at once and a worker
      only handles descriptors registered with it ([workers_system_safe]).
    - The chats: whom a broadcast reaches; after every turn the array holds
      exactly the registered connections, each once; no access out of range.
    - The key-value store refines a finite map of payloads cut to 255 bytes
      (what is left of a longer one is read as the next request), its table
      stays well formed, and client and server together are the map's
      operations.
    - sync: mutual exclusion and no deadlock for the locks, exact final
      counters and conserved money for their clients, lost updates without
      them, the reorderings of x86-TSO.
    - sync2 and the rest: first-in first-out without loss, no lost wake-up,
      readers-writers exclusion, exactly when the philosophers deadlock,
      recovery from dead lock owners, and so on: each theorem is for any
      number of threads or processes where the program is, in every
      interleaving.
    - The labs: end-to-end theorems of client and server (calculator, file
      transfer with the parts cut at a NUL as the server's %s does, time,
      random bytes with the pacing asked for), conservation of what the
      threads share, who sleeps after a broadcast ([pool_jobs]), files through
      a FIFO with the bytes [isalnum] is not defined on ([fifo_exchange]),
      interrupted calls ([pipe_messages]).

    ** Bounds

    A loop of a program has a bound in the model ([n] or [F]).  Where a
    theorem speaks of the result, it asks for a bound above the number of
    replies or turns, which is then enough ([Os.loop_progress],
    [Os.loop_measure]), or proves that [Spun] is not the outcome; where a
    theorem is of safety it holds for every bound, that is, for every prefix
    of the run.  The bounds that are numbers are those of the code: buffer
    sizes, 1024 descriptors, 20 digits for a 64-bit number.  Step functions
    have no bound.

    ** Not modelled

    - servers/dumb_coro.cpp: C++ coroutines, outside the C model.
    - bin/, mem/, vmem/, docker/, most of shm/ and the socket tools
      (addrbind.c, addrconv.c, byte_sink.c, echo_server.c, simple_nc.c):
      demonstrations of one call each, whose point is what the kernel, the
      linker or the MMU does; they have no state or logic of their own to be
      right or wrong about.
    - sync2/ sem_shm.c and mtx_attributes.c, for the same reason.
    - sop1/lab l0 to l2, l4/prog21.c, the older .l2, and sop1/lab/l3/prog17.c;
      sop2/lab l5_5-1.c and l6 but for l6-2: exercises on files,
      processes, signals and asynchronous I/O; not reached.
    - The percentage of time_burst_client.c and other floating-point output;
      the texts of messages that only inform. *)

From stdpp Require Export base list numbers strings gmap sets.
From Stdlib Require Export ZArith Lia.

#[global] Open Scope Z_scope.

(** ** Machine integers *)

(** [wrap_u w z] is the value a [w]-bit unsigned object holds after [z] is
    converted to its type, [wrap_s w z] the same for two's complement. *)
Definition wrap_u (w z : Z) : Z := z mod 2 ^ w.
Definition wrap_s (w z : Z) : Z :=
  let m := z mod 2 ^ w in if m <? 2 ^ (w - 1) then m else m - 2 ^ w.

Definition INT_MAX : Z := 2 ^ 31 - 1.
Definition INT_MIN : Z := - 2 ^ 31.
Definition LLONG_MAX : Z := 2 ^ 63 - 1.
Definition LLONG_MIN : Z := - 2 ^ 63.

(** Signed arithmetic whose result does not fit is undefined behaviour, so
    the checked forms return [None]. *)
Definition checked_int (z : Z) : option Z :=
  if (INT_MIN <=? z) && (z <=? INT_MAX) then Some z else None.
Definition checked_ll (z : Z) : option Z :=
  if (LLONG_MIN <=? z) && (z <=? LLONG_MAX) then Some z else None.

(** The limits as literals, and the tactic that gives them to [lia]. *)
Lemma limit_values :
  INT_MIN = -2147483648 /\ INT_MAX = 2147483647 /\
  LLONG_MIN = -9223372036854775808 /\ LLONG_MAX = 9223372036854775807.
Proof. repeat split; reflexivity. Qed.

Ltac limits :=
  let a := fresh "Hlim" in let b := fresh "Hlim" in let c := fresh "Hlim" in let d := fresh "Hlim" in
  pose proof limit_values as (a & b & c & d).

(** Saturation to the range of [long long] (and of [long] on LP64). *)
Definition clamp_ll (z : Z) : Z := Z.max LLONG_MIN (Z.min LLONG_MAX z).

Lemma wrap_u_range w z : 0 <= w -> 0 <= wrap_u w z < 2 ^ w.
Proof. intros Hw. apply Z.mod_pos_bound, Z.pow_pos_nonneg; lia. Qed.

Lemma wrap_u_small w z : 0 <= z < 2 ^ w -> wrap_u w z = z.
Proof. apply Z.mod_small. Qed.

Lemma wrap_s_small w z :
  0 < w -> - 2 ^ (w - 1) <= z < 2 ^ (w - 1) -> wrap_s w z = z.
Proof.
  intros Hw Hz. unfold wrap_s.
  assert (2 ^ w = 2 * 2 ^ (w - 1)) as Hp.
  { rewrite <- Z.pow_succ_r by lia. f_equal. lia. }
  destruct (decide (0 <= z)).
  - rewrite Z.mod_small by lia. destruct (Z.ltb_spec z (2 ^ (w - 1))); lia.
  - replace (z mod 2 ^ w) with (z + 2 ^ w).
    + destruct (Z.ltb_spec (z + 2 ^ w) (2 ^ (w - 1))); lia.
    + rewrite <- (Z.mod_small (z + 2 ^ w) (2 ^ w)) by lia.
      rewrite Z.add_mod, Z.mod_same, Z.add_0_r, Z.mod_mod by lia. done.
Qed.

Lemma wrap_u_of_s w z : 0 < w -> wrap_u w (wrap_s w z) = wrap_u w z.
Proof.
  intros Hw. unfold wrap_u, wrap_s.
  assert (0 < 2 ^ w) by (apply Z.pow_pos_nonneg; lia).
  destruct (z mod 2 ^ w <? 2 ^ (w - 1)).
  - by rewrite Z.mod_mod by lia.
  - rewrite Zminus_mod, Z.mod_mod, Z.mod_same, Z.sub_0_r, Z.mod_mod by lia. done.
Qed.

Lemma checked_int_Some z y : checked_int z = Some y <-> y = z /\ INT_MIN <= z <= INT_MAX.
Proof.
  unfold checked_int.
  destruct (Z.leb_spec INT_MIN z), (Z.leb_spec z INT_MAX); simpl; split;
    intros; simplify_eq; try lia; try done; destruct_and?; lia || (subst; done).
Qed.

Lemma checked_ll_Some z y : checked_ll z = Some y <-> y = z /\ LLONG_MIN <= z <= LLONG_MAX.
Proof.
  unfold checked_ll.
  destruct (Z.leb_spec LLONG_MIN z), (Z.leb_spec z LLONG_MAX); simpl; split;
    intros; simplify_eq; try lia; try done; destruct_and?; lia || (subst; done).
Qed.

(** ** Arrays

    A C array of [n] elements is a list of length [n]; [mem_store] writes a
    run of elements at an index and is [None] when the run leaves the array,
    [mem_load] reads one. *)
Section Memory.
Context {A : Type}.
Implicit Types (m d : list A).

Definition mem_store m (i : Z) d : option (list A) :=
  if (0 <=? i) && (i + Z.of_nat (length d) <=? Z.of_nat (length m)) then
    Some (take (Z.to_nat i) m ++ d ++ drop (Z.to_nat i + length d) m)
  else None.

Definition mem_load m (i : Z) : option A :=
  if 0 <=? i then m !! Z.to_nat i else None.

(** [mem_slice m i n]: the [n] elements from index [i], as [memcpy] and
    [write] read them. *)
Definition mem_slice m (i n : Z) : option (list A) :=
  if (0 <=? i) && (0 <=? n) && (i + n <=? Z.of_nat (length m)) then
    Some (take (Z.to_nat n) (drop (Z.to_nat i) m))
  else None.

Lemma mem_store_length m i d m' :
  mem_store m i d = Some m' -> length m' = length m.
Proof.
  unfold mem_store. case_match eqn:E; [|done]. intros [= <-].
  apply andb_prop in E as [H1%Z.leb_le H2%Z.leb_le].
  rewrite !length_app, length_take, length_drop. lia.
Qed.

Lemma mem_store_is_Some m i d :
  0 <= i -> i + Z.of_nat (length d) <= Z.of_nat (length m) ->
  mem_store m i d =
    Some (take (Z.to_nat i) m ++ d ++ drop (Z.to_nat i + length d) m).
Proof.
  intros H1 H2. unfold mem_store.
  by rewrite (proj2 (Z.leb_le _ _) H1), (proj2 (Z.leb_le _ _) H2).
Qed.

Lemma mem_store_none m i d :
  i < 0 \/ Z.of_nat (length m) < i + Z.of_nat (length d) -> mem_store m i d = None.
Proof.
  intros H. unfold mem_store.
  destruct (Z.leb_spec 0 i), (Z.leb_spec (i + Z.of_nat (length d)) (Z.of_nat (length m)));
    simpl; done || lia.
Qed.

(** After a store at [length p], an array that starts with [p] starts with
    [p ++ d]. *)
Lemma mem_store_prefix p r d m' :
  mem_store (p ++ r) (Z.of_nat (length p)) d = Some m' ->
  m' = p ++ d ++ drop (length d) r.
Proof.
  unfold mem_store. case_match; [|done]. intros [= <-].
  rewrite Nat2Z.id, take_app_length, drop_app_add. done.
Qed.
End Memory.

(** Length goals over append, take, drop and updates. *)
Ltac llen :=
  repeat first
    [ progress rewrite ?length_app, ?length_take, ?length_drop, ?length_replicate,
        ?length_insert in *
    | progress cbn [length app] in * ]; try lia.

(** Decides a closed proposition by evaluating its [Decision] instance. *)
Ltac vm_decide := refine (bool_decide_unpack _ _); vm_compute; exact I.
