(* ===== verification/CLib.v ===== *)
(** * The C standard library functions the programs call

    Byte strings, [strchr], [strncmp], [atoi]/[atoll], the [sscanf] formats
    of the DUMB servers, and decimal output.  A byte is a [Z] in [0, 256);
    an array of [char] is a [list Z]; a C string is what precedes the first
    NUL of an array ([cstr]), undefined when there is none. *)

From S2P Require Import Prelude.
From Stdlib Require Ascii String.


Local Open Scope Z_scope.

(** Bytes of a string literal (without the terminator). *)
Definition str (s : string) : list Z :=
  (fun a => Z.of_N (Ascii.N_of_ascii a)) <$> String.list_ascii_of_string s.

Definition NL : Z := 10.

(** ** NUL-terminated strings *)
Fixpoint cstr (m : list Z) : option (list Z) :=
  match m with
  | [] => None
  | c :: m' => if c =? 0 then Some [] else (fun s => c :: s) <$> cstr m'
  end.

(** The part of a byte sequence before its first NUL, all of it when there is
    none. *)
Definition upto_nul (b : list Z) : list Z := default [] (cstr (b ++ [0])).

(** What [strncpy(dst, src, n)] stores at [dst]: [n] bytes, NULs after the end
    of the string; [None] when the source array has no terminator in reach. *)
Fixpoint strncpy (src : list Z) (n : nat) : option (list Z) :=
  match n with
  | O => Some []
  | S n' =>
      match src with
      | [] => None
      | c :: src' => if c =? 0 then Some (replicate n 0) else cons c <$> strncpy src' n'
      end
  end.

(** [strchr(s, c)] for [c] other than NUL, as an index. *)
Fixpoint strchr (s : list Z) (c : Z) : option nat :=
  match s with
  | [] => None
  | x :: s' => if x =? c then Some 0%nat else S <$> strchr s' c
  end.

(** [strncmp(a, b, n)]; running off the list is reading the terminator. *)
Fixpoint strncmp (a b : list Z) (n : nat) : Z :=
  match n with
  | O => 0
  | S n' =>
      let x := hd 0 a in let y := hd 0 b in
      if x =? y then (if x =? 0 then 0 else strncmp (tl a) (tl b) n') else x - y
  end.

(** [starts s p] is the test [strncmp(s, p, strlen(p)) == 0]. *)
Definition starts (s p : list Z) : bool := strncmp s p (length p) =? 0.

(** ** Numbers *)
Definition isspace (c : Z) : bool := ((9 <=? c) && (c <=? 13)) || (c =? 32).
Definition isdigit (c : Z) : bool := (48 <=? c) && (c <=? 57).

Fixpoint skip_spaces (s : list Z) : list Z :=
  match s with
  | c :: s' => if isspace c then skip_spaces s' else s
  | [] => []
  end.

Fixpoint digits_value (acc : Z) (s : list Z) : Z :=
  match s with
  | c :: s' => if isdigit c then digits_value (10 * acc + (c - 48)) s' else acc
  | [] => acc
  end.

Definition starts_digit (s : list Z) : bool :=
  match s with c :: _ => isdigit c | [] => false end.

(** The subject sequence of [strtoll(s, NULL, 10)]: optional sign, digits.
    [None] when no conversion can be performed. *)
Definition scan_number (s : list Z) : option Z :=
  let s := skip_spaces s in
  let '(sg, ds) :=
    match s with
    | c :: s' => if c =? 45 then (-1, s') else if c =? 43 then (1, s') else (1, s)
    | [] => (1, [])
    end in
  if starts_digit ds then Some (clamp_ll (sg * digits_value 0 ds)) else None.

(** [strtoll] yields 0 when there is no conversion; [atoll] is [strtoll],
    and [atoi] is [strtol] converted to [int]. *)
Definition atoll (s : list Z) : Z := default 0 (scan_number s).
Definition atoi (s : list Z) : Z := wrap_s 32 (atoll s).

(** [strtoul(s, NULL, 10)] as the [%u] directive of [scanf] uses it: the value
    is that of [strtoul], 64 bits wide with wrap-around for a minus sign and
    saturation, converted to [unsigned int]; the rest of the input follows. *)
Definition ULONG_MAX : Z := 2 ^ 64 - 1.

Fixpoint skip_digits (s : list Z) : list Z :=
  match s with
  | c :: s' => if isdigit c then skip_digits s' else s
  | [] => []
  end.

Definition scan_unsigned (s : list Z) : option (Z * list Z) :=
  let s := skip_spaces s in
  let '(neg, ds) :=
    match s with
    | c :: s' => if c =? 45 then (true, s') else if c =? 43 then (false, s') else (false, s)
    | [] => (false, [])
    end in
  if starts_digit ds then
    let v := digits_value 0 ds in
    let w := if ULONG_MAX <? v then ULONG_MAX
             else if neg : bool then wrap_u 64 (- v) else v in
    Some (wrap_u 32 w, skip_digits ds)
  else None.

(** The [%s] directive: the next run of non-blank characters. *)
Fixpoint span_word (s : list Z) : list Z :=
  match s with
  | c :: s' => if isspace c then [] else c :: span_word s'
  | [] => []
  end.
Definition scan_word (s : list Z) : option (list Z) :=
  match span_word (skip_spaces s) with [] => None | w => Some w end.

(** [sscanf(s, "<lit> %lld", &x)] where [lit] has no directive: the literal
    must match, the blank skips any white space, and [x] keeps its value when
    nothing is converted. *)
Fixpoint strip_prefix (p s : list Z) : option (list Z) :=
  match p, s with
  | [], _ => Some s
  | c :: p', x :: s' => if c =? x then strip_prefix p' s' else None
  | _ :: _, [] => None
  end.

Definition sscanf_lld (s lit : list Z) (x : Z) : Z :=
  default x (strip_prefix lit s ≫= scan_number).

(** ** Decimal output *)
Fixpoint dec_pos (fuel : nat) (n : Z) (acc : list Z) : list Z :=
  match fuel with
  | O => acc
  | S f =>
      let acc' := (48 + n mod 10) :: acc in
      if n / 10 =? 0 then acc' else dec_pos f (n / 10) acc'
  end.

(** [%d], [%ld], [%lld] and [%llu]: 20 digits are enough for 64 bits. *)
Definition dec (n : Z) : list Z :=
  if n <? 0 then 45 :: dec_pos 20 (- n) [] else dec_pos 20 n [].

(** [snprintf(dst, size, ...)] with output [out]: what lands in the buffer
    (with its terminator) and the returned length.  A zero [size] writes
    nothing. *)
Definition snprintf_bytes (size : Z) (out : list Z) : list Z :=
  if size <=? 0 then []
  else take (Z.to_nat (Z.min (size - 1) (Z.of_nat (length out)))) out ++ [0].

(** ** Lemmas *)

Lemma str_length s : length (str s) = String.length s.
Proof. unfold str. rewrite length_fmap. induction s; simpl; auto. Qed.

Lemma strncpy_eq src n :
  (n <= length src)%nat ->
  strncpy src n =
    Some (upto_nul (take n src) ++ replicate (n - length (upto_nul (take n src))) 0).
Proof.
  unfold upto_nul. revert src. induction n as [|n IH]; intros [|c src] Hl; simpl in *;
    try done; try lia.
  destruct (Z.eqb_spec c 0) as [->|]; [done|]. rewrite IH by lia.
  destruct (cstr (take n src ++ [0])) eqn:E; simpl; [done|].
  exfalso. clear -E. induction (take n src) as [|x l IHl]; simpl in *; [done|].
  destruct (x =? 0); [done|]. destruct (cstr (l ++ [0])); [done|]. by apply IHl.
Qed.

Lemma strchr_Some s c n :
  strchr s c = Some n -> exists a b, s = a ++ c :: b /\ length a = n /\ c ∉ a.
Proof.
  revert n. induction s as [|x s IH]; intros n H; [done|]. simpl in H.
  destruct (Z.eqb_spec x c) as [->|Hne]; simplify_eq/=.
  - exists [], s. repeat split. set_solver.
  - destruct (strchr s c) as [k|]; simplify_eq/=.
    destruct (IH k eq_refl) as (a & b & -> & Hl & Hn).
    exists (x :: a), b. repeat split; simpl; [lia|set_solver].
Qed.

Lemma strchr_None s c : strchr s c = None <-> c ∉ s.
Proof.
  induction s as [|x s IH]; simpl; [set_solver|].
  destruct (Z.eqb_spec x c) as [->|Hne]; [set_solver|].
  destruct (strchr s c) eqn:E; simpl.
  - split; [done|]. intros Hn. exfalso.
    assert (c ∉ s) as Hc by set_solver. by apply IH in Hc.
  - split; [intros _ | done].
    assert (c ∉ s) by by apply IH. set_solver.
Qed.

Lemma strchr_app a b c : c ∉ a -> strchr (a ++ c :: b) c = Some (length a).
Proof.
  induction a as [|x a IH]; simpl; intros Hn.
  - by rewrite Z.eqb_refl.
  - destruct (Z.eqb_spec x c) as [->|]; [set_solver|]. rewrite IH; [done|set_solver].
Qed.

Lemma cstr_app s r : 0 ∉ s -> cstr (s ++ 0 :: r) = Some s.
Proof.
  induction s as [|c s IH]; simpl; intros Hn; [done|].
  destruct (Z.eqb_spec c 0) as [->|]; [set_solver|]. rewrite IH; [done|set_solver].
Qed.

Lemma cstr_Some m s :
  cstr m = Some s -> exists r, m = s ++ 0 :: r /\ 0 ∉ s.
Proof.
  revert s. induction m as [|c m IH]; simpl; intros s H; [done|].
  destruct (Z.eqb_spec c 0) as [->|]; simplify_eq/=; [exists m; set_solver|].
  destruct (cstr m) as [s'|]; simplify_eq/=.
  destruct (IH s' eq_refl) as (r & -> & Hn). exists r. set_solver.
Qed.

Lemma cstr_app_nz l m : 0 ∉ l -> cstr (l ++ m) = app l <$> cstr m.
Proof.
  induction l as [|c l IH]; simpl; intros Hn; [by destruct (cstr m)|].
  destruct (Z.eqb_spec c 0) as [->|]; [set_solver|].
  rewrite IH by set_solver. by destruct (cstr m).
Qed.

(** A NUL inside the array is enough for [cstr] to be defined. *)
Lemma cstr_terminated a r : exists s, cstr (a ++ 0 :: r) = Some s /\ (length s <= length a)%nat.
Proof.
  induction a as [|c a [s [H Hl]]]; simpl; [eexists; split; [done|simpl; lia]|].
  destruct (c =? 0); [eexists; split; [done|simpl; lia]|].
  rewrite H. eexists; split; [done|]. simpl. lia.
Qed.

Lemma upto_nul_no_nul s : 0 ∉ s -> upto_nul s = s.
Proof. intros Hs. unfold upto_nul. by rewrite cstr_app. Qed.

Lemma upto_nul_nul_free b : 0 ∉ upto_nul b.
Proof.
  unfold upto_nul. destruct (cstr (b ++ [0])) as [s|] eqn:E; [|set_solver].
  by apply cstr_Some in E as (? & _ & ?).
Qed.

Lemma upto_nul_length b : (length (upto_nul b) <= length b)%nat.
Proof. unfold upto_nul. by destruct (cstr_terminated b []) as (s & -> & ?). Qed.

Lemma upto_nul_cstr b r : cstr (b ++ 0 :: r) = Some (upto_nul b).
Proof.
  assert (cstr (b ++ 0 :: r) = cstr (b ++ [0])) as ->.
  { induction b as [|c b IH]; simpl; [done|]. destruct (c =? 0); [done|]. by rewrite IH. }
  unfold upto_nul. by destruct (cstr_terminated b []) as (s & -> & _).
Qed.

Lemma digits_value_app acc s t :
  Forall (fun c => isdigit c = true) s ->
  digits_value acc (s ++ t) = digits_value (digits_value acc s) t.
Proof.
  intros H. revert acc. induction H as [|c s Hc Hs IH]; intros acc; simpl; [done|].
  by rewrite Hc.
Qed.

Lemma digit_isdigit d : 0 <= d < 10 -> isdigit (48 + d) = true.
Proof. intros. unfold isdigit. apply andb_true_intro. split; apply Z.leb_le; lia. Qed.

(** [dec_pos] produces the digits of its argument, in front of [acc]. *)
Lemma dec_pos_spec f n acc :
  0 <= n < 10 ^ Z.of_nat f ->
  exists ds, dec_pos f n acc = ds ++ acc /\ (f <> 0%nat -> ds <> []) /\
    (length ds <= f)%nat /\
    Forall (fun c => isdigit c = true) ds /\ digits_value 0 ds = n.
Proof.
  revert n acc. induction f as [|f IH]; intros n acc Hn.
  - exists []. simpl in *. repeat split; done || lia || auto.
  - cbn [dec_pos].
    assert (0 <= n mod 10 < 10) as Hm by (apply Z.mod_pos_bound; lia).
    assert (0 <= n / 10) as Hd by (apply Z.div_pos; lia).
    destruct (Z.eqb_spec (n / 10) 0) as [E|E].
    + exists [48 + n mod 10]. cbn [digits_value]. rewrite digit_isdigit by lia.
      pose proof (Z.div_mod n 10).
      repeat split; auto using digit_isdigit; simpl; lia.
    + destruct (IH (n / 10) ((48 + n mod 10) :: acc)) as (ds & -> & H1 & H2 & H3 & H4).
      { split; [lia|]. apply Z.div_lt_upper_bound; [lia|].
        rewrite Nat2Z.inj_succ, Z.pow_succ_r in Hn by lia. lia. }
      exists (ds ++ [48 + n mod 10]). repeat split.
      * by rewrite <- app_assoc.
      * intros _. destruct ds; done.
      * rewrite length_app. simpl. lia.
      * apply Forall_app. split; [done|]. repeat constructor. by apply digit_isdigit.
      * rewrite digits_value_app by done. cbn [digits_value].
        rewrite digit_isdigit by lia. rewrite H4. pose proof (Z.div_mod n 10). lia.
Qed.

Lemma dec_nonneg_spec n :
  0 <= n < 2 ^ 64 ->
  exists ds, dec n = ds /\ ds <> [] /\ (length ds <= 20)%nat /\
    Forall (fun c => isdigit c = true) ds /\ digits_value 0 ds = n.
Proof.
  intros Hn. unfold dec. destruct (Z.ltb_spec n 0); [lia|].
  destruct (dec_pos_spec 20 n []) as (ds & -> & H1 & H2 & H3 & H4).
  { split; [lia|]. change (10 ^ Z.of_nat 20) with 100000000000000000000. lia. }
  exists ds. rewrite app_nil_r. auto 10.
Qed.

Lemma dec_length n : - 2 ^ 64 <= n < 2 ^ 64 -> (length (dec n) <= 21)%nat.
Proof.
  intros Hn. unfold dec.
  assert (10 ^ Z.of_nat 20 = 100000000000000000000) as E20 by reflexivity.
  destruct (Z.ltb_spec n 0).
  - destruct (dec_pos_spec 20 (- n) []) as (ds & -> & _ & H2 & _); [lia|].
    rewrite app_nil_r. simpl. lia.
  - destruct (dec_pos_spec 20 n []) as (ds & -> & _ & H2 & _); [lia|].
    rewrite app_nil_r. lia.
Qed.

Lemma isdigit_not_space c : isdigit c = true -> isspace c = false.
Proof.
  unfold isdigit, isspace. intros [H1%Z.leb_le H2%Z.leb_le]%andb_prop.
  apply orb_false_intro; [|apply Z.eqb_neq; lia].
  apply andb_false_intro2, Z.leb_gt. lia.
Qed.

Lemma clamp_ll_id n : LLONG_MIN <= n <= LLONG_MAX -> clamp_ll n = n.
Proof. unfold clamp_ll. lia. Qed.

Lemma isdigit_range c : isdigit c = true -> 48 <= c <= 57.
Proof. unfold isdigit. intros [?%Z.leb_le ?%Z.leb_le]%andb_prop. lia. Qed.

Lemma starts_digit_all ds :
  ds <> [] -> Forall (fun c => isdigit c = true) ds -> starts_digit ds = true.
Proof. by destruct 2. Qed.

Lemma scan_number_digits ds :
  ds <> [] -> Forall (fun c => isdigit c = true) ds ->
  scan_number ds = Some (clamp_ll (digits_value 0 ds)).
Proof.
  intros Hne Hd. unfold scan_number.
  destruct Hd as [|d ds Hd Hds]; [done|]. cbn [skip_spaces].
  rewrite (isdigit_not_space d Hd). pose proof (isdigit_range d Hd).
  destruct (Z.eqb_spec d 45); [lia|]. destruct (Z.eqb_spec d 43); [lia|].
  rewrite starts_digit_all, Z.mul_1_l by (done || by constructor). done.
Qed.

Lemma scan_number_minus ds :
  ds <> [] -> Forall (fun c => isdigit c = true) ds ->
  scan_number (45 :: ds) = Some (clamp_ll (- digits_value 0 ds)).
Proof.
  intros Hne Hd. unfold scan_number. cbn [skip_spaces].
  change (isspace 45) with false. cbn [Z.eqb Pos.eqb].
  rewrite starts_digit_all by done. done.
Qed.

(** Parsing what was printed: [atoll] inverts [%lld]. *)
Lemma scan_number_dec n : LLONG_MIN <= n <= LLONG_MAX -> scan_number (dec n) = Some n.
Proof.
  intros Hn. unfold dec.
  assert (10 ^ Z.of_nat 20 = 100000000000000000000) as E20 by reflexivity. limits.
  destruct (Z.ltb_spec n 0).
  - destruct (dec_pos_spec 20 (- n) []) as (ds & -> & H1 & _ & H3 & H4); [lia|].
    rewrite app_nil_r, scan_number_minus, H4, clamp_ll_id by (lia || auto).
    f_equal. lia.
  - destruct (dec_pos_spec 20 n []) as (ds & -> & H1 & _ & H3 & H4); [lia|].
    rewrite app_nil_r, scan_number_digits, H4, clamp_ll_id by (lia || auto).
    done.
Qed.

Lemma atoll_dec n : LLONG_MIN <= n <= LLONG_MAX -> atoll (dec n) = n.
Proof. intros Hn. unfold atoll. by rewrite scan_number_dec. Qed.

Lemma dec_no_nul n : - 2 ^ 64 <= n < 2 ^ 64 -> 0 ∉ dec n.
Proof.
  intros Hn.
  assert (forall ds : list Z, Forall (fun c => isdigit c = true) ds -> 0 ∉ ds) as Hds.
  { intros ds Hf Hin. rewrite Forall_forall in Hf. by apply Hf in Hin. }
  unfold dec. assert (10 ^ Z.of_nat 20 = 100000000000000000000) as E by reflexivity.
  destruct (Z.ltb_spec n 0).
  - destruct (dec_pos_spec 20 (- n) []) as (ds & -> & _ & _ & Hd & _); [lia|].
    rewrite app_nil_r. intros [?|Hin]%elem_of_cons; [done|]. by eapply Hds.
  - destruct (dec_pos_spec 20 n []) as (ds & -> & _ & _ & Hd & _); [lia|].
    rewrite app_nil_r. by apply Hds.
Qed.

Lemma strip_prefix_app p s : strip_prefix p (p ++ s) = Some s.
Proof. induction p as [|c p IH]; [done|]. simpl. by rewrite Z.eqb_refl. Qed.

(** *** Lines *)

(** The complete lines of a byte stream, and the unfinished last one. *)
Fixpoint split_nl (s : list Z) : list (list Z) * list Z :=
  match s with
  | [] => ([], [])
  | c :: s' =>
      let '(ls, r) := split_nl s' in
      if c =? NL then ([] :: ls, r)
      else match ls with [] => ([], c :: r) | l :: ls' => ((c :: l) :: ls', r) end
  end.

Lemma split_nl_nil s : NL ∉ s -> split_nl s = ([], s).
Proof.
  induction s as [|c s IH]; intros Hn; [done|]. simpl. rewrite IH by set_solver.
  destruct (Z.eqb_spec c NL) as [->|]; [set_solver|done].
Qed.

Lemma split_nl_line l b :
  NL ∉ l -> split_nl (l ++ NL :: b) = (l :: (split_nl b).1, (split_nl b).2).
Proof.
  induction l as [|c l IH]; intros Hn; simpl.
  - by destruct (split_nl b).
  - rewrite IH by set_solver. destruct (Z.eqb_spec c NL) as [->|]; [set_solver|done].
Qed.

Lemma split_nl_cases s :
  NL ∉ s \/ exists l b, s = l ++ NL :: b /\ NL ∉ l.
Proof.
  destruct (strchr s NL) as [n|] eqn:E.
  - right. apply strchr_Some in E as (l & b & -> & _ & Hn). eauto.
  - left. by apply strchr_None.
Qed.

(** Induction that peels one line at a time. *)
Lemma line_ind (P : list Z -> Prop) :
  (forall s, NL ∉ s -> P s) -> (forall l b, NL ∉ l -> P b -> P (l ++ NL :: b)) -> forall s, P s.
Proof.
  intros H1 H2 s. remember (length s) as n eqn:Hn. revert s Hn.
  induction n as [n IH] using (well_founded_induction lt_wf). intros s ->.
  destruct (split_nl_cases s) as [?|(l & b & -> & Hl)]; [auto|].
  apply H2; [done|]. eapply IH; [|done]. rewrite length_app. simpl. lia.
Qed.

Lemma split_nl_app x y :
  split_nl (x ++ y) =
    ((split_nl x).1 ++ (split_nl ((split_nl x).2 ++ y)).1, (split_nl ((split_nl x).2 ++ y)).2).
Proof.
  induction x as [x Hx|l b Hl IH] using line_ind.
  - rewrite (split_nl_nil x Hx). simpl. by destruct (split_nl (x ++ y)).
  - rewrite <- app_assoc. simpl. rewrite !split_nl_line by done. rewrite IH. done.
Qed.

Lemma split_nl_rest s : NL ∉ (split_nl s).2.
Proof.
  induction s as [s Hs|l b Hl IH] using line_ind.
  - by rewrite split_nl_nil.
  - by rewrite split_nl_line.
Qed.

Lemma split_nl_subset s :
  (split_nl s).2 ⊆ s /\ Forall (fun l => l ⊆ s) (split_nl s).1.
Proof.
  induction s as [s Hs|l b Hl [IH1 IH2]] using line_ind.
  - by rewrite split_nl_nil.
  - rewrite split_nl_line by done. simpl. split; [set_solver|].
    constructor; [set_solver|]. eapply Forall_impl; [done|]. set_solver.
Qed.

Lemma split_nl_length s :
  (length (split_nl s).1 + length (split_nl s).2 <= length s)%nat.
Proof.
  induction s as [s Hs|l b Hl IH] using line_ind.
  - rewrite split_nl_nil by done. simpl. lia.
  - rewrite split_nl_line by done. rewrite length_app. simpl in *. lia.
Qed.

(** If every line of [r ++ y] is short, so is the unfinished line [r]. *)
Lemma split_nl_short k r y :
  NL ∉ r ->
  Forall (fun l => (length l <= k)%nat) (split_nl (r ++ y)).1 ->
  (length (split_nl (r ++ y)).2 <= k)%nat -> (length r <= k)%nat.
Proof.
  intros Hr. destruct (split_nl_cases y) as [Hy|(l & b & -> & Hl)].
  - rewrite split_nl_nil by set_solver. simpl. rewrite length_app. lia.
  - rewrite app_assoc, split_nl_line by set_solver. simpl.
    intros Hf _. inversion Hf as [|? ? H _]. rewrite length_app in H. lia.
Qed.

Lemma nul_prefix a :
  exists s a2, a = s ++ a2 /\ 0 ∉ s /\ (a2 = [] \/ exists a3, a2 = 0 :: a3).
Proof.
  induction a as [|c a (s & a2 & -> & Hs & Ha)].
  - exists [], []. set_solver.
  - destruct (decide (c = 0)) as [->|].
    + exists [], (0 :: s ++ a2). set_solver.
    + exists (c :: s), a2. set_solver.
Qed.

Example str_pong : str "PONG" = [80; 79; 78; 71].
Proof. reflexivity. Qed.
Example atoll_ex : (atoll (str " -12x"), atoi (str "4294967297"), atoll (str "zz")) = (-12, 1, 0).
Proof. reflexivity. Qed.
Example dec_ex : dec (-907) = str "-907".
Proof. reflexivity. Qed.
