(* ===== verification/Os.v ===== *)
(** * Programs that call the operating system

    A single-threaded C function is a tree of system calls ([prog]): each
    call is a node whose continuation takes the kernel's reply.  Running a
    tree against a list of replies ([run]) gives its outcome and its trace,
    and is executable.  [wp] is a weakest-precondition calculus over a small
    kernel state (open descriptors, epoll interest), and [wp_sound] turns a
    [wp] proof into a statement about every run. *)

From S2P Require Import Prelude.

Local Open Scope Z_scope.

(** ** Calls, replies, observations *)

Inductive epoll_op := EPOLL_CTL_ADD | EPOLL_CTL_MOD | EPOLL_CTL_DEL.

Definition EPOLLIN : Z := 1.
Definition EPOLLOUT : Z := 4.
Definition EPOLLERR : Z := 8.
Definition EPOLLHUP : Z := 16.

(** Linux errno values used by the sources. *)
Definition EINTR : Z := 4.
Definition EAGAIN : Z := 11.
Definition EWOULDBLOCK : Z := 11.
Definition ENOENT : Z := 2.
Definition EPIPE : Z := 32.

Definition EXIT_SUCCESS : Z := 0.
Definition EXIT_FAILURE : Z := 1.

Inductive call :=
| Socket
| Setsockopt (fd : Z)
| Bind (fd port : Z)
| Listen (fd backlog : Z)
| Accept (fd : Z)
| Connect (fd port : Z)
| Getpeername (fd : Z)
| Recv (fd len : Z)
| RecvAll (fd len : Z)               (* recv with MSG_WAITALL *)
| Read (fd len : Z)
| Send (fd : Z) (data : list Z)
| Write (fd : Z) (data : list Z)
| Sendto (fd : Z) (data : list Z) (addr : Z)
| Recvfrom (fd len : Z)
| Close (fd : Z)
| FcntlGetfl (fd : Z)
| FcntlSetfl (fd flags : Z)
| EpollCreate
| EpollCtl (epfd : Z) (op : epoll_op) (fd events : Z)
| EpollWait (epfd maxevents : Z)
| Select (nfds : Z) (readfds : gset Z)
| Open (path : list Z)
| Usleep (us : Z)
| Sleep (s : Z)
| AtomicLoad (obj : string) (idx : Z)
| ThreadCreate (entry : string) (arg : Z)   (* hands the descriptor arg over *)
| Spawn (entry : string) (arg : Z)          (* a thread that shares everything *)
| Malloc (size : Z)
| Fgets (size : Z)                    (* fgets on stdin; rv = 0 is NULL *)
| Libc (name : string) (args : list Z).  (* any other library call *)

(** A reply: return value, errno, bytes stored in the caller's buffer, and
    for [epoll_wait] and [select] the ready entries with their event masks. *)
Record reply := Reply { rv : Z; rerr : Z; rdata : list Z; revs : list (Z * Z) }.

(** Plain integer reply. *)
Definition rint (z : Z) : reply := Reply z 0 [] [].

(** Effects whose result the code never inspects and that cannot fail. *)
Inductive parg := PZ (z : Z) | PS (s : list Z).
Inductive obs :=
| Printf (fmt : string) (args : list parg)
| Ignored (call : string) (args : list Z)   (* library call, result unused *)
| FetchAdd (obj : string) (idx delta : Z).

Inductive event :=
| ECall (c : call) (r : reply)
| EPend (c : call)                   (* a call the process is blocked in *)
| ESay (o : obs).

#[export] Instance epoll_op_eq_dec : EqDecision epoll_op.
Proof. solve_decision. Defined.
#[export] Instance call_eq_dec : EqDecision call.
Proof. solve_decision. Defined.
#[export] Instance reply_eq_dec : EqDecision reply.
Proof. solve_decision. Defined.

(** ** Programs *)

Inductive prog (A : Type) : Type :=
| Ret (a : A)
| Exit (code : Z)
| Undef (why : string)               (* undefined behaviour reached *)
| Spin                               (* loop bound of the model exhausted *)
| Say (o : obs) (p : prog A)
| Sys (c : call) (k : reply -> prog A).
Arguments Ret {A} a.
Arguments Exit {A} code.
Arguments Undef {A} why.
Arguments Spin {A}.
Arguments Say {A} o p.
Arguments Sys {A} c k.

Fixpoint pbind {A B} (p : prog A) (f : A -> prog B) : prog B :=
  match p with
  | Ret a => f a
  | Exit n => Exit n
  | Undef w => Undef w
  | Spin => Spin
  | Say o p' => Say o (pbind p' f)
  | Sys c k => Sys c (fun r => pbind (k r) f)
  end.

Definition sys (c : call) : prog reply := Sys c Ret.
Definition printf (fmt : string) (args : list parg) : prog unit :=
  Say (Printf fmt args) (Ret tt).
Definition ignored (name : string) (args : list Z) : prog unit :=
  Say (Ignored name args) (Ret tt).
Definition perror (s : string) : prog unit := printf s [].
Definition fetch_add (obj : string) (delta : Z) : prog unit :=
  Say (FetchAdd obj 0 delta) (Ret tt).

(** Undefined behaviour when a partial operation has no result. *)
Definition defined {A} (why : string) (o : option A) : prog A :=
  match o with Some a => Ret a | None => Undef why end.

Declare Scope prog_scope.
Delimit Scope prog_scope with prog.
Notation "'let!' x ':=' p 'in' q" := (pbind p (fun x => q))
  (at level 200, x name, p at level 100, q at level 200, right associativity) : prog_scope.
Notation "'let!' ' x ':=' p 'in' q" := (pbind p (fun x => q))
  (at level 200, x strict pattern, p at level 100, q at level 200, right associativity) : prog_scope.
Notation "p ;;; q" := (pbind p (fun _ => q))
  (at level 199, q at level 200, right associativity) : prog_scope.
#[global] Open Scope prog_scope.

(** [loop n body s]: at most [n] iterations of a C loop with loop state [s];
    [inl] continues, [inr] leaves the loop. *)
Fixpoint loop {S A} (n : nat) (body : S -> prog (S + A)) (s : S) : prog A :=
  match n with
  | O => Spin
  | Datatypes.S n' =>
      let! x := body s in
      match x with inl s' => loop n' body s' | inr a => Ret a end
  end.

Lemma loop_S {S A} n (body : S -> prog (S + A)) s :
  loop (Datatypes.S n) body s =
    let! x := body s in
    match x with inl s' => loop n body s' | inr a => Ret a end.
Proof. done. Qed.
#[global] Arguments loop : simpl never.

(** The first [n] turns of a loop: the state it is in after them, or its
    result if it was left before. *)
Fixpoint turns {S A} (n : nat) (body : S -> prog (S + A)) (s : S) : prog (S + A) :=
  match n with
  | O => Ret (inl s)
  | Datatypes.S n' =>
      let! x := body s in
      match x with inl s' => turns n' body s' | inr a => Ret (inr a) end
  end.

(** A [for] loop over a list, carrying a state. *)
Fixpoint for_each {X S} (f : X -> S -> prog S) (l : list X) (s : S) : prog S :=
  match l with
  | [] => Ret s
  | x :: l' => let! s' := f x s in for_each f l' s'
  end.

(** ** Running a program against the kernel's replies *)

Inductive outcome (A : Type) :=
| Done (a : A) (rest : list reply)
| Exited (code : Z)
| Undefined (why : string)
| Spun
| Blocked.
Arguments Done {A} a rest.
Arguments Exited {A} code.
Arguments Undefined {A} why.
Arguments Spun {A}.
Arguments Blocked {A}.

Fixpoint run {A} (p : prog A) (env : list reply) : outcome A * list event :=
  match p with
  | Ret a => (Done a env, [])
  | Exit n => (Exited n, [])
  | Undef w => (Undefined w, [])
  | Spin => (Spun, [])
  | Say o p' => let '(out, t) := run p' env in (out, ESay o :: t)
  | Sys c k =>
      match env with
      | [] => (Blocked, [EPend c])
      | r :: env' => let '(out, t) := run (k r) env' in (out, ECall c r :: t)
      end
  end.

Lemma run_bind {A B} (p : prog A) (f : A -> prog B) env :
  run (pbind p f) env =
    match run p env with
    | (Done a env', t) => let '(o, t') := run (f a) env' in (o, t ++ t')
    | (Exited n, t) => (Exited n, t)
    | (Undefined w, t) => (Undefined w, t)
    | (Spun, t) => (Spun, t)
    | (Blocked, t) => (Blocked, t)
    end.
Proof.
  revert env. induction p as [a|n|w| |o p IH|c k IH]; intros env; simpl; try done.
  - by destruct (run (f a) env).
  - rewrite IH. destruct (run p env) as [[] t]; try done. by destruct (run (f a) rest).
  - destruct env as [|r env]; [done|]. rewrite IH.
    destruct (run (k r) env) as [[] t]; try done. by destruct (run (f a) rest).
Qed.

(** A finished run consumed exactly the replies its trace shows. *)
Definition replies (t : list event) : list reply :=
  omap (fun e => match e with ECall _ r => Some r | _ => None end) t.

Lemma run_replies {A} (p : prog A) env a rest t :
  run p env = (Done a rest, t) -> env = replies t ++ rest.
Proof.
  revert env t. induction p as [b|n|w| |o p IH|c k IH]; intros env t; simpl; try done.
  - by intros [= <- <- <-].
  - destruct (run p env) as [o' t'] eqn:E. intros [= -> <-]. simpl. by apply IH.
  - destruct env as [|r env]; [done|]. destruct (run (k r) env) as [o' t'] eqn:E.
    intros [= -> <-]. simpl. f_equal. by eapply IH.
Qed.

(** ** Equivalence of programs

    Continuations are functions, so Leibniz equality of programs is too fine;
    [peq] compares them reply by reply. *)
Fixpoint peq {A} (p q : prog A) : Prop :=
  match p, q with
  | Ret a, Ret b => a = b
  | Exit n, Exit m => n = m
  | Undef w, Undef v => w = v
  | Spin, Spin => True
  | Say o p', Say o' q' => o = o' /\ peq p' q'
  | Sys c k, Sys c' k' => c = c' /\ forall r, peq (k r) (k' r)
  | _, _ => False
  end.
Infix "≃" := peq (at level 70, no associativity) : prog_scope.

#[export] Instance peq_equiv {A} : Equivalence (@peq A).
Proof.
  split.
  - intros p. induction p; simpl; auto.
  - intros p. induction p; intros [] Hq; simpl in *; intuition.
  - intros p. induction p as [| | | |o p IH|c k IH]; intros [] [] Hq1 Hq2; simpl in *;
      intuition (try congruence); eauto.
Qed.

#[export] Instance pbind_proper {A B} :
  Proper (peq ==> pointwise_relation A peq ==> peq) (@pbind A B).
Proof.
  intros p q Hpq f g Hfg. revert q Hpq.
  induction p as [a|n|w| |o p IH|c k IH]; intros [] H; simpl in *; try done.
  - subst. apply Hfg.
  - destruct H. auto.
  - destruct H. auto.
Qed.

Lemma peq_bind_assoc {A B C} (p : prog A) (f : A -> prog B) (g : B -> prog C) :
  pbind (pbind p f) g ≃ pbind p (fun a => pbind (f a) g).
Proof. induction p; simpl; auto. reflexivity. Qed.

Lemma peq_bind_ret {A} (p : prog A) : pbind p Ret ≃ p.
Proof. induction p; simpl; auto. Qed.

(** A loop is its turns, and the bound of the model after them. *)
Lemma loop_turns {S A} n (body : S -> prog (S + A)) s :
  loop n body s ≃
    (let! x := turns n body s in match x with inl _ => Spin | inr a => Ret a end).
Proof.
  revert s. induction n as [|n IH]; intros s; [done|]. rewrite loop_S. cbn [turns].
  rewrite peq_bind_assoc. apply pbind_proper; [done|]. intros [s'|a]; [apply IH|done].
Qed.

#[export] Instance run_proper {A} : Proper (peq ==> eq ==> eq) (@run A).
Proof.
  intros p q Hpq env ? <-. revert q env Hpq.
  induction p as [a|n|w| |o p IH|c k IH]; intros [] env H; simpl in *; try done; subst; auto.
  - destruct H as [-> H]. by rewrite (IH _ env H).
  - destruct H as [-> H]. destruct env as [|r env]; [done|]. by rewrite (IH r _ env (H r)).
Qed.

(** ** What a trace sends and receives on a descriptor *)
Fixpoint sent (fd : Z) (t : list event) : list Z :=
  match t with
  | [] => []
  | ECall (Send fd' d) r :: t' | ECall (Write fd' d) r :: t' =>
      (if fd =? fd' then take (Z.to_nat (rv r)) d else []) ++ sent fd t'
  | _ :: t' => sent fd t'
  end.

Fixpoint received (fd : Z) (t : list event) : list Z :=
  match t with
  | [] => []
  | ECall (Recv fd' _) r :: t' | ECall (Read fd' _) r :: t' | ECall (RecvAll fd' _) r :: t' =>
      (if fd =? fd' then take (Z.to_nat (rv r)) (rdata r) else []) ++ received fd t'
  | _ :: t' => received fd t'
  end.

Lemma sent_app fd t t' : sent fd (t ++ t') = sent fd t ++ sent fd t'.
Proof.
  induction t as [|e t IH]; [done|].
  destruct e as [[]| |]; simpl; rewrite ?IH, ?app_assoc; done.
Qed.

Lemma received_app fd t t' : received fd (t ++ t') = received fd t ++ received fd t'.
Proof.
  induction t as [|e t IH]; [done|].
  destruct e as [[]| |]; simpl; rewrite ?IH, ?app_assoc; done.
Qed.

(** ** Inversion of finished runs *)
Lemma run_bind_done {A B} (p : prog A) (f : A -> prog B) env b rest t :
  run (pbind p f) env = (Done b rest, t) ->
  exists a rest' t1 t2, run p env = (Done a rest', t1) /\
    run (f a) rest' = (Done b rest, t2) /\ t = t1 ++ t2.
Proof.
  rewrite run_bind. destruct (run p env) as [[] t1]; try done.
  destruct (run (f a) rest0) as [o t2] eqn:E. intros [= -> <-]. eauto 10.
Qed.

Lemma run_sys_done c env r rest t :
  run (sys c) env = (Done r rest, t) -> env = r :: rest /\ t = [ECall c r].
Proof. destruct env; simpl; [done|]. by intros [= -> -> <-]. Qed.

Lemma run_say_done {A B} o (p : prog A) (f : A -> prog B) env b rest t :
  run (pbind (Say o p) f) env = (Done b rest, t) ->
  exists t', run (pbind p f) env = (Done b rest, t') /\ t = ESay o :: t'.
Proof.
  simpl. destruct (run (pbind p f) env) as [o' t']. intros [= -> <-]. eauto.
Qed.

(** A loop whose every turn consumes a reply cannot exhaust a bound larger
    than the number of replies. *)
Lemma loop_progress {S A} (P : event -> Prop) (I : S -> Prop) (L : nat)
    (body : S -> prog (S + A)) :
  (forall s env o t, I s -> (length env <= L)%nat -> run (body s) env = (o, t) -> Forall P t ->
     o <> Spun /\ forall s' rest, o = Done (inl s') rest -> I s' /\ (length rest < length env)%nat) ->
  forall n s env o t, I s -> (length env < n)%nat -> (length env <= L)%nat ->
    run (loop n body s) env = (o, t) -> Forall P t -> o <> Spun.
Proof.
  intros Hb n. induction n as [|n IH]; intros s env o t Hs Hn HL Hr HP; [lia|].
  rewrite loop_S, run_bind in Hr.
  destruct (run (body s) env) as [o1 t1] eqn:E.
  assert (Forall P t1) as HP1.
  { destruct o1 as [[s'|a] rest| | | |]; simplify_eq/=; try done.
    - destruct (run (loop n body s') rest) as [o2 t2]. simplify_eq/=.
      by apply Forall_app in HP as [? _].
    - rewrite app_nil_r in HP. done. }
  destruct (Hb s env o1 t1 Hs HL E HP1) as [Hns Hstep].
  destruct o1 as [[s'|a] rest| | | |]; simplify_eq/=; try done.
  destruct (Hstep s' rest eq_refl) as [Hs' Hlt].
  destruct (run (loop n body s') rest) as [o2 t2] eqn:E2. simplify_eq/=.
  apply Forall_app in HP as [_ HP2].
  eapply (IH s' rest); eauto; lia.
Qed.

(** A loop whose turns decrease a measure needs no more turns than it. *)
Lemma loop_measure {S A} (I : S -> Prop) (m : S -> nat) (body : S -> prog (S + A)) :
  (forall s env o t, I s -> run (body s) env = (o, t) ->
     o <> Spun /\ forall s' rest, o = Done (inl s') rest -> I s' /\ (m s' < m s)%nat) ->
  forall n s env o t, I s -> (m s < n)%nat -> run (loop n body s) env = (o, t) -> o <> Spun.
Proof.
  intros Hb n. induction n as [|n IH]; intros s env o t Hs Hn Hr; [lia|].
  rewrite loop_S, run_bind in Hr.
  destruct (run (body s) env) as [o1 t1] eqn:E.
  destruct (Hb s env o1 t1 Hs E) as [Hns Hstep].
  destruct o1 as [[s'|a] rest| | | |]; simplify_eq/=; try done.
  destruct (Hstep s' rest eq_refl) as [Hs' Hlt].
  destruct (run (loop n body s') rest) as [o2 t2] eqn:E2. simplify_eq/=.
  eapply (IH s' rest); eauto; lia.
Qed.

(** Replies are consumed in order: a finished run leaves no more than it got. *)
Lemma run_done_length {A} (p : prog A) env a rest t :
  run p env = (Done a rest, t) -> (length rest <= length env)%nat.
Proof.
  intros H%run_replies. subst. rewrite length_app. lia.
Qed.

Lemma run_sys_lt {A} c (k : reply -> prog A) env a rest t :
  run (Sys c k) env = (Done a rest, t) -> (length rest < length env)%nat.
Proof.
  destruct env as [|r env]; simpl; [done|].
  destruct (run (k r) env) as [o t'] eqn:E. intros [= -> _].
  apply run_done_length in E. simpl. lia.
Qed.

Lemma run_bind_not_spun {A B} (P : event -> Prop) (p : prog A) (f : A -> prog B) env o t :
  run (pbind p f) env = (o, t) -> Forall P t ->
  (forall o1 t1, run p env = (o1, t1) -> Forall P t1 -> o1 <> Spun) ->
  (forall a rest t1 o2 t2, run p env = (Done a rest, t1) -> run (f a) rest = (o2, t2) ->
     Forall P t2 -> o2 <> Spun) ->
  o <> Spun.
Proof.
  rewrite run_bind. destruct (run p env) as [o1 t1] eqn:E1. intros H Hr H1 H2.
  destruct o1 as [a rest| | | |]; simplify_eq; try done; [|exfalso; by eapply H1].
  destruct (run (f a) rest) as [o2 t2] eqn:E2. simplify_eq.
  apply Forall_app in Hr as [_ Hr]. eauto.
Qed.

(** Straight-line programs: no [Spin] node anywhere. *)
Fixpoint spinless {A} (p : prog A) : Prop :=
  match p with
  | Spin => False
  | Say _ p' => spinless p'
  | Sys _ k => forall r, spinless (k r)
  | _ => True
  end.

Lemma spinless_run {A} (p : prog A) env o t :
  spinless p -> run p env = (o, t) -> o <> Spun.
Proof.
  revert env o t. induction p as [a|n|w| |ob p IH|c k IH]; intros env o t; simpl; try done.
  - by intros _ [= <- <-].
  - by intros _ [= <- <-].
  - by intros _ [= <- <-].
  - intros Hp. destruct (run p env) as [o' t'] eqn:E. intros [= <- <-]. eauto.
  - intros Hp. destruct env as [|r env]; [by intros [= <- <-]|].
    destruct (run (k r) env) as [o' t'] eqn:E. intros [= <- <-]. eauto.
Qed.

Lemma spinless_bind {A B} (p : prog A) (f : A -> prog B) :
  spinless p -> (forall a, spinless (f a)) -> spinless (pbind p f).
Proof. induction p; simpl; naive_solver. Qed.

Lemma spinless_defined {A} why (o : option A) : spinless (defined why o).
Proof. by destruct o. Qed.

Lemma spinless_for_each {X S} (f : X -> S -> prog S) l s :
  (forall x s, spinless (f x s)) -> spinless (for_each f l s).
Proof.
  intros Hf. revert s. induction l as [|x l IH]; intros s; simpl; [done|].
  apply spinless_bind; auto.
Qed.

(** The messages a trace sends, in order. *)
Definition sends (t : list event) : list (Z * list Z) :=
  omap (fun e => match e with ECall (Send fd d) _ => Some (fd, d) | _ => None end) t.

Lemma sends_app t t' : sends (t ++ t') = sends t ++ sends t'.
Proof. apply omap_app. Qed.

(** ** Observations *)

(** Every observation a program can emit satisfies [P]. *)
Fixpoint says (P : obs -> Prop) {A} (p : prog A) : Prop :=
  match p with
  | Say o p' => P o /\ says P p'
  | Sys _ k => forall r, says P (k r)
  | _ => True
  end.

Lemma says_bind P {A B} (p : prog A) (f : A -> prog B) :
  says P p -> (forall a, says P (f a)) -> says P (pbind p f).
Proof. induction p; simpl; naive_solver. Qed.

Lemma says_loop P {S A} n (body : S -> prog (S + A)) s :
  (forall s, says P (body s)) -> says P (loop n body s).
Proof.
  intros Hb. revert s. induction n as [|n IH]; intros s; [done|].
  rewrite loop_S. apply says_bind; [done|]. intros [s'|a]; simpl; auto.
Qed.

Lemma says_defined P {A} why (o : option A) : says P (defined why o).
Proof. by destruct o. Qed.

Lemma says_run P {A} (p : prog A) env o t :
  says P p -> run p env = (o, t) ->
  Forall (fun e => match e with ESay ob => P ob | _ => True end) t.
Proof.
  revert env o t. induction p as [a|n|w| |ob p IH|c k IH]; intros env o t; simpl.
  1-4: by intros _ [= <- <-].
  - intros [Ho Hp]. destruct (run p env) as [o' t'] eqn:E. intros [= <- <-].
    constructor; eauto.
  - intros Hk. destruct env as [|r env]; [intros [= <- <-]; repeat constructor|].
    destruct (run (k r) env) as [o' t'] eqn:E. intros [= <- <-]. constructor; eauto.
Qed.

(** The net change a trace makes to an atomic counter. *)
Fixpoint added (obj : string) (t : list event) : Z :=
  match t with
  | [] => 0
  | ESay (FetchAdd obj' _ d) :: t' => (if bool_decide (obj = obj') then d else 0) + added obj t'
  | _ :: t' => added obj t'
  end.

Lemma added_app obj t t' : added obj (t ++ t') = added obj t + added obj t'.
Proof. induction t as [|[| |[]] t IH]; simpl; rewrite ?IH; lia. Qed.

Definition not_counter (obj : string) (o : obs) : Prop :=
  match o with FetchAdd obj' _ _ => obj <> obj' | _ => True end.

Lemma added_none obj t :
  Forall (fun e => match e with ESay ob => not_counter obj ob | _ => True end) t ->
  added obj t = 0.
Proof.
  induction 1 as [|[| |[]] t H _ IH]; simpl; rewrite ?IH; try done.
  simpl in H. by rewrite bool_decide_false.
Qed.

(** ** The calls a program can make *)

(** Every call a program can make satisfies [P], whatever the replies. *)
Fixpoint only_calls (P : call -> Prop) {A} (p : prog A) : Prop :=
  match p with
  | Say _ p' => only_calls P p'
  | Sys c k => P c /\ forall r, only_calls P (k r)
  | _ => True
  end.

Lemma only_calls_bind P {A B} (p : prog A) (f : A -> prog B) :
  only_calls P p -> (forall a, only_calls P (f a)) -> only_calls P (pbind p f).
Proof. induction p; simpl; naive_solver. Qed.

Lemma only_calls_defined P {A B} why (o : option A) (f : A -> prog B) :
  (forall a, only_calls P (f a)) -> only_calls P (pbind (defined why o) f).
Proof. by destruct o; simpl. Qed.

Lemma only_calls_run P {A} (p : prog A) env o t :
  only_calls P p -> run p env = (o, t) ->
  Forall (fun e => match e with ECall c _ | EPend c => P c | ESay _ => True end) t.
Proof.
  revert env o t. induction p as [a|n|w| |ob p IH|c k IH]; intros env o t; simpl.
  1-4: by intros _ [= <- <-].
  - intros Hp. destruct (run p env) as [o' t'] eqn:E. intros [= <- <-].
    constructor; eauto.
  - intros [Hc Hk]. destruct env as [|r env]; [intros [= <- <-]; by repeat constructor|].
    destruct (run (k r) env) as [o' t'] eqn:E. intros [= <- <-]. constructor; eauto.
Qed.

(** ** Programs up to their observations *)

(** The program without its observations, and the trace without them. *)
Fixpoint quiet {A} (p : prog A) : prog A :=
  match p with
  | Say _ p' => quiet p'
  | Sys c k => Sys c (fun r => quiet (k r))
  | Ret a => Ret a
  | Exit n => Exit n
  | Undef w => Undef w
  | Spin => Spin
  end.
Definition calls (t : list event) : list event :=
  omap (fun e => match e with ESay _ => None | _ => Some e end) t.

Lemma quiet_bind {A B} (p : prog A) (f : A -> prog B) :
  quiet (pbind p f) ≃ pbind (quiet p) (fun a => quiet (f a)).
Proof. induction p; simpl; auto. reflexivity. Qed.

Lemma run_quiet {A} (p : prog A) env :
  run (quiet p) env = let '(o, t) := run p env in (o, calls t).
Proof.
  revert env. induction p as [a|n|w| |ob p IH|c k IH]; intros env; simpl; try done.
  - rewrite IH. by destruct (run p env).
  - destruct env as [|r env]; [done|]. rewrite IH. by destruct (run (k r) env).
Qed.

(** The result of a run under a function. *)
Definition map_outcome {A B} (f : A -> B) (o : outcome A) : outcome B :=
  match o with
  | Done a rest => Done (f a) rest
  | Exited n => Exited n
  | Undefined w => Undefined w
  | Spun => Spun
  | Blocked => Blocked
  end.
