(* ===== verification/Kernel.v ===== *)
(** * The kernel's side: descriptors, epoll interest, and a wp calculus

    [kern] is the part of the kernel's state a thread of the programs depends
    on: which descriptors it holds open (descriptors handed to another thread
    leave the set) and which are registered with which epoll instance.  [call_ok] is what a correct program owes at a call
    (it names open descriptors, registered ones for MOD and DEL);
    [reply_ok] is what POSIX and Linux document about the reply.  [wp]
    threads the state through a program; [wp_sound] states its meaning on
    runs. *)

From S2P Require Import Prelude Os.

Local Open Scope Z_scope.

Record kern := Kern { k_open : gset Z; k_watch : gmap (Z * Z) Z }.

(** Nothing open beyond the standard streams, nothing registered. *)
Definition kern0 : kern := Kern {[0; 1; 2]} ∅.

Definition call_fds (c : call) : list Z :=
  match c with
  | Setsockopt fd | Bind fd _ | Listen fd _ | Accept fd | Connect fd _ | Getpeername fd
  | Recv fd _ | RecvAll fd _ | Read fd _ | Send fd _ | Write fd _ | Sendto fd _ _
  | Recvfrom fd _ | Close fd | FcntlGetfl fd | FcntlSetfl fd _ => [fd]
  | EpollCtl epfd _ fd _ => [epfd; fd]
  | EpollWait epfd _ => [epfd]
  | Select _ rs => elements rs
  | _ => []
  end.

(** Sizes handed to the kernel are never negative (they are [size_t]). *)
Definition call_size (c : call) : Z :=
  match c with
  | Recv _ n | RecvAll _ n | Read _ n | Recvfrom _ n => n
  | _ => 0
  end.

Definition call_ok (κ : kern) (c : call) : Prop :=
  Forall (fun fd => fd ∈ k_open κ) (call_fds c) /\
  0 <= call_size c /\
  match c with
  | EpollCtl ep EPOLL_CTL_ADD fd _ => k_watch κ !! (ep, fd) = None
  | EpollCtl ep _ fd _ => is_Some (k_watch κ !! (ep, fd))
  | _ => True
  end.

Definition byte (c : Z) : Prop := 0 <= c < 256.

Definition input_ok (n : Z) (r : reply) : Prop :=
  (rv r = -1 /\ rdata r = []) \/
  (0 <= rv r <= n /\ rv r = Z.of_nat (length (rdata r)) /\ Forall byte (rdata r)).

(** An entry [epoll_wait] may report: a registered descriptor, with events
    it is registered for or an error or hang-up. *)
Definition ready_ok (κ : kern) (ep : Z) (e : Z * Z) : Prop :=
  match k_watch κ !! (ep, e.1) with
  | Some m => Z.land e.2 (Z.lor m (Z.lor EPOLLERR EPOLLHUP)) = e.2
  | None => False
  end.

Definition reply_ok (κ : kern) (c : call) (r : reply) : Prop :=
  match c with
  | Socket | EpollCreate | Open _ | Accept _ =>
      rv r = -1 \/ (0 <= rv r /\ rv r ∉ k_open κ)
  | Recv _ n | RecvAll _ n | Read _ n | Recvfrom _ n => input_ok n r
  | Send _ d | Write _ d | Sendto _ d _ => -1 <= rv r <= Z.of_nat (length d)
  | Fgets n =>
      (rv r = 0 /\ rdata r = []) \/
      (rv r = 1 /\ (0 < length (rdata r))%nat /\ Z.of_nat (length (rdata r)) < n /\
       Forall byte (rdata r))
  | EpollCtl _ _ _ _ | Close _ => rv r = 0 \/ rv r = -1
  | EpollWait ep n =>
      (rv r = -1 /\ revs r = []) \/
      (rv r = Z.of_nat (length (revs r)) /\ rv r <= n /\ NoDup (revs r).*1 /\
       Forall (ready_ok κ ep) (revs r))
  | Select _ rs =>
      (rv r = -1 /\ revs r = []) \/
      (rv r = Z.of_nat (length (revs r)) /\ NoDup (revs r).*1 /\
       Forall (fun e => e.1 ∈ rs) (revs r))
  | _ => True
  end.

Definition kern_next (κ : kern) (c : call) (r : reply) : kern :=
  match c with
  | Socket | EpollCreate | Open _ | Accept _ =>
      if 0 <=? rv r then Kern ({[rv r]} ∪ k_open κ) (k_watch κ) else κ
  | ThreadCreate _ arg =>
      (* a descriptor passed to a new thread is the new thread's to close *)
      if rv r =? 0 then Kern (k_open κ ∖ {[arg]}) (k_watch κ) else κ
  | Close fd =>
      (* Linux releases the descriptor whatever close() returns, and closed
         descriptors leave every epoll set *)
      Kern (k_open κ ∖ {[fd]})
        (filter (fun kv => kv.1.1 <> fd /\ kv.1.2 <> fd) (k_watch κ))
  | EpollCtl ep op fd ev =>
      if rv r =? 0 then
        Kern (k_open κ)
          (match op with
           | EPOLL_CTL_DEL => delete (ep, fd) (k_watch κ)
           | _ => <[(ep, fd) := ev]> (k_watch κ)
           end)
      else κ
  | _ => κ
  end.

#[export] Instance call_ok_dec κ c : Decision (call_ok κ c).
Proof. unfold call_ok. destruct c as [| | | | | | | | | | | | | | | | | |? []| | | | | | | | | | |];
  apply _. Defined.
#[export] Instance byte_dec c : Decision (byte c).
Proof. unfold byte. apply _. Defined.
#[export] Instance input_ok_dec n r : Decision (input_ok n r).
Proof. unfold input_ok. apply _. Defined.
#[export] Instance ready_ok_dec κ ep e : Decision (ready_ok κ ep e).
Proof. unfold ready_ok. destruct (k_watch κ !! (ep, e.1)); apply _. Defined.
#[export] Instance reply_ok_dec κ c r : Decision (reply_ok κ c r).
Proof. destruct c; simpl; apply _. Defined.

(** ** Registrations across an event *)

(** Handling an event on [fd] leaves the registrations of the others. *)
Definition others (fd : Z) (κ κ' : kern) : Prop :=
  forall e f v, f <> fd -> k_watch κ !! (e, f) = Some v -> k_watch κ' !! (e, f) = Some v.

Lemma others_refl fd κ : others fd κ κ.
Proof. by intros e f v _ H. Qed.

Lemma others_ready e fd κ κ' evs :
  others fd κ κ' -> fd ∉ evs.*1 -> Forall (ready_ok κ e) evs -> Forall (ready_ok κ' e) evs.
Proof.
  intros Ho Hn Hf. apply Forall_forall. intros x Hx.
  rewrite Forall_forall in Hf. specialize (Hf x Hx). unfold ready_ok in *.
  destruct (k_watch κ !! (e, x.1)) as [v|] eqn:Ev; [|done].
  rewrite (Ho e x.1 v); [done| |done].
  intros <-. apply Hn. apply list_elem_of_fmap. eauto.
Qed.

Lemma others_trans fd κ1 κ2 κ3 : others fd κ1 κ2 -> others fd κ2 κ3 -> others fd κ1 κ3.
Proof. intros H1 H2 e f v Hf Hv. by apply H2, H1. Qed.

(** ** Weakest preconditions *)
Section WP.
(** What the theorem at hand assumes of replies beyond [reply_ok]. *)
Context (E : call -> reply -> Prop).
(** Undefined behaviour the theorem at hand does not exclude. *)
Context (U : string -> Prop).
(** What it shows of every call beyond [call_ok]. *)
Context (G : kern -> call -> Prop).

Fixpoint wp {A} (p : prog A) (κ : kern) (Q : A -> kern -> Prop) : Prop :=
  match p with
  | Ret a => Q a κ
  | Exit _ => True
  | Undef w => U w
  | Spin => True
  | Say _ p' => wp p' κ Q
  | Sys c k =>
      (call_ok κ c /\ G κ c) /\
      forall r, reply_ok κ c r -> E c r -> wp (k r) (kern_next κ c r) Q
  end.

Lemma wp_mono {A} (p : prog A) κ (Q Q' : A -> kern -> Prop) :
  (forall a κ', Q a κ' -> Q' a κ') -> wp p κ Q -> wp p κ Q'.
Proof.
  intros HQ. revert κ. induction p; intros κ; simpl; auto.
  intros [Hc Hk]. split; auto.
Qed.

Lemma wp_bind {A B} (p : prog A) (f : A -> prog B) κ Q :
  wp p κ (fun a κ' => wp (f a) κ' Q) -> wp (pbind p f) κ Q.
Proof.
  revert κ. induction p; intros κ; simpl; auto.
  intros [Hc Hk]. split; auto.
Qed.

(** The rule for C loops: an invariant kept by [inl], implying the
    postcondition at [inr]. *)
Lemma wp_loop {S A} (I : S -> kern -> Prop) n (body : S -> prog (S + A)) s κ Q :
  (forall s κ, I s κ ->
     wp (body s) κ (fun x κ' => match x with inl s' => I s' κ' | inr a => Q a κ' end)) ->
  I s κ -> wp (loop n body s) κ Q.
Proof.
  intros Hb. revert s κ. induction n as [|n IH]; intros s κ Hs; [done|].
  rewrite loop_S. apply wp_bind. eapply wp_mono; [|by apply Hb].
  intros [s'|a] κ' Hx; simpl; auto.
Qed.

(** The same invariant holds after any number of turns. *)
Lemma wp_turns {S A} (I : S -> kern -> Prop) (R : A -> kern -> Prop) n (body : S -> prog (S + A)) s κ :
  (forall s κ, I s κ ->
     wp (body s) κ (fun x κ' => match x with inl s' => I s' κ' | inr a => R a κ' end)) ->
  I s κ -> wp (turns n body s) κ (fun x κ' => match x with inl s' => I s' κ' | inr a => R a κ' end).
Proof.
  intros Hb. revert s κ. induction n as [|n IH]; intros s κ Hs; [done|]. cbn [turns].
  apply wp_bind. eapply wp_mono; [|by apply Hb]. intros [s'|a] κ' Hx; simpl; auto.
Qed.

Lemma wp_for_each {X S} (I : list X -> S -> kern -> Prop) f (l : list X) (s : S) κ Q :
  (forall x l s κ, I (x :: l) s κ -> wp (f x s) κ (I l)) ->
  (forall s κ, I [] s κ -> Q s κ) ->
  I l s κ -> wp (for_each f l s) κ Q.
Proof.
  intros Hf HQ. revert s κ. induction l as [|x l IH]; intros s κ Hs; simpl; auto.
  apply wp_bind. eapply wp_mono; [|by apply Hf]. simpl. intros. by apply IH.
Qed.

Lemma wp_defined {A} why (o : option A) κ Q :
  (exists a, o = Some a /\ Q a κ) -> wp (defined why o) κ Q.
Proof. by intros (a & -> & H). Qed.

Lemma wp_peq {A} (p q : prog A) κ Q : p ≃ q -> wp p κ Q -> wp q κ Q.
Proof.
  revert q κ. induction p; intros [] κ Hpq; simpl in *; try done; subst; auto.
  - destruct Hpq. eauto.
  - destruct Hpq as [<- Hpq]. intros [Hc Hk]. split; eauto.
Qed.

(** *** Meaning on runs *)
Fixpoint kern_valid (κ : kern) (t : list event) : Prop :=
  match t with
  | [] => True
  | ECall c r :: t' => reply_ok κ c r /\ E c r /\ kern_valid (kern_next κ c r) t'
  | _ :: t' => kern_valid κ t'
  end.

Fixpoint disciplined (κ : kern) (t : list event) : Prop :=
  match t with
  | [] => True
  | ECall c r :: t' => (call_ok κ c /\ G κ c) /\ disciplined (kern_next κ c r) t'
  | EPend c :: t' => (call_ok κ c /\ G κ c) /\ disciplined κ t'
  | ESay _ :: t' => disciplined κ t'
  end.

Fixpoint kern_after (κ : kern) (t : list event) : kern :=
  match t with
  | [] => κ
  | ECall c r :: t' => kern_after (kern_next κ c r) t'
  | _ :: t' => kern_after κ t'
  end.

Lemma kern_valid_app κ t t' :
  kern_valid κ (t ++ t') <-> kern_valid κ t /\ kern_valid (kern_after κ t) t'.
Proof. clear U G. revert κ. induction t as [|[] t IH]; intros κ; simpl; rewrite ?IH; tauto. Qed.

Lemma kern_after_app κ t t' : kern_after κ (t ++ t') = kern_after (kern_after κ t) t'.
Proof. clear E U G. revert κ. induction t as [|[] t IH]; intros κ; simpl; auto. Qed.

(** A run is safe when, as long as the kernel keeps its side, the program
    keeps its own and never reaches undefined behaviour. *)
Definition safe_run {A} (κ : kern) (Q : A -> kern -> Prop)
    (ot : outcome A * list event) : Prop :=
  kern_valid κ ot.2 ->
  disciplined κ ot.2 /\
  match ot.1 with
  | Undefined w => U w
  | Done a _ => Q a (kern_after κ ot.2)
  | _ => True
  end.

Theorem wp_sound {A} (p : prog A) κ Q env :
  wp p κ Q -> safe_run κ Q (run p env).
Proof.
  revert κ env. induction p as [a|n|w| |o p IH|c k IH]; intros κ env; unfold safe_run;
    simpl; auto.
  - intros Hw. specialize (IH κ env Hw). unfold safe_run in IH.
    destruct (run p env) as [o' t]. simpl in *. auto.
  - intros [Hc Hk]. destruct env as [|r env]; simpl; [auto|].
    specialize (IH r (kern_next κ c r) env). unfold safe_run in IH.
    destruct (run (k r) env) as [o' t]. simpl in *. intros (Hr & He & Hv).
    specialize (IH (Hk r Hr He) Hv). tauto.
Qed.
End WP.

(** No undefined behaviour at all; replies unrestricted beyond [reply_ok]. *)
Definition no_ub (why : string) : Prop := False.
Definition any_call (κ : kern) (c : call) : Prop := True.
Definition any_reply (c : call) (r : reply) : Prop := True.

(** Socket and epoll creation succeed: the assumption of the programs that
    do not test those results. *)
Definition creation_succeeds (c : call) (r : reply) : Prop :=
  match c with Socket | EpollCreate => 0 <= rv r | _ => True end.

(** ** Tactics

    [wp_step] passes one call: it proves what the call owes and introduces
    the reply. *)
Create HintDb kern.

Lemma open_new (fd : Z) (s : gset Z) : fd ∈ {[fd]} ∪ s.
Proof. set_solver. Qed.
Lemma open_old (fd fd' : Z) (s : gset Z) : fd ∈ s -> fd ∈ {[fd']} ∪ s.
Proof. set_solver. Qed.
Lemma open_other (fd fd' : Z) (s : gset Z) : fd ∈ s -> fd <> fd' -> fd ∈ s ∖ {[fd']}.
Proof. set_solver. Qed.
Lemma union_close (fd : Z) (s : gset Z) : ({[fd]} ∪ s) ∖ {[fd]} = s ∖ {[fd]}.
Proof. set_solver. Qed.
#[export] Hint Resolve open_new open_old open_other Forall_cons_2 Forall_nil_2 : kern.
#[export] Hint Extern 1 (0 <= _) => lia : kern.

(** The extra guarantee: trivial, or given by a hypothesis. *)
Ltac wp_guard :=
  first
    [ exact I
    | match goal with
      | H : forall κ c, _ -> ?G κ c |- ?G _ _ =>
          apply H; simpl; rewrite ?Z.eqb_refl; reflexivity
      end
    | solve [eauto with kern]
    | idtac ].

(** What a program owes at a call. *)
Ltac wp_call_ok :=
  split;
  [ unfold call_ok; cbn [call_fds call_size k_open k_watch];
    split; [|split]; [ eauto 8 with kern | try lia | try exact I; eauto with kern ]
  | wp_guard ].

(** One system call: what it owes, then its reply. *)
Tactic Notation "wp_sys" simple_intropattern(r) simple_intropattern(Hr)
    simple_intropattern(He) :=
  cbn [wp pbind sys printf perror fetch_add ignored];
  split; [wp_call_ok|];
  let H := fresh in
  intros r H He; cbn [reply_ok kern_next k_open k_watch] in H |- *; revert H; intros Hr.
Tactic Notation "wp_sys" := wp_sys ? ? ?.
