(* ===== verification/Net.v ===== *)
(** * Byte order

    The programs run on a little-endian host: the object representation of an
    unsigned integer is its bytes, least significant first ([le_bytes]).
    [htonl], [ntohl], [htons], [htobe64] and their inverses reverse those
    bytes, so that memory holds the network (big-endian) order. *)

From S2P Require Import Prelude CLib Os Kernel.

Local Open Scope Z_scope.

(** ** Object representation *)
Fixpoint le_bytes (n : nat) (z : Z) : list Z :=
  match n with
  | O => []
  | S n' => z mod 256 :: le_bytes n' (z / 256)
  end.

Fixpoint of_le (l : list Z) : Z :=
  match l with
  | [] => 0
  | b :: l' => b + 256 * of_le l'
  end.

Definition bswap (n : nat) (z : Z) : Z := of_le (rev (le_bytes n z)).

Definition htonl (z : Z) : Z := bswap 4 z.
Definition ntohl (z : Z) : Z := bswap 4 z.
Definition htons (z : Z) : Z := bswap 2 (wrap_u 16 z).
Definition ntohs (z : Z) : Z := bswap 2 z.
Definition htobe32 (z : Z) : Z := bswap 4 z.
Definition be32toh (z : Z) : Z := bswap 4 z.
Definition htobe64 (z : Z) : Z := bswap 8 z.
Definition be64toh (z : Z) : Z := bswap 8 z.

(** ** Lemmas *)
Lemma pow256_succ n : 256 ^ Z.of_nat (S n) = 256 * 256 ^ Z.of_nat n.
Proof. rewrite Nat2Z.inj_succ, Z.pow_succ_r by lia. done. Qed.

Lemma le_bytes_length n z : length (le_bytes n z) = n.
Proof. revert z. induction n; intros; simpl; auto. Qed.

Lemma le_bytes_byte n z : Forall byte (le_bytes n z).
Proof.
  revert z. induction n; intros z; simpl; constructor; auto. apply Z.mod_pos_bound. lia.
Qed.

Lemma of_le_bound l : Forall byte l -> 0 <= of_le l < 256 ^ Z.of_nat (length l).
Proof.
  induction 1 as [|b l Hb Hl IH]; [simpl; lia|]. cbn [of_le length]. rewrite pow256_succ.
  unfold byte in Hb. lia.
Qed.

Lemma of_le_bytes n z : 0 <= z < 256 ^ Z.of_nat n -> of_le (le_bytes n z) = z.
Proof.
  revert z. induction n as [|n IH]; intros z; [cbn; lia|]. rewrite pow256_succ. intros Hz.
  cbn [le_bytes of_le]. rewrite IH; [|split; [apply Z.div_pos; lia|apply Z.div_lt_upper_bound; lia]].
  pose proof (Z.div_mod z 256). lia.
Qed.

Lemma le_bytes_of l : Forall byte l -> le_bytes (length l) (of_le l) = l.
Proof.
  induction 1 as [|b l Hb Hl IH]; [done|]. cbn [length le_bytes of_le]. unfold byte in Hb.
  assert ((b + 256 * of_le l) / 256 = of_le l) as ->.
  { rewrite (Z.mul_comm 256), Z.div_add, Z.div_small by lia. lia. }
  assert ((b + 256 * of_le l) mod 256 = b) as ->.
  { rewrite (Z.mul_comm 256), Z.mod_add, Z.mod_small by lia. lia. }
  by rewrite IH.
Qed.

Lemma le_bytes_bswap n z : le_bytes n (bswap n z) = rev (le_bytes n z).
Proof.
  unfold bswap.
  rewrite <- (le_bytes_length n z) at 1. rewrite <- length_rev. apply le_bytes_of.
  apply List.Forall_rev, le_bytes_byte.
Qed.

Lemma bswap_bound n z : 0 <= bswap n z < 256 ^ Z.of_nat n.
Proof.
  unfold bswap. rewrite <- (le_bytes_length n z) at 3. rewrite <- length_rev.
  apply of_le_bound, List.Forall_rev, le_bytes_byte.
Qed.

Lemma bswap_involutive n z : 0 <= z < 256 ^ Z.of_nat n -> bswap n (bswap n z) = z.
Proof.
  intros Hz. unfold bswap at 1. rewrite le_bytes_bswap, rev_involutive. by apply of_le_bytes.
Qed.


(** An object overwritten whole. *)
Lemma mem_store_whole {A} (m d : list A) : length d = length m -> mem_store m 0 d = Some d.
Proof.
  intros Hl. rewrite mem_store_is_Some by lia. change (Z.to_nat 0) with 0%nat.
  rewrite take_0, drop_ge by lia. by rewrite app_nil_r.
Qed.

Lemma pow256_4 : 256 ^ Z.of_nat 4 = 2 ^ 32.
Proof. reflexivity. Qed.
Lemma pow256_8 : 256 ^ Z.of_nat 8 = 2 ^ 64.
Proof. reflexivity. Qed.

Lemma ntohl_htonl_word z : 0 <= z < 2 ^ 32 -> ntohl (htonl z) = z.
Proof. rewrite <- pow256_4. apply bswap_involutive. Qed.

Lemma htonl_bound z : 0 <= htonl z < 2 ^ 32.
Proof. rewrite <- pow256_4. apply bswap_bound. Qed.

Example htonl_ex : htonl 1 = 16777216 /\ le_bytes 4 (htonl 258) = [0; 0; 1; 2].
Proof. split; reflexivity. Qed.

(** ** Sending without [SIG_IGN]

    A program that does not ignore [SIGPIPE] is terminated by a [send] to a
    connection whose other end is closed. *)
Definition SIGPIPE_STATUS : Z := 128 + 13.
Definition send_pipe (fd : Z) (data : list Z) : prog reply :=
  let! r := sys (Send fd data) in
  if (rv r <? 0) && (rerr r =? EPIPE) then Exit SIGPIPE_STATUS else Ret r.

(** The reply lets the process live. *)
Definition survives (r : reply) : bool := (0 <=? rv r) || negb (rerr r =? EPIPE).

Lemma send_pipe_run {B} fd d (f : reply -> prog B) r env :
  survives r = true ->
  run (pbind (send_pipe fd d) f) (r :: env) =
    let '(o, t) := run (f r) env in (o, ECall (Send fd d) r :: t).
Proof.
  unfold survives, send_pipe. intros Hs. cbn [pbind sys run].
  destruct (Z.ltb_spec (rv r) 0), (Z.leb_spec 0 (rv r)), (rerr r =? EPIPE);
    cbn [andb pbind]; done || lia.
Qed.

Lemma wp_send_pipe E U G fd d κ (Q : reply -> kern -> Prop) :
  fd ∈ k_open κ -> (forall c, call_ok κ c -> G κ c) -> (forall r, Q r κ) ->
  wp E U G (send_pipe fd d) κ Q.
Proof.
  intros Hfd HG HQ. unfold send_pipe. cbn [pbind sys wp].
  assert (call_ok κ (Send fd d)) as Hc.
  { split; [|split]; cbn [call_fds call_size]; [eauto with kern|lia|done]. }
  split; [split; auto|]. intros r _ _. cbn [kern_next].
  destruct ((rv r <? 0) && (rerr r =? EPIPE)); simpl; auto.
Qed.

(** ** Datagrams *)

(** The datagrams a trace hands to the network, with their addresses. *)
Definition datagrams (t : list event) : list (Z * list Z) :=
  omap (fun e => match e with ECall (Sendto _ d a) _ => Some (a, d) | _ => None end) t.

Lemma datagrams_app t t' : datagrams (t ++ t') = datagrams t ++ datagrams t'.
Proof. apply omap_app. Qed.
