(* ===== verification/DumbCommon.v ===== *)
(** * servers/code/dumb_common.c

    The parts shared by every DUMB server: the Prometheus endpoint
    ([metrics_server_thread]), the CPU burner ([recursive_burn]) and the
    blocking client handler ([handle_client]) of the iterative and the
    multithreaded server. *)

From S2P Require Import Prelude CLib Os Kernel.

Local Open Scope Z_scope.

Definition PORT : Z := 8090.
Definition BUF_SIZE : nat := 1024.
Definition STREAM_CHUNK_SIZE : Z := 4096.

(** ** metrics_server_thread *)
Definition CRLF : list Z := [13; 10].
Definition QUOTE : list Z := [34].

Definition request_line (kind : string) (n : Z) : list Z :=
  str "server_requests_total{request_type=" ++ QUOTE ++ str kind ++ QUOTE ++ str "} "
    ++ dec (wrap_u 64 n) ++ [NL].

(** The response [snprintf] formats; [%llu] prints the 64-bit value. *)
Definition metrics_text (threads conns ping wait burn stream unknown : Z) : list Z :=
  str "HTTP/1.1 200 OK" ++ CRLF
  ++ str "Content-Type: text/plain; version=0.0.4" ++ CRLF
  ++ str "Connection: close" ++ CRLF ++ CRLF
  ++ str "# HELP server_active_threads Client threads" ++ [NL]
  ++ str "# TYPE server_active_threads gauge" ++ [NL]
  ++ str "server_active_threads " ++ dec (wrap_u 64 threads) ++ [NL]
  ++ str "# HELP server_active_connections Active inbound connections" ++ [NL]
  ++ str "# TYPE server_active_connections gauge" ++ [NL]
  ++ str "server_active_connections " ++ dec (wrap_u 64 conns) ++ [NL]
  ++ str "# HELP server_requests_total Received requests" ++ [NL]
  ++ str "# TYPE server_requests_total counter" ++ [NL]
  ++ request_line "ping" ping ++ request_line "wait" wait ++ request_line "burn" burn
  ++ request_line "stream" stream ++ request_line "unknown" unknown.

(** One turn of the accept loop.  [write] reads [len] bytes of the 2048-byte
    array [http_resp]. *)
Definition metrics_iter (server_fd : Z) (_ : unit) : prog (unit + unit) :=
  let! a := sys (Accept server_fd) in
  let client_fd := rv a in
  if client_fd <? 0 then Ret (inl tt) else
  sys (Read client_fd 1024) ;;;
  let! threads := sys (AtomicLoad "active_threads" 0) in
  let! conns := sys (AtomicLoad "active_connections" 0) in
  let! ping := sys (AtomicLoad "total_ping_requests" 0) in
  let! wait := sys (AtomicLoad "total_wait_requests" 0) in
  let! burn := sys (AtomicLoad "total_burn_requests" 0) in
  let! stream := sys (AtomicLoad "total_stream_requests" 0) in
  let! unknown := sys (AtomicLoad "total_unknown_requests" 0) in
  let out := metrics_text (rv threads) (rv conns) (rv ping) (rv wait) (rv burn)
               (rv stream) (rv unknown) in
  let len := Z.of_nat (length out) in
  let! data := defined "http_resp: read past the array"
                 (mem_slice (snprintf_bytes 2048 out) 0 len) in
  sys (Write client_fd data) ;;;
  sys (Close client_fd) ;;;
  Ret (inl tt).

Definition metrics_server_thread (n : nat) : prog unit :=
  let! s := sys Socket in
  let server_fd := rv s in
  sys (Setsockopt server_fd) ;;;
  sys (Bind server_fd 9000) ;;;
  sys (Listen server_fd 10) ;;;
  loop n (metrics_iter server_fd) tt.

(** ** recursive_burn *)
Fixpoint burn_calls (n : nat) (depth : Z) : option Z :=
  if depth <=? 0 then Some 0
  else match n with
       | O => None
       | S n' => burn_calls n' (depth - 1) ≫= fun r => checked_ll (depth + r)
       end.

(** The recursion is [depth] calls deep; the stack they need is not
    modelled. *)
Definition recursive_burn (depth : Z) : option Z := burn_calls (Z.to_nat depth) depth.

(** ** handle_client *)
Definition PING := str "PING".
Definition WAIT_ := str "WAIT ".
Definition BURN_ := str "BURN ".
Definition STREAM_ := str "STREAM ".
Definition PONG_NL := str "PONG" ++ [NL].
Definition DONE_NL := str "DONE" ++ [NL].
Definition UNKNOWN_NL := str "UNKNOWN_COMMAND" ++ [NL].
Definition result_text (sum : Z) : list Z := str "RESULT " ++ dec sum ++ [NL].

(** [while (bytes_to_send > 0) { ... send ... }] *)
Definition stream_iter (client_fd left : Z) : prog (Z + Z) :=
  if 0 <? left then
    let to_send := if STREAM_CHUNK_SIZE <? left then STREAM_CHUNK_SIZE else left in
    let! sent := sys (Send client_fd (replicate (Z.to_nat to_send) 65)) in
    if rv sent <? 0 then Ret (inr left) else Ret (inl (left - rv sent))
  else Ret (inr left).

(** The command dispatch on the line [cmd] held in [buf]. *)
Definition exec_cmd (F : nat) (client_fd : Z) (cmd : list Z) : prog unit :=
  if starts cmd PING then
    fetch_add "total_ping_requests" 1 ;;;
    sys (Send client_fd PONG_NL) ;;; Ret tt
  else if starts cmd WAIT_ then
    fetch_add "total_wait_requests" 1 ;;;
    let ms := atoi (drop 5 cmd) in
    let! us := defined "overflow: ms * 1000" (checked_int (ms * 1000)) in
    sys (Usleep (wrap_u 32 us)) ;;;
    sys (Send client_fd DONE_NL) ;;; Ret tt
  else if starts cmd BURN_ then
    fetch_add "total_burn_requests" 1 ;;;
    let depth := atoll (drop 5 cmd) in
    let! sum := defined "overflow: recursive_burn" (recursive_burn depth) in
    let out := result_text sum in
    let! data := defined "res: read past the array"
                   (mem_slice (snprintf_bytes 64 out) 0 (Z.of_nat (length out))) in
    sys (Send client_fd data) ;;; Ret tt
  else if starts cmd STREAM_ then
    fetch_add "total_stream_requests" 1 ;;;
    let! left := loop F (stream_iter client_fd) (atoll (drop 7 cmd)) in
    if left <=? 0 then sys (Send client_fd DONE_NL) ;;; Ret tt else Ret tt
  else
    fetch_add "total_unknown_requests" 1 ;;;
    sys (Send client_fd UNKNOWN_NL) ;;; Ret tt.

(** One turn of [while ((newline = strchr(buf, '\n')) != NULL)]; the loop
    state is [buf] and [buf_len]. *)
Definition drain_iter (F : nat) (client_fd : Z) (st : list Z * Z)
    : prog (list Z * Z + list Z * Z) :=
  let '(buf, buf_len) := st in
  let! s := defined "buf: unterminated" (cstr buf) in
  match strchr s NL with
  | None => Ret (inr (buf, buf_len))
  | Some newline =>
      let cmd_len := Z.of_nat newline in
      let! buf := defined "buf: out of range" (mem_store buf cmd_len [0]) in
      let! cmd := defined "buf: unterminated" (cstr buf) in
      exec_cmd F client_fd cmd ;;;
      let remaining := buf_len - cmd_len - 1 in
      let! buf :=
        if 0 <? remaining then
          let! d := defined "memmove" (mem_slice buf (cmd_len + 1) remaining) in
          defined "memmove" (mem_store buf 0 d)
        else Ret buf in
      let! buf := defined "buf: out of range" (mem_store buf remaining [0]) in
      Ret (inl (buf, remaining))
  end.

(** One turn of the receive loop. *)
Definition recv_iter (F : nat) (client_fd : Z) (st : list Z * Z)
    : prog (list Z * Z + unit) :=
  let '(buf, buf_len) := st in
  let! r := sys (Recv client_fd (Z.of_nat BUF_SIZE - buf_len - 1)) in
  if rv r <=? 0 then Ret (inr tt) else
  let! buf := defined "recv" (mem_store buf buf_len (rdata r)) in
  let buf_len := buf_len + rv r in
  let! buf := defined "buf: out of range" (mem_store buf buf_len [0]) in
  let! ' (buf, buf_len) := loop BUF_SIZE (drain_iter F client_fd) (buf, buf_len) in
  if Z.of_nat BUF_SIZE - 1 <=? buf_len then Ret (inl (buf, 0))
  else Ret (inl (buf, buf_len)).

(** [junk] is what the uninitialised array [buf] holds on entry; [F] bounds
    the turns of the receive and the stream loop. *)
Definition handle_client (F : nat) (junk : list Z) (client_fd : Z) : prog unit :=
  sys (Getpeername client_fd) ;;;
  loop F (recv_iter F client_fd) (junk, 0) ;;;
  sys (Close client_fd) ;;;
  Ret tt.

#[global] Arguments metrics_text : simpl never.
#[global] Arguments exec_cmd : simpl never.
#[global] Arguments drain_iter : simpl never.
#[global] Arguments recv_iter : simpl never.
#[global] Arguments stream_iter : simpl never.

(** ** Lemmas *)

(** *** The metrics response fits its array *)
Lemma dec_u64_length n : (length (dec (wrap_u 64 n)) <= 20)%nat.
Proof.
  destruct (dec_nonneg_spec (wrap_u 64 n)) as (ds & -> & _ & H & _); [|done].
  apply wrap_u_range. lia.
Qed.

Lemma request_line_length kind n :
  (length (request_line kind n) <= 60 + String.length kind)%nat.
Proof.
  unfold request_line. pose proof (dec_u64_length n).
  rewrite !length_app, !str_length. simpl. lia.
Qed.

Lemma metrics_text_length a b c d e f g :
  (length (metrics_text a b c d e f g) <= 1000)%nat.
Proof.
  unfold metrics_text.
  pose proof (dec_u64_length a). pose proof (dec_u64_length b).
  pose proof (request_line_length "ping" c). pose proof (request_line_length "wait" d).
  pose proof (request_line_length "burn" e). pose proof (request_line_length "stream" f).
  pose proof (request_line_length "unknown" g).
  rewrite !length_app, !str_length. simpl String.length in *. cbn [length CRLF]. lia.
Qed.

(** What [snprintf] left in the array, read back over the returned length. *)
Lemma snprintf_read_back size out :
  Z.of_nat (length out) < size ->
  mem_slice (snprintf_bytes size out) 0 (Z.of_nat (length out)) = Some out.
Proof.
  intros H. unfold snprintf_bytes. destruct (Z.leb_spec size 0); [lia|].
  rewrite take_ge by lia. unfold mem_slice. rewrite length_app. simpl length.
  rewrite (proj2 (Z.leb_le 0 0)), (proj2 (Z.leb_le 0 (Z.of_nat (length out)))),
    (proj2 (Z.leb_le _ _)) by lia.
  cbn [andb]. rewrite Nat2Z.id. change (Z.to_nat 0) with 0%nat.
  by rewrite drop_0, take_app_length.
Qed.

(** *** recursive_burn *)
Lemma burn_calls_spec n depth :
  depth <= Z.of_nat n ->
  burn_calls n depth = if depth <=? 0 then Some 0 else checked_ll (depth * (depth + 1) / 2).
Proof.
  revert depth. induction n as [|n IH]; intros depth Hd; simpl;
    (destruct (Z.leb_spec depth 0); [done|]); [lia|].
  rewrite IH by lia.
  assert (depth * (depth + 1) / 2 = depth + (depth - 1) * (depth - 1 + 1) / 2) as ->.
  { replace (depth * (depth + 1)) with (depth * 2 + (depth - 1) * (depth - 1 + 1)) by ring.
    by rewrite Z.div_add_l by lia. }
  destruct (Z.leb_spec (depth - 1) 0) as [H0|H0].
  - assert (depth = 1) as -> by lia. done.
  - set (x := (depth - 1) * (depth - 1 + 1) / 2).
    assert (0 <= x) by (apply Z.div_pos; nia).
    limits. unfold checked_ll.
    destruct (Z.leb_spec LLONG_MIN x); [|lia]. destruct (Z.leb_spec x LLONG_MAX); simpl; [done|].
    destruct (Z.leb_spec LLONG_MIN (depth + x)), (Z.leb_spec (depth + x) LLONG_MAX);
      simpl; done || lia.
Qed.

(** *** The line buffer *)
Lemma drain_iter_line F fd l b rest :
  NL ∉ l -> 0 ∉ l ->
  drain_iter F fd ((l ++ NL :: b) ++ 0 :: rest, Z.of_nat (length (l ++ NL :: b)))
  ≃ (exec_cmd F fd l ;;;
     Ret (inl (b ++ 0 :: drop (S (length b)) (l ++ 0 :: b ++ 0 :: rest),
               Z.of_nat (length b)))).
Proof.
  intros Hnl H0. unfold drain_iter.
  destruct (cstr_terminated b rest) as (s' & Hs' & _).
  rewrite <- app_assoc. simpl. rewrite cstr_app_nz by done. simpl. rewrite Hs'. simpl.
  rewrite strchr_app by done.
  rewrite mem_store_is_Some by (rewrite ?length_app; simpl; lia).
  rewrite Nat2Z.id, take_app_length, drop_app_add. simpl. rewrite drop_0.
  rewrite cstr_app by done. simpl.
  apply pbind_proper; [done|]. intros _.
  assert (Z.of_nat (length (l ++ NL :: b)) - Z.of_nat (length l) - 1 = Z.of_nat (length b)) as ->.
  { rewrite length_app. simpl. lia. }
  set (m := l ++ 0 :: b ++ 0 :: rest).
  assert (length m = length l + S (length b + S (length rest)))%nat as Hm.
  { unfold m. rewrite length_app. simpl. rewrite length_app. done. }
  assert (forall m' q, m' = b ++ q -> length m' = length m ->
    (let! buf := defined "buf: out of range" (mem_store m' (Z.of_nat (length b)) [0]) in
       Ret (inl (buf, Z.of_nat (length b))))
    ≃ Ret (A := list Z * Z + list Z * Z) (inl (b ++ 0 :: drop 1 q, Z.of_nat (length b)))) as Hlast.
  { intros m' q -> Hl. rewrite length_app in Hl.
    rewrite mem_store_is_Some by (rewrite ?length_app; simpl; lia).
    rewrite Nat2Z.id, take_app_length, drop_app_add. done. }
  destruct (Z.ltb_spec 0 (Z.of_nat (length b))) as [Hb|Hb].
  - assert (mem_slice m (Z.of_nat (length l) + 1) (Z.of_nat (length b)) = Some b) as ->.
    { unfold mem_slice. rewrite !(proj2 (Z.leb_le _ _)) by lia. simpl.
      replace (Z.to_nat (Z.of_nat (length l) + 1)) with (length l + 1)%nat by lia.
      unfold m. rewrite drop_app_add. simpl. by rewrite drop_0, Nat2Z.id, take_app_length. }
    cbn [defined pbind].
    rewrite mem_store_is_Some by lia. cbn [defined pbind].
    rewrite (Hlast _ (drop (length b) m)).
    + rewrite drop_drop. by rewrite Nat.add_1_r.
    + done.
    + rewrite !length_app, length_take, length_drop. simpl. lia.
  - destruct b; [|simpl in Hb; lia]. cbn [pbind].
    by rewrite (Hlast m m).
Qed.

Lemma drain_iter_end F fd a s rest len :
  cstr (a ++ 0 :: rest) = Some s -> NL ∉ s ->
  drain_iter F fd (a ++ 0 :: rest, len) = Ret (inr (a ++ 0 :: rest, len)).
Proof.
  intros Hs Hn. unfold drain_iter. rewrite Hs. simpl.
  by rewrite (proj2 (strchr_None s NL) Hn).
Qed.

(** The commands of the lines [ls], one after the other. *)
Definition exec_all (F : nat) (client_fd : Z) (ls : list (list Z)) : prog unit :=
  for_each (fun l _ => exec_cmd F client_fd l) ls tt.

(** The inner loop executes exactly the complete lines in front of the first
    NUL, in order, and leaves the unfinished line at the front of the buffer. *)
Lemma drain_spec F fd n s a2 rest :
  0 ∉ s -> (a2 = [] \/ exists a3, a2 = 0 :: a3) ->
  (length (split_nl s).1 < n)%nat ->
  exists rest',
    length ((split_nl s).2 ++ a2 ++ 0 :: rest') = length (s ++ a2 ++ 0 :: rest) /\
    loop n (drain_iter F fd) (s ++ a2 ++ 0 :: rest, Z.of_nat (length (s ++ a2)))
    ≃ (exec_all F fd (split_nl s).1 ;;;
       Ret ((split_nl s).2 ++ a2 ++ 0 :: rest',
            Z.of_nat (length ((split_nl s).2 ++ a2)))).
Proof.
  intros H0 Ha2. revert n rest H0.
  induction s as [s Hs|l b Hl IH] using line_ind; intros n rest H0 Hn.
  - rewrite split_nl_nil by done. simpl. exists rest. split; [done|].
    destruct n as [|n]; [lia|]. rewrite loop_S.
    rewrite app_assoc, (drain_iter_end F fd (s ++ a2) s); [done| |done].
    destruct Ha2 as [->|[a3 ->]]; rewrite ?app_nil_r, <- ?app_assoc; by apply cstr_app.
  - rewrite split_nl_line in * by done. simpl in *.
    destruct n as [|n]; [lia|]. rewrite loop_S.
    set (rest1 := drop (S (length (b ++ a2))) (l ++ 0 :: (b ++ a2) ++ 0 :: rest)).
    destruct (IH n rest1) as (rest' & Hlen & Heq); [set_solver|lia|].
    exists rest'. split.
    { rewrite Hlen. unfold rest1. llen. }
    assert (((l ++ NL :: b) ++ a2 ++ 0 :: rest, Z.of_nat (length ((l ++ NL :: b) ++ a2)))
      = ((l ++ NL :: (b ++ a2)) ++ 0 :: rest, Z.of_nat (length (l ++ NL :: (b ++ a2))))) as ->.
    { by rewrite <- !app_assoc, <- !app_comm_cons, <- !app_assoc. }
    rewrite (drain_iter_line F fd l (b ++ a2) rest) by set_solver.
    rewrite peq_bind_assoc. unfold exec_all. simpl. rewrite peq_bind_assoc.
    apply pbind_proper; [done|]. intros []. simpl.
    rewrite <- app_assoc in *. exact Heq.
Qed.

(** *** Memory safety *)

(** The overflows a client can provoke: [WAIT] with more than [INT_MAX/1000]
    milliseconds, [BURN] with a sum above [LLONG_MAX]. *)
Definition overflow_ub (why : string) : Prop :=
  why = "overflow: ms * 1000"%string \/ why = "overflow: recursive_burn"%string.

Lemma recursive_burn_closed depth :
  recursive_burn depth =
    if depth <=? 0 then Some 0 else checked_ll (depth * (depth + 1) / 2).
Proof. apply burn_calls_spec. lia. Qed.

Lemma recursive_burn_range depth sum :
  recursive_burn depth = Some sum -> 0 <= sum <= LLONG_MAX.
Proof.
  rewrite recursive_burn_closed. limits.
  destruct (Z.leb_spec depth 0); [intros [= <-]; lia|].
  intros [-> ?]%checked_ll_Some.
  assert (0 <= depth * (depth + 1) / 2) by (apply Z.div_pos; nia). lia.
Qed.

Lemma result_text_length sum :
  LLONG_MIN <= sum <= LLONG_MAX -> (length (result_text sum) <= 29)%nat.
Proof.
  intros Hs. limits. unfold result_text. rewrite !length_app, str_length.
  pose proof (dec_length sum). simpl. lia.
Qed.

(** The calls the handler makes on behalf of the client [fd]. *)
Definition client_call (fd : Z) (c : call) : bool :=
  match c with
  | Getpeername f | Recv f _ | Send f _ | Close f => f =? fd
  | Usleep _ => true
  | _ => false
  end.

Section Safety.
Context (fd : Z) (κ : kern) (Hopen : fd ∈ k_open κ).
Context (G : kern -> call -> Prop)
  (HG : forall κ c, client_call fd c = true -> G κ c).

Let keep {A} (_ : A) (κ' : kern) : Prop := κ' = κ.

Lemma wp_send d : wp any_reply overflow_ub G (sys (Send fd d)) κ keep.
Proof. simpl. split; [wp_call_ok|]. done. Qed.

Lemma wp_stream F left :
  wp any_reply overflow_ub G (loop F (stream_iter fd) left) κ keep.
Proof.
  apply wp_loop with (I := fun _ κ' => κ' = κ); [|done].
  intros s ? ->. unfold stream_iter. destruct (0 <? s); [|done]. simpl.
  split; [wp_call_ok|]. intros r _ _. by destruct (rv r <? 0).
Qed.

Lemma wp_exec_cmd F cmd : wp any_reply overflow_ub G (exec_cmd F fd cmd) κ keep.
Proof.
  unfold exec_cmd.
  destruct (starts cmd PING); [|destruct (starts cmd WAIT_);
    [|destruct (starts cmd BURN_); [|destruct (starts cmd STREAM_)]]].
  - simpl. split; [wp_call_ok|done].
  - simpl. destruct (checked_int _); simpl; [|by left].
    split; [wp_call_ok|]. intros _ _ _. split; [wp_call_ok|done].
  - simpl. destruct (recursive_burn _) as [sum|] eqn:E; simpl; [|by right].
    rewrite snprintf_read_back.
    + simpl. split; [wp_call_ok|done].
    + apply recursive_burn_range in E. limits.
      pose proof (result_text_length sum). lia.
  - simpl. apply wp_bind. eapply wp_mono; [|apply wp_stream].
    intros left κ' ->. destruct (left <=? 0); [|done]. simpl. split; [wp_call_ok|done].
  - simpl. split; [wp_call_ok|done].
Qed.

Lemma wp_exec_all F ls : wp any_reply overflow_ub G (exec_all F fd ls) κ keep.
Proof.
  apply wp_for_each with (I := fun _ _ κ' => κ' = κ); auto.
  intros l ls' [] ? ->. apply wp_exec_cmd.
Qed.

(** One turn of the receive loop keeps the buffer an array of 1024 bytes
    with room for the terminator. *)
Lemma wp_recv_iter F buf len :
  length buf = BUF_SIZE -> 0 <= len < Z.of_nat BUF_SIZE - 1 ->
  wp any_reply overflow_ub G (recv_iter F fd (buf, len)) κ
    (fun x κ' => κ' = κ /\
       match x with
       | inl (buf', len') => length buf' = BUF_SIZE /\ 0 <= len' < Z.of_nat BUF_SIZE - 1
       | inr _ => True
       end).
Proof.
  intros Hb Hl. unfold recv_iter, BUF_SIZE in *. simpl.
  split; [wp_call_ok|]. intros r Hr _.
  destruct (Z.leb_spec (rv r) 0); [done|].
  destruct Hr as [[? _]|(Hr1 & Hr2 & _)]; [lia|].
  rewrite mem_store_is_Some by lia. simpl.
  rewrite mem_store_is_Some.
  2: lia.
  2: { rewrite !length_app, length_take, length_drop. simpl. lia. }
  simpl.
  set (m := take (Z.to_nat len) buf ++ rdata r ++ drop (Z.to_nat len + length (rdata r)) buf).
  assert (length m = 1024%nat) as Hm.
  { unfold m. rewrite !length_app, length_take, length_drop. lia. }
  assert (length (take (Z.to_nat (len + rv r)) m) = Z.to_nat (len + rv r)) as Ht.
  { rewrite length_take. lia. }
  destruct (nul_prefix (take (Z.to_nat (len + rv r)) m)) as (s & a2 & Hs & H0 & Ha).
  destruct (drain_spec F fd 1024 s a2 (drop (Z.to_nat (len + rv r) + 1) m)) as (rest' & Hlen & Heq);
    [done|done| |].
  { pose proof (split_nl_length s). rewrite Hs, length_app in Ht. lia. }
  rewrite app_assoc, <- Hs, Ht, Z2Nat.id in Heq by lia.
  apply wp_bind. eapply wp_peq; [symmetry; exact Heq|].
  apply wp_bind. eapply wp_mono; [|apply wp_exec_all]. intros [] κ' ->. simpl.
  assert (length ((split_nl s).2 ++ a2 ++ 0 :: rest') = 1024%nat) as Hl2.
  { rewrite Hlen, app_assoc, <- Hs. llen. }
  assert (length ((split_nl s).2 ++ a2) <= 1023)%nat by llen.
  destruct (Z.leb_spec (Z.of_nat 1024 - 1) (Z.of_nat (length ((split_nl s).2 ++ a2))));
    simpl; repeat split; auto; lia.
Qed.

Lemma wp_handle_client F junk Q :
  length junk = BUF_SIZE -> (forall r, Q tt (kern_next κ (Close fd) r)) ->
  wp any_reply overflow_ub G (handle_client F junk fd) κ Q.
Proof.
  intros Hj HQ. unfold handle_client. simpl. split; [wp_call_ok|].
  intros _ _ _. apply wp_bind.
  apply wp_loop with (I := fun s κ' => κ' = κ /\ length s.1 = BUF_SIZE /\
    0 <= s.2 < Z.of_nat BUF_SIZE - 1).
  - intros [buf len] ? (-> & Hb & Hl). eapply wp_mono; [|by apply wp_recv_iter].
    intros [[b' l']|[]] κ' [-> H]; [done|]. simpl.
    split; [wp_call_ok|]. intros r _ _. exact (HQ r).
  - simpl. unfold BUF_SIZE in *. repeat split; auto; lia.
Qed.
End Safety.

(** *** What the commands answer *)

(** The bytes a command line is answered with; [None] where executing it
    overflows. *)
Definition response (l : list Z) : option (list Z) :=
  if starts l PING then Some PONG_NL
  else if starts l WAIT_ then (fun _ => DONE_NL) <$> checked_int (atoi (drop 5 l) * 1000)
  else if starts l BURN_ then result_text <$> recursive_burn (atoll (drop 5 l))
  else if starts l STREAM_ then
    Some (replicate (Z.to_nat (atoll (drop 7 l))) 65 ++ DONE_NL)
  else Some UNKNOWN_NL.

(** A transport without failures: receives return what they store, sends
    succeed, and the short ones are not cut. *)
Definition reliable (e : event) : Prop :=
  match e with
  | ECall (Recv _ n) r => rv r = Z.of_nat (length (rdata r)) /\ rv r <= n
  | ECall (Send _ d) r =>
      0 <= rv r <= Z.of_nat (length d) /\
      (Z.of_nat (length d) <= 64 -> rv r = Z.of_nat (length d))
  | _ => True
  end.

#[export] Instance reliable_dec e : Decision (reliable e).
Proof. destruct e as [[]| |]; simpl; apply _. Defined.

Section Responses.
Context (fd : Z).

Lemma send_run d env rest r t :
  run (sys (Send fd d)) env = (Done r rest, t) -> Forall reliable t ->
  Z.of_nat (length d) <= 64 -> sent fd t = d /\ received fd t = [].
Proof.
  intros [-> ->]%run_sys_done Hr Hl.
  apply Forall_cons in Hr as [Hr _]. destruct (Hr : _ /\ _) as [_ H].
  simpl. rewrite Z.eqb_refl, app_nil_r, H, Nat2Z.id, firstn_all by done. done.
Qed.

Lemma stream_run n left env left' rest t :
  run (loop n (stream_iter fd) left) env = (Done left' rest, t) -> Forall reliable t ->
  left' <= 0 /\ sent fd t = replicate (Z.to_nat left) 65 /\ received fd t = [].
Proof.
  revert left env t. induction n as [|n IH]; intros left env t; [done|].
  rewrite loop_S.
  intros (x & rest' & t1 & t2 & H1 & H2 & ->)%run_bind_done [Hr1 Hr2]%Forall_app.
  unfold stream_iter, STREAM_CHUNK_SIZE in H1. destruct (Z.ltb_spec 0 left).
  - set (k := if 4096 <? left then 4096 else left) in H1.
    assert (0 < k <= left /\ (k = left \/ k = 4096)) as [Hk1 Hk2].
    { unfold k. destruct (Z.ltb_spec 4096 left); lia. }
    apply run_bind_done in H1 as (r & rest1 & ta & tb & [-> ->]%run_sys_done & H1 & ->).
    apply Forall_app in Hr1 as [Hr1 _]. apply Forall_cons in Hr1 as [Hr1 _].
    destruct (Hr1 : _ /\ _) as [Hs _]. rewrite length_replicate in Hs.
    destruct (Z.ltb_spec (rv r) 0); [lia|]. simplify_eq/=.
    destruct (IH (left - rv r) rest' t2 H2 Hr2) as (Hl & Hsent & Hrecv).
    rewrite Z.eqb_refl, Hsent, Hrecv. split; [done|]. split; [|done].
    rewrite take_replicate, <- replicate_add. f_equal. lia.
  - simplify_eq/=. rewrite Z2Nat.nonpos by done. done.
Qed.

Lemma exec_cmd_run F l env rest t :
  run (exec_cmd F fd l) env = (Done tt rest, t) -> Forall reliable t ->
  exists out, response l = Some out /\ sent fd t = out /\ received fd t = [].
Proof.
  unfold exec_cmd, response.
  destruct (starts l PING); [|destruct (starts l WAIT_);
    [|destruct (starts l BURN_); [|destruct (starts l STREAM_)]]];
    intros (t0 & H & ->)%run_say_done [_ Hr]%Forall_cons; cbn [pbind sent received] in *.
  - apply run_bind_done in H as (r & r1 & t1 & t2 & Hx & [= <- <-] & ->).
    rewrite app_nil_r in *. destruct (send_run _ _ _ _ _ Hx Hr) as [? ?]; [done|eauto].
  - destruct (checked_int _); simpl in *; [|done].
    destruct env as [|u env]; [done|].
    destruct env as [|r env]; simpl in H; [done|]. simplify_eq/=.
    apply Forall_cons in Hr as [_ Hr]. apply Forall_cons in Hr as [Hr _].
    destruct (Hr : _ /\ _) as [_ Hs].
    eexists. split; [done|]. rewrite Z.eqb_refl, Hs by done. done.
  - destruct (recursive_burn _) as [sum|] eqn:E; cbn [defined pbind fmap option_fmap option_map] in *;
      [|done].
    apply recursive_burn_range in E. pose proof (result_text_length sum).
    limits. rewrite snprintf_read_back in H by lia. cbn [defined pbind] in H.
    apply run_bind_done in H
      as (r & r1 & t1 & t2 & Hx & [= <- <-] & ->).
    rewrite app_nil_r in *.
    destruct (send_run _ _ _ _ _ Hx Hr) as [? ?]; [lia|eauto].
  - apply run_bind_done in H as (left & r1 & t1 & t2 & H1 & H2 & ->).
    apply Forall_app in Hr as [Hr1 Hr2].
    destruct (stream_run _ _ _ _ _ _ H1 Hr1) as (Hl & Hs & Hrecv).
    destruct (Z.leb_spec left 0); [|lia].
    apply run_bind_done in H2 as (r & r2 & t3 & t4 & Hx & [= <- <-] & ->).
    rewrite app_nil_r in *. destruct (send_run _ _ _ _ _ Hx Hr2) as [Hs2 Hrecv2]; [done|].
    eexists. split; [done|]. by rewrite sent_app, received_app, Hs, Hrecv, Hs2, Hrecv2.
  - apply run_bind_done in H as (r & r1 & t1 & t2 & Hx & [= <- <-] & ->).
    rewrite app_nil_r in *. destruct (send_run _ _ _ _ _ Hx Hr) as [? ?]; [done|eauto].
Qed.

Lemma exec_all_run F ls env rest t :
  run (exec_all F fd ls) env = (Done tt rest, t) -> Forall reliable t ->
  exists outs, mapM response ls = Some outs /\ sent fd t = concat outs /\
    received fd t = [].
Proof.
  revert env t. induction ls as [|l ls IH]; intros env t.
  - intros [= <- <-] _. exists []. done.
  - unfold exec_all. simpl.
    intros ([] & r1 & t1 & t2 & H1 & H2 & ->)%run_bind_done [Hr1 Hr2]%Forall_app.
    destruct (exec_cmd_run _ _ _ _ _ H1 Hr1) as (out & Ho & Hs & Hrc).
    destruct (IH _ _ H2 Hr2) as (outs & Hos & Hss & Hrcs).
    exists (out :: outs). simpl. rewrite Ho. simpl. rewrite Hos. simpl.
    by rewrite sent_app, received_app, Hs, Hss, Hrc, Hrcs.
Qed.

Definition short_lines (s : list Z) : Prop :=
  Forall (fun l => (length l <= 1022)%nat) (split_nl s).1 /\
  (length (split_nl s).2 <= 1022)%nat.

Lemma short_lines_app x y :
  short_lines (x ++ y) -> short_lines ((split_nl x).2 ++ y).
Proof.
  unfold short_lines. rewrite split_nl_app. simpl. intros [H1 H2].
  apply Forall_app in H1 as [_ H1]. done.
Qed.

Lemma recv_loop_run F n buf res rest0 env rest t :
  buf = res ++ rest0 -> length buf = BUF_SIZE -> NL ∉ res -> 0 ∉ res ->
  run (loop n (recv_iter F fd) (buf, Z.of_nat (length res))) env = (Done tt rest, t) ->
  Forall reliable t -> 0 ∉ received fd t -> short_lines (res ++ received fd t) ->
  exists outs, mapM response (split_nl (res ++ received fd t)).1 = Some outs /\
    sent fd t = concat outs.
Proof.
  revert buf res rest0 env t.
  induction n as [|n IH]; intros buf res rest0 env t Hbuf Hb Hnl H0; [done|].
  rewrite loop_S.
  intros (x & rest' & t1 & t2 & H1 & H2 & ->)%run_bind_done [Hr1 Hr2]%Forall_app Hz Hsh.
  rewrite received_app in Hz, Hsh |- *. rewrite sent_app.
  unfold recv_iter, BUF_SIZE in *.
  apply run_bind_done in H1 as (r & r1 & ta & tb & [-> ->]%run_sys_done & H1 & ->).
  apply Forall_app in Hr1 as [Hra Hrb]. apply Forall_cons in Hra as [Hra _].
  destruct (Hra : _ /\ _) as [Hrv Hle]. subst buf.
  destruct (Z.leb_spec (rv r) 0) as [Hz0|Hpos].
  { simplify_eq/=. rewrite Z.eqb_refl. destruct (rdata r); [|simpl in *; lia].
    rewrite take_nil. simpl. exists []. by rewrite app_nil_r, split_nl_nil. }
  rewrite mem_store_is_Some in H1 by llen. cbn [defined pbind] in H1.
  rewrite Nat2Z.id, take_app_length, drop_app_add in H1.
  rewrite received_app in Hz, Hsh |- *.
  cbn [received] in Hz, Hsh |- *. rewrite Z.eqb_refl, Hrv, Nat2Z.id, firstn_all in Hz, Hsh |- *.
  rewrite app_nil_r in Hz, Hsh |- *.
  set (d := rdata r) in *.
  assert (Z.of_nat (length res) + rv r = Z.of_nat (length (res ++ d))) as Hlen by llen.
  rewrite Hlen in H1. rewrite app_assoc in H1.
  rewrite mem_store_is_Some in H1 by llen. cbn [defined pbind] in H1.
  rewrite Nat2Z.id, take_app_length, drop_app_add in H1. cbn [length app] in H1.
  destruct (drain_spec F fd 1024 (res ++ d) [] (drop 1 (drop (length d) rest0)))
    as (rest2 & Hl2 & Heq); [clear -H0 Hz; set_solver|by left| |].
  { pose proof (split_nl_length (res ++ d)). llen. }
  rewrite app_nil_r in Heq. cbn [app] in Heq, Hl2.
  rewrite (run_proper _ _ (pbind_proper _ _ Heq _ _ (fun _ => reflexivity _)) _ _ eq_refl) in H1.
  apply run_bind_done in H1 as ([b' l'] & r2 & tc & td & Hx & H1 & ->).
  apply run_bind_done in Hx as ([] & r3 & te & tf & Hx & [= <- <- <- <-] & ->).
  rewrite app_nil_r in *. apply Forall_app in Hrb as [Hrb Hrd].
  destruct (exec_all_run _ _ _ _ _ Hx Hrb) as (outs & Ho & Hs & Hrc).
  rewrite <- !app_assoc in Hz, Hsh |- *.
  rewrite (received_app fd te), Hrc in Hz, Hsh |- *. cbn [app] in Hz, Hsh |- *.
  rewrite app_assoc in Hsh |- *.
  set (rs := (split_nl (res ++ d)).2) in *.
  assert (NL ∉ rs) as Hrs by apply split_nl_rest.
  assert (0 ∉ rs) as Hrs0.
  { pose proof (proj1 (split_nl_subset (res ++ d))) as Hsub. clear -Hsub H0 Hz. set_solver. }
  assert (length rs <= 1022)%nat as Hshort.
  { apply short_lines_app in Hsh as [Hs1 Hs2].
    by eapply (split_nl_short _ rs) in Hs1. }
  destruct (Z.leb_spec (Z.of_nat 1024 - 1) (Z.of_nat (length rs))) as [Hbad|_]; [lia|].
  simplify_eq/=.
  destruct (IH (rs ++ 0 :: rest2) rs (0 :: rest2) rest' t2) as (outs2 & Ho2 & Hs2); auto.
  { rewrite Hl2. llen. }
  { clear -Hz. set_solver. }
  { by apply short_lines_app. }
  exists (outs ++ outs2). rewrite split_nl_app. cbn [fst]. split.
  - apply mapM_Some. apply mapM_Some in Ho, Ho2. by apply Forall2_app.
  - cbn [sent app]. rewrite !sent_app, Hs, Hs2, concat_app. cbn [sent]. by rewrite app_nil_r.
Qed.
End Responses.

(** *** The bound on loop turns *)

Lemma stream_progress fd n left env o t :
  (length env < n)%nat -> run (loop n (stream_iter fd) left) env = (o, t) ->
  Forall reliable t -> o <> Spun.
Proof.
  intros Hn Hrun. eapply (loop_progress reliable (fun _ => True) (length env)); eauto.
  intros s env' o' t' _ _. unfold stream_iter.
  destruct (0 <? s); [|by intros [= <- <-]].
  destruct env' as [|r env']; simpl; [by intros [= <- <-]|].
  destruct (rv r <? 0); simpl; intros [= <- <-] _; (split; [done|]); intros ? ? [= <- <-]; auto.
Qed.

Lemma exec_cmd_progress F fd l env o t :
  (length env < F)%nat -> run (exec_cmd F fd l) env = (o, t) ->
  Forall reliable t -> o <> Spun.
Proof.
  intros HF. unfold exec_cmd.
  destruct (starts l PING); [|destruct (starts l WAIT_);
    [|destruct (starts l BURN_); [|destruct (starts l STREAM_)]]].
  - intros H _. eapply spinless_run; [|exact H]. done.
  - intros H _. eapply spinless_run; [|exact H]. simpl. by destruct (checked_int _).
  - intros H _. eapply spinless_run; [|exact H]. simpl.
    destruct (recursive_burn _); simpl; [|done]. by destruct (mem_slice _ _ _).
  - intros H Hr. cbn [fetch_add pbind] in H. cbn [run] in H.
    destruct (run (pbind _ _) env) as [o' t'] eqn:E in H. simplify_eq.
    apply Forall_cons in Hr as [_ Hr]. eapply (run_bind_not_spun reliable); [exact E|done| |].
    + intros. by eapply stream_progress.
    + intros a rest t1 o2 t2 _ H _. eapply spinless_run; [|exact H]. by destruct (a <=? 0).
  - intros H _. eapply spinless_run; [|exact H]. done.
Qed.

Lemma exec_all_progress F fd ls env o t :
  (length env < F)%nat -> run (exec_all F fd ls) env = (o, t) ->
  Forall reliable t -> o <> Spun.
Proof.
  revert env o t. induction ls as [|l ls IH]; intros env o t HF; [by intros [= <- <-]|].
  unfold exec_all. simpl. intros H Hr. eapply (run_bind_not_spun reliable); [exact H|done| |].
  - intros. by eapply exec_cmd_progress.
  - intros [] rest t1 o2 t2 H1 H2 Hr2. apply run_done_length in H1.
    eapply IH; [|exact H2|done]. lia.
Qed.

Lemma recv_iter_progress F fd buf len env o t :
  (length env <= F)%nat -> length buf = BUF_SIZE -> 0 <= len < Z.of_nat BUF_SIZE - 1 ->
  run (recv_iter F fd (buf, len)) env = (o, t) -> Forall reliable t ->
  o <> Spun /\ forall s' rest, o = Done (inl s') rest ->
    (length s'.1 = BUF_SIZE /\ 0 <= s'.2 < Z.of_nat BUF_SIZE - 1) /\
    (length rest < length env)%nat.
Proof.
  intros HF Hb Hl. unfold recv_iter, BUF_SIZE in *.
  intros H Hr.
  assert (forall s' rest, o = Done (inl s') rest -> (length rest < length env)%nat) as Hlt.
  { intros s' rest ->. unfold sys in H. cbn [pbind] in H. eapply run_sys_lt, H. }
  cut (o <> Spun /\ forall s' rest, o = Done (inl s') rest ->
    length s'.1 = 1024%nat /\ 0 <= s'.2 < Z.of_nat 1024 - 1).
  { intros [? Hs]. split; [done|]. intros s' rest ->. split; [by eapply Hs|by eapply Hlt]. }
  clear Hlt.
  rewrite run_bind in H. destruct env as [|r env]; simpl in H; [by simplify_eq|].
  match type of H with (let '(_, _) := run ?q _ in _) = _ =>
    destruct (run q env) as [o2 t2] eqn:E end.
  assert (Forall reliable t2 /\ o2 = o /\
    rv r = Z.of_nat (length (rdata r)) /\ rv r <= Z.of_nat 1024 - len - 1) as (Hr2 & -> & Hrv & Hle).
  { simplify_eq. apply Forall_cons in Hr as [[? ?] ?]. auto. }
  clear H Hr. simpl in HF.
  destruct (Z.leb_spec (rv r) 0); [by simplify_eq/=|].
  rewrite mem_store_is_Some in E by lia. cbn [defined pbind] in E.
  set (m := take (Z.to_nat len) buf ++ rdata r ++ drop (Z.to_nat len + length (rdata r)) buf) in E.
  assert (length m = 1024%nat) as Hm by (unfold m; llen).
  rewrite mem_store_is_Some in E by llen. cbn [defined pbind] in E.
  assert (length (take (Z.to_nat (len + rv r)) m) = Z.to_nat (len + rv r)) as Ht by llen.
  destruct (nul_prefix (take (Z.to_nat (len + rv r)) m)) as (s & a2 & Hs & H0 & Ha).
  destruct (drain_spec F fd 1024 s a2 (drop (Z.to_nat (len + rv r) + 1) m)) as (rest' & Hlen & Heq);
    [done|done| |].
  { pose proof (split_nl_length s). rewrite Hs, length_app in Ht. lia. }
  rewrite app_assoc, <- Hs, Ht, Z2Nat.id in Heq by lia. cbn [length app] in E.
  rewrite (run_proper _ _ (pbind_proper _ _ Heq _ _ (fun _ => reflexivity _)) _ _ eq_refl) in E.
  rewrite (run_proper _ _ (peq_bind_assoc _ _ _) _ _ eq_refl) in E.
  assert (length ((split_nl s).2 ++ a2 ++ 0 :: rest') = 1024%nat) as Hl2.
  { rewrite Hlen, app_assoc, <- Hs. llen. }
  assert (length ((split_nl s).2 ++ a2) <= 1023)%nat by llen.
  split.
  - eapply (run_bind_not_spun reliable); [exact E|done| |].
    + intros. eapply exec_all_progress; [|done|done]. lia.
    + intros [] rest t1 o2 t3 _ H3 _. eapply spinless_run; [|exact H3].
      simpl. by destruct (_ <=? _).
  - intros [b' l'] rest ->. apply run_bind_done in E as ([] & r1 & t3 & t4 & _ & E & _).
    simpl in E. unfold BUF_SIZE.
    destruct (Z.leb_spec (Z.of_nat 1024 - 1) (Z.of_nat (length ((split_nl s).2 ++ a2))));
      simplify_eq/=; split; try done; lia.
Qed.

(** ** Properties *)

(** C1. The blocking handler's output is a function of the byte stream it
    receives: however TCP cuts the stream into [recv] results, the bytes sent
    over a session are the concatenated answers to the stream's lines, in
    order.  The hypotheses are a transport without failures, no NUL byte, and
    lines of at most 1022 characters (longer ones are dropped). *)
Theorem handle_client_responses F junk fd env rest t :
  length junk = BUF_SIZE ->
  run (handle_client F junk fd) env = (Done tt rest, t) ->
  Forall reliable t -> 0 ∉ received fd t -> short_lines (received fd t) ->
  exists outs,
    mapM response (split_nl (received fd t)).1 = Some outs /\
    sent fd t = concat outs.
Proof.
  intros Hj H Hr H0 Hs. unfold handle_client in H.
  apply run_bind_done in H as (g & r1 & t1 & t2 & [-> ->]%run_sys_done & H & ->).
  apply run_bind_done in H as ([] & r2 & t3 & t4 & H & Hc & ->).
  apply run_bind_done in Hc as (c & r3 & t5 & t6 & [-> ->]%run_sys_done & [= <- <-] & ->).
  rewrite !Forall_app in Hr. destruct Hr as (_ & Hr & _).
  rewrite !received_app in *. rewrite !sent_app. cbn [received sent app] in *.
  rewrite !app_nil_r in *.
  destruct (recv_loop_run fd F F junk [] junk r1 (c :: r3) t3) as (outs & Ho & Ht); auto; set_solver.
Qed.

Definition demo_env : list reply :=
  [ rint 0;
    Reply 2 0 (str "PI") [];
    Reply 14 0 (str "NG" ++ [NL] ++ str "STREAM 3" ++ [NL] ++ str "BU") []; rint 5; rint 3; rint 5;
    Reply 5 0 (str "RN 3" ++ [NL]) []; rint 9;
    rint 0; rint 0 ].

Lemma handle_client_responses_witness :
  exists outs t,
    run (handle_client 20 (replicate 1024 7) 4) demo_env = (Done tt [], t) /\
    mapM response (split_nl (received 4 t)).1 = Some outs /\
    sent 4 t = concat outs /\
    sent 4 t = PONG_NL ++ str "AAADONE" ++ [NL] ++ str "RESULT 6" ++ [NL].
Proof.
  destruct (run (handle_client 20 (replicate 1024 7) 4) demo_env) as [o t] eqn:E.
  vm_compute in E. injection E as <- <-.
  edestruct (handle_client_responses 20 (replicate 1024 7) 4 demo_env [])
    as (outs & H1 & H2).
  - reflexivity.
  - vm_compute. reflexivity.
  - vm_decide.
  - vm_decide.
  - split; [vm_decide|]. vm_compute. lia.
  - eexists outs, _. repeat split; [exact H1|exact H2].
Defined.

(** C2. Whatever a client sends, the blocking handler stays inside its
    buffers and uses only its open descriptor, which it closes; the only
    undefined behaviour a run can reach is one of the two integer overflows
    of [overflow_ub]. *)
Theorem handle_client_safe F junk fd κ env :
  length junk = BUF_SIZE -> fd ∈ k_open κ ->
  safe_run any_reply overflow_ub any_call κ (fun _ κ' => fd ∉ k_open κ')
    (run (handle_client F junk fd) env).
Proof.
  intros Hj Hfd. apply wp_sound, wp_handle_client; [done|done|done|].
  simpl. set_solver.
Qed.

Lemma handle_client_safe_witness :
  4 ∈ k_open (Kern {[4]} ∅) /\
  safe_run any_reply overflow_ub any_call (Kern {[4]} ∅) (fun _ κ' => 4 ∉ k_open κ')
    (run (handle_client 20 (replicate 1024 7) 4) demo_env).
Proof.
  split; [set_solver|]. apply (handle_client_safe 20 (replicate 1024 7) 4); [reflexivity|set_solver].
Defined.

(** C3. The handler never loops without consuming input: with a loop bound
    above the number of kernel replies, no run on a reliable transport
    exhausts it.  In particular 1024 turns always drain the line buffer. *)
Theorem handle_client_progress F junk fd env o t :
  length junk = BUF_SIZE -> (length env <= F)%nat ->
  run (handle_client F junk fd) env = (o, t) -> Forall reliable t -> o <> Spun.
Proof.
  intros Hj HF H Hr. unfold handle_client in H. rewrite run_bind in H.
  destruct env as [|g env]; simpl in H; [by simplify_eq|]. simpl in HF.
  match type of H with (let '(_, _) := run ?q _ in _) = _ =>
    destruct (run q env) as [o2 t2] eqn:E end.
  simplify_eq. apply Forall_cons in Hr as [_ Hr].
  eapply (run_bind_not_spun reliable); [exact E|done| |].
  - intros o1 t1 H1 Hr1.
    refine (loop_progress reliable
      (fun s => length s.1 = BUF_SIZE /\ 0 <= s.2 < Z.of_nat BUF_SIZE - 1) (length env) _ _
      F (junk, 0) env o1 t1 _ _ _ H1 Hr1); [|split; [exact Hj|unfold BUF_SIZE; simpl; lia]|lia..].
    intros [buf len] env' o' t' [Hb Hl] Hle Hrun Hr'.
    by apply (recv_iter_progress F fd buf len env' o' t'); [lia|..].
  - intros [] rest t1 o2' t3 _ H3 _. by eapply spinless_run; [|exact H3].
Qed.

Lemma handle_client_progress_witness :
  (run (handle_client 10 (replicate 1024 7) 4) demo_env).1 <> Spun.
Proof.
  destruct (run (handle_client 10 (replicate 1024 7) 4) demo_env) as [o t] eqn:E.
  assert (Forall reliable t) as Hr.
  { vm_compute in E. injection E as <- <-. vm_decide. }
  apply (handle_client_progress 10 (replicate 1024 7) 4 demo_env o t); auto.
Defined.

(** [recursive_burn] terminates and computes the triangular number of its
    argument, 0 when it is not positive, and overflows exactly when that
    number exceeds [LLONG_MAX]. *)
Theorem recursive_burn_spec depth :
  recursive_burn depth =
    if depth <=? 0 then Some 0 else checked_ll (depth * (depth + 1) / 2).
Proof. apply recursive_burn_closed. Qed.

(** The metrics thread never reads or writes past [http_resp], whatever
    the counters hold, and closes every connection it accepts before the next
    turn, provided its listening socket could be created. *)
Theorem metrics_server_safe n κ env :
  safe_run creation_succeeds no_ub any_call κ (fun _ _ => True) (run (metrics_server_thread n) env).
Proof.
  apply wp_sound. unfold metrics_server_thread. simpl. split; [wp_call_ok|].
  intros s [Hs|[Hs Hf]] Hc; [simpl in Hc; lia|].
  rewrite (proj2 (Z.leb_le 0 (rv s))) by done. set (κ1 := Kern _ _).
  assert (rv s ∈ k_open κ1) as Hopen by apply open_new.
  clearbody κ1. wp_sys. wp_sys. wp_sys.
  apply wp_loop with (I := fun _ κ' => rv s ∈ k_open κ'); [|done].
  clear κ1 Hopen. intros [] κ1 Hopen. unfold metrics_iter.
  wp_sys a Ha _.
  destruct (Z.ltb_spec (rv a) 0) as [Hn|Hn].
  { destruct (Z.leb_spec 0 (rv a)); [lia|done]. }
  destruct Ha as [?|[? Ha]]; [lia|]. rewrite (proj2 (Z.leb_le 0 (rv a))) by done.
  do 8 wp_sys.
  rewrite snprintf_read_back.
  2: { eapply Z.le_lt_trans; [apply inj_le, metrics_text_length|done]. }
  cbn [defined]. wp_sys. wp_sys. simpl.
  apply open_other; [by apply open_old|congruence].
Qed.
