(* ===== verification/DumbIterative.v ===== *)
(** * servers/code/dumb_iterative.c

    The server that handles one client at a time. *)

From S2P Require Import Prelude CLib Os Kernel DumbCommon.

Local Open Scope Z_scope.

(** One turn of the accept loop; [junk i] is what the stack array of the
    [i]-th [handle_client] call holds on entry. *)
Definition accept_iter (F : nat) (junk : nat -> list Z) (listener : Z) (i : nat)
    : prog (nat + unit) :=
  let! a := sys (Accept listener) in
  let client_fd := rv a in
  if client_fd <? 0 then perror "accept" ;;; Ret (inl i) else
  let ip := rdata a in
  printf "Connected: %s (fd=%d)" [PS ip; PZ client_fd] ;;;
  handle_client F (junk i) client_fd ;;;
  printf "Disconnected: %s (fd=%d)" [PS ip; PZ client_fd] ;;;
  Ret (inl (S i)).

Definition main (n F : nat) (junk : nat -> list Z) : prog Z :=
  ignored "signal(SIGPIPE, SIG_IGN)" [] ;;;
  let! s := sys Socket in
  let listener := rv s in
  if listener <? 0 then perror "socket" ;;; Ret EXIT_FAILURE else
  let! b := sys (Bind listener PORT) in
  if rv b <? 0 then perror "bind" ;;; Ret EXIT_FAILURE else
  let! l := sys (Listen listener 10) in
  if rv l <? 0 then perror "listen" ;;; Ret EXIT_FAILURE else
  printf "DUMB Iterative Server listening on 0.0.0.0:%d" [PZ PORT] ;;;
  loop n (accept_iter F junk listener) 0%nat ;;;
  sys (Close listener) ;;;
  Ret EXIT_SUCCESS.

(** ** Sequential service *)

(** When the server waits for a connection, its listening socket is the only
    descriptor it holds. *)
Definition one_at_a_time (κ0 κ : kern) (c : call) : Prop :=
  match c with
  | Accept l => k_open κ = {[l]} ∪ k_open κ0
  | _ => True
  end.

Lemma close_new_open κ (fd : Z) (s : gset Z) r :
  k_open κ = s -> fd ∉ s ->
  k_open (kern_next (Kern ({[fd]} ∪ s) (k_watch κ)) (Close fd) r) = s.
Proof. intros <- Hf. simpl. set_solver. Qed.

(** C4. The iterative server serves its clients strictly one after the
    other: in every run, each [accept] happens with no client connection
    open, so no descriptor leaks; every call is on an open descriptor, and
    the only undefined behaviour reachable is the two overflows of
    [handle_client]. *)
Theorem iterative_sequential n F junk κ env :
  (forall i, length (junk i) = BUF_SIZE) ->
  safe_run any_reply overflow_ub (one_at_a_time κ) κ (fun _ _ => True)
    (run (main n F junk) env).
Proof.
  intros Hj. apply wp_sound. unfold main. cbn [ignored pbind wp].
  wp_sys s Hs _. destruct (Z.ltb_spec (rv s) 0); [done|].
  destruct Hs as [?|[? Hs]]; [lia|]. rewrite (proj2 (Z.leb_le 0 (rv s))) by done.
  wp_sys b ? _. destruct (rv b <? 0); [done|].
  wp_sys l ? _. destruct (rv l <? 0); [done|].
  cbn [printf pbind wp]. apply wp_bind.
  apply wp_loop with (I := fun _ κ' => k_open κ' = {[rv s]} ∪ k_open κ); [|done].
  intros i κ' Hκ'. unfold accept_iter.
  assert (rv s ∈ k_open κ') as Hin by (rewrite Hκ'; apply open_new).
  wp_sys a Ha _. destruct (Z.ltb_spec (rv a) 0).
  { destruct (Z.leb_spec 0 (rv a)); [lia|done]. }
  destruct Ha as [?|[? Ha]]; [lia|]. rewrite (proj2 (Z.leb_le 0 (rv a))) by done.
  cbn [printf pbind wp]. apply wp_bind.
  apply wp_handle_client; [apply open_new|by intros ? []|done|].
  intros r. cbn [printf pbind wp]. rewrite <- Hκ'. by apply close_new_open.
Qed.

Lemma iterative_sequential_witness :
  exists o t,
    run (main 3 20 (fun _ => replicate 1024 0)) ([rint 3; rint 0; rint 0; rint 4] ++ demo_env)
      = (o, t) /\
    safe_run any_reply overflow_ub (one_at_a_time kern0) kern0 (fun _ _ => True) (o, t) /\
    sent 4 t = PONG_NL ++ str "AAADONE" ++ [NL] ++ str "RESULT 6" ++ [NL] /\
    last t = Some (EPend (Accept 3)).
Proof.
  eexists _, _. split; [apply surjective_pairing|].
  rewrite <- surjective_pairing. split; [|split; vm_compute; reflexivity].
  apply iterative_sequential. intros i. reflexivity.
Defined.
