(* ===== verification/DumbMultithreaded.v ===== *)
(** * servers/code/dumb_multithreaded.c

    The thread-per-client server: [thread_worker] runs the shared blocking
    handler between two counter updates, [main] accepts and hands every
    connection to a detached thread. *)

From S2P Require Import Prelude CLib Os Kernel DumbCommon DumbIterative.

Local Open Scope Z_scope.

Definition MAX_FDS : Z := 65536.

(** The thread's argument is the malloc'ed descriptor; [free] releases it. *)
Definition thread_worker (F : nat) (junk : list Z) (client_fd : Z) : prog unit :=
  fetch_add "active_threads" 1 ;;;
  fetch_add "active_connections" 1 ;;;
  ignored "free" [] ;;;
  handle_client F junk client_fd ;;;
  fetch_add "active_connections" (-1) ;;;
  fetch_add "active_threads" (-1) ;;;
  Ret tt.

(** One turn of [main]'s accept loop; a null [malloc] is reply 0. *)
Definition accept_spawn (listener : Z) (_ : unit) : prog (unit + unit) :=
  let! a := sys (Accept listener) in
  let client_fd := rv a in
  if client_fd <? 0 then perror "accept" ;;; Ret (inl tt) else
  let! m := sys (Malloc 4) in
  if rv m =? 0 then perror "malloc" ;;; sys (Close client_fd) ;;; Ret (inl tt) else
  let! c := sys (ThreadCreate "thread_worker" client_fd) in
  if negb (rv c =? 0) then
    perror "pthread_create" ;;; ignored "free" [] ;;;
    sys (Close client_fd) ;;; Ret (inl tt)
  else Ret (inl tt).

Definition main (n : nat) : prog Z :=
  ignored "signal(SIGPIPE, SIG_IGN)" [] ;;;
  sys (ThreadCreate "metrics_server_thread" (-1)) ;;;
  let! s := sys Socket in
  let listener := rv s in
  if listener <? 0 then perror "socket" ;;; Ret EXIT_FAILURE else
  let! o := sys (Setsockopt listener) in
  if rv o <? 0 then perror "setsockopt() failed" ;;; Ret EXIT_FAILURE else
  let! b := sys (Bind listener PORT) in
  if rv b <? 0 then perror "bind" ;;; Ret EXIT_FAILURE else
  let! l := sys (Listen listener MAX_FDS) in
  if rv l <? 0 then perror "listen" ;;; Ret EXIT_FAILURE else
  printf "DUMB Multithreaded Server listening on 0.0.0.0:%d" [PZ PORT] ;;;
  ignored "pthread_attr_setdetachstate(PTHREAD_CREATE_DETACHED)" [] ;;;
  loop n (accept_spawn listener) tt ;;;
  sys (Close listener) ;;;
  sys (Libc "pthread_join" []) ;;;
  Ret EXIT_SUCCESS.

(** ** The connection counters *)

Lemma exec_cmd_says F fd cmd obj :
  obj ∉ ["total_ping_requests"; "total_wait_requests"; "total_burn_requests";
         "total_stream_requests"; "total_unknown_requests"]%string ->
  says (not_counter obj) (exec_cmd F fd cmd).
Proof.
  intros Hobj. unfold exec_cmd.
  repeat match goal with
  | |- says _ (if ?b then _ else _) => destruct b
  | |- says _ (pbind (fetch_add _ _) _) => simpl; split; [set_solver|]
  | |- says _ (pbind _ _) => apply says_bind
  | |- forall _, _ => intros ?
  | |- says _ (defined _ _) => apply says_defined
  | |- says _ (loop _ _ _) => apply says_loop
  | |- says _ (stream_iter _ _) => unfold stream_iter
  | |- says _ (let _ := _ in _) => cbv zeta
  | |- says _ (sys _) => done
  | |- says _ (Ret _) => done
  end; simpl; auto.
Qed.

Lemma handle_client_says F junk fd obj :
  obj ∉ ["total_ping_requests"; "total_wait_requests"; "total_burn_requests";
         "total_stream_requests"; "total_unknown_requests"]%string ->
  says (not_counter obj) (handle_client F junk fd).
Proof.
  intros Hobj. unfold handle_client. intros g. simpl. apply says_bind; [|done].
  apply says_loop. intros [buf len]. unfold recv_iter. intros r.
  cbn [pbind]. destruct (rv r <=? 0); [done|].
  repeat (apply says_bind; [apply says_defined|intros ?]).
  apply says_bind; [|intros [? ?]; by destruct (_ <=? _)].
  apply says_loop. intros [b l]. unfold drain_iter.
  apply says_bind; [apply says_defined|intros s].
  destruct (strchr s NL); [|done].
  repeat (apply says_bind; [apply says_defined|intros ?]).
  apply says_bind; [by apply exec_cmd_says|intros _].
  apply says_bind; [|intros ?; apply says_bind; [apply says_defined|done]].
  destruct (0 <? _); [|done].
  apply says_bind; [apply says_defined|intros ?; apply says_defined].
Qed.

(** A worker thread that ends leaves both gauges where it found them: its
    increments and decrements of [active_threads] and [active_connections]
    cancel whatever its client did. *)
Theorem thread_worker_balanced F junk fd env rest t :
  run (thread_worker F junk fd) env = (Done tt rest, t) ->
  added "active_threads" t = 0 /\ added "active_connections" t = 0.
Proof.
  unfold thread_worker, fetch_add, ignored.
  intros (t1 & H & ->)%run_say_done. apply run_say_done in H as (t2 & H & ->).
  apply run_say_done in H as (t3 & H & ->). cbn [pbind] in H.
  apply run_bind_done in H as ([] & r1 & t4 & t5 & Hh & H & ->).
  simpl in H. injection H as <- <-.
  assert (forall obj, obj ∉ ["total_ping_requests"; "total_wait_requests";
    "total_burn_requests"; "total_stream_requests"; "total_unknown_requests"]%string ->
    added obj t4 = 0) as Hz.
  { intros obj Ho. apply added_none. by eapply says_run; [apply handle_client_says|exact Hh]. }
  simpl. rewrite !added_app, !Hz by (apply (bool_decide_unpack _); reflexivity).
  done.
Qed.

Lemma thread_worker_balanced_witness :
  exists t, run (thread_worker 20 (replicate 1024 0) 4) demo_env = (Done tt [], t) /\
    added "active_connections" t = 0 /\ added "total_burn_requests" t = 1.
Proof.
  eexists. split; [vm_compute; reflexivity|]. split; [|reflexivity].
  eapply (thread_worker_balanced 20 (replicate 1024 0) 4 demo_env []).
  vm_compute. reflexivity.
Defined.

(** The accept loop of the multithreaded server never leaks or reuses a
    connection: whenever it waits in [accept] it holds only the listening
    socket, so each accepted descriptor was handed to a thread or closed on
    every error path, and no path reaches undefined behaviour. *)
Theorem multithreaded_no_leak n κ env :
  -1 ∉ k_open κ ->
  safe_run any_reply no_ub (one_at_a_time κ) κ (fun _ _ => True) (run (main n) env).
Proof.
  intros Hm1. apply wp_sound. unfold main. cbn [ignored pbind wp].
  wp_sys m ? _.
  set (κ1 := if rv m =? 0 then _ else _).
  assert (k_open κ1 = k_open κ) as Hκ1.
  { unfold κ1. destruct (rv m =? 0); [|done]. simpl. set_solver. }
  clearbody κ1. wp_sys s Hs _. destruct (Z.ltb_spec (rv s) 0); [done|].
  destruct Hs as [?|[? Hs]]; [lia|]. rewrite (proj2 (Z.leb_le 0 (rv s))) by done.
  wp_sys o ? _. destruct (rv o <? 0); [done|].
  wp_sys b ? _. destruct (rv b <? 0); [done|].
  wp_sys l ? _. destruct (rv l <? 0); [done|].
  cbn [printf ignored pbind wp]. apply wp_bind.
  apply wp_loop with (I := fun _ κ' => k_open κ' = {[rv s]} ∪ k_open κ).
  2: { simpl. by rewrite Hκ1. }
  intros [] κ' Hκ'. unfold accept_spawn.
  assert (rv s ∈ k_open κ') as Hin by (rewrite Hκ'; apply open_new).
  wp_sys a Ha _. destruct (Z.ltb_spec (rv a) 0).
  { destruct (Z.leb_spec 0 (rv a)); [lia|done]. }
  destruct Ha as [?|[? Ha]]; [lia|]. rewrite (proj2 (Z.leb_le 0 (rv a))) by done.
  wp_sys ml ? _.
  assert (k_open κ' = {[rv s]} ∪ k_open κ ->
    ({[rv a]} ∪ k_open κ') ∖ {[rv a]} = {[rv s]} ∪ k_open κ) as Hback.
  { intros <-. clear -Ha. set_solver. }
  destruct (rv ml =? 0).
  { wp_sys cl ? _. by apply Hback. }
  wp_sys c ? _. destruct (Z.eqb_spec (rv c) 0); cbn [negb].
  { by apply Hback. }
  cbn [perror printf ignored pbind wp]. wp_sys cl ? _. by apply Hback.
Qed.

Lemma multithreaded_no_leak_witness :
  -1 ∉ k_open kern0 /\
  safe_run any_reply no_ub (one_at_a_time kern0) kern0 (fun _ _ => True)
    (run (main 3) [rint 0; rint 3; rint 0; rint 0; rint 0; rint 4; rint 99; rint 11; rint 0]).
Proof. split; [vm_decide|]. apply multithreaded_no_leak. vm_decide. Defined.
