(* ===== verification/ClientState.v ===== *)
(** * The client state machine of the event-driven DUMB servers

    dumb_epoll.c and dumb_epoll_workers.c contain the same per-client state
    machine: a context that either collects a command line or writes a
    response.  The two copies differ in the counters they bump ([cnt] gives
    the observation of a counter, if any) and in the epoll instance they name;
    the [bool] result is [is_alive].  dumb_reactor.c has handlers of its own
    over a context of its own, translated in DumbReactor.v and compared with
    these there; it shares the states and the responses only. *)

From S2P Require Import Prelude CLib Os Kernel DumbCommon.

Local Open Scope Z_scope.

Definition MAX_FDS : Z := 65536.
Definition READ_BUF : nat := 1024.           (* sizeof(read_buf) *)
Definition CHUNK : Z := 16384.               (* sizeof(chunk) *)
Definition O_NONBLOCK : Z := 2048.

Inductive client_state_t :=
| STATE_READ_COMMAND
| STATE_WRITE_STREAM
| STATE_WRITE_PONG
| STATE_WRITE_BURN
| STATE_WRITE_DONE.

#[export] Instance client_state_eq_dec : EqDecision client_state_t.
Proof. solve_decision. Defined.

Record client_ctx_t := Ctx {
  c_fd : Z;
  c_state : client_state_t;
  read_buf : list Z;
  read_len : Z;
  bytes_to_send : Z;
  bytes_sent : Z
}.

(** [clients] is zero-initialised; only the entries written since are in the
    map. *)
Definition zero_ctx : client_ctx_t :=
  Ctx 0 STATE_READ_COMMAND (replicate READ_BUF 0) 0 0 0.
Notation clients_t := (gmap Z client_ctx_t).
Definition client_at (m : clients_t) (fd : Z) : client_ctx_t := default zero_ctx (m !! fd).
Definition in_table (fd : Z) : option unit :=
  if (0 <=? fd) && (fd <? MAX_FDS) then Some tt else None.

Definition make_socket_non_blocking (sfd : Z) : prog Z :=
  let! flags := sys (FcntlGetfl sfd) in
  if rv flags =? -1 then Ret (-1) else
  let! s := sys (FcntlSetfl sfd (Z.lor (rv flags) O_NONBLOCK)) in
  if rv s =? -1 then Ret (-1) else Ret 0.

Definition init_client_ctx (m : clients_t) (fd : Z) : prog clients_t :=
  let! _ := defined "clients: out of range" (in_table fd) in
  Ret (<[fd := Ctx fd STATE_READ_COMMAND (read_buf (client_at m fd)) 0 0 0]> m).

Definition modify_epoll_state (epollfd fd events : Z) : prog unit :=
  sys (EpollCtl epollfd EPOLL_CTL_MOD fd events) ;;; Ret tt.

(** The start of a turn of the accept loop of the non-blocking listener, the
    same in the three servers: leave the loop, go on with the next connection,
    or go on with the new descriptor. *)
Definition accept_client {X} (listener : Z) (break continue : X) (k : Z -> prog X) : prog X :=
  let! a := sys (Accept listener) in
  let client_fd := rv a in
  if client_fd =? -1 then Ret break else
  if MAX_FDS <=? client_fd then sys (Close client_fd) ;;; Ret continue else
  make_socket_non_blocking client_fd ;;;
  k client_fd.

(** [errno == EAGAIN || errno == EWOULDBLOCK] *)
Definition again (r : reply) : bool := (rerr r =? EAGAIN) || (rerr r =? EWOULDBLOCK).

(** Start writing [n] bytes in state [st]. *)
Definition set_write (ctx : client_ctx_t) (st : client_state_t) (buf : list Z) (n : Z)
    : client_ctx_t := Ctx (c_fd ctx) st buf (read_len ctx) n 0.

(** A bump of a request counter, where the server has one. *)
Definition note (o : option obs) : prog unit :=
  match o with Some o => Say o (Ret tt) | None => Ret tt end.

Section Machine.
Context (cnt : string -> option obs).

(** The dispatch on the command line; [None] is the early return of the
    unknown command. *)
Definition dispatch (ctx : client_ctx_t) (line : list Z) : prog (client_ctx_t * bool) :=
  if strncmp line (str "PING") 4 =? 0 then
    note (cnt "total_ping_requests") ;;;
    Ret (set_write ctx STATE_WRITE_PONG (read_buf ctx) 5, true)
  else if strncmp line (str "BURN") 4 =? 0 then
    note (cnt "total_burn_requests") ;;;
    let depth := sscanf_lld line (str "BURN") 0 in
    let! sum := defined "overflow: recursive_burn" (recursive_burn depth) in
    let out := result_text sum in
    let! buf := defined "snprintf: read_buf"
                  (mem_store (read_buf ctx) 0 (snprintf_bytes (Z.of_nat READ_BUF) out)) in
    Ret (set_write ctx STATE_WRITE_BURN buf (Z.of_nat (length out)), true)
  else if strncmp line (str "STREAM") 6 =? 0 then
    note (cnt "total_stream_requests") ;;;
    let bytes := sscanf_lld line (str "STREAM") 65536 in
    Ret (set_write ctx STATE_WRITE_STREAM (read_buf ctx) bytes, true)
  else
    note (cnt "total_unknown_requests") ;;;
    Ret (Ctx (c_fd ctx) (c_state ctx) (read_buf ctx) 0 (bytes_to_send ctx) (bytes_sent ctx),
         false).

(** [handle_read] and [handle_write] on the context they point to; the
    result is the context and [is_alive]. *)
Definition handle_read_ctx (epollfd client_fd : Z) (ctx : client_ctx_t)
    : prog (client_ctx_t * bool) :=
  let! r := sys (Read client_fd (Z.of_nat READ_BUF - 1 - read_len ctx)) in
  if rv r =? -1 then (if again r then Ret (ctx, true) else Ret (ctx, false))
  else if rv r =? 0 then Ret (ctx, false) else
  let! buf := defined "read: read_buf" (mem_store (read_buf ctx) (read_len ctx) (rdata r)) in
  let len := read_len ctx + rv r in
  let! buf := defined "read_buf: out of range" (mem_store buf len [0]) in
  let! s := defined "read_buf: unterminated" (cstr buf) in
  match strchr s NL with
  | Some newline =>
      let! buf := defined "read_buf: out of range" (mem_store buf (Z.of_nat newline) [0]) in
      let! line := defined "read_buf: unterminated" (cstr buf) in
      let! ' (ctx, armed) := dispatch
        (Ctx (c_fd ctx) (c_state ctx) buf len (bytes_to_send ctx) (bytes_sent ctx)) line in
      if armed : bool then modify_epoll_state epollfd client_fd EPOLLOUT ;;; Ret (ctx, true)
      else Ret (ctx, true)
  | None =>
      let len := if len =? Z.of_nat READ_BUF - 1 then 0 else len in
      Ret (Ctx (c_fd ctx) (c_state ctx) buf len (bytes_to_send ctx) (bytes_sent ctx), true)
  end.

(** The common shape of the four write branches: write what [data] gives of
    the [remaining] bytes, account for it, and act when all is sent. *)
Definition write_branch (client_fd : Z) (ctx : client_ctx_t) (data : Z -> option (list Z))
    (complete : client_ctx_t -> prog client_ctx_t) : prog (client_ctx_t * bool) :=
  let! remaining := defined "overflow: bytes_to_send - bytes_sent"
                      (checked_ll (bytes_to_send ctx - bytes_sent ctx)) in
  let! d := defined "write: out of range" (data remaining) in
  let! w := sys (Write client_fd d) in
  if rv w <? 0 then (if again w then Ret (ctx, true) else Ret (ctx, false)) else
  let! sent := defined "overflow: bytes_sent" (checked_ll (bytes_sent ctx + rv w)) in
  let ctx := Ctx (c_fd ctx) (c_state ctx) (read_buf ctx) (read_len ctx) (bytes_to_send ctx) sent in
  if bytes_sent ctx =? bytes_to_send ctx then
    let! ctx := complete ctx in Ret (ctx, true)
  else Ret (ctx, true).

Definition back_to_reading (epollfd client_fd : Z) (ctx : client_ctx_t) : prog client_ctx_t :=
  modify_epoll_state epollfd client_fd EPOLLIN ;;;
  Ret (Ctx (c_fd ctx) STATE_READ_COMMAND (read_buf ctx) 0 (bytes_to_send ctx) (bytes_sent ctx)).

Definition PONG_MSG : list Z := PONG_NL ++ [0].
Definition DONE_MSG : list Z := DONE_NL ++ [0].

(** [(remaining < sizeof(chunk)) ? remaining : sizeof(chunk)]: the comparison
    and the result are [size_t]. *)
Definition to_write (remaining : Z) : Z :=
  if wrap_u 64 remaining <? CHUNK then wrap_u 64 remaining else CHUNK.

Definition handle_write_ctx (epollfd client_fd : Z) (ctx : client_ctx_t)
    : prog (client_ctx_t * bool) :=
  match c_state ctx with
  | STATE_WRITE_PONG =>
      write_branch client_fd ctx (mem_slice PONG_MSG (bytes_sent ctx))
        (back_to_reading epollfd client_fd)
  | STATE_WRITE_BURN =>
      write_branch client_fd ctx (mem_slice (read_buf ctx) (bytes_sent ctx))
        (back_to_reading epollfd client_fd)
  | STATE_WRITE_STREAM =>
      write_branch client_fd ctx
        (fun remaining => mem_slice (replicate (Z.to_nat CHUNK) 65) 0 (to_write remaining))
        (fun ctx => Ret (Ctx (c_fd ctx) STATE_WRITE_DONE (read_buf ctx) (read_len ctx) 5 0))
  | STATE_WRITE_DONE =>
      write_branch client_fd ctx (mem_slice DONE_MSG (bytes_sent ctx))
        (back_to_reading epollfd client_fd)
  | STATE_READ_COMMAND => Ret (ctx, true)
  end.

(** [client_ctx_t *ctx = &clients[client_fd]] *)
Definition with_ctx (m : clients_t) (fd : Z)
    (f : client_ctx_t -> prog (client_ctx_t * bool)) : prog (clients_t * bool) :=
  let! _ := defined "clients: out of range" (in_table fd) in
  let! ' (ctx, alive) := f (client_at m fd) in
  Ret (<[fd := ctx]> m, alive).

Definition handle_read (epollfd client_fd : Z) (m : clients_t) : prog (clients_t * bool) :=
  with_ctx m client_fd (handle_read_ctx epollfd client_fd).
Definition handle_write (epollfd client_fd : Z) (m : clients_t) : prog (clients_t * bool) :=
  with_ctx m client_fd (handle_write_ctx epollfd client_fd).

Definition has (mask bit : Z) : bool := negb (Z.land mask bit =? 0).

(** What an event on a client does to its context. *)
Definition client_event (epollfd fd mask : Z) (m : clients_t) : prog (clients_t * bool) :=
  if has mask EPOLLIN then handle_read epollfd fd m
  else if has mask EPOLLOUT then handle_write epollfd fd m
  else Ret (m, true).

(** The body of the loop over the ready events, for an event on a client:
    [bye] is the observation of the connection counter's decrement. *)
Definition serve_event (bye : obs) (epollfd : Z) (ev : Z * Z) (m : clients_t)
    : prog clients_t :=
  let '(current_fd, mask) := ev in
  let! ' (m, is_alive) := client_event epollfd current_fd mask m in
  if negb is_alive || has mask (Z.lor EPOLLERR EPOLLHUP) then
    sys (EpollCtl epollfd EPOLL_CTL_DEL current_fd 0) ;;;
    sys (Close current_fd) ;;;
    Say bye (Ret m)
  else Ret m.
End Machine.

#[global] Arguments dispatch : simpl never.
#[global] Arguments handle_read_ctx : simpl never.
#[global] Arguments handle_write_ctx : simpl never.
#[global] Arguments to_write : simpl never.
#[global] Arguments result_text : simpl never.

(** ** Invariants *)

(** The interest a client's state asks for. *)
Definition armed (ctx : client_ctx_t) : Z :=
  match c_state ctx with STATE_READ_COMMAND => EPOLLIN | _ => EPOLLOUT end.

(** Well-formed contexts.  A stream of negative length is a context the
    server can be in, its [bytes_sent] is only known to be non-negative. *)
Definition ctx_ok (ctx : client_ctx_t) : Prop :=
  length (read_buf ctx) = READ_BUF /\ 0 <= read_len ctx < Z.of_nat READ_BUF /\
  match c_state ctx with
  | STATE_READ_COMMAND => read_len ctx < Z.of_nat READ_BUF - 1
  | STATE_WRITE_PONG | STATE_WRITE_DONE => bytes_to_send ctx = 5 /\ 0 <= bytes_sent ctx < 5
  | STATE_WRITE_BURN =>
      0 <= bytes_sent ctx < bytes_to_send ctx /\ bytes_to_send ctx <= 29
  | STATE_WRITE_STREAM =>
      LLONG_MIN <= bytes_to_send ctx <= LLONG_MAX /\ 0 <= bytes_sent ctx <= LLONG_MAX /\
      (0 <= bytes_to_send ctx -> bytes_sent ctx <= bytes_to_send ctx)
  end.

(** The overflows a client can reach: [BURN] with a sum above [LLONG_MAX],
    and the byte count of a stream of negative length. *)
Definition epoll_ub (why : string) : Prop :=
  why = "overflow: recursive_burn"%string \/
  why = "overflow: bytes_to_send - bytes_sent"%string \/ why = "overflow: bytes_sent"%string.

Ltac ctx_cbn :=
  cbn [c_fd c_state read_buf read_len bytes_to_send bytes_sent set_write fst snd] in *.

Lemma store_nul buf i :
  0 <= i < Z.of_nat (length buf) ->
  exists s, mem_store buf i [0] = Some (take (Z.to_nat i) buf ++ 0 :: drop (S (Z.to_nat i)) buf) /\
    cstr (take (Z.to_nat i) buf ++ 0 :: drop (S (Z.to_nat i)) buf) = Some s /\
    Z.of_nat (length s) <= i.
Proof.
  intros Hi. rewrite mem_store_is_Some by (simpl; lia).
  destruct (cstr_terminated (take (Z.to_nat i) buf) (drop (S (Z.to_nat i)) buf)) as (s & Hs & Hl).
  exists s. split; [|split; [done|]].
  - simpl. by rewrite Nat.add_1_r.
  - rewrite length_take in Hl. lia.
Qed.

Lemma store_nul_length buf i :
  0 <= i < Z.of_nat (length buf) ->
  length (take (Z.to_nat i) buf ++ 0 :: drop (S (Z.to_nat i)) buf) = length buf.
Proof. intros Hi. rewrite length_app, length_take. simpl. rewrite length_drop. lia. Qed.

Lemma sscanf_lld_range s lit x :
  LLONG_MIN <= x <= LLONG_MAX -> LLONG_MIN <= sscanf_lld s lit x <= LLONG_MAX.
Proof.
  intros Hx. unfold sscanf_lld. destruct (strip_prefix lit s ≫= scan_number) as [y|] eqn:E;
    [|done]. simpl. destruct (strip_prefix lit s) as [s'|]; [|done]. simpl in E.
  unfold scan_number in E. limits.
  unfold clamp_ll in E. repeat (case_match; simplify_eq; try done); lia.
Qed.

Lemma wp_note E U G o {A} (f : unit -> prog A) κ Q :
  wp E U G (f tt) κ Q -> wp E U G (pbind (note o) f) κ Q.
Proof. by destruct o. Qed.

Section Handlers.
Context (cnt : string -> option obs) (E : call -> reply -> Prop) (epollfd fd : Z).

(** The theorem at hand assumes [epoll_ctl] to succeed. *)
Definition ctl_ok : Prop :=
  forall ep op f ev r, E (EpollCtl ep op f ev) r -> rv r = 0.

(** A handler may only change the interest of its own descriptor, to what
    the new state of the context asks for. *)
Definition rearmed (κ κ' : kern) (ctx : client_ctx_t) : Prop :=
  k_open κ' = k_open κ /\
  exists v, k_watch κ' = <[(epollfd, fd) := v]> (k_watch κ) /\ (ctl_ok -> v = armed ctx).

Definition registered (κ : kern) (ctx : client_ctx_t) : Prop :=
  epollfd ∈ k_open κ /\ fd ∈ k_open κ /\
  exists v, k_watch κ !! (epollfd, fd) = Some v /\ (ctl_ok -> v = armed ctx).

Lemma rearmed_same κ ctx ctx' :
  registered κ ctx -> armed ctx' = armed ctx -> rearmed κ κ ctx'.
Proof.
  intros (_ & _ & v & Hv & Ha) Heq. split; [done|]. exists v.
  split; [by rewrite insert_id|]. intros. rewrite Heq. auto.
Qed.

Lemma wp_modify κ ctx ctx' Q :
  registered κ ctx -> (forall κ', rearmed κ κ' ctx' -> Q κ') ->
  armed ctx' = EPOLLIN \/ armed ctx' = EPOLLOUT ->
  wp E epoll_ub any_call (modify_epoll_state epollfd fd (armed ctx')) κ (fun _ κ' => Q κ').
Proof.
  intros (He & Hf & v & Hv & Ha) HQ Hbits. unfold modify_epoll_state.
  wp_sys r Hr HE. simpl. apply HQ. split; [by destruct (rv r =? 0)|].
  destruct (Z.eqb_spec (rv r) 0) as [H0|H0]; simpl.
  - eexists. split; [reflexivity|done].
  - exists v. split; [by rewrite insert_id|]. intros Hc. apply Hc in HE. lia.
Qed.

Lemma wp_dispatch ctx line κ Q :
  length (read_buf ctx) = READ_BUF -> 0 <= read_len ctx < Z.of_nat READ_BUF ->
  (forall ctx', ctx_ok ctx' -> c_state ctx' <> STATE_READ_COMMAND -> Q (ctx', true) κ) ->
  Q (Ctx (c_fd ctx) (c_state ctx) (read_buf ctx) 0 (bytes_to_send ctx) (bytes_sent ctx), false) κ ->
  wp E epoll_ub any_call (dispatch cnt ctx line) κ Q.
Proof.
  intros Hb Hl HQ HQ0. unfold dispatch, set_write, READ_BUF in *. limits.
  destruct (strncmp line (str "PING") 4 =? 0); [|destruct (strncmp line (str "BURN") 4 =? 0);
    [|destruct (strncmp line (str "STREAM") 6 =? 0)]]; apply wp_note.
  - apply HQ; [|done]. unfold ctx_ok, READ_BUF. ctx_cbn. lia.
  - destruct (recursive_burn _) as [sum|] eqn:Hs; [|by left]. cbn [defined pbind].
    apply recursive_burn_range in Hs. pose proof (result_text_length sum) as Hr.
    assert (0 < length (result_text sum))%nat.
    { unfold result_text. rewrite !length_app. simpl. lia. }
    assert (length (snprintf_bytes (Z.of_nat 1024) (result_text sum))
            = S (length (result_text sum))) as Hsn.
    { unfold snprintf_bytes. destruct (Z.leb_spec (Z.of_nat 1024) 0); [lia|].
      rewrite length_app, take_ge by lia. simpl. lia. }
    destruct (mem_store (read_buf ctx) 0 _) as [buf|] eqn:Hm.
    + apply mem_store_length in Hm. cbn [defined pbind wp]. apply HQ; [|done].
      unfold ctx_ok, READ_BUF. ctx_cbn. lia.
    + rewrite mem_store_is_Some in Hm; [done|lia|]. rewrite Hsn. lia.
  - apply HQ; [|done]. unfold ctx_ok, READ_BUF. ctx_cbn.
    assert (LLONG_MIN <= sscanf_lld line (str "STREAM") 65536 <= LLONG_MAX)
      by (apply sscanf_lld_range; lia).
    repeat split; lia.
  - done.
Qed.

Lemma armed_write ctx : c_state ctx <> STATE_READ_COMMAND -> armed ctx = EPOLLOUT.
Proof. unfold armed. by destruct (c_state ctx). Qed.

Lemma wp_handle_read_ctx ctx κ :
  ctx_ok ctx -> registered κ ctx ->
  wp E epoll_ub any_call (handle_read_ctx cnt epollfd fd ctx) κ
    (fun x κ' => ctx_ok x.1 /\ rearmed κ κ' x.1).
Proof.
  intros Hok Hreg. pose proof Hok as (Hb & Hl & Hst).
  pose proof Hreg as (He & Hf & v & Hv & Ha).
  unfold handle_read_ctx, READ_BUF in *.
  wp_sys r Hr HE.
  assert (ctx_ok ctx /\ rearmed κ κ ctx) as Hsame by (split; [done|by eapply rearmed_same]).
  destruct (Z.eqb_spec (rv r) (-1)); [by destruct (again r)|].
  destruct (Z.eqb_spec (rv r) 0); [done|].
  destruct Hr as [[? _]|(Hr1 & Hr2 & _)]; [lia|].
  destruct (mem_store (read_buf ctx) (read_len ctx) (rdata r)) as [buf|] eqn:Hm;
    [|rewrite mem_store_is_Some in Hm by lia; done].
  apply mem_store_length in Hm. cbn [defined pbind].
  destruct (store_nul buf (read_len ctx + rv r)) as (s & -> & Hs & Hsl); [lia|].
  cbn [defined pbind]. rewrite Hs. cbn [defined pbind].
  set (buf2 := take _ buf ++ _).
  assert (length buf2 = 1024%nat) as Hb2 by (unfold buf2; rewrite store_nul_length; lia).
  destruct (strchr s NL) as [k|] eqn:Hk.
  - apply strchr_Some in Hk as (a & b & -> & <- & _). rewrite length_app in Hsl. simpl in Hsl.
    destruct (store_nul buf2 (Z.of_nat (length a))) as (line & -> & Hline & _); [lia|].
    cbn [defined pbind]. rewrite Hline. cbn [defined pbind]. apply wp_bind. apply wp_dispatch.
    + cbn. rewrite store_nul_length by lia. unfold READ_BUF. lia.
    + cbn. unfold READ_BUF. lia.
    + intros ctx' Hok' Hs'. cbn beta iota. apply wp_bind.
      rewrite <- (armed_write ctx' Hs'). eapply wp_modify; [done| |right; by apply armed_write].
      intros κ' Hκ'. simpl. done.
    + cbn [wp c_fd c_state read_buf read_len bytes_to_send bytes_sent fst]. split.
      * unfold ctx_ok. ctx_cbn. rewrite store_nul_length by lia.
        unfold READ_BUF. destruct (c_state ctx); lia.
      * eapply rearmed_same; [done|done].
  - cbn [wp fst]. split; [|by eapply rearmed_same].
    unfold ctx_ok. ctx_cbn. unfold READ_BUF.
    destruct (Z.eqb_spec (read_len ctx + rv r) (Z.of_nat 1024 - 1)); destruct (c_state ctx); lia.
Qed.

(** The write branches, once: [complete] runs when everything is written. *)
Lemma wp_write_branch ctx κ (data : Z -> option (list Z)) complete :
  ctx_ok ctx -> registered κ ctx -> c_state ctx <> STATE_READ_COMMAND ->
  (forall n, bytes_to_send ctx - bytes_sent ctx = n -> LLONG_MIN <= n <= LLONG_MAX ->
     exists d, data n = Some d /\ (0 <= n -> Z.of_nat (length d) <= n)) ->
  (forall n, LLONG_MIN <= n <= LLONG_MAX -> 0 <= n ->
     wp E epoll_ub any_call
       (complete (Ctx (c_fd ctx) (c_state ctx) (read_buf ctx) (read_len ctx) n n)) κ
       (fun c κ' => ctx_ok c /\ rearmed κ κ' c)) ->
  wp E epoll_ub any_call (write_branch fd ctx data complete) κ
    (fun x κ' => ctx_ok x.1 /\ rearmed κ κ' x.1).
Proof.
  intros Hok Hreg Hst Hdata Hdone. pose proof Hok as (Hb & Hl & Hstate).
  pose proof Hreg as (_ & Hf & _). unfold write_branch.
  destruct (checked_ll _) as [n|] eqn:Hn; [|by right; left].
  apply checked_ll_Some in Hn as [-> Hn]. cbn [defined pbind].
  destruct (Hdata _ eq_refl Hn) as (d & -> & Hd). cbn [defined pbind].
  wp_sys w Hw _.
  assert (ctx_ok ctx /\ rearmed κ κ ctx) as Hsame by (split; [done|by eapply rearmed_same]).
  destruct (Z.ltb_spec (rv w) 0); [by destruct (again w)|].
  destruct (checked_ll (bytes_sent ctx + rv w)) as [k|] eqn:Hk; [|by right; right].
  apply checked_ll_Some in Hk as [-> Hk]. cbn [defined pbind bytes_sent bytes_to_send].
  destruct (Z.eqb_spec (bytes_sent ctx + rv w) (bytes_to_send ctx)) as [Heq|Hne].
  - apply wp_bind. eapply wp_mono; [|rewrite Heq; apply (Hdone (bytes_to_send ctx))].
    + intros c κ' H'. simpl. exact H'.
    + lia.
    + destruct (c_state ctx); try done; lia.
  - cbn [wp fst]. split; [|by eapply rearmed_same].
    unfold ctx_ok. ctx_cbn. repeat split; try lia.
    destruct (c_state ctx); try done; lia.
Qed.

Lemma wp_back_to_reading κ ctx0 c :
  registered κ ctx0 -> length (read_buf c) = READ_BUF ->
  wp E epoll_ub any_call (back_to_reading epollfd fd c) κ
    (fun c κ' => ctx_ok c /\ rearmed κ κ' c).
Proof.
  intros Hreg Hb. unfold back_to_reading. apply wp_bind.
  set (c' := Ctx _ _ _ _ _ _). change EPOLLIN with (armed c').
  eapply wp_modify; [done| |by left]. intros κ' Hκ'. simpl. split; [|done].
  unfold ctx_ok, c', READ_BUF in *. ctx_cbn. lia.
Qed.

Lemma mem_slice_some {A} (l : list A) i n :
  0 <= i -> 0 <= n -> i + n <= Z.of_nat (length l) ->
  mem_slice l i n = Some (take (Z.to_nat n) (drop (Z.to_nat i) l)).
Proof. intros. unfold mem_slice. by rewrite !(proj2 (Z.leb_le _ _)) by lia. Qed.

Lemma msg_slice {A} (l : list A) i n :
  0 <= i -> 0 <= n -> i + n <= Z.of_nat (length l) ->
  exists d, mem_slice l i n = Some d /\ (0 <= n -> Z.of_nat (length d) <= n).
Proof.
  intros. rewrite mem_slice_some by done. eexists. split; [done|]. llen.
Qed.

Lemma to_write_range n :
  LLONG_MIN <= n <= LLONG_MAX ->
  0 <= to_write n <= CHUNK /\ (0 <= n -> to_write n = Z.min n CHUNK).
Proof.
  intros Hn. limits. unfold to_write, CHUNK. pose proof (wrap_u_range 64 n).
  destruct (Z.ltb_spec (wrap_u 64 n) 16384); split; try lia; intros Hpos;
    rewrite wrap_u_small in * by (split; lia); lia.
Qed.

Lemma stream_slice n :
  LLONG_MIN <= n <= LLONG_MAX ->
  mem_slice (replicate (Z.to_nat CHUNK) 65) 0 (to_write n)
  = Some (replicate (Z.to_nat (to_write n)) 65).
Proof.
  intros Hn. destruct (to_write_range n Hn) as [Ht _].
  rewrite mem_slice_some; [|lia|lia|rewrite length_replicate; lia].
  rewrite drop_0, take_replicate. do 2 f_equal. lia.
Qed.

Lemma wp_handle_write_ctx ctx κ :
  ctx_ok ctx -> registered κ ctx ->
  wp E epoll_ub any_call (handle_write_ctx epollfd fd ctx) κ
    (fun x κ' => ctx_ok x.1 /\ rearmed κ κ' x.1).
Proof.
  intros Hok Hreg. pose proof Hok as (Hb & Hl & Hst). unfold handle_write_ctx.
  destruct (c_state ctx) eqn:Es.
  - simpl. split; [done|]. by eapply rearmed_same.
  - apply wp_write_branch; [done|done|by rewrite Es| |].
    + intros n Hn Hr. rewrite stream_slice by done. eexists. split; [done|].
      intros Hn0. destruct (to_write_range n Hr) as [_ Ht]. specialize (Ht Hn0). llen.
    + intros n Hn Hn0. cbn [wp]. split; [|eapply rearmed_same; [done|]].
      * unfold ctx_ok. ctx_cbn. lia.
      * unfold armed. by rewrite Es.
  - apply wp_write_branch; [done|done|by rewrite Es| |].
    + intros n Hn _. apply msg_slice; [lia|lia|]. unfold PONG_MSG. simpl. lia.
    + intros n Hn Hn0. by eapply wp_back_to_reading.
  - apply wp_write_branch; [done|done|by rewrite Es| |].
    + intros n Hn _. apply msg_slice; [lia|lia|]. rewrite Hb. unfold READ_BUF. lia.
    + intros n Hn Hn0. by eapply wp_back_to_reading.
  - apply wp_write_branch; [done|done|by rewrite Es| |].
    + intros n Hn _. apply msg_slice; [lia|lia|]. unfold DONE_MSG. simpl. lia.
    + intros n Hn Hn0. by eapply wp_back_to_reading.
Qed.
End Handlers.


Lemma in_table_some fd : 0 <= fd < MAX_FDS -> in_table fd = Some tt.
Proof.
  intros H. unfold in_table.
  destruct (Z.leb_spec 0 fd), (Z.ltb_spec fd MAX_FDS); simpl; done || lia.
Qed.

Lemma client_at_insert m fd c f :
  client_at (<[fd := c]> m) f = if bool_decide (fd = f) then c else client_at m f.
Proof.
  unfold client_at. case_bool_decide as H.
  - subst f. rewrite lookup_insert, decide_True by done. done.
  - by rewrite lookup_insert_ne.
Qed.

(** ** The calls of a handler

    A handler reads and writes its own descriptor and changes the interest of
    that descriptor in its own epoll set: it never closes anything. *)
Definition own_call (epollfd fd : Z) (c : call) : Prop :=
  match c with
  | Read f _ | Write f _ => f = fd
  | EpollCtl e EPOLL_CTL_MOD f _ => e = epollfd /\ f = fd
  | _ => False
  end.

Section OwnCalls.
Context (cnt : string -> option obs) (epollfd fd : Z).

Lemma note_calls P o : only_calls P (note o).
Proof. by destruct o. Qed.

Lemma dispatch_calls P ctx line : only_calls P (dispatch cnt ctx line).
Proof.
  unfold dispatch.
  repeat case_match; apply only_calls_bind; intros; try apply note_calls; simpl; try done.
  apply only_calls_defined. intros. by apply only_calls_defined.
Qed.

Lemma handle_read_ctx_calls ctx :
  only_calls (own_call epollfd fd) (handle_read_ctx cnt epollfd fd ctx).
Proof.
  unfold handle_read_ctx. cbn [sys pbind only_calls]. split; [done|]. intros r.
  destruct (rv r =? -1); [by destruct (again r)|]. destruct (rv r =? 0); [done|].
  do 3 (apply only_calls_defined; intros ?). destruct (strchr _ NL); [|done].
  do 2 (apply only_calls_defined; intros ?).
  apply only_calls_bind; [apply dispatch_calls|]. by intros [c []].
Qed.

Lemma write_branch_calls ctx data complete :
  (forall c, only_calls (own_call epollfd fd) (complete c)) ->
  only_calls (own_call epollfd fd) (write_branch fd ctx data complete).
Proof.
  intros Hc. unfold write_branch. do 2 (apply only_calls_defined; intros ?).
  cbn [sys pbind only_calls]. split; [done|]. intros r.
  destruct (rv r <? 0); [by destruct (again r)|]. apply only_calls_defined. intros sent.
  destruct (_ =? _); [|done]. by apply only_calls_bind.
Qed.

Lemma handle_write_ctx_calls ctx :
  only_calls (own_call epollfd fd) (handle_write_ctx epollfd fd ctx).
Proof.
  unfold handle_write_ctx. destruct (c_state ctx); try done; by apply write_branch_calls.
Qed.

Lemma client_event_calls mask m :
  only_calls (own_call epollfd fd) (client_event cnt epollfd fd mask m).
Proof.
  assert (forall f, (forall c, only_calls (own_call epollfd fd) (f c)) ->
    only_calls (own_call epollfd fd) (with_ctx m fd f)) as Hw.
  { intros f Hf. apply only_calls_defined. intros _. apply only_calls_bind; [done|]. by intros []. }
  unfold client_event. destruct (has mask EPOLLIN); [apply Hw, handle_read_ctx_calls|].
  destruct (has mask EPOLLOUT); [apply Hw, handle_write_ctx_calls|done].
Qed.
End OwnCalls.

(** ** What a client is sent *)

(** The bytes the server still owes a client. *)
Definition pending (ctx : client_ctx_t) : list Z :=
  match c_state ctx with
  | STATE_READ_COMMAND => []
  | STATE_WRITE_PONG => drop (Z.to_nat (bytes_sent ctx)) PONG_NL
  | STATE_WRITE_DONE => drop (Z.to_nat (bytes_sent ctx)) DONE_NL
  | STATE_WRITE_BURN =>
      drop (Z.to_nat (bytes_sent ctx)) (take (Z.to_nat (bytes_to_send ctx)) (read_buf ctx))
  | STATE_WRITE_STREAM =>
      replicate (Z.to_nat (bytes_to_send ctx - bytes_sent ctx)) 65 ++ DONE_NL
  end.

(** The part of a command line collected so far. *)
Definition collected (ctx : client_ctx_t) : list Z :=
  match c_state ctx with
  | STATE_READ_COMMAND => take (Z.to_nat (read_len ctx)) (read_buf ctx)
  | _ => []
  end.

(** The reference semantics.  [answer] is the reply to a command line, [None]
    where the sum overflows or the stream is of negative length. *)
Definition answer (line : list Z) : option (list Z) :=
  if strncmp line (str "PING") 4 =? 0 then Some PONG_NL
  else if strncmp line (str "BURN") 4 =? 0 then
    result_text <$> recursive_burn (sscanf_lld line (str "BURN") 0)
  else if strncmp line (str "STREAM") 6 =? 0 then
    let n := sscanf_lld line (str "STREAM") 65536 in
    if n <? 0 then None else Some (replicate (Z.to_nat n) 65 ++ DONE_NL)
  else Some [].

(** One [read] of the server: at most one line is answered, and everything
    received after it is dropped. *)
Definition serve_chunk (acc c : list Z) : option (list Z * list Z) :=
  let b := acc ++ c in
  match strchr (upto_nul b) NL with
  | Some n => pair [] <$> answer (take n (upto_nul b))
  | None => Some (if Z.of_nat (length b) =? Z.of_nat READ_BUF - 1 then [] else b, [])
  end.

Fixpoint serve (acc : list Z) (cs : list (list Z)) : option (list Z * list Z) :=
  match cs with
  | [] => Some (acc, [])
  | c :: cs' =>
      serve_chunk acc c ≫= fun x => prod_map id (app x.2) <$> serve x.1 cs'
  end.

(** The chunks read from the client in a trace. *)
Definition chunks (fd : Z) (t : list event) : list (list Z) :=
  omap (fun e => match e with
                 | ECall (Read f _) r => if (f =? fd) && (0 <? rv r) then Some (rdata r) else None
                 | _ => None
                 end) t.

(** What the kernel promises about the transfers of a trace. *)
Definition transfer_ok (e : event) : Prop :=
  match e with
  | ECall (Read _ n) r => input_ok n r
  | ECall (Write _ d) r => -1 <= rv r <= Z.of_nat (length d)
  | _ => True
  end.

#[export] Instance transfer_ok_dec e : Decision (transfer_ok e).
Proof. destruct e as [[]| |]; simpl; apply _. Defined.

(** The events of one connection, in the order the loop handles them; each
    reports what the client's interest allows. *)
Inductive conversation (cnt : string -> option obs) (epollfd fd : Z) : clients_t -> list event -> clients_t -> Prop :=
| conv_nil m : conversation cnt epollfd fd m [] m
| conv_event m mask env m' alive rest t m'' t' :
    Z.land mask (Z.lor (armed (client_at m fd)) (Z.lor EPOLLERR EPOLLHUP)) = mask ->
    run (client_event cnt epollfd fd mask m) env = (Done (m', alive) rest, t) ->
    conversation cnt epollfd fd m' t' m'' ->
    conversation cnt epollfd fd m (t ++ t') m''.

Definition good (ctx : client_ctx_t) : Prop :=
  ctx_ok ctx /\ (c_state ctx = STATE_WRITE_STREAM -> 0 <= bytes_to_send ctx).

Lemma chunks_app fd t t' : chunks fd (t ++ t') = chunks fd t ++ chunks fd t'.
Proof. apply omap_app. Qed.

Lemma serve_app acc cs cs' :
  serve acc (cs ++ cs') =
    serve acc cs ≫= fun x => prod_map id (app x.2) <$> serve x.1 cs'.
Proof.
  revert acc. induction cs as [|c cs IH]; intros acc; simpl.
  - by destruct (serve acc cs') as [[]|].
  - destruct (serve_chunk acc c) as [[a o]|]; [|done]. simpl. rewrite IH.
    destruct (serve a cs) as [[a1 o1]|]; [|done]. simpl.
    destruct (serve a1 cs') as [[a2 o2]|]; [|done]. simpl. by rewrite app_assoc.
Qed.

(** *** One event *)

(** What a handler does to the conversation, for the context before and
    after it and its trace. *)
Definition step_ok (fd : Z) (ctx ctx' : client_ctx_t) (t : list event) : Prop :=
  forall acc out, serve (collected ctx) (chunks fd t) = Some (acc, out) ->
    good ctx' /\ sent fd t ++ pending ctx' = pending ctx ++ out /\ collected ctx' = acc.

Lemma step_same fd ctx t :
  good ctx -> sent fd t = [] -> chunks fd t = [] -> step_ok fd ctx ctx t.
Proof.
  intros Hg Hs Hc acc out. rewrite Hc, Hs. cbn [serve]. intros [= <- <-].
  by rewrite app_nil_r.
Qed.

Lemma run_note fd o {A} (f : unit -> prog A) env x rest t :
  run (pbind (note o) f) env = (Done x rest, t) ->
  exists t', run (f tt) env = (Done x rest, t') /\ sent fd t = sent fd t' /\
    chunks fd t = chunks fd t'.
Proof.
  destruct o as [ob|]; cbn [note pbind]; [|by eauto].
  cbn [run]. destruct (run (f tt) env) as [o' t']. intros [= -> <-]. by exists t'.
Qed.

(** The dispatch starts writing exactly the answer. *)
Lemma dispatch_run cnt fd ctx line env ctx' armd rest t out :
  length (read_buf ctx) = READ_BUF -> 0 <= read_len ctx < Z.of_nat READ_BUF ->
  c_state ctx = STATE_READ_COMMAND ->
  run (dispatch cnt ctx line) env = (Done (ctx', armd) rest, t) ->
  answer line = Some out ->
  good ctx' /\ pending ctx' = out /\ collected ctx' = [] /\
  sent fd t = [] /\ chunks fd t = [].
Proof.
  intros Hb Hl Hst Hr Ha. unfold dispatch, answer, READ_BUF in *. limits.
  destruct (strncmp line (str "PING") 4 =? 0); [|destruct (strncmp line (str "BURN") 4 =? 0);
    [|destruct (strncmp line (str "STREAM") 6 =? 0)]];
    apply (run_note fd) in Hr as (t' & Hr & -> & ->); cbn [pbind run] in Hr.
  - simplify_eq. unfold good, ctx_ok, pending, collected. ctx_cbn. unfold READ_BUF.
    repeat split; done || lia.
  - destruct (recursive_burn _) as [sum|] eqn:Hs; [|done]. cbn [defined pbind fmap option_fmap option_map] in *.
    apply recursive_burn_range in Hs. pose proof (result_text_length sum) as Hr'.
    assert (0 < length (result_text sum))%nat.
    { unfold result_text. rewrite !length_app. simpl. lia. }
    set (txt := result_text sum) in *. clearbody txt. injection Ha as <-.
    destruct (mem_store (read_buf ctx) 0 _) as [buf|] eqn:Hm; [|done].
    cbn [defined pbind run] in Hr. simplify_eq.
    pose proof (mem_store_length _ _ _ _ Hm) as Hlen.
    apply (mem_store_prefix []) in Hm. cbn [app] in Hm.
    unfold snprintf_bytes in Hm. destruct (Z.leb_spec (Z.of_nat 1024) 0); [lia|].
    rewrite take_ge in Hm by lia. rewrite <- app_assoc in Hm.
    unfold good, ctx_ok, pending, collected. ctx_cbn. unfold READ_BUF.
    split; [split; [lia|done]|]. split; [|done]. rewrite drop_0, Nat2Z.id, Hm.
    by rewrite take_app_length.
  - destruct (Z.ltb_spec (sscanf_lld line (str "STREAM") 65536) 0); [done|]. simplify_eq.
    assert (LLONG_MIN <= sscanf_lld line (str "STREAM") 65536 <= LLONG_MAX)
      by (apply sscanf_lld_range; lia).
    unfold good, ctx_ok, pending, collected. ctx_cbn. unfold READ_BUF.
    rewrite Z.sub_0_r. repeat split; done || lia.
  - simplify_eq. unfold good, ctx_ok, pending, collected. ctx_cbn. rewrite Hst. unfold READ_BUF.
    repeat split; done || lia.
Qed.

Lemma run_modify epollfd fd ev env u rest t fd' :
  run (modify_epoll_state epollfd fd ev) env = (Done u rest, t) ->
  sent fd' t = [] /\ chunks fd' t = [].
Proof.
  unfold modify_epoll_state. intros (r & rest1 & t1 & t2 & H1 & H2 & ->)%run_bind_done.
  apply run_sys_done in H1 as [-> ->]. cbn in H2. by simplify_eq.
Qed.

Lemma read_event_run cnt epollfd fd ctx env ctx' alive rest t :
  good ctx -> c_state ctx = STATE_READ_COMMAND ->
  run (handle_read_ctx cnt epollfd fd ctx) env = (Done (ctx', alive) rest, t) ->
  Forall transfer_ok t -> step_ok fd ctx ctx' t.
Proof.
  intros Hg Hst Hr Ht. pose proof Hg as ((Hb & Hl & Hlen) & _). rewrite Hst in Hlen.
  unfold handle_read_ctx in Hr.
  apply run_bind_done in Hr as (r & rest1 & t1 & t2 & H1 & H2 & ->).
  apply run_sys_done in H1 as [-> ->]. apply Forall_app in Ht as [[Hr _]%Forall_cons Ht].
  cbn [transfer_ok] in Hr.
  assert (forall t, rv r <= 0 -> chunks fd t = [] ->
    chunks fd ([ECall (Read fd (Z.of_nat READ_BUF - 1 - read_len ctx)) r] ++ t) = []) as Hnone.
  { intros t Hle Hc. rewrite chunks_app, Hc. cbn.
    destruct (Z.ltb_spec 0 (rv r)); [lia|]. by rewrite andb_false_r. }
  destruct (Z.eqb_spec (rv r) (-1)).
  { destruct (again r); cbn in H2; simplify_eq; apply step_same; auto with lia. }
  destruct (Z.eqb_spec (rv r) 0).
  { cbn in H2. simplify_eq. apply step_same; auto with lia. }
  destruct Hr as [[? _]|(Hr1 & Hr2 & _)]; [lia|]. clear Hnone. unfold READ_BUF in *.
  set (acc := take (Z.to_nat (read_len ctx)) (read_buf ctx)).
  assert (length acc = Z.to_nat (read_len ctx)) as Hacc by (unfold acc; rewrite length_take; lia).
  assert (collected ctx = acc) as Hcol by (unfold collected; by rewrite Hst).
  destruct (mem_store (read_buf ctx) (read_len ctx) (rdata r)) as [buf|] eqn:Hm; [|done].
  pose proof (mem_store_length _ _ _ _ Hm) as Hblen.
  rewrite <- (take_drop (Z.to_nat (read_len ctx)) (read_buf ctx)) in Hm. fold acc in Hm.
  replace (read_len ctx) with (Z.of_nat (length acc)) in Hm at 2 by lia.
  apply mem_store_prefix in Hm. cbn [defined pbind] in H2.
  destruct (store_nul buf (read_len ctx + rv r)) as (s & Hsn & Hs & Hsl); [lia|].
  rewrite Hsn in H2. cbn [defined pbind] in H2. rewrite Hs in H2. cbn [defined pbind] in H2.
  assert (take (Z.to_nat (read_len ctx + rv r)) buf = acc ++ rdata r) as Htk.
  { rewrite Hm, app_assoc, take_app_length'; [done|]. rewrite length_app. lia. }
  rewrite Htk in *. clear Hm. set (b := acc ++ rdata r) in *.
  set (rst := drop (S (Z.to_nat (read_len ctx + rv r))) buf) in *.
  assert (length (b ++ 0 :: rst) = 1024%nat) as Hbl.
  { rewrite <- Htk. unfold rst. rewrite store_nul_length; lia. }
  assert (length b = Z.to_nat (read_len ctx + rv r)) as Hb1 by (unfold b; llen).
  pose proof Hs as Hs'. rewrite upto_nul_cstr in Hs'. injection Hs' as Hup.
  assert (forall t1, chunks fd ([ECall (Read fd (Z.of_nat 1024 - 1 - read_len ctx)) r] ++ t1)
    = rdata r :: chunks fd t1) as Hch.
  { intros t1. rewrite chunks_app. cbn. rewrite Z.eqb_refl.
    by destruct (Z.ltb_spec 0 (rv r)); [|lia]. }
  intros acc' out. rewrite Hch. cbn [serve]. unfold serve_chunk. rewrite Hcol. fold b.
  rewrite Hup. rewrite sent_app. cbn [sent app].
  assert (pending ctx = []) as -> by (unfold pending; by rewrite Hst).
  destruct (strchr s NL) as [k|] eqn:Hk.
  - apply strchr_Some in Hk as (a & b' & -> & <- & _). rewrite take_app_length.
    apply cstr_Some in Hs as (r' & Hbr & H0).
    destruct (mem_store (b ++ 0 :: rst) _ [0]) as [buf3|] eqn:Hm3; [|done].
    pose proof (mem_store_length _ _ _ _ Hm3) as Hl3.
    rewrite Hbr, <- app_assoc in Hm3. apply mem_store_prefix in Hm3.
    cbn [defined pbind] in H2. cbn [app] in Hm3.
    assert (cstr buf3 = Some a) as Hc3.
    { rewrite Hm3. apply cstr_app. set_solver +H0. }
    rewrite Hc3 in H2. cbn [defined pbind] in H2.
    apply run_bind_done in H2 as ([ctx2 armd] & rest2 & t3 & t4 & H3 & H4 & ->).
    destruct (answer a) as [o|] eqn:Ha; [|done]. cbn [fmap option_fmap option_map mbind option_bind fst snd].
    eapply dispatch_run in H3 as (Hg2 & Hp2 & Hc2 & Hs2 & Hch2);
      [|ctx_cbn; unfold READ_BUF; lia|ctx_cbn; unfold READ_BUF; lia|done|exact Ha].
    assert (ctx' = ctx2 /\ sent fd t4 = [] /\ chunks fd t4 = []) as (-> & Hs4 & Hch4).
    { destruct armd.
      - apply run_bind_done in H4 as (u & rest5 & t5 & t6 & H5 & H6 & ->).
        eapply run_modify in H5 as [H51 H52]. cbn in H6. simplify_eq.
        by rewrite sent_app, chunks_app, H51, H52.
      - cbn in H4. by simplify_eq. }
    rewrite chunks_app, Hch2, Hch4, sent_app, Hs2, Hs4. cbn [serve app].
    intros [= <- <-]. rewrite app_nil_r. auto.
  - cbn [run] in H2. injection H2 as <- <- <- <-. cbn [chunks omap list_omap serve mbind option_bind fst snd].
    intros [= <- <-]. rewrite app_nil_r.
    unfold good, ctx_ok, pending, collected, READ_BUF. ctx_cbn. rewrite Hst, Hb1.
    rewrite Z2Nat.id by lia.
    destruct (Z.eqb_spec (read_len ctx + rv r) (Z.of_nat 1024 - 1));
      (split; [split; [lia|done]|split; [done|]]); [done|].
    rewrite take_app_length'; [done|lia].
Qed.

Definition sent_more (ctx : client_ctx_t) (w : Z) : client_ctx_t :=
  Ctx (c_fd ctx) (c_state ctx) (read_buf ctx) (read_len ctx) (bytes_to_send ctx)
    (bytes_sent ctx + w).

(** A write branch sends a prefix of what is pending. *)
Lemma write_branch_run fd ctx data complete env ctx' alive rest t d tail :
  good ctx -> c_state ctx <> STATE_READ_COMMAND ->
  data (bytes_to_send ctx - bytes_sent ctx) = Some d -> pending ctx = d ++ tail ->
  (forall w, 0 <= w <= Z.of_nat (length d) -> bytes_sent ctx + w <> bytes_to_send ctx ->
     good (sent_more ctx w) /\ pending (sent_more ctx w) = drop (Z.to_nat w) (pending ctx)) ->
  (forall w env c' rest t, 0 <= w <= Z.of_nat (length d) ->
     bytes_sent ctx + w = bytes_to_send ctx ->
     run (complete (sent_more ctx w)) env = (Done c' rest, t) ->
     good c' /\ pending c' = drop (Z.to_nat w) (pending ctx) /\ collected c' = [] /\
     sent fd t = [] /\ chunks fd t = []) ->
  run (write_branch fd ctx data complete) env = (Done (ctx', alive) rest, t) ->
  Forall transfer_ok t -> step_ok fd ctx ctx' t.
Proof.
  intros Hg Hst Hd Hp Hmore Hdone Hr Ht. unfold write_branch in Hr.
  destruct (checked_ll (bytes_to_send ctx - bytes_sent ctx)) as [n|] eqn:Hn; [|done].
  apply checked_ll_Some in Hn as [-> _]. cbn [defined pbind] in Hr. rewrite Hd in Hr.
  cbn [defined pbind] in Hr.
  apply run_bind_done in Hr as (r & rest1 & t1 & t2 & H1 & H2 & ->).
  apply run_sys_done in H1 as [-> ->]. apply Forall_app in Ht as [[Hw _]%Forall_cons _].
  cbn [transfer_ok] in Hw.
  assert (collected ctx = []) as Hcol by (unfold collected; by destruct (c_state ctx)).
  destruct (Z.ltb_spec (rv r) 0) as [Hneg|Hpos].
  { assert (sent fd [ECall (Write fd d) r] = []) as Hs.
    { cbn. rewrite Z.eqb_refl. by replace (Z.to_nat (rv r)) with 0%nat by lia. }
    destruct (again r); cbn in H2; injection H2 as <- <- <- <-; by apply step_same. }
  destruct (checked_ll (bytes_sent ctx + rv r)) as [k|] eqn:Hk; [|done].
  apply checked_ll_Some in Hk as [-> _]. cbn [defined pbind bytes_sent bytes_to_send] in H2.
  change (Ctx _ _ _ _ _ _) with (sent_more ctx (rv r)) in H2.
  assert (forall t2, sent fd ([ECall (Write fd d) r] ++ t2)
    = take (Z.to_nat (rv r)) (pending ctx) ++ sent fd t2) as Hs.
  { intros t3. rewrite sent_app, Hp. cbn. rewrite Z.eqb_refl, app_nil_r, take_app_le; [done|lia]. }
  assert (forall t2, chunks fd ([ECall (Write fd d) r] ++ t2) = chunks fd t2) as Hc by done.
  intros acc out. rewrite Hs, Hc, Hcol.
  destruct (Z.eqb_spec (bytes_sent ctx + rv r) (bytes_to_send ctx)) as [Heq|Hne].
  - apply run_bind_done in H2 as (c2 & rest2 & t3 & t4 & H3 & H4 & ->).
    cbn in H4. injection H4 as <- <- <- <-.
    destruct (Hdone (rv r) rest1 c2 rest2 t3) as (Hg' & Hp' & Hc' & Hs3 & Hc3);
      [lia|done|done|].
    rewrite !app_nil_r, Hc3, Hs3, Hp'. cbn [serve]. intros [= <- <-].
    by rewrite !app_nil_r, take_drop.
  - cbn in H2. injection H2 as <- <- <- <-. destruct (Hmore (rv r)) as [Hg' Hp']; [lia|done|].
    rewrite Hp'. cbn [serve chunks omap list_omap sent]. intros [= <- <-].
    rewrite !app_nil_r, take_drop. split; [done|split; [done|]].
    unfold collected, sent_more. ctx_cbn. by destruct (c_state ctx).
Qed.

Lemma back_to_reading_run epollfd fd c env c' rest t :
  length (read_buf c) = READ_BUF ->
  run (back_to_reading epollfd fd c) env = (Done c' rest, t) ->
  good c' /\ pending c' = [] /\ collected c' = [] /\ sent fd t = [] /\ chunks fd t = [].
Proof.
  intros Hb (u & rest1 & t1 & t2 & H1 & H2 & ->)%run_bind_done.
  eapply run_modify in H1 as [Hs Hc]. cbn in H2. injection H2 as <- <- <-.
  rewrite app_nil_r, Hs, Hc. unfold good, ctx_ok, READ_BUF in *. ctx_cbn.
  split; [split; [lia|done]|done].
Qed.

(** The branches that write out of an array: the pending bytes are a slice. *)
Lemma slice_branch_run epollfd fd ctx (l : list Z) env ctx' alive rest t :
  good ctx -> c_state ctx <> STATE_READ_COMMAND ->
  bytes_to_send ctx <= Z.of_nat (length l) -> 0 <= bytes_sent ctx < bytes_to_send ctx ->
  (forall w, 0 <= w -> pending (sent_more ctx w) =
     drop (Z.to_nat (bytes_sent ctx + w)) (take (Z.to_nat (bytes_to_send ctx)) l)) ->
  (forall w, 0 <= w -> bytes_sent ctx + w < bytes_to_send ctx -> good (sent_more ctx w)) ->
  run (write_branch fd ctx (mem_slice l (bytes_sent ctx)) (back_to_reading epollfd fd)) env
    = (Done (ctx', alive) rest, t) ->
  Forall transfer_ok t -> step_ok fd ctx ctx' t.
Proof.
  intros Hg Hst Hlen Hs Hp Hgood.
  assert (pending ctx = drop (Z.to_nat (bytes_sent ctx)) (take (Z.to_nat (bytes_to_send ctx)) l)) as Hp0.
  { specialize (Hp 0). rewrite Z.add_0_r in Hp. rewrite <- Hp by lia.
    unfold sent_more. rewrite Z.add_0_r. by destruct ctx. }
  set (d := pending ctx).
  assert (Z.of_nat (length d) = bytes_to_send ctx - bytes_sent ctx) as Hd.
  { unfold d. rewrite Hp0. llen. }
  apply write_branch_run with (d := d) (tail := []).
  - done.
  - done.
  - rewrite mem_slice_some by lia. unfold d. rewrite Hp0. f_equal.
    rewrite take_drop_commute. do 2 f_equal. lia.
  - by rewrite app_nil_r.
  - intros w Hw Hne. split; [apply Hgood; lia|]. rewrite Hp by lia. unfold d. rewrite Hp0, drop_drop.
    f_equal. lia.
  - intros w e c' rest' t' Hw Heq Hr.
    apply back_to_reading_run in Hr as (H1 & H2 & H3); [|apply Hg].
    split; [done|split; [|done]]. rewrite H2. symmetry. apply drop_ge. fold d. lia.
Qed.

Lemma write_event_run epollfd fd ctx env ctx' alive rest t :
  good ctx -> c_state ctx <> STATE_READ_COMMAND ->
  run (handle_write_ctx epollfd fd ctx) env = (Done (ctx', alive) rest, t) ->
  Forall transfer_ok t -> step_ok fd ctx ctx' t.
Proof.
  intros Hg Hst. pose proof Hg as ((Hb & Hl & Hok) & Hpos).
  unfold handle_write_ctx. destruct (c_state ctx) eqn:Es; [done|..].
  - specialize (Hpos eq_refl). limits.
    set (n := bytes_to_send ctx - bytes_sent ctx).
    destruct (to_write_range n) as [Hw1 Hw2]; [lia|]. specialize (Hw2 ltac:(lia)).
    apply write_branch_run with (d := replicate (Z.to_nat (to_write n)) 65)
      (tail := replicate (Z.to_nat (n - to_write n)) 65 ++ DONE_NL).
    + done.
    + by rewrite Es.
    + apply stream_slice. lia.
    + unfold pending. rewrite Es. fold n. rewrite app_assoc, <- replicate_add. do 2 f_equal. lia.
    + rewrite length_replicate. intros w Hw Hne.
      unfold good, ctx_ok, pending, sent_more. ctx_cbn. rewrite Es. split; [lia|].
      rewrite drop_app_le by llen. rewrite drop_replicate. do 2 f_equal. lia.
    + rewrite length_replicate. intros w e c' rest' t' Hw Heq [= <- <- <-].
      unfold good, ctx_ok, pending, sent_more, collected. ctx_cbn. rewrite Es.
      split; [split; [lia|done]|]. split; [|done]. fold n.
      rewrite drop_app_length'; [done|llen].
  - destruct Hok as [Heq Hok]. apply slice_branch_run with (l := PONG_MSG);
      rewrite ?Es, ?Heq; cbn [length PONG_MSG app]; try done.
    + intros w Hw. unfold pending, sent_more. ctx_cbn. by rewrite Es.
    + intros w Hw Hlt. unfold good, ctx_ok, sent_more. ctx_cbn. rewrite Es.
      split; [repeat split; lia|done].
  - destruct Hok as [Hok1 Hok2]. apply slice_branch_run with (l := read_buf ctx);
      rewrite ?Es, ?Hb; try done.
    + unfold READ_BUF. lia.
    + intros w Hw. unfold pending, sent_more. ctx_cbn. by rewrite Es.
    + intros w Hw Hlt. unfold good, ctx_ok, sent_more. ctx_cbn. rewrite Es.
      split; [repeat split; lia|done].
  - destruct Hok as [Heq Hok]. apply slice_branch_run with (l := DONE_MSG);
      rewrite ?Es, ?Heq; cbn [length DONE_MSG app]; try done.
    + intros w Hw. unfold pending, sent_more. ctx_cbn. by rewrite Es.
    + intros w Hw Hlt. unfold good, ctx_ok, sent_more. ctx_cbn. rewrite Es.
      split; [repeat split; lia|done].
Qed.

(** An event handed out under the client's interest runs the right handler. *)
Lemma client_event_run cnt epollfd fd mask m env m' alive rest t :
  Z.land mask (Z.lor (armed (client_at m fd)) (Z.lor EPOLLERR EPOLLHUP)) = mask ->
  good (client_at m fd) ->
  run (client_event cnt epollfd fd mask m) env = (Done (m', alive) rest, t) ->
  Forall transfer_ok t -> step_ok fd (client_at m fd) (client_at m' fd) t.
Proof.
  intros Hmask Hg Hr Ht. unfold client_event, handle_read, handle_write, with_ctx in Hr.
  assert (forall b, Z.testbit mask b = true ->
    Z.testbit (Z.lor (armed (client_at m fd)) (Z.lor EPOLLERR EPOLLHUP)) b = true) as Hbits.
  { intros b Hb. rewrite <- Hmask, Z.land_spec in Hb. by apply andb_prop in Hb as []. }
  assert (forall k, has mask (2 ^ k) = true -> 0 <= k -> Z.testbit mask k = true) as Hhas.
  { intros k Hk Hk0. unfold has in Hk. destruct (Z.testbit mask k) eqn:Eb; [done|].
    replace (Z.land mask (2 ^ k)) with 0 in Hk; [done|]. symmetry. apply Z.bits_inj'. intros i Hi.
    rewrite Z.land_spec, Z.bits_0, Z.pow2_bits_eqb by done.
    destruct (Z.eqb_spec k i) as [<-|]; [by rewrite Eb|apply andb_false_r]. }
  assert (forall f, run (pbind (defined "clients: out of range" (in_table fd)) (fun _ =>
      let! ' (ctx, alive) := f (client_at m fd) in Ret (<[fd:=ctx]> m, alive))) env
      = (Done (m', alive) rest, t) ->
    exists ctx, run (f (client_at m fd)) env = (Done (ctx, alive) rest, t) /\ client_at m' fd = ctx) as Hinv.
  { intros f Hf. destruct (in_table fd); [|done]. cbn [defined pbind] in Hf.
    apply run_bind_done in Hf as ([c a] & rest1 & t1 & t2 & H1 & H2 & ->).
    cbn in H2. injection H2 as <- <- <- <-. exists c. rewrite app_nil_r. split; [done|].
    by rewrite client_at_insert, bool_decide_true. }
  destruct (has mask EPOLLIN) eqn:Ein; [|destruct (has mask EPOLLOUT) eqn:Eout].
  - apply Hinv in Hr as (ctx & Hr & ->). eapply read_event_run; eauto.
    apply (Hhas 0) in Ein; [|done]. apply Hbits in Ein. unfold armed in Ein.
    by destruct (c_state (client_at m fd)).
  - apply Hinv in Hr as (ctx & Hr & ->). eapply write_event_run; eauto.
    apply (Hhas 2) in Eout; [|done]. apply Hbits in Eout. unfold armed in Eout.
    by destruct (c_state (client_at m fd)).
  - cbn in Hr. injection Hr as <- <- <- <-. by apply step_same.
Qed.

(** C5. The conversation with one client, however its bytes are split by
    [read] and [write] and however its events interleave with other clients':
    what was sent, followed by what the context still holds to send, is
    exactly the answers of the reference semantics to the chunks received, and
    the context holds exactly the unfinished line. *)
Theorem conversation_exact cnt epollfd fd m t m' acc out :
  conversation cnt epollfd fd m t m' ->
  good (client_at m fd) ->
  Forall transfer_ok t ->
  serve (collected (client_at m fd)) (chunks fd t) = Some (acc, out) ->
  sent fd t ++ pending (client_at m' fd) = pending (client_at m fd) ++ out /\
  collected (client_at m' fd) = acc.
Proof.
  intros Hc. revert acc out.
  induction Hc as [m|m mask env m1 alive rest t1 m2 t2 Hmask Hr _ IH]; intros acc out Hg Ht.
  - cbn. intros [= <- <-]. by rewrite app_nil_r.
  - apply Forall_app in Ht as [Ht1 Ht2]. rewrite chunks_app, serve_app.
    destruct (serve _ (chunks fd t1)) as [[a1 o1]|] eqn:E1; [|done]. cbn [mbind option_bind fst snd].
    destruct (serve a1 (chunks fd t2)) as [[a2 o2]|] eqn:E2; [|done].
    cbn [fmap option_fmap option_map prod_map fst snd id]. intros [= <- <-].
    destruct (client_event_run cnt epollfd fd mask m env m1 alive rest t1 Hmask Hg Hr Ht1 a1 o1 E1)
      as (Hg1 & Hs1 & Hc1).
    rewrite <- Hc1 in E2. destruct (IH a2 o2 Hg1 Ht2 E2) as [Hs2 Hc2].
    split; [|done]. by rewrite sent_app, <- app_assoc, Hs2, app_assoc, Hs1, app_assoc.
Qed.

(** A stream of negative length never completes: however much was written,
    the next write event starts another chunk. *)
Lemma negative_stream_endless epollfd fd ctx env ctx' alive rest t :
  c_state ctx = STATE_WRITE_STREAM -> bytes_to_send ctx < 0 -> 0 <= bytes_sent ctx ->
  run (handle_write_ctx epollfd fd ctx) env = (Done (ctx', alive) rest, t) ->
  c_state ctx' = STATE_WRITE_STREAM /\ bytes_to_send ctx' = bytes_to_send ctx /\
  bytes_sent ctx <= bytes_sent ctx'.
Proof.
  intros Hst Hneg Hs Hr. unfold handle_write_ctx, write_branch in Hr. rewrite Hst in Hr.
  destruct (checked_ll _) as [n|]; [|done]. cbn [defined pbind] in Hr.
  destruct (mem_slice _ _ _) as [d|]; [|done]. cbn [defined pbind] in Hr.
  apply run_bind_done in Hr as (r & rest1 & t1 & t2 & H1 & H2 & ->).
  destruct (Z.ltb_spec (rv r) 0) as [Hn|Hp].
  { destruct (again r); cbn in H2; injection H2 as <- <- <- <-; auto with lia. }
  destruct (checked_ll (bytes_sent ctx + rv r)) as [k|] eqn:Hk; [|done].
  apply checked_ll_Some in Hk as [-> _]. cbn [defined pbind bytes_sent bytes_to_send] in H2.
  destruct (Z.eqb_spec (bytes_sent ctx + rv r) (bytes_to_send ctx)); [lia|].
  cbn in H2. injection H2 as <- <- <- <-. ctx_cbn. auto with lia.
Qed.


(** ** Witnesses *)

(** The counters of dumb_epoll.c are global. *)
Definition global_counter (name : string) : option obs := Some (FetchAdd name 0 1).

Definition data_reply (s : list Z) : reply := Reply (Z.of_nat (length s)) 0 s [].
Definition ready_reply (l : list (Z * Z)) : reply := Reply (Z.of_nat (length l)) 0 [] l.

(** The same conversation, computed: the state after events with the given
    masks and replies. *)
Fixpoint converse (cnt : string -> option obs) (epollfd fd : Z) (m : clients_t) (evs : list (Z * list reply))
    : option (clients_t * list event) :=
  match evs with
  | [] => Some (m, [])
  | (mask, env) :: evs' =>
      if Z.land mask (Z.lor (armed (client_at m fd)) (Z.lor EPOLLERR EPOLLHUP)) =? mask then
        match run (client_event cnt epollfd fd mask m) env with
        | (Done (m', _) _, t) => prod_map id (app t) <$> converse cnt epollfd fd m' evs'
        | _ => None
        end
      else None
  end.

Lemma converse_sound cnt epollfd fd m evs m' t :
  converse cnt epollfd fd m evs = Some (m', t) -> conversation cnt epollfd fd m t m'.
Proof.
  revert m t. induction evs as [|[mask env] evs IH]; intros m t; cbn [converse].
  - intros [= <- <-]. constructor.
  - destruct (Z.eqb_spec (Z.land mask (Z.lor (armed (client_at m fd)) (Z.lor EPOLLERR EPOLLHUP)))
      mask) as [Hm|]; [|done].
    destruct (run (client_event cnt epollfd fd mask m) env) as [[[m1 al] rest| | | |] t1] eqn:Er; try done.
    destruct (converse cnt epollfd fd m1 evs) as [[m2 t2]|] eqn:E2; [|done]. intros [= <- <-].
    econstructor; [done|done|]. by apply IH.
Qed.

(** [PING] arrives in two pieces with a second command pipelined behind it;
    the answer leaves in two writes and the pipelined command is dropped. *)
Definition ping_events : list (Z * list reply) :=
  [(EPOLLIN, [data_reply (str "PI")]);
   (EPOLLIN, [data_reply (str "NG" ++ [NL] ++ str "PING" ++ [NL]); rint 0]);
   (EPOLLOUT, [rint 2]); (EPOLLOUT, [rint 3; rint 0])].

Lemma conversation_exact_witness :
  exists m' t, converse global_counter 4 5 ∅ ping_events = Some (m', t) /\
    sent 5 t ++ pending (client_at m' 5) = pending (client_at ∅ 5) ++ PONG_NL /\
    collected (client_at m' 5) = [].
Proof.
  destruct (converse global_counter 4 5 ∅ ping_events) as [[m' t]|] eqn:E; [|exfalso; by vm_compute in E].
  exists m', t. split; [done|].
  apply (conversation_exact global_counter 4 5 ∅ t m').
  - by apply converse_sound in E.
  - unfold good, ctx_ok. cbn [client_at]. repeat split; vm_compute; congruence || reflexivity.
  - vm_compute in E. injection E as _ <-. vm_decide.
  - vm_compute in E. injection E as _ <-. vm_compute. reflexivity.
Defined.

