(* ===== verification/ClientTable.v ===== *)
(** * The table of client contexts and the epoll sets that serve it

    The event-driven DUMB servers index their contexts by descriptor.  The
    invariant [table_ok] relates the table to the kernel: every descriptor
    registered with a serving epoll instance is an open client with a
    well-formed context, armed for what its state waits for, and registered
    with one instance only.  The lemmas say how the operations of the servers
    keep it. *)

From S2P Require Import Prelude CLib Os Kernel DumbCommon ClientState.

Local Open Scope Z_scope.

Section Table.
Context (E : call -> reply -> Prop).
(** The descriptors of the server itself (never closed), the epoll instances
    that serve clients, the instance that watches the listening socket, and
    that socket. *)
Context (infra epolls : gset Z) (acceptor listener : Z).

Definition table_ok (m : clients_t) (κ : kern) : Prop :=
  (infra ⊆ k_open κ /\ epolls ⊆ infra /\ (listener ∈ infra /\ acceptor ∈ infra) /\
   forall f, length (read_buf (client_at m f)) = READ_BUF) /\
  forall e f v, k_watch κ !! (e, f) = Some v ->
    (e = acceptor /\ f = listener) \/
    (e ∈ epolls /\ f ∈ k_open κ /\ f ∉ infra /\ 0 <= f < MAX_FDS /\
     ctx_ok (client_at m f) /\ (ctl_ok E -> v = armed (client_at m f)) /\
     forall e' v', k_watch κ !! (e', f) = Some v' -> e' = e).

(** The store of a handler's result back into the table. *)
Lemma table_rearmed m κ κ' e fd ctx :
  table_ok m κ -> fd <> listener -> is_Some (k_watch κ !! (e, fd)) ->
  ctx_ok ctx -> rearmed E e fd κ κ' ctx ->
  table_ok (<[fd := ctx]> m) κ' /\ is_Some (k_watch κ' !! (e, fd)) /\ others fd κ κ'.
Proof.
  intros ((Hi & He & Hl & Hlen) & Hw) Hne [v0 Hv0] Hok (Hop' & v & Hw' & Hv).
  pose proof (Hw _ _ _ Hv0) as [[_ ?]|(Hin & Hop & Hni & Hr & _ & _ & Huniq)]; [done|].
  rewrite Hw'. split; [split|split].
  - rewrite Hop'. split; [done|split; [done|split; [done|]]]. intros f. rewrite client_at_insert.
    case_bool_decide; [apply Hok|apply Hlen].
  - rewrite Hop', Hw'. intros e1 f v1 [[[= <- <-] <-]|[Hk H]]%lookup_insert_Some.
    + right. rewrite client_at_insert, bool_decide_true by done.
      repeat (split; [done|]).
      intros e' v' H. apply lookup_insert_Some in H as [[Heq _]|[_ H]]; [congruence|by eapply Huniq].
    + destruct (Hw _ _ _ H) as [?|(Hin1 & Hop1 & Hni1 & Hr1 & Hc1 & Hv1 & Hu1)]; [by left|right].
      assert (fd <> f) as Hff by (intros <-; apply Huniq in H; congruence).
      rewrite client_at_insert, bool_decide_false by done.
      repeat (split; [done|]).
      intros e' v' [[[= <- <-] _]|[_ H']]%lookup_insert_Some; [done|by eapply Hu1].
  - rewrite lookup_insert. by rewrite decide_True.
  - intros e1 f v1 Hf Hv1. rewrite Hw', lookup_insert_ne; [done|congruence].
Qed.

Lemma wp_with_ctx m κ fd f Q :
  0 <= fd < MAX_FDS ->
  wp E epoll_ub any_call (f (client_at m fd)) κ (fun x κ' => Q (<[fd := x.1]> m, x.2) κ') ->
  wp E epoll_ub any_call (with_ctx m fd f) κ Q.
Proof.
  intros Hfd Hf. unfold with_ctx. rewrite in_table_some by done. cbn [defined pbind].
  apply wp_bind. eapply wp_mono; [|exact Hf]. by intros [c b] κ'.
Qed.

Lemma wp_client_event cnt m κ e fd mask :
  table_ok m κ -> fd <> listener -> is_Some (k_watch κ !! (e, fd)) ->
  wp E epoll_ub any_call (client_event cnt e fd mask m) κ
    (fun x κ' => table_ok x.1 κ' /\ is_Some (k_watch κ' !! (e, fd)) /\ others fd κ κ').
Proof.
  intros Ht Hne [v Hv]. pose proof Ht as ((Hi & He & Hl & Hlen) & Hw).
  destruct (Hw _ _ _ Hv) as [[_ ?]|(Hin & Hop & Hni & Hfd & Hok & Hva & _)]; [done|].
  assert (registered E e fd κ (client_at m fd)) as Hreg.
  { split; [by apply Hi, He|split; [done|]]. eauto. }
  unfold client_event, handle_read, handle_write.
  destruct (has mask EPOLLIN); [|destruct (has mask EPOLLOUT)]; [| |simpl].
  - apply wp_with_ctx; [done|].
    eapply wp_mono; [|by apply wp_handle_read_ctx]. intros [c b] κ' [H1 H2].
    by apply table_rearmed.
  - apply wp_with_ctx; [done|].
    eapply wp_mono; [|by apply wp_handle_write_ctx]. intros [c b] κ' [H1 H2].
    by apply table_rearmed.
  - split; [done|split; [by exists v|apply others_refl]].
Qed.

Lemma table_close m κ κ1 fd :
  table_ok m κ -> fd ∉ infra ->
  k_open κ1 ∖ {[fd]} = k_open κ ∖ {[fd]} ->
  (forall e f v, f <> fd -> k_watch κ1 !! (e, f) = Some v -> k_watch κ !! (e, f) = Some v) ->
  forall r, table_ok m (kern_next κ1 (Close fd) r).
Proof.
  intros ((Hi & He & Hl & Hlen) & Hw) Hni Ho Hk r. unfold table_ok. cbn [kern_next k_open k_watch].
  rewrite Ho. split; [split; [|done]|].
  { intros x Hx. apply elem_of_difference. split; [by apply Hi|].
    intros ->%elem_of_singleton. done. }
  intros e f v [H [Hd1 Hd2]]%map_lookup_filter_Some. cbn in Hd1, Hd2.
  apply Hk, Hw in H as [?|(Ha & Hb & Hc & Hd & Hf & Hg & Hu)]; [by left|right|done].
  split; [done|split; [by apply open_other|]]. repeat (split; [done|]).
  intros e' v' [H' _]%map_lookup_filter_Some. eapply Hu, Hk; [done|exact H'].
Qed.

Lemma others_close κ κ1 fd r :
  (forall e v, k_watch κ !! (fd, e) = Some v -> False) ->
  others fd κ κ1 -> others fd κ (kern_next κ1 (Close fd) r).
Proof.
  intros Hne Ho e f v Hf Hv. cbn [kern_next k_watch]. apply map_lookup_filter_Some.
  split; [by apply Ho|]. cbn. split; [|done]. intros ->. by eapply Hne.
Qed.

(** These reach no undefined behaviour of their own. *)
Context (U : string -> Prop).

Lemma wp_make_socket_non_blocking κ fd Q :
  fd ∈ k_open κ -> (forall z, Q z κ) ->
  wp E U any_call (make_socket_non_blocking fd) κ Q.
Proof.
  intros Hfd HQ. unfold make_socket_non_blocking.
  wp_sys g _ _. destruct (rv g =? -1); [simpl; auto|].
  wp_sys s _ _. destruct (rv s =? -1); simpl; auto.
Qed.
(** A new connection: its context is fresh and no instance watches it. *)
Definition accepted (κ : kern) (fd : Z) : kern := Kern ({[fd]} ∪ k_open κ) (k_watch κ).

Lemma watch_open m κ e f v : table_ok m κ -> k_watch κ !! (e, f) = Some v -> f ∈ k_open κ.
Proof.
  intros ((Hi & He & Hl & _) & Hw) Hv. destruct (Hw _ _ _ Hv) as [[_ ->]|(_ & ? & _)]; [|done].
  by apply Hi, Hl.
Qed.

Lemma watch_infra m κ e f v : table_ok m κ -> k_watch κ !! (e, f) = Some v -> e ∈ infra.
Proof.
  intros ((Hi & He & Hl & _) & Hw) Hv. destruct (Hw _ _ _ Hv) as [[-> _]|(? & _)]; [apply Hl|].
  by apply He.
Qed.

Lemma table_accept m κ e fd c r :
  table_ok m κ -> e ∈ epolls -> fd ∉ k_open κ -> 0 <= fd < MAX_FDS -> ctx_ok c ->
  armed c = EPOLLIN ->
  let κ' := kern_next (accepted κ fd) (EpollCtl e EPOLL_CTL_ADD fd EPOLLIN) r in
  table_ok (<[fd := c]> m) κ' /\ others listener κ κ'.
Proof.
  intros Ht Hep Hfd Hr Hok Ha. pose proof Ht as ((Hi & He & Hl & Hlen) & Hw).
  assert (forall e f v, k_watch κ !! (e, f) = Some v -> f <> fd) as Hfresh.
  { intros e1 f v Hv ->. by apply (watch_open m) in Hv. }
  assert (fd ∉ infra) as Hni by (intros H; by apply Hfd, Hi).
  assert (forall κ', k_open κ' = {[fd]} ∪ k_open κ ->
    (forall e1 f v, k_watch κ' !! (e1, f) = Some v ->
       k_watch κ !! (e1, f) = Some v \/ (e1 = e /\ f = fd /\ v = EPOLLIN)) ->
    table_ok (<[fd := c]> m) κ') as Hbase.
  { intros κ' Ho' Hw'. unfold table_ok. rewrite Ho'. split; [split; [|split; [done|split; [done|]]]|].
    - intros x Hx. apply open_old, Hi, Hx.
    - intros f. rewrite client_at_insert. case_bool_decide; [apply Hok|apply Hlen].
    - intros e1 f v Hv. destruct (Hw' _ _ _ Hv) as [H|(-> & -> & ->)].
      + pose proof (Hfresh _ _ _ H) as Hne.
        destruct (Hw _ _ _ H) as [?|(H1 & H2 & H3 & H4 & H5 & H6 & H7)]; [by left|right].
        rewrite client_at_insert, bool_decide_false by done.
        split; [done|split; [by apply open_old|]]. repeat (split; [done|]).
        intros e' v' [H'|(_ & ? & _)]%Hw'; [by eapply H7|done].
      + right. rewrite client_at_insert, bool_decide_true by done.
        split; [done|split; [apply open_new|]]. split; [done|]. split; [done|split; [done|]].
        split; [done|].
        intros e' v' [H'|(-> & _ & _)]%Hw'; [|done]. by apply Hfresh in H'. }
  cbn [kern_next k_open k_watch accepted]. split.
  - apply Hbase; [by destruct (rv r =? 0)|]. intros e1 f v.
    destruct (rv r =? 0); cbn; [|by left].
    intros [[Heq <-]|[_ H]]%lookup_insert_Some; [right|by left]. by simplify_eq.
  - intros e1 f v _ Hv. destruct (rv r =? 0); cbn; [|done].
    rewrite lookup_insert_ne; [done|]. intros [= _ <-]. by apply Hfresh in Hv.
Qed.

Lemma table_refused m κ fd r :
  table_ok m κ -> fd ∉ k_open κ ->
  table_ok m (kern_next (accepted κ fd) (Close fd) r) /\
  others listener κ (kern_next (accepted κ fd) (Close fd) r).
Proof.
  intros Ht Hfd. pose proof Ht as ((Hi & He & Hl & Hlen) & Hw). split.
  - apply (table_close m κ); [done|by intros H; apply Hfd, Hi|apply union_close|done].
  - intros e f v _ Hv. cbn. apply map_lookup_filter_Some. split; [done|]. cbn.
    split; intros Heq; subst.
    + by apply Hfd, Hi, (watch_infra m κ fd f v).
    + by apply (watch_open m) in Hv.
Qed.

Lemma wp_accept_client {X} m κ (brk cont : X) k Q :
  table_ok m κ ->
  Q brk κ ->
  (forall κ', table_ok m κ' -> others listener κ κ' -> Q cont κ') ->
  (forall fd, fd ∉ k_open κ -> 0 <= fd < MAX_FDS ->
     wp E U any_call (k fd) (accepted κ fd) Q) ->
  wp E U any_call (accept_client listener brk cont k) κ Q.
Proof.
  intros Ht Hbrk Hcont Hk. pose proof Ht as ((Hi & He & Hl & Hlen) & Hw).
  assert (listener ∈ k_open κ) as Hlo by (by apply Hi, Hl).
  unfold accept_client. wp_sys a Hacc _.
  destruct (Z.eqb_spec (rv a) (-1)) as [Hm1|Hm1].
  { destruct (Z.leb_spec 0 (rv a)); [lia|]. done. }
  destruct Hacc as [?|[Hpos Hnew]]; [lia|]. rewrite (proj2 (Z.leb_le 0 (rv a))) by done.
  destruct (Z.leb_spec MAX_FDS (rv a)).
  - wp_sys r _ _. destruct (table_refused m κ (rv a) r Ht Hnew) as [H1 H2].
    by apply Hcont.
  - apply wp_bind. apply wp_make_socket_non_blocking; [apply open_new|]. intros _.
    apply Hk; [done|lia].
Qed.

(** Initialising the context, and registering the connection. *)
Lemma wp_init_client {X} m κ0 κ fd (q : clients_t -> prog X) Q :
  table_ok m κ0 -> 0 <= fd < MAX_FDS ->
  (forall c, ctx_ok c -> armed c = EPOLLIN -> wp E U any_call (q (<[fd := c]> m)) κ Q) ->
  wp E U any_call (pbind (init_client_ctx m fd) q) κ Q.
Proof.
  intros ((Hi & He & Hl & Hlen) & Hw) Hr Hq. unfold init_client_ctx.
  rewrite in_table_some by done. cbn [defined pbind]. apply Hq; [|done].
  unfold ctx_ok, READ_BUF. ctx_cbn. split; [apply Hlen|lia].
Qed.

Lemma wp_add_client {X} m κ e fd c (q : reply -> prog X) Q :
  table_ok m κ -> e ∈ epolls -> fd ∉ k_open κ -> 0 <= fd < MAX_FDS -> ctx_ok c ->
  armed c = EPOLLIN ->
  (forall r κ', table_ok (<[fd := c]> m) κ' -> others listener κ κ' ->
     wp E U any_call (q r) κ' Q) ->
  wp E U any_call (pbind (sys (EpollCtl e EPOLL_CTL_ADD fd EPOLLIN)) q) (accepted κ fd) Q.
Proof.
  intros Ht Hep Hfd Hr Hc Ha Hq. pose proof Ht as ((Hi & He & Hl & Hlen) & Hw).
  cbn [sys pbind wp]. split.
  - split; [|exact I]. unfold call_ok; cbn [call_fds call_size k_open k_watch accepted].
    split; [|split; [lia|]].
    + constructor; [by apply open_old, Hi, He|]. constructor; [apply open_new|constructor].
    + destruct (k_watch κ !! (e, fd)) as [v|] eqn:Hv; [|done].
      by apply (watch_open m) in Hv.
  - intros r _ _. destruct (table_accept m κ e fd c r) as [H1 H2]; try done.
    by apply Hq.
Qed.

(** An event on a client, and the farewell when it is gone. *)
Lemma wp_serve_event cnt bye m κ e fd mask :
  table_ok m κ -> fd <> listener -> is_Some (k_watch κ !! (e, fd)) ->
  wp E epoll_ub any_call (serve_event cnt bye e (fd, mask) m) κ
    (fun m' κ' => table_ok m' κ' /\ others fd κ κ').
Proof.
  intros Ht Hne Hwt. unfold serve_event. apply wp_bind.
  eapply wp_mono; [|by apply wp_client_event].
  intros [m' alive] κ1 (Ht1 & [v1 Hv1] & Ho1). cbn [fst snd] in *.
  destruct (negb alive || has mask _); [|done].
  pose proof Ht1 as ((Hi & He & Hl & Hlen) & Hw).
  destruct (Hw _ _ _ Hv1) as [[_ ?]|(Hin & Hop & Hni & _)]; [done|].
  cbn [sys pbind wp]. split.
  { split; [|exact I]. unfold call_ok. cbn [call_fds call_size].
    split; [|split; [lia|by exists v1]].
    constructor; [by apply Hi, He|]. by constructor; [|constructor]. }
  intros d _ _. set (κ2 := kern_next κ1 _ d).
  assert (k_open κ2 = k_open κ1) as Ho2 by (unfold κ2; cbn; by destruct (rv d =? 0)).
  assert (forall e1 f, f <> fd -> k_watch κ2 !! (e1, f) = k_watch κ1 !! (e1, f)) as Hw2.
  { intros e1 f Hf. unfold κ2. cbn. destruct (rv d =? 0); [|done]. cbn.
    rewrite lookup_delete_ne; [done|congruence]. }
  clearbody κ2. split.
  { split; [|exact I]. unfold call_ok. cbn [call_fds call_size]. rewrite Ho2.
    split; [by constructor; [|constructor]|by split]. }
  intros r _ _. split.
  - apply (table_close m' κ1); [done|done|by rewrite Ho2|].
    intros e1 f w Hf. by rewrite Hw2.
  - apply others_close.
    + intros e1 v Hv. by apply Hni, (watch_infra m κ fd e1 v).
    + intros e1 f w Hf Hfw. rewrite Hw2 by done. by apply Ho1.
Qed.
End Table.
