(* ===== verification/DumbEpoll.v ===== *)
(** * servers/code/dumb_epoll.c

    The single-threaded event-driven server: the epoll loop that drives the
    client state machine over the table of contexts. *)

From S2P Require Import Prelude CLib Os Kernel DumbCommon ClientState ClientTable.

Local Open Scope Z_scope.

Definition MAX_EVENTS : Z := 10000.

Definition handle_read := ClientState.handle_read global_counter.
Definition handle_write := ClientState.handle_write.

Definition accept_iter (epollfd listener : Z) (m : clients_t)
    : prog (clients_t + clients_t) :=
  accept_client listener (inr m) (inl m) (fun client_fd =>
  let! m := init_client_ctx m client_fd in
  sys (EpollCtl epollfd EPOLL_CTL_ADD client_fd EPOLLIN) ;;;
  fetch_add "active_connections" 1 ;;;
  Ret (inl m)).

(** The body of the loop over the ready events. *)
Definition event_step (F : nat) (epollfd listener : Z) (ev : Z * Z) (m : clients_t)
    : prog clients_t :=
  let '(current_fd, mask) := ev in
  if current_fd =? listener then loop F (accept_iter epollfd listener) m else
  serve_event global_counter (FetchAdd "active_connections" 0 (-1)) epollfd
    (current_fd, mask) m.

Definition wait_iter (F : nat) (epollfd listener : Z) (m : clients_t)
    : prog (clients_t + Z) :=
  let! w := sys (EpollWait epollfd MAX_EVENTS) in
  let! m := for_each (event_step F epollfd listener) (revs w) m in
  Ret (inl m).

(** [F] bounds the turns of the two infinite loops. *)
Definition main (F : nat) : prog Z :=
  ignored "signal(SIGPIPE, SIG_IGN)" [] ;;;
  ignored "active_threads = 1" [] ;;;
  sys (ThreadCreate "metrics_server_thread" (-1)) ;;;
  let! l := sys Socket in
  let listener := rv l in
  sys (Setsockopt listener) ;;;
  make_socket_non_blocking listener ;;;
  let! b := sys (Bind listener PORT) in
  if rv b <? 0 then perror "bind" ;;; Ret EXIT_FAILURE else
  let! li := sys (Listen listener MAX_FDS) in
  if rv li <? 0 then perror "listen" ;;; Ret EXIT_FAILURE else
  printf "DUMB epoll server listening on 0.0.0.0:%d" [PZ PORT] ;;;
  let! e := sys EpollCreate in
  let epollfd := rv e in
  sys (EpollCtl epollfd EPOLL_CTL_ADD listener EPOLLIN) ;;;
  loop F (wait_iter F epollfd listener) ∅.

(** ** The event loop *)
Section Loop.
Context (E : call -> reply -> Prop) (epollfd listener : Z).

(** What holds between two events. *)
Definition loop_ok : clients_t -> kern -> Prop :=
  table_ok E {[epollfd; listener]} {[epollfd]} epollfd listener.

(** The events still to be handled are distinct and truly pending. *)
Definition batch_ok (evs : list (Z * Z)) (m : clients_t) (κ : kern) : Prop :=
  loop_ok m κ /\ NoDup evs.*1 /\ Forall (ready_ok κ epollfd) evs.

Lemma batch_next fd mask evs m m' κ κ' :
  batch_ok ((fd, mask) :: evs) m κ -> loop_ok m' κ' -> others fd κ κ' -> batch_ok evs m' κ'.
Proof.
  intros (_ & [Hn Hnd]%NoDup_cons & [_ Hf]%Forall_cons) Ht Ho.
  split; [done|split; [done|]]. by eapply others_ready.
Qed.

Lemma wp_accept_loop F m κ :
  loop_ok m κ ->
  wp E epoll_ub any_call (loop F (accept_iter epollfd listener) m) κ
    (fun m' κ' => loop_ok m' κ' /\ others listener κ κ').
Proof.
  intros Ht. apply wp_loop with (I := fun m' κ' => loop_ok m' κ' /\ others listener κ κ');
    [|by split; [|apply others_refl]].
  clear m Ht. intros m κ1 [Ht Ho]. unfold accept_iter.
  eapply wp_accept_client; [exact Ht|done|..].
  - intros κ' Ht' Ho'. split; [done|]. by eapply others_trans.
  - intros fd Hfd Hr. eapply wp_init_client; [exact Ht|done|]. intros c Hc Ha.
    eapply wp_add_client; [exact Ht|by apply elem_of_singleton|done..|].
    intros r κ' Ht' Ho'. cbn. split; [done|]. by eapply others_trans.
Qed.

Lemma wp_event_step F fd mask evs m κ :
  batch_ok ((fd, mask) :: evs) m κ ->
  wp E epoll_ub any_call (event_step F epollfd listener (fd, mask) m) κ (batch_ok evs).
Proof.
  intros Hbatch. pose proof Hbatch as (Ht & _ & [Hr _]%Forall_cons).
  unfold event_step. destruct (Z.eqb_spec fd listener) as [->|Hne].
  - eapply wp_mono; [|by apply wp_accept_loop]. intros m' κ' [H1 H2]. by eapply batch_next.
  - unfold ready_ok in Hr. cbn [fst] in Hr.
    destruct (k_watch κ !! (epollfd, fd)) as [v|] eqn:Hv; [|done].
    eapply wp_mono; [|eapply wp_serve_event; [exact Ht|done|by exists v]].
    intros m' κ' [H1 H2]. by eapply batch_next.
Qed.

Lemma wp_wait_iter F m κ :
  loop_ok m κ ->
  wp E epoll_ub any_call (wait_iter F epollfd listener m) κ
    (fun x κ' => match x with inl m' => loop_ok m' κ' | inr _ => False end).
Proof.
  intros Ht. pose proof Ht as ((Hi & _) & _).
  assert (epollfd ∈ k_open κ) by (apply Hi; set_solver +).
  unfold wait_iter. wp_sys w Hw _.
  apply wp_bind. apply wp_for_each with (I := batch_ok).
  - intros [fd mask] evs m1 κ1. apply wp_event_step.
  - intros m1 κ1 (H1 & _). exact H1.
  - split; [done|]. destruct Hw as [[_ ->]|(_ & _ & Hnd & Hf)]; [|done]. split; constructor.
Qed.
End Loop.

(** C6. The epoll server stays inside its buffers and its client table in
    every run in which [socket] and [epoll_create1] succeed
    ([creation_succeeds]: the code does not test their results,
    [epoll_socket_unchecked]): whatever the clients send and however the kernel
    splits reads and writes, every call is on an open descriptor, MOD and DEL only name
    registered ones, ADD only fresh ones, no event is applied to a descriptor
    closed earlier in the batch, and the only undefined behaviour reachable is
    the overflow of [recursive_burn] or of the byte count of a stream of
    negative length. *)
Theorem epoll_server_safe F κ env :
  k_watch κ = ∅ ->
  safe_run creation_succeeds epoll_ub any_call κ (fun _ _ => True) (run (main F) env).
Proof.
  intros Hκ. apply wp_sound. unfold main. cbn [ignored pbind wp sys].
  wp_sys ? _ _. set (κ1 := if _ =? 0 then _ else _).
  assert (k_watch κ1 = ∅) as Hκ1 by (unfold κ1; destruct (_ =? 0); done).
  clearbody κ1. clear Hκ κ.
  cbn [wp]. split; [split; [split; [constructor|done]|exact I]|].
  intros l Hl Hcl. cbn [creation_succeeds] in Hcl. destruct Hl as [?|[_ Hnew]]; [lia|].
  cbn [kern_next]. rewrite (proj2 (Z.leb_le 0 (rv l))) by done.
  wp_sys ? _ _. apply wp_bind, wp_make_socket_non_blocking; [apply open_new|]. intros _.
  wp_sys b _ _. destruct (rv b <? 0); [done|]. wp_sys li _ _. destruct (rv li <? 0); [done|].
  cbn [printf pbind wp]. wp_sys e He Hce. cbn [creation_succeeds] in Hce.
  destruct He as [?|[_ Hnew2]]; [lia|]. rewrite (proj2 (Z.leb_le 0 (rv e))) by done.
  assert (rv l <> rv e) as Hle by (intros Heq; apply Hnew2; rewrite Heq; apply open_new).
  cbn [k_open k_watch wp]. rewrite Hκ1. split.
  { split; [|exact I]. unfold call_ok. cbn [call_fds call_size k_open k_watch].
    split; [eauto 8 with kern|split; [lia|apply lookup_empty]]. }
  intros ra _ _. apply wp_loop with (I := loop_ok creation_succeeds (rv e) (rv l)).
  { intros m κ' Ht. eapply wp_mono; [|by apply wp_wait_iter]. by intros [m'|z] κ2. }
  unfold loop_ok, table_ok. cbn [kern_next k_open k_watch].
  split; [repeat split; [|set_solver +|set_solver +|set_solver +]|].
  - destruct (rv ra =? 0); cbn; set_solver +.
  - intros e' f v. destruct (rv ra =? 0); cbn; [|by rewrite lookup_empty].
    intros [[[= <- <-] <-]|[_ H]]%lookup_insert_Some; [|by rewrite lookup_empty in H].
    by left.
Qed.

(** When [socket] fails, the server goes on with descriptor -1. *)
Lemma epoll_socket_unchecked F r0 r1 r2 env :
  rv r1 = -1 ->
  exists t, (run (main F) (r0 :: r1 :: r2 :: env)).2 =
    [ESay (Ignored "signal(SIGPIPE, SIG_IGN)" []); ESay (Ignored "active_threads = 1" []);
     ECall (ThreadCreate "metrics_server_thread" (-1)) r0; ECall Socket r1;
     ECall (Setsockopt (-1)) r2] ++ t.
Proof.
  intros H. unfold main. cbn [run pbind ignored sys]. rewrite H.
  match goal with |- context [run ?p env] => destruct (run p env) as [o t] end. by exists t.
Qed.

(** ** Witness *)
(** One client asks for a stream of 3 bytes and gets it in two writes. *)
Definition epoll_env : list reply :=
  [rint 0; rint 3; rint 0; rint 2; rint 0; rint 0; rint 0; rint 4; rint 0;
   ready_reply [(3, EPOLLIN)]; rint 5; rint 2; rint 0; rint 0; rint (-1);
   ready_reply [(5, EPOLLIN)]; data_reply (str "STREAM 3" ++ [NL]); rint 0;
   ready_reply [(5, EPOLLOUT)]; rint 2; ready_reply [(5, EPOLLOUT)]; rint 1;
   ready_reply [(5, EPOLLOUT)]; rint 5; rint 0;
   ready_reply [(5, EPOLLIN + EPOLLHUP)]; data_reply []; rint 0; rint 0].

Lemma epoll_server_safe_witness :
  exists o t, run (main 20) epoll_env = (o, t) /\
    safe_run creation_succeeds epoll_ub any_call kern0 (fun _ _ => True) (o, t) /\
    sent 5 t = str "AAADONE" ++ [NL] /\ last t = Some (EPend (EpollWait 4 MAX_EVENTS)).
Proof.
  eexists _, _. split; [apply surjective_pairing|].
  rewrite <- surjective_pairing. split; [|split; vm_compute; reflexivity].
  apply epoll_server_safe. reflexivity.
Defined.
