(* ===== verification/DumbWorkers.v ===== *)
(** * servers/code/dumb_epoll_workers.c

    One acceptor thread, one worker thread per core with its own epoll
    instance, and a metrics thread that formats the per-worker counters.  The
    connections go to the workers in round-robin order. *)

From S2P Require Import Prelude CLib Os Kernel DumbCommon ClientState ClientTable.

Local Open Scope Z_scope.

Definition MAX_EVENTS : Z := 10000.

(** [id] indexes the counters of the worker; its thread id is never read. *)
Record worker_ctx_t := Worker { w_id : Z; w_epoll_fd : Z }.

(** ** The worker threads *)
Definition worker_counter (w : worker_ctx_t) (name : string) : option obs :=
  Some (FetchAdd name (w_id w) 1).

Definition handle_read (w : worker_ctx_t) := ClientState.handle_read (worker_counter w) (w_epoll_fd w).
Definition handle_write (w : worker_ctx_t) := ClientState.handle_write (w_epoll_fd w).

Definition worker_event (w : worker_ctx_t) (ev : Z * Z) (m : clients_t) : prog clients_t :=
  serve_event (worker_counter w) (FetchAdd "active_connections" (w_id w) (-1))
    (w_epoll_fd w) ev m.

Definition worker_wait (w : worker_ctx_t) (m : clients_t) : prog (clients_t + unit) :=
  let! r := sys (EpollWait (w_epoll_fd w) MAX_EVENTS) in
  let! m := for_each (worker_event w) (revs r) m in
  Ret (inl m).

Definition worker_thread (F : nat) (w : worker_ctx_t) (m : clients_t) : prog unit :=
  printf "Worker %d awaiting I/O events (epoll_fd=%d)" [PZ (w_id w); PZ (w_epoll_fd w)] ;;;
  loop F (worker_wait w) m.

(** ** The acceptor *)

(** [rr_counter % num_cores_global]; the modulus is the number of workers. *)
Definition target_worker (workers : list worker_ctx_t) (rr_counter : Z) : option worker_ctx_t :=
  let num_cores_global := Z.of_nat (length workers) in
  if num_cores_global =? 0 then None else mem_load workers (Z.rem rr_counter num_cores_global).

Definition accept_iter (workers : list worker_ctx_t) (listener : Z) (st : Z * clients_t)
    : prog (Z * clients_t + Z * clients_t) :=
  let '(rr_counter, m) := st in
  accept_client listener (inr (rr_counter, m)) (inl (rr_counter, m)) (fun client_fd =>
  let! m := init_client_ctx m client_fd in
  let! w := defined "workers: out of range" (target_worker workers rr_counter) in
  let! rr_counter := defined "overflow: rr_counter" (checked_int (rr_counter + 1)) in
  sys (EpollCtl (w_epoll_fd w) EPOLL_CTL_ADD client_fd EPOLLIN) ;;;
  Say (FetchAdd "active_connections" (w_id w) 1)
    (Ret (inl (rr_counter, m)))).

Definition acceptor_event (F : nat) (workers : list worker_ctx_t) (listener : Z)
    (ev : Z * Z) (st : Z * clients_t) : prog (Z * clients_t) :=
  if ev.1 =? listener then loop F (accept_iter workers listener) st else Ret st.

Definition acceptor_wait (F : nat) (workers : list worker_ctx_t) (acceptor_epoll listener : Z)
    (st : Z * clients_t) : prog (Z * clients_t + Z) :=
  let! r := sys (EpollWait acceptor_epoll MAX_EVENTS) in
  let! st := for_each (acceptor_event F workers listener) (revs r) st in
  Ret (inl st).

(** [workers[i].id = i; workers[i].epoll_fd = epoll_create1(0); pthread_create(...)] *)
Definition start_worker (i : nat) (ws : list worker_ctx_t) : prog (list worker_ctx_t) :=
  let! e := sys EpollCreate in
  sys (Spawn "worker_thread" (Z.of_nat i)) ;;;
  Ret (ws ++ [Worker (Z.of_nat i) (rv e)]).

Definition main (F : nat) : prog Z :=
  ignored "signal(SIGPIPE, SIG_IGN)" [] ;;;
  let! a := sys (Libc "sched_getaffinity" []) in
  if rv a =? -1 then perror "sched_getaffinity" ;;; Ret EXIT_FAILURE else
  let! c := sys (Libc "CPU_COUNT" []) in
  let num_cores_global := rv c in
  ignored "active_threads = " [num_cores_global + 1] ;;;
  let! l := sys Socket in
  let listener := rv l in
  sys (Setsockopt listener) ;;;
  make_socket_non_blocking listener ;;;
  let! b := sys (Bind listener PORT) in
  if rv b =? -1 then perror "bind" ;;; Ret EXIT_FAILURE else
  let! li := sys (Listen listener MAX_FDS) in
  if rv li =? -1 then perror "listen" ;;; Ret EXIT_FAILURE else
  printf "DUMB epoll server with %ld workers listening on 0.0.0.0:%d"
    [PZ num_cores_global; PZ PORT] ;;;
  let! mem := sys (Malloc (num_cores_global * 72)) in
  let! workers :=
    if (0 <? num_cores_global) && (rv mem =? 0) then Undef "workers: null pointer"
    else for_each start_worker (seq 0 (Z.to_nat num_cores_global)) [] in
  sys (Spawn "worker_metrics_server_thread" 0) ;;;
  let! e := sys EpollCreate in
  let acceptor_epoll := rv e in
  sys (EpollCtl acceptor_epoll EPOLL_CTL_ADD listener EPOLLIN) ;;;
  printf "Main thread accepting connections (epoll_fd=%d)" [PZ acceptor_epoll] ;;;
  loop F (acceptor_wait F workers acceptor_epoll listener) (0, ∅).

(** ** The metrics thread *)
Definition PAYLOAD : Z := 8192.              (* sizeof(payload) *)
Definition HTTP_RESP : Z := 16384.           (* sizeof(http_resp) *)

Definition conn_line (id v : Z) : list Z :=
  str "server_active_connections{worker=" ++ QUOTE ++ dec id ++ QUOTE ++ str "} "
    ++ dec (wrap_u 64 v) ++ [NL].
Definition req_line (id : Z) (kind : string) (v : Z) : list Z :=
  str "server_requests_total{worker=" ++ QUOTE ++ dec id ++ QUOTE ++ str ",request_type="
    ++ QUOTE ++ str kind ++ QUOTE ++ str "} " ++ dec (wrap_u 64 v) ++ [NL].
Definition threads_text (n : Z) : list Z :=
  str "# HELP server_active_threads Client threads" ++ [NL]
  ++ str "# TYPE server_active_threads gauge" ++ [NL]
  ++ str "server_active_threads " ++ dec (wrap_u 64 n) ++ [NL].
Definition conns_header : list Z :=
  str "# HELP server_active_connections Active inbound connections" ++ [NL]
  ++ str "# TYPE server_active_connections gauge" ++ [NL].
Definition requests_header : list Z :=
  str "# HELP server_requests_total Received requests" ++ [NL]
  ++ str "# TYPE server_requests_total counter" ++ [NL].
Definition http_text (offset : Z) (payload : list Z) : list Z :=
  str "HTTP/1.1 200 OK" ++ CRLF ++ str "Content-Type: text/plain; version=0.0.4" ++ CRLF
  ++ str "Connection: close" ++ CRLF ++ str "Content-Length: " ++ dec offset ++ CRLF ++ CRLF
  ++ payload.

(** [offset += snprintf(payload + offset, sizeof(payload) - offset, ...)]: the
    size is a [size_t], so it wraps once [offset] is past the array. *)
Definition append (out : list Z) (st : list Z * Z) : prog (list Z * Z) :=
  let '(payload, offset) := st in
  let bytes := snprintf_bytes (wrap_u 64 (PAYLOAD - offset)) out in
  let! payload := defined "payload: write past the array"
    (match bytes with [] => Some payload | _ => mem_store payload offset bytes end) in
  Ret (payload, offset + Z.of_nat (length out)).

Definition append_conn (w : worker_ctx_t) (st : list Z * Z) : prog (list Z * Z) :=
  let! v := sys (AtomicLoad "active_connections" (w_id w)) in
  append (conn_line (w_id w) (rv v)) st.

Definition append_requests (w : worker_ctx_t) (st : list Z * Z) : prog (list Z * Z) :=
  let id := w_id w in
  let! p := sys (AtomicLoad "total_ping_requests" id) in
  let! b := sys (AtomicLoad "total_burn_requests" id) in
  let! s := sys (AtomicLoad "total_stream_requests" id) in
  let! u := sys (AtomicLoad "total_unknown_requests" id) in
  append (req_line id "ping" (rv p) ++ req_line id "burn" (rv b)
          ++ req_line id "stream" (rv s) ++ req_line id "unknown" (rv u)) st.

Definition worker_metrics_iter (workers : list worker_ctx_t) (server_fd : Z) (_ : unit)
    : prog (unit + unit) :=
  let! a := sys (Accept server_fd) in
  let client_fd := rv a in
  if client_fd <? 0 then Ret (inl tt) else
  let! r := sys (Read client_fd 1023) in
  if rv r <=? 0 then sys (Close client_fd) ;;; Ret (inl tt) else
  let! threads := sys (AtomicLoad "active_threads" 0) in
  let! st := append (threads_text (rv threads)) (replicate (Z.to_nat PAYLOAD) 0, 0) in
  let! st := append conns_header st in
  let! st := for_each append_conn workers st in
  let! st := append requests_header st in
  let! ' (payload, offset) := for_each append_requests workers st in
  let! s := defined "payload: unterminated" (cstr payload) in
  let out := http_text offset s in
  let len := Z.of_nat (length out) in
  let! data := defined "http_resp: read past the array"
                 (mem_slice (snprintf_bytes HTTP_RESP out) 0 len) in
  sys (Write client_fd data) ;;;
  sys (Close client_fd) ;;;
  Ret (inl tt).

Definition worker_metrics_server_thread (F : nat) (workers : list worker_ctx_t) : prog unit :=
  let! s := sys Socket in
  let server_fd := rv s in
  sys (Setsockopt server_fd) ;;;
  sys (Bind server_fd 9000) ;;;
  sys (Listen server_fd 10) ;;;
  loop F (worker_metrics_iter workers server_fd) tt.

#[global] Arguments conn_line : simpl never.
#[global] Arguments req_line : simpl never.
#[global] Arguments threads_text : simpl never.
#[global] Arguments conns_header : simpl never.
#[global] Arguments requests_header : simpl never.
#[global] Arguments http_text : simpl never.
#[global] Arguments append : simpl never.

(** ** The metrics payload *)

(** The payload holds the text formatted so far, terminated. *)
Definition holds (text : list Z) (st : list Z * Z) : Prop :=
  exists rest, st = (text ++ 0 :: rest, Z.of_nat (length text)) /\
    length (text ++ 0 :: rest) = Z.to_nat PAYLOAD.

Lemma append_holds text out st :
  holds text st -> Z.of_nat (length text + length out) < PAYLOAD ->
  exists st', append out st = Ret st' /\ holds (text ++ out) st'.
Proof.
  intros (rest & -> & Hl) Hlt. unfold append, PAYLOAD in *.
  rewrite wrap_u_small by lia. unfold snprintf_bytes.
  destruct (Z.leb_spec (8192 - Z.of_nat (length text)) 0); [lia|]. rewrite take_ge by lia.
  assert (forall (l : list Z) {A} (x y : A), match l ++ [0] with [] => x | _ => y end = y) as Hm
    by (by intros []).
  rewrite Hm. rewrite length_app in Hl. cbn [length] in Hl.
  destruct (mem_store _ _ _) as [p|] eqn:Hs;
    [|rewrite mem_store_is_Some in Hs by (llen); done].
  pose proof (mem_store_length _ _ _ _ Hs) as Hpl. apply mem_store_prefix in Hs.
  eexists. split; [reflexivity|]. subst p.
  exists (drop (length (out ++ [0])) (0 :: rest)). split.
  - f_equal; [by rewrite <- !app_assoc|rewrite length_app; lia].
  - rewrite <- !app_assoc in *. cbn [app] in *. rewrite Hpl, length_app. cbn [length]. unfold PAYLOAD. lia.
Qed.

Lemma dec_pos_length f k n acc :
  (1 <= k)%nat -> 0 <= n < 10 ^ Z.of_nat k -> (length (dec_pos f n acc) <= k + length acc)%nat.
Proof.
  revert k n acc. induction f as [|f IH]; intros k n acc Hk Hn; simpl; [lia|].
  destruct (Z.eqb_spec (n / 10) 0) as [H0|H0]; [simpl; lia|].
  destruct k as [|[|k]]; [lia| |].
  - rewrite Z.div_small in H0 by (simpl in Hn; lia). done.
  - rewrite (IH (S k)); [simpl; lia|lia|]. rewrite Nat2Z.inj_succ, Z.pow_succ_r in Hn by lia.
    split; [apply Z.div_pos; lia|apply Z.div_lt_upper_bound; lia].
Qed.

Lemma dec_id_length id : 0 <= id < 100 -> (length (dec id) <= 2)%nat.
Proof.
  intros Hid. unfold dec. destruct (Z.ltb_spec id 0); [lia|].
  pose proof (dec_pos_length 20 2 id []) as Hd.
  change (2 + length (@nil Z))%nat with 2%nat in Hd. change (10 ^ Z.of_nat 2) with 100 in Hd.
  apply Hd; lia.
Qed.

Lemma conn_line_length id v : 0 <= id < 100 -> (length (conn_line id v) <= 60)%nat.
Proof.
  intros H. unfold conn_line. pose proof (dec_id_length id H). pose proof (dec_u64_length v).
  rewrite !length_app, !str_length. cbn [String.length length QUOTE]. lia.
Qed.

Lemma req_line_length id kind v :
  0 <= id < 100 -> (String.length kind <= 7)%nat -> (length (req_line id kind v) <= 79)%nat.
Proof.
  intros H Hk. unfold req_line. pose proof (dec_id_length id H). pose proof (dec_u64_length v).
  rewrite !length_app, !str_length. cbn [String.length length QUOTE]. lia.
Qed.

Lemma headers_length n :
  (length (threads_text n) <= 122)%nat /\ (length conns_header <= 99)%nat /\
  (length requests_header <= 84)%nat.
Proof.
  unfold threads_text. rewrite !length_app, !str_length. pose proof (dec_u64_length n).
  repeat split; vm_compute (length conns_header); vm_compute (length requests_header);
    cbn [String.length length]; lia.
Qed.

Section Metrics.
Context (E : call -> reply -> Prop) (workers : list worker_ctx_t).
Context (Hids : Forall (fun w => 0 <= w_id w < 100) workers).

(** A loop over the workers appends at most [c] bytes for each. *)
Lemma wp_append_each (step : worker_ctx_t -> list Z * Z -> prog (list Z * Z)) (c : nat) text st κ Q :
  (forall w text st (R : list Z * Z -> kern -> Prop), 0 <= w_id w < 100 -> holds text st ->
     Z.of_nat (length text + c) < PAYLOAD ->
     (forall out st', (length out <= c)%nat -> holds (text ++ out) st' -> R st' κ) ->
     wp E no_ub any_call (step w st) κ R) ->
  holds text st -> Z.of_nat (length text + c * length workers) < PAYLOAD ->
  (forall text' st', holds text' st' ->
     (length text' <= length text + c * length workers)%nat -> Q st' κ) ->
  wp E no_ub any_call (for_each step workers st) κ Q.
Proof.
  intros Hstep Hh Hlen HQ.
  apply wp_for_each with (I := fun l st' κ' => κ' = κ /\ Forall (fun w => 0 <= w_id w < 100) l /\
    exists text', holds text' st' /\
      (length text' + c * length l <= length text + c * length workers)%nat).
  - intros w l st' ? (-> & [Hw Hl]%Forall_cons & text' & Hh' & Hle). cbn [length] in Hle.
    eapply Hstep; [done|exact Hh'|lia|]. intros out st2 Hout Hh2.
    split; [done|split; [done|]]. exists (text' ++ out). split; [done|].
    rewrite length_app. lia.
  - intros st' ? (-> & _ & text' & Hh' & Hle). eapply HQ; [exact Hh'|]. cbn [length] in Hle. lia.
  - split; [done|split; [done|]]. exists text. split; [done|lia].
Qed.

Lemma wp_append {A} out text st (f : list Z * Z -> prog A) κ Q :
  holds text st -> Z.of_nat (length text + length out) < PAYLOAD ->
  (forall st', holds (text ++ out) st' -> wp E no_ub any_call (f st') κ Q) ->
  wp E no_ub any_call (pbind (append out st) f) κ Q.
Proof. intros Hh Hl Hf. destruct (append_holds text out st Hh Hl) as (st' & -> & H). by apply Hf. Qed.

Lemma wp_append_last out text st κ (Q : list Z * Z -> kern -> Prop) :
  holds text st -> Z.of_nat (length text + length out) < PAYLOAD ->
  (forall st', holds (text ++ out) st' -> Q st' κ) ->
  wp E no_ub any_call (append out st) κ Q.
Proof. intros Hh Hl Hf. destruct (append_holds text out st Hh Hl) as (st' & -> & H). by apply Hf. Qed.

Lemma wp_metrics_iter fd κ :
  (length workers <= 20)%nat -> fd ∈ k_open κ ->
  wp E no_ub any_call (worker_metrics_iter workers fd tt) κ
    (fun x κ' => match x with inl _ => fd ∈ k_open κ' | inr _ => False end).
Proof.
  intros Hn Hfd. unfold worker_metrics_iter. wp_sys a Ha _.
  destruct (Z.ltb_spec (rv a) 0); [destruct (Z.leb_spec 0 (rv a)); [lia|done]|].
  destruct Ha as [?|[_ Hnew]]; [lia|]. rewrite (proj2 (Z.leb_le 0 (rv a))) by done.
  assert (fd <> rv a) as Hne by (intros Heq; apply Hnew; by rewrite <- Heq).
  assert (fd ∈ ({[rv a]} ∪ k_open κ) ∖ {[rv a]}) as Hkeep by (apply open_other; eauto with kern).
  wp_sys r _ _. destruct (rv r <=? 0); [wp_sys; exact Hkeep|].
  wp_sys threads _ _. destruct (headers_length (rv threads)) as (Ht & Hc & Hr).
  eapply wp_append with (text := []).
  { exists (replicate (Z.to_nat 8191) 0). split; [reflexivity|]. cbn [app length].
    by rewrite length_replicate. }
  { unfold PAYLOAD. cbn [length]. lia. }
  intros st1 H1. eapply wp_append; [exact H1|unfold PAYLOAD; llen|]. intros st2 H2.
  apply wp_bind. eapply wp_append_each with (c := 60%nat); [|exact H2|unfold PAYLOAD; llen|].
  { intros w text st R Hw Hh Hl HR. unfold append_conn. wp_sys v _ _.
    pose proof (conn_line_length (w_id w) (rv v) Hw).
    eapply wp_append_last; [exact Hh|lia|]. intros st' H'. eapply HR; [|exact H']. lia. }
  intros text3 st3 H3 Hl3. eapply wp_append; [exact H3|unfold PAYLOAD; llen|]. intros st4 H4.
  apply wp_bind. eapply wp_append_each with (c := 316%nat); [|exact H4|unfold PAYLOAD; llen|].
  { intros w text st R Hw Hh Hl HR. unfold append_requests.
    wp_sys p _ _. wp_sys b _ _. wp_sys s _ _. wp_sys u _ _.
    pose proof (req_line_length (w_id w) "ping" (rv p) Hw).
    pose proof (req_line_length (w_id w) "burn" (rv b) Hw).
    pose proof (req_line_length (w_id w) "stream" (rv s) Hw).
    pose proof (req_line_length (w_id w) "unknown" (rv u) Hw).
    cbn [String.length] in *.
    eapply wp_append_last; [exact Hh|llen|]. intros st' H'. eapply HR; [|exact H']. llen. }
  intros text5 [payload offset] (rest & [= -> ->] & Hlen) Hl5.
  destruct (cstr_terminated text5 rest) as (s & -> & Hs). cbn [defined pbind].
  assert (Z.of_nat (length text5) <= 8191) by (rewrite length_app in Hlen; cbn [length] in Hlen; unfold PAYLOAD in Hlen; lia).
  rewrite snprintf_read_back.
  2: { unfold http_text, HTTP_RESP.
       assert (length (dec (Z.of_nat (length text5))) <= 21)%nat by (apply dec_length; lia).
       rewrite !length_app, !str_length. cbn [String.length length CRLF]. lia. }
  cbn [defined pbind]. wp_sys ? _ _. split; [wp_call_ok|]. intros _ _ _. exact Hkeep.
Qed.
End Metrics.

(** C8. With at most 20 workers (ids below 100) the metrics thread formats
    its response inside [payload] and [http_resp] for all counter values, and
    makes its calls on open descriptors only; it assumes its own socket could
    be created, which the code does not test. *)
Theorem worker_metrics_safe F workers κ env :
  (length workers <= 20)%nat -> Forall (fun w => 0 <= w_id w < 100) workers ->
  safe_run creation_succeeds no_ub any_call κ (fun _ _ => True)
    (run (worker_metrics_server_thread F workers) env).
Proof.
  intros Hn Hids. apply wp_sound. unfold worker_metrics_server_thread.
  wp_sys s Hs Hc. cbn [creation_succeeds] in Hc. destruct Hs as [?|[_ _]]; [lia|].
  rewrite (proj2 (Z.leb_le 0 (rv s))) by done.
  wp_sys ? _ _. wp_sys ? _ _. wp_sys ? _ _.
  apply wp_loop with (I := fun _ κ' => rv s ∈ k_open κ'); [|apply open_new].
  intros [] κ' Hκ'. eapply wp_mono; [|by apply wp_metrics_iter]. by intros [[]|[]] κ2.
Qed.

Definition example_workers (n : nat) : list worker_ctx_t :=
  (fun i => Worker (Z.of_nat i) (10 + Z.of_nat i)) <$> seq 0 n.

(** A scrape of a server with [n] workers whose counters are all zero. *)
Definition scrape_env (n : nat) : list reply :=
  [rint 3; rint 0; rint 0; rint 0; rint 5; data_reply (str "GET"); rint (Z.of_nat n + 1)]
  ++ replicate n (rint 0) ++ replicate (4 * n) (rint 0).

Lemma worker_metrics_safe_witness :
  exists o t, run (worker_metrics_server_thread 5 (example_workers 4)) (scrape_env 4) = (o, t) /\
    safe_run creation_succeeds no_ub any_call kern0 (fun _ _ => True) (o, t) /\
    exists d, last t = Some (EPend (Write 5 d)) /\ length d = 1463%nat.
Proof.
  eexists _, _. split; [apply surjective_pairing|].
  rewrite <- surjective_pairing. split.
  - apply worker_metrics_safe; [simpl; lia|]. repeat constructor; simpl; lia.
  - eexists. split; [vm_compute; reflexivity|reflexivity].
Defined.

(** Thirty-two workers overrun the payload, with all counters at zero. *)
Example worker_metrics_overflow :
  (run (worker_metrics_server_thread 5 (example_workers 32)) (scrape_env 32)).1
  = Undefined "payload: write past the array".
Proof. vm_compute. reflexivity. Qed.

(** ** Round robin *)

(** The epoll instances connections were added to, in order. *)
Definition adds (t : list event) : list Z :=
  omap (fun e => match e with
                 | ECall (EpollCtl ep EPOLL_CTL_ADD _ _) _ => Some ep
                 | _ => None
                 end) t.

Lemma adds_app t t' : adds (t ++ t') = adds t ++ adds t'.
Proof. apply omap_app. Qed.

Lemma nonblocking_adds fd env z rest t :
  run (make_socket_non_blocking fd) env = (Done z rest, t) -> adds t = [].
Proof.
  unfold make_socket_non_blocking. intros (r & e1 & t1 & t2 & H1 & H2 & ->)%run_bind_done.
  apply run_sys_done in H1 as [-> ->]. destruct (rv r =? -1); [cbn in H2; by simplify_eq|].
  apply run_bind_done in H2 as (r2 & e3 & t3 & t4 & H3 & H4 & ->).
  apply run_sys_done in H3 as [-> ->]. destruct (rv r2 =? -1); cbn in H4; by simplify_eq.
Qed.

(** One turn adds nothing, or adds one connection to the worker whose turn
    it is and advances the counter. *)
Lemma accept_iter_adds workers listener rr m env x rest t :
  run (accept_iter workers listener (rr, m)) env = (Done x rest, t) ->
  (adds t = [] /\ (match x with inl y | inr y => y.1 end) = rr) \/
  (exists w m', target_worker workers rr = Some w /\ adds t = [w_epoll_fd w] /\
     x = inl (rr + 1, m')).
Proof.
  unfold accept_iter, accept_client.
  intros (a & e1 & t1 & t2 & H1 & H2 & ->)%run_bind_done.
  apply run_sys_done in H1 as [-> ->]. rewrite adds_app. cbn [adds omap list_omap app].
  destruct (rv a =? -1); [cbn in H2; simplify_eq; by left|].
  destruct (MAX_FDS <=? rv a).
  { apply run_bind_done in H2 as (c & e3 & t3 & t4 & H3 & H4 & ->).
    apply run_sys_done in H3 as [-> ->]. cbn in H4. simplify_eq. by left. }
  apply run_bind_done in H2 as (z & e3 & t3 & t4 & H3 & H4 & ->).
  rewrite adds_app, (nonblocking_adds _ _ _ _ _ H3). cbn [app].
  unfold init_client_ctx in H4. destruct (in_table (rv a)); [|done]. cbn [defined pbind] in H4.
  destruct (target_worker workers rr) as [w|]; [|done]. cbn [defined pbind] in H4.
  destruct (checked_int (rr + 1)) as [rr'|] eqn:Hc; [|done].
  apply checked_int_Some in Hc as [-> _]. cbn [defined pbind] in H4.
  apply run_bind_done in H4 as (c & e5 & t5 & t6 & H5 & H6 & ->).
  apply run_sys_done in H5 as [-> ->]. cbn in H6. simplify_eq. right. by eexists _, _.
Qed.

(** Round robin: the connections accepted in one turn of the acceptor go
    to the workers in cyclic order, starting where the previous turn stopped,
    and the counter advances by one for each. *)
Theorem round_robin_order F workers listener rr m env rr' m' rest t :
  run (loop F (accept_iter workers listener) (rr, m)) env = (Done (rr', m') rest, t) ->
  rr' = rr + Z.of_nat (length (adds t)) /\
  forall k e, adds t !! k = Some e ->
    exists w, target_worker workers (rr + Z.of_nat k) = Some w /\ w_epoll_fd w = e.
Proof.
  revert rr m env t. induction F as [|F IH]; intros rr m env t Hr; [done|].
  rewrite loop_S in Hr. apply run_bind_done in Hr as (x & e1 & t1 & t2 & H1 & H2 & ->).
  apply accept_iter_adds in H1. rewrite adds_app. destruct x as [[rr1 m1]|[rr1 m1]].
  - destruct (IH _ _ _ _ H2) as [IH1 IH2].
    destruct H1 as [[-> Hrr]|(w & m2 & Hw & -> & [= -> ->])]; cbn in *.
    + by subst rr1.
    + split; [lia|]. intros [|k] e; cbn.
      * intros [= <-]. exists w. by rewrite Z.add_0_r.
      * intros Hk. destruct (IH2 k e Hk) as (w' & Hw' & He). exists w'. split; [|done].
        rewrite <- Hw'. f_equal. lia.
  - destruct H1 as [[-> Hrr]|(? & ? & _ & _ & ?)]; [|done]. cbn in H2, Hrr. simplify_eq.
    cbn. split; [lia|done].
Qed.

Lemma round_robin_order_witness :
  exists rr' m' rest t,
    run (loop 5 (accept_iter (example_workers 2) 3) (0, ∅))
      [rint 5; rint 2; rint 0; rint 0; rint 6; rint 2; rint 0; rint 0;
       rint 7; rint 2; rint 0; rint 0; rint (-1)] = (Done (rr', m') rest, t) /\
    rr' = 3 /\ adds t = [10; 11; 10] /\
    rr' = 0 + Z.of_nat (length (adds t)).
Proof.
  destruct (run (loop 5 (accept_iter (example_workers 2) 3) (0, ∅)) _) as [o t] eqn:Hrun.
  assert (exists m', o = Done (3, m') []) as [m' ->].
  { vm_compute in Hrun. injection Hrun as <- _. by eexists. }
  exists 3, m', [], t. split; [done|split; [done|split]].
  - vm_compute in Hrun. injection Hrun as _ <-. reflexivity.
  - by apply (round_robin_order 5 (example_workers 2) 3 0 ∅) in Hrun as [H _].
Defined.
