(* ===== verification/WorkerThreads.v ===== *)
(** * The threads of servers/code/dumb_epoll_workers.c together

    The acceptor and the workers of DumbWorkers.v as a transition system whose
    steps are one system call or one access to the shared table of contexts,
    with what holds in every interleaving: the calls are on open and registered
    descriptors, no context is used by two threads at once, and an event is
    only handled by the worker its descriptor is registered with.  The last
    lemmas tie the steps to the functions of DumbWorkers.v. *)

From S2P Require Import Prelude CLib Os Kernel DumbCommon ClientState ClientTable DumbWorkers.

Local Open Scope Z_scope.

(** ** The threads

    A worker takes a context when it starts to handle an
    event and stores it back when the handler returns; between the two it holds
    the context, and another thread that used it would race with it.  The ready
    events of a thread and its place in the code are kept by epoll instance. *)
Inductive worker_pc :=
| WWait                                      (* epoll_wait *)
| WEvents                                    (* the loop over the ready events *)
| WHandle (fd mask : Z) (h : prog (client_ctx_t * bool))    (* what is left of the handler *)
| WDel (fd : Z)                              (* epoll_ctl(EPOLL_CTL_DEL) *)
| WClose (fd : Z)                            (* close *)
| WCount.                                    (* atomic_fetch_sub *)

Inductive acceptor_pc :=
| AWait                                      (* epoll_wait *)
| AEvents                                    (* the loop over the ready events *)
| AAccept                                    (* accept *)
| ARefuse (fd : Z)                           (* close(client_fd) *)
| ANonblock (fd : Z) (p : prog Z)            (* make_socket_non_blocking *)
| AInit (fd : Z)                             (* init_client_ctx *)
| ATarget (fd : Z)                           (* target_worker, rr_counter++ *)
| AAdd (fd : Z) (w : worker_ctx_t)           (* epoll_ctl(EPOLL_CTL_ADD) *)
| ACount (w : worker_ctx_t).                 (* atomic_fetch_add *)

Record server := Server {
  sv_clients : clients_t;
  sv_rr : Z;
  sv_kern : kern;
  sv_batch : gmap Z (list (Z * Z));
  sv_acceptor : acceptor_pc;
  sv_worker : gmap Z worker_pc
}.

Definition batch_at (s : server) (e : Z) : list (Z * Z) := default [] (sv_batch s !! e).
Definition pc_at (s : server) (e : Z) : worker_pc := default WWait (sv_worker s !! e).

(** The kernel after a call, when [r] is a reply it can give. *)
Definition reply_to (κ : kern) (c : call) (r : reply) : option kern :=
  if decide (reply_ok κ c r) then Some (kern_next κ c r) else None.

(** [handle_read] or [handle_write] on the context they point to, if the event
    asks for one of them. *)
Definition handler (w : worker_ctx_t) (fd mask : Z) (m : clients_t)
    : option (prog (client_ctx_t * bool)) :=
  let e := w_epoll_fd w in
  let on (f : client_ctx_t -> prog (client_ctx_t * bool)) :=
    let! _ := defined "clients: out of range" (in_table fd) in f (client_at m fd) in
  if has mask EPOLLIN then Some (on (handle_read_ctx (worker_counter w) e fd))
  else if has mask EPOLLOUT then Some (on (handle_write_ctx e fd))
  else None.

(** Where a worker goes after an event. *)
Definition after_handler (fd mask : Z) (is_alive : bool) : worker_pc :=
  if negb is_alive || has mask (Z.lor EPOLLERR EPOLLHUP) then WDel fd else WEvents.

(** The worker goes to [pc] with the given kernel, contexts and events. *)
Definition worker_to (s : server) (e : Z) (m : clients_t) (κ : kern) (b : list (Z * Z))
    (pc : worker_pc) : server :=
  Server m (sv_rr s) κ (<[e := b]> (sv_batch s)) (sv_acceptor s) (<[e := pc]> (sv_worker s)).

(** One step of [worker_thread], [r] being the reply to its call, if any. *)
Definition worker_step (w : worker_ctx_t) (r : reply) (s : server) : option server :=
  let e := w_epoll_fd w in
  let m := sv_clients s in let κ := sv_kern s in let b := batch_at s e in
  match pc_at s e with
  | WWait =>
      κ' ← reply_to κ (EpollWait e MAX_EVENTS) r;
      Some (worker_to s e m κ' (revs r) WEvents)
  | WEvents =>
      match b with
      | [] => Some (worker_to s e m κ [] WWait)
      | (fd, mask) :: b' =>
          Some (worker_to s e m κ b'
            match handler w fd mask m with
            | Some h => WHandle fd mask h
            | None => after_handler fd mask true
            end)
      end
  | WHandle fd mask h =>
      match h with
      | Ret (ctx, is_alive) =>
          Some (worker_to s e (<[fd := ctx]> m) κ b (after_handler fd mask is_alive))
      | Say _ h' => Some (worker_to s e m κ b (WHandle fd mask h'))
      | Sys c k =>
          κ' ← reply_to κ c r;
          Some (worker_to s e m κ' b (WHandle fd mask (k r)))
      | _ => None
      end
  | WDel fd =>
      κ' ← reply_to κ (EpollCtl e EPOLL_CTL_DEL fd 0) r;
      Some (worker_to s e m κ' b (WClose fd))
  | WClose fd =>
      κ' ← reply_to κ (Close fd) r;
      Some (worker_to s e m κ' b WCount)
  | WCount => Some (worker_to s e m κ b WEvents)
  end.

(** The call a worker is about to make, and undefined behaviour it is at. *)
Definition worker_call (w : worker_ctx_t) (s : server) : option call :=
  match pc_at s (w_epoll_fd w) with
  | WWait => Some (EpollWait (w_epoll_fd w) MAX_EVENTS)
  | WHandle _ _ (Sys c _) => Some c
  | WDel fd => Some (EpollCtl (w_epoll_fd w) EPOLL_CTL_DEL fd 0)
  | WClose fd => Some (Close fd)
  | _ => None
  end.
Definition worker_undef (w : worker_ctx_t) (s : server) : option string :=
  match pc_at s (w_epoll_fd w) with WHandle _ _ (Undef why) => Some why | _ => None end.

(** The context a thread is using. *)
Definition worker_uses (w : worker_ctx_t) (s : server) : option Z :=
  match pc_at s (w_epoll_fd w) with WHandle fd _ _ => Some fd | _ => None end.
Definition acceptor_uses (s : server) : option Z :=
  match sv_acceptor s with AInit fd => Some fd | _ => None end.

Section System.
Context (workers : list worker_ctx_t) (acceptor_epoll listener : Z).

Definition acceptor_to (s : server) (m : clients_t) (κ : kern) (pc : acceptor_pc) : server :=
  Server m (sv_rr s) κ (sv_batch s) pc (sv_worker s).

(** One step of the acceptor, the loop of [main]. *)
Definition acceptor_step (r : reply) (s : server) : option server :=
  let m := sv_clients s in let κ := sv_kern s in
  match sv_acceptor s with
  | AWait =>
      κ' ← reply_to κ (EpollWait acceptor_epoll MAX_EVENTS) r;
      Some (Server m (sv_rr s) κ' (<[acceptor_epoll := revs r]> (sv_batch s)) AEvents (sv_worker s))
  | AEvents =>
      match batch_at s acceptor_epoll with
      | [] => Some (acceptor_to s m κ AWait)
      | ev :: evs =>
          Some (Server m (sv_rr s) κ (<[acceptor_epoll := evs]> (sv_batch s))
                  (if ev.1 =? listener then AAccept else AEvents) (sv_worker s))
      end
  | AAccept =>
      κ' ← reply_to κ (Accept listener) r;
      let client_fd := rv r in
      Some (acceptor_to s m κ'
        (if client_fd =? -1 then AEvents
         else if MAX_FDS <=? client_fd then ARefuse client_fd
         else ANonblock client_fd (make_socket_non_blocking client_fd)))
  | ARefuse fd =>
      κ' ← reply_to κ (Close fd) r;
      Some (acceptor_to s m κ' AAccept)
  | ANonblock fd p =>
      match p with
      | Ret _ => Some (acceptor_to s m κ (AInit fd))
      | Say _ p' => Some (acceptor_to s m κ (ANonblock fd p'))
      | Sys c k =>
          κ' ← reply_to κ c r;
          Some (acceptor_to s m κ' (ANonblock fd (k r)))
      | _ => None
      end
  | AInit fd =>
      match init_client_ctx m fd with
      | Ret m' => Some (acceptor_to s m' κ (ATarget fd))
      | _ => None
      end
  | ATarget fd =>
      w ← target_worker workers (sv_rr s);
      rr ← checked_int (sv_rr s + 1);
      Some (Server m rr κ (sv_batch s) (AAdd fd w) (sv_worker s))
  | AAdd fd w =>
      κ' ← reply_to κ (EpollCtl (w_epoll_fd w) EPOLL_CTL_ADD fd EPOLLIN) r;
      Some (acceptor_to s m κ' (ACount w))
  | ACount w => Some (acceptor_to s m κ AAccept)
  end.

Definition acceptor_call (s : server) : option call :=
  match sv_acceptor s with
  | AWait => Some (EpollWait acceptor_epoll MAX_EVENTS)
  | AAccept => Some (Accept listener)
  | ARefuse fd => Some (Close fd)
  | ANonblock _ (Sys c _) => Some c
  | AAdd fd w => Some (EpollCtl (w_epoll_fd w) EPOLL_CTL_ADD fd EPOLLIN)
  | _ => None
  end.
Definition acceptor_undef (s : server) : option string :=
  match sv_acceptor s with
  | ANonblock _ (Undef why) => Some why
  | AInit fd => match init_client_ctx (sv_clients s) fd with Undef why => Some why | _ => None end
  | ATarget fd =>
      match target_worker workers (sv_rr s), checked_int (sv_rr s + 1) with
      | None, _ => Some "workers: out of range"%string
      | _, None => Some "overflow: rr_counter"%string
      | _, _ => None
      end
  | _ => None
  end.

(** Any thread moves, with any reply the kernel can give. *)
Inductive step (s s' : server) : Prop :=
| step_worker w r : w ∈ workers -> worker_step w r s = Some s' -> step s s'
| step_acceptor r : acceptor_step r s = Some s' -> step s s'.

(** Every call is on open descriptors (a registered one for MOD and DEL, an
    unregistered one for ADD), and the only undefined behaviour at hand is an
    overflow the clients can cause or that of [rr_counter]. *)
Definition calls_safe (s : server) : Prop :=
  (forall w c, w ∈ workers -> worker_call w s = Some c -> call_ok (sv_kern s) c) /\
  (forall c, acceptor_call s = Some c -> call_ok (sv_kern s) c) /\
  (forall w why, w ∈ workers -> worker_undef w s = Some why -> epoll_ub why) /\
  (forall why, acceptor_undef s = Some why -> why = "overflow: rr_counter"%string).

(** No two threads use the same context. *)
Definition race_free (s : server) : Prop :=
  (forall w w' fd, w ∈ workers -> w' ∈ workers -> worker_uses w s = Some fd ->
     worker_uses w' s = Some fd -> w_epoll_fd w = w_epoll_fd w') /\
  (forall w fd, w ∈ workers -> worker_uses w s = Some fd -> acceptor_uses s <> Some fd).

(** What a worker handles, and what it has still to handle, is registered
    with it, and with no other worker. *)
Definition events_own (s : server) : Prop :=
  (forall w fd, w ∈ workers ->
     worker_uses w s = Some fd \/ fd ∈ (batch_at s (w_epoll_fd w)).*1 ->
     is_Some (k_watch (sv_kern s) !! (w_epoll_fd w, fd))) /\
  (forall fd w w', w ∈ workers -> w' ∈ workers ->
     is_Some (k_watch (sv_kern s) !! (w_epoll_fd w, fd)) ->
     is_Some (k_watch (sv_kern s) !! (w_epoll_fd w', fd)) -> w_epoll_fd w = w_epoll_fd w').

(** The descriptors of the server. *)
Definition epolls : gset Z := list_to_set (w_epoll_fd <$> workers).
Definition infra : gset Z := {[acceptor_epoll; listener]} ∪ epolls.

(** Where the threads start: the epoll instances are distinct, and at most
    the listener is registered, with the acceptor's instance. *)
Definition started (s : server) : Prop :=
  NoDup (w_epoll_fd <$> workers) /\ acceptor_epoll ∉ epolls /\ listener ∉ epolls /\
  infra ⊆ k_open (sv_kern s) /\ sv_clients s = ∅ /\ sv_rr s = 0 /\
  (forall e f v, k_watch (sv_kern s) !! (e, f) = Some v -> e = acceptor_epoll /\ f = listener) /\
  sv_batch s = ∅ /\ sv_acceptor s = AWait /\ sv_worker s = ∅.

(** *** The invariant *)
Definition server_table : clients_t -> kern -> Prop :=
  table_ok any_reply infra epolls acceptor_epoll listener.

Definition held (pc : worker_pc) : option Z :=
  match pc with WHandle fd _ _ | WDel fd | WClose fd => Some fd | _ => None end.
Definition fresh (pc : acceptor_pc) : option Z :=
  match pc with
  | ARefuse fd | ANonblock fd _ | AInit fd | ATarget fd | AAdd fd _ => Some fd
  | _ => None
  end.

(** [fd] is registered with [e] only. *)
Definition only_at (κ : kern) (e fd : Z) : Prop :=
  forall e' v, k_watch κ !! (e', fd) = Some v -> e' = e.

(** Between two steps of its handler, a worker's descriptor is registered
    with it; what is left of the handler makes calls on that descriptor only,
    and leaves a well-formed context. *)
Definition worker_ok (κ : kern) (e : Z) (b : list (Z * Z)) (pc : worker_pc) : Prop :=
  NoDup b.*1 /\ Forall (ready_ok κ e) b /\
  (forall fd, held pc = Some fd ->
     fd ∉ b.*1 /\ fd ∈ k_open κ /\ fd ∉ infra /\ only_at κ e fd) /\
  match pc with
  | WHandle fd _ h =>
      is_Some (k_watch κ !! (e, fd)) /\ only_calls (own_call e fd) h /\
      exists κl, wp any_reply epoll_ub any_call h κl (fun x _ => ctx_ok x.1)
  | WDel fd => is_Some (k_watch κ !! (e, fd))
  | _ => True
  end.

(** A descriptor the acceptor is taking on is open and registered nowhere. *)
Definition acceptor_ok (m : clients_t) (κ : kern) (pc : acceptor_pc) : Prop :=
  (forall fd, fresh pc = Some fd ->
     fd ∈ k_open κ /\ fd ∉ infra /\ 0 <= fd /\ forall e, k_watch κ !! (e, fd) = None) /\
  match pc with
  | ANonblock fd p =>
      fd < MAX_FDS /\ only_calls (fun c => c = FcntlGetfl fd \/ exists f, c = FcntlSetfl fd f) p /\
      exists κl, wp any_reply no_ub any_call p κl (fun _ _ => True)
  | AInit fd => fd < MAX_FDS
  | ATarget fd => fd < MAX_FDS /\ ctx_ok (client_at m fd)
  | AAdd fd w => fd < MAX_FDS /\ ctx_ok (client_at m fd) /\ w ∈ workers
  | _ => True
  end.

Definition server_ok (s : server) : Prop :=
  server_table (sv_clients s) (sv_kern s) /\ 0 <= sv_rr s /\
  acceptor_ok (sv_clients s) (sv_kern s) (sv_acceptor s) /\
  (forall w, w ∈ workers ->
     worker_ok (sv_kern s) (w_epoll_fd w) (batch_at s (w_epoll_fd w)) (pc_at s (w_epoll_fd w)) /\
     forall fd, held (pc_at s (w_epoll_fd w)) = Some fd -> fresh (sv_acceptor s) <> Some fd) /\
  (forall w w' fd, w ∈ workers -> w' ∈ workers ->
     held (pc_at s (w_epoll_fd w)) = Some fd -> held (pc_at s (w_epoll_fd w')) = Some fd ->
     w_epoll_fd w = w_epoll_fd w').

(** A change of the kernel that concerns [fd] only. *)
Definition only_about (fd : Z) (κ κ' : kern) : Prop :=
  (forall e f, f <> fd -> k_watch κ' !! (e, f) = k_watch κ !! (e, f)) /\
  (forall f, f <> fd -> f ∈ k_open κ -> f ∈ k_open κ').

Lemma not_ctl_ok : ~ ctl_ok any_reply.
Proof. intros H. by specialize (H 0 EPOLL_CTL_MOD 0 0 (rint (-1)) I). Qed.

Lemma epoll_in w : w ∈ workers -> w_epoll_fd w ∈ epolls.
Proof.
  intros Hw. unfold epolls. apply elem_of_list_to_set, list_elem_of_fmap. eauto.
Qed.

(** The other threads do not notice a change about a descriptor they neither
    hold nor are registered for. *)
Lemma worker_ok_other κ κ' e b pc fd :
  worker_ok κ e b pc -> only_about fd κ κ' -> held pc <> Some fd ->
  k_watch κ !! (e, fd) = None -> worker_ok κ' e b pc.
Proof.
  intros (Hn & Hf & Hh & Hpc) [Hw Ho] Hne Hnone.
  assert (Forall (ready_ok κ' e) b) as Hf'.
  { eapply Forall_impl; [exact Hf|]. intros ev Hr. unfold ready_ok in *.
    destruct (decide (ev.1 = fd)) as [Heq|Hd]; [by rewrite Heq, Hnone in Hr|].
    by rewrite Hw. }
  split; [done|split; [done|split]].
  - intros f Hfd. destruct (Hh f Hfd) as (H1 & H2 & H3 & H4).
    assert (f <> fd) by congruence.
    split; [done|split; [by apply Ho|split; [done|]]].
    intros e' v. rewrite Hw by done. apply H4.
  - destruct pc; try done; cbn [held] in Hne; rewrite Hw by congruence; done.
Qed.

Lemma acceptor_ok_other m κ m' κ' pc fd :
  acceptor_ok m κ pc -> only_about fd κ κ' -> fresh pc <> Some fd ->
  (forall f, f <> fd -> client_at m' f = client_at m f) -> acceptor_ok m' κ' pc.
Proof.
  intros [Hf Hpc] [Hw Ho] Hne Hm. split.
  - intros f Hfd. destruct (Hf f Hfd) as (H1 & H2 & H3 & H4).
    assert (f <> fd) by congruence.
    split; [by apply Ho|split; [done|split; [done|]]]. intros e. by rewrite Hw.
  - destruct pc; try done; cbn [fresh] in Hne; rewrite Hm by congruence; done.
Qed.

Lemma only_about_refl fd κ : only_about fd κ κ.
Proof. by split. Qed.

(** *** The table under the changes of a step *)
Lemma table_store m κ fd ctx :
  server_table m κ -> ctx_ok ctx -> server_table (<[fd := ctx]> m) κ.
Proof.
  intros ((Hi & He & Hl & Hlen) & Hw) Hc. split; [split; [done|split; [done|split; [done|]]]|].
  - intros f. rewrite client_at_insert. case_bool_decide; [apply Hc|apply Hlen].
  - intros e f v Hv. destruct (Hw e f v Hv) as [?|(H1 & H2 & H3 & H4 & H5 & _ & H7)]; [by left|right].
    repeat (split; [done|]). rewrite client_at_insert.
    split; [by case_bool_decide|]. split; [by intros ?%not_ctl_ok|done].
Qed.

(** Fewer registrations, or the same with another interest. *)
Lemma table_watch m κ κ' :
  server_table m κ -> k_open κ ⊆ k_open κ' ->
  (forall e f v, k_watch κ' !! (e, f) = Some v -> is_Some (k_watch κ !! (e, f))) ->
  server_table m κ'.
Proof.
  intros ((Hi & He & Hl & Hlen) & Hw) Ho Hsub.
  split; [split; [by trans (k_open κ)|done]|]. intros e f v [v0 Hv]%Hsub.
  destruct (Hw e f v0 Hv) as [?|(H1 & H2 & H3 & H4 & H5 & _ & H7)]; [by left|right].
  split; [done|split; [by apply Ho|]]. repeat (split; [done|]).
  split; [by intros ?%not_ctl_ok|]. intros e' v' [v1 Hv1]%Hsub. by eapply H7.
Qed.

Lemma table_add m κ e fd r :
  server_table m κ -> e ∈ epolls -> fd ∈ k_open κ -> fd ∉ infra -> 0 <= fd < MAX_FDS ->
  ctx_ok (client_at m fd) -> (forall e', k_watch κ !! (e', fd) = None) ->
  server_table m (kern_next κ (EpollCtl e EPOLL_CTL_ADD fd EPOLLIN) r).
Proof.
  intros ((Hi & He & Hl & Hlen) & Hw) Hin Ho Hni Hr Hc Hnone. cbn [kern_next].
  destruct (rv r =? 0); [|by split]. split; [done|]. cbn [k_open k_watch].
  assert (forall e' v, <[(e, fd) := EPOLLIN]> (k_watch κ) !! (e', fd) = Some v -> e' = e) as Hu.
  { intros e' v [[Heq _]|[_ H]]%lookup_insert_Some; [congruence|by rewrite Hnone in H]. }
  intros e1 f v. destruct (decide (f = fd)) as [->|Hne].
  - intros Hv. pose proof (Hu _ _ Hv) as ->. right. repeat (split; [done|]).
    split; [by intros ?%not_ctl_ok|]. exact Hu.
  - rewrite lookup_insert_ne by congruence. intros Hv.
    destruct (Hw e1 f v Hv) as [?|(H1 & H2 & H3 & H4 & H5 & H6 & H7)]; [by left|right].
    repeat (split; [done|]). intros e' v'. rewrite lookup_insert_ne by congruence. apply H7.
Qed.

Lemma table_closed m κ fd r :
  server_table m κ -> fd ∉ infra -> server_table m (kern_next κ (Close fd) r).
Proof. intros Ht Hni. by apply (table_close any_reply infra epolls acceptor_epoll listener m κ). Qed.

Lemma close_only_about κ fd r :
  (forall f, k_watch κ !! (fd, f) = None) -> only_about fd κ (kern_next κ (Close fd) r).
Proof.
  intros Hne. split; cbn [kern_next k_open k_watch].
  - intros e f Hf. destruct (k_watch κ !! (e, f)) as [v|] eqn:Hv.
    + apply map_lookup_filter_Some. split; [done|]. cbn. split; [|done]. intros ->.
      by rewrite Hne in Hv.
    + apply map_lookup_filter_None. by left.
  - intros f Hf Ho. by apply open_other.
Qed.

(** *** A worker moves *)
Context (Hacc : acceptor_epoll ∉ epolls) (Hlis : listener ∉ epolls).

Lemma watched_client m κ w fd v :
  server_table m κ -> w ∈ workers -> k_watch κ !! (w_epoll_fd w, fd) = Some v ->
  fd ∈ k_open κ /\ fd ∉ infra /\ 0 <= fd < MAX_FDS /\ ctx_ok (client_at m fd) /\
  only_at κ (w_epoll_fd w) fd.
Proof.
  intros (_ & Hw) Hin%epoll_in Hv.
  destruct (Hw _ _ _ Hv) as [[He _]|(_ & H1 & H2 & H3 & H4 & _ & H6)]; [by rewrite He in Hin|].
  repeat (split; [done|]). exact H6.
Qed.

Lemma not_epoll m κ fd : server_table m κ -> fd ∉ infra -> forall f, k_watch κ !! (fd, f) = None.
Proof.
  intros Ht Hni f. destruct (k_watch κ !! (fd, f)) as [v|] eqn:Hv; [|done].
  by apply (watch_infra any_reply infra epolls acceptor_epoll listener m) in Hv.
Qed.

(** [fd] concerns no thread but [w]. *)
Definition owns (s : server) (w : worker_ctx_t) (fd : Z) : Prop :=
  only_at (sv_kern s) (w_epoll_fd w) fd /\
  (forall w', w' ∈ workers -> held (pc_at s (w_epoll_fd w')) = Some fd ->
     w_epoll_fd w' = w_epoll_fd w) /\
  fresh (sv_acceptor s) <> Some fd.

Lemma owns_held s w fd :
  server_ok s -> w ∈ workers -> held (pc_at s (w_epoll_fd w)) = Some fd -> owns s w fd.
Proof.
  intros (_ & _ & _ & Hw & Hd) Hin Hh. destruct (Hw w Hin) as [(_ & _ & H & _) Hf].
  split; [by apply H|split; [|by apply Hf]]. intros w' Hin' Hh'. by eapply Hd.
Qed.

Lemma owns_watched s w fd v :
  server_ok s -> w ∈ workers -> k_watch (sv_kern s) !! (w_epoll_fd w, fd) = Some v -> owns s w fd.
Proof.
  intros (Ht & _ & [Ha _] & Hw & _) Hin Hv.
  split; [by eapply watched_client|split].
  - intros w' Hin' Hh. destruct (Hw w' Hin') as [(_ & _ & H & _) _].
    destruct (H fd Hh) as (_ & _ & _ & Ho). symmetry. by eapply Ho.
  - intros Hfr. destruct (Ha fd Hfr) as (_ & _ & _ & Hn). by rewrite Hn in Hv.
Qed.

Lemma worker_at_same s e m κ b pc :
  pc_at (worker_to s e m κ b pc) e = pc /\ batch_at (worker_to s e m κ b pc) e = b.
Proof. unfold pc_at, batch_at. cbn. by rewrite !lookup_insert, !decide_True. Qed.

Lemma worker_at_other s e m κ b pc e' :
  e <> e' -> pc_at (worker_to s e m κ b pc) e' = pc_at s e' /\
    batch_at (worker_to s e m κ b pc) e' = batch_at s e'.
Proof. intros Hne. unfold pc_at, batch_at. cbn. by rewrite !lookup_insert_ne. Qed.

Lemma worker_moves s w m κ b pc :
  server_ok s -> w ∈ workers -> server_table m κ ->
  acceptor_ok m κ (sv_acceptor s) ->
  (forall w', w' ∈ workers -> w_epoll_fd w' <> w_epoll_fd w ->
     worker_ok κ (w_epoll_fd w') (batch_at s (w_epoll_fd w')) (pc_at s (w_epoll_fd w'))) ->
  worker_ok κ (w_epoll_fd w) b pc ->
  (forall fd, held pc = Some fd -> owns s w fd) ->
  server_ok (worker_to s (w_epoll_fd w) m κ b pc).
Proof.
  intros (_ & Hrr & _ & Hws & Hd) Hin Ht Ha Hothers Hself Hown.
  split; [done|split; [done|split; [done|]]]. set (s' := worker_to _ _ _ _ _ _).
  assert (forall w', w_epoll_fd w' = w_epoll_fd w -> pc_at s' (w_epoll_fd w') = pc /\
    batch_at s' (w_epoll_fd w') = b) as Hsame by (intros w' ->; apply worker_at_same).
  assert (forall w', w_epoll_fd w' <> w_epoll_fd w -> pc_at s' (w_epoll_fd w') = pc_at s (w_epoll_fd w') /\
    batch_at s' (w_epoll_fd w') = batch_at s (w_epoll_fd w')) as Hother
    by (intros w' Hne; by apply worker_at_other).
  split.
  - intros w' Hin'. destruct (decide (w_epoll_fd w' = w_epoll_fd w)) as [He|He].
    + destruct (Hsame w' He) as [-> ->]. rewrite He. split; [done|]. intros fd Hh.
      by apply (Hown fd Hh).
    + destruct (Hother w' He) as [-> ->]. split; [by apply Hothers|]. by apply Hws.
  - intros w1 w2 fd H1 H2.
    destruct (decide (w_epoll_fd w1 = w_epoll_fd w)) as [He1|He1];
      destruct (decide (w_epoll_fd w2 = w_epoll_fd w)) as [He2|He2]; [congruence| | |];
      repeat match goal with
        | H : w_epoll_fd ?x = w_epoll_fd w |- _ => destruct (Hsame x H) as [-> _]; revert H
        | H : w_epoll_fd ?x <> w_epoll_fd w |- _ => destruct (Hother x H) as [-> _]; revert H
        end; intros ? ? Hh1 Hh2.
    + symmetry. rewrite (proj1 (proj2 (Hown fd Hh1)) w2 H2 Hh2). done.
    + rewrite (proj1 (proj2 (Hown fd Hh2)) w1 H1 Hh1). done.
    + by eapply Hd.
Qed.

(** Without touching the kernel or the contexts. *)
Lemma worker_silent s w b pc :
  server_ok s -> w ∈ workers -> worker_ok (sv_kern s) (w_epoll_fd w) b pc ->
  (forall fd, held pc = Some fd -> owns s w fd) ->
  server_ok (worker_to s (w_epoll_fd w) (sv_clients s) (sv_kern s) b pc).
Proof.
  intros Hs Hin Hok Hown. pose proof Hs as (Ht & _ & Ha & Hws & _).
  apply worker_moves; try done. intros w' Hin' _. by apply Hws.
Qed.

(** About a descriptor of its own. *)
Lemma worker_acts s w fd m κ b pc :
  server_ok s -> w ∈ workers -> owns s w fd -> server_table m κ ->
  only_about fd (sv_kern s) κ ->
  (forall f, f <> fd -> client_at m f = client_at (sv_clients s) f) ->
  worker_ok κ (w_epoll_fd w) b pc -> held pc = None \/ held pc = Some fd ->
  server_ok (worker_to s (w_epoll_fd w) m κ b pc).
Proof.
  intros Hs Hin Hown Ht Hab Hm Hok Hh. pose proof Hs as (_ & _ & Ha & Hws & _).
  destruct Hown as (Hoa & Hheld & Hfr) eqn:Eown. apply worker_moves; try done.
  - by eapply acceptor_ok_other.
  - intros w' Hin' Hne. eapply worker_ok_other; [by apply Hws|exact Hab| |].
    + intros Hh'. by apply Hne, Hheld.
    + destruct (k_watch (sv_kern s) !! (w_epoll_fd w', fd)) as [v|] eqn:Hv; [|done].
      by apply Hoa in Hv.
  - intros f Hf. destruct Hh as [Hh|Hh]; rewrite Hh in Hf; [done|]. by injection Hf as <-.
Qed.

Lemma handler_ok m κ w fd mask v h :
  server_table m κ -> w ∈ workers -> k_watch κ !! (w_epoll_fd w, fd) = Some v ->
  handler w fd mask m = Some h ->
  only_calls (own_call (w_epoll_fd w) fd) h /\
  exists κl, wp any_reply epoll_ub any_call h κl (fun x _ => ctx_ok x.1).
Proof.
  intros Ht Hin Hv Hh. destruct (watched_client _ _ _ _ _ Ht Hin Hv) as (Hop & Hni & Hr & Hc & _).
  set (κl := Kern {[w_epoll_fd w; fd]} {[(w_epoll_fd w, fd) := armed (client_at m fd)]}).
  assert (registered any_reply (w_epoll_fd w) fd κl (client_at m fd)) as Hreg.
  { split; [set_solver +|split; [set_solver +|]]. eexists. split; [apply lookup_singleton_eq|done]. }
  unfold handler in Hh. rewrite in_table_some in Hh by done. cbn [defined pbind] in Hh.
  destruct (has mask EPOLLIN); [|destruct (has mask EPOLLOUT); [|done]]; injection Hh as <-.
  - split; [apply handle_read_ctx_calls|]. exists κl.
    eapply wp_mono; [|by apply wp_handle_read_ctx]. by intros x κ' [].
  - split; [apply handle_write_ctx_calls|]. exists κl.
    eapply wp_mono; [|by apply wp_handle_write_ctx]. by intros x κ' [].
Qed.

(** The answer to a call of a handler does not depend on the kernel's state,
    and the call changes at most the interest of its own descriptor. *)
Lemma own_call_next e fd c κ r :
  own_call e fd c -> is_Some (k_watch κ !! (e, fd)) ->
  (forall κl, reply_ok κ c r -> reply_ok κl c r) /\
  only_about fd κ (kern_next κ c r) /\ k_open (kern_next κ c r) = k_open κ /\
  is_Some (k_watch (kern_next κ c r) !! (e, fd)) /\
  (forall e' f v, k_watch (kern_next κ c r) !! (e', f) = Some v -> is_Some (k_watch κ !! (e', f))).
Proof.
  intros Hc Hs. destruct c; cbn in Hc; try done; cbn [kern_next reply_ok];
    try (repeat (split; [done|]); intros e' f v Hv; by exists v).
  destruct op; try done. destruct Hc as [-> ->]. split; [done|]. destruct (rv r =? 0).
  - split; [split; [|done]|split; [done|split]]; cbn [k_watch].
    + intros e' f Hf. rewrite lookup_insert_ne; [done|congruence].
    + rewrite lookup_insert, decide_True by done. by eexists.
    + intros e' f v [[Heq _]|[_ H]]%lookup_insert_Some; [by injection Heq as <- <-|by exists v].
  - repeat (split; [done|]). intros e' f v Hv. by exists v.
Qed.

Lemma reply_to_Some κ c r κ' :
  reply_to κ c r = Some κ' -> reply_ok κ c r /\ κ' = kern_next κ c r.
Proof. unfold reply_to. destruct (decide _); [by intros [= <-]|done]. Qed.

Lemma worker_ok_nil κ e b pc pc' :
  worker_ok κ e b pc -> held pc' = None -> worker_ok κ e b pc'.
Proof. intros (Hn & Hf & _) Hh. repeat (split; [done|]). rewrite Hh. by destruct pc'. Qed.

Lemma worker_ok_keep κ κ' e b pc pc' fd :
  worker_ok κ e b pc -> held pc = Some fd -> held pc' = Some fd -> only_about fd κ κ' ->
  k_open κ' = k_open κ ->
  (forall e' f v, k_watch κ' !! (e', f) = Some v -> is_Some (k_watch κ !! (e', f))) ->
  match pc' with
  | WHandle fd _ h =>
      is_Some (k_watch κ' !! (e, fd)) /\ only_calls (own_call e fd) h /\
      exists κl, wp any_reply epoll_ub any_call h κl (fun x _ => ctx_ok x.1)
  | WDel fd => is_Some (k_watch κ' !! (e, fd))
  | _ => True
  end -> worker_ok κ' e b pc'.
Proof.
  intros (Hn & Hf & Hh & _) Hpc Hpc' [Hw _] Ho Hsub Hnew.
  destruct (Hh fd Hpc) as (H1 & H2 & H3 & H4). split; [done|split; [|split; [|done]]].
  - apply Forall_forall. intros ev Hev. rewrite Forall_forall in Hf. specialize (Hf ev Hev).
    unfold ready_ok in *. rewrite Hw; [done|]. intros <-. apply H1, list_elem_of_fmap. eauto.
  - rewrite Hpc'. intros f [= <-]. rewrite Ho. repeat (split; [done|]).
    intros e' v [v' Hv]%Hsub. by eapply H4.
Qed.

(** A handler's call. *)
Lemma handler_call_ok s w fd mask h s' c k r :
  server_ok s -> w ∈ workers -> pc_at s (w_epoll_fd w) = WHandle fd mask h -> h = Sys c k ->
  reply_ok (sv_kern s) c r ->
  s' = worker_to s (w_epoll_fd w) (sv_clients s) (kern_next (sv_kern s) c r)
         (batch_at s (w_epoll_fd w)) (WHandle fd mask (k r)) -> server_ok s'.
Proof.
  intros Hs Hin Hpc -> Hr ->. pose proof Hs as (Ht & _ & _ & Hws & _).
  destruct (Hws w Hin) as [Hok _]. rewrite Hpc in Hok.
  pose proof Hok as (_ & _ & _ & Hwt & [Hc Hcs] & κl & Hwp).
  destruct (own_call_next _ _ _ _ r Hc Hwt) as (Hrep & Hab & Ho & Hs' & Hsub).
  assert (held (pc_at s (w_epoll_fd w)) = Some fd) as Hh by (by rewrite Hpc).
  apply (worker_acts s w fd); try done; [by apply owns_held| | |by right].
  - eapply table_watch; [exact Ht|by rewrite Ho|exact Hsub].
  - eapply worker_ok_keep; try done. split; [done|split; [apply Hcs|]].
    exists (kern_next κl c r). apply Hwp; [|done]. by apply Hrep.
Qed.

Lemma handler_returns_ok s w fd mask ctx alive :
  server_ok s -> w ∈ workers -> pc_at s (w_epoll_fd w) = WHandle fd mask (Ret (ctx, alive)) ->
  server_ok (worker_to s (w_epoll_fd w) (<[fd := ctx]> (sv_clients s)) (sv_kern s)
    (batch_at s (w_epoll_fd w)) (after_handler fd mask alive)).
Proof.
  intros Hs Hin Hpc. pose proof Hs as (Ht & _ & _ & Hws & _).
  destruct (Hws w Hin) as [Hok _]. rewrite Hpc in Hok.
  pose proof Hok as (_ & _ & _ & Hwt & _ & κl & Hc). cbn in Hc.
  apply (worker_acts s w fd); try done.
  - apply owns_held; [done|done|by rewrite Hpc].
  - by apply table_store.
  - intros f Hf. by rewrite client_at_insert, bool_decide_false.
  - unfold after_handler. destruct (_ || _); [|by eapply worker_ok_nil].
    by eapply worker_ok_keep.
  - unfold after_handler. destruct (_ || _); auto.
Qed.

Lemma worker_leaves_ok s w fd pc r :
  server_ok s -> w ∈ workers -> pc_at s (w_epoll_fd w) = pc ->
  (pc = WDel fd ->
     server_ok (worker_to s (w_epoll_fd w) (sv_clients s)
       (kern_next (sv_kern s) (EpollCtl (w_epoll_fd w) EPOLL_CTL_DEL fd 0) r)
       (batch_at s (w_epoll_fd w)) (WClose fd))) /\
  (pc = WClose fd ->
     server_ok (worker_to s (w_epoll_fd w) (sv_clients s) (kern_next (sv_kern s) (Close fd) r)
       (batch_at s (w_epoll_fd w)) WCount)).
Proof.
  intros Hs Hin Hpc. pose proof Hs as (Ht & _ & _ & Hws & _).
  destruct (Hws w Hin) as [Hok _]. rewrite Hpc in Hok.
  split; intros ->;
    (assert (owns s w fd) as Hown by (apply owns_held; [done|done|by rewrite Hpc]));
    destruct (proj1 (proj2 (proj2 Hok)) fd eq_refl) as (Hnb & Hop & Hni & Hoa).
  - set (κ' := kern_next _ _ _).
    assert (k_open κ' = k_open (sv_kern s)) as Ho by (unfold κ'; cbn; by destruct (rv r =? 0)).
    assert (forall e f v, k_watch κ' !! (e, f) = Some v -> is_Some (k_watch (sv_kern s) !! (e, f))) as Hsub.
    { unfold κ'. cbn. destruct (rv r =? 0); cbn; intros e f v Hv; [|by exists v].
      apply lookup_delete_Some in Hv as [_ Hv]. by exists v. }
    assert (only_about fd (sv_kern s) κ') as Hab.
    { split; [|by rewrite Ho]. unfold κ'. cbn. intros e f Hf. destruct (rv r =? 0); [|done]. cbn.
      rewrite lookup_delete_ne; [done|congruence]. }
    apply (worker_acts s w fd); try done; [| |by right].
    + eapply table_watch; [exact Ht|by rewrite Ho|exact Hsub].
    + eapply worker_ok_keep; try done.
  - assert (only_about fd (sv_kern s) (kern_next (sv_kern s) (Close fd) r)) as Hab
      by (eapply close_only_about, not_epoll; done).
    apply (worker_acts s w fd); try done; [by apply table_closed| |by left].
    destruct Hok as (Hn & Hf & _). split; [done|split; [|done]].
    apply Forall_forall. intros ev Hev. rewrite Forall_forall in Hf. specialize (Hf ev Hev).
    unfold ready_ok in *. rewrite (proj1 Hab); [done|]. intros <-. apply Hnb, list_elem_of_fmap. eauto.
Qed.

Lemma worker_takes_ok s w fd mask b :
  server_ok s -> w ∈ workers -> batch_at s (w_epoll_fd w) = (fd, mask) :: b ->
  server_ok (worker_to s (w_epoll_fd w) (sv_clients s) (sv_kern s) b
    match handler w fd mask (sv_clients s) with
    | Some h => WHandle fd mask h
    | None => after_handler fd mask true
    end).
Proof.
  intros Hs Hin Hb. pose proof Hs as (Ht & _ & _ & Hws & _).
  destruct (Hws w Hin) as [(Hn & Hf & _) _]. rewrite Hb in Hn, Hf.
  apply NoDup_cons in Hn as [Hni Hn]. apply Forall_cons in Hf as [Hr Hf].
  unfold ready_ok in Hr. cbn [fst] in Hr.
  destruct (k_watch (sv_kern s) !! (w_epoll_fd w, fd)) as [v|] eqn:Hv; [|done].
  destruct (watched_client _ _ _ _ _ Ht Hin Hv) as (H1 & H2 & _ & _ & H3).
  set (pc := match handler _ _ _ _ with Some _ => _ | None => _ end).
  assert (held pc = None \/ held pc = Some fd) as Hpc.
  { unfold pc, after_handler. destruct (handler _ _ _ _); [by right|]. destruct (_ || _); auto. }
  apply worker_silent; [done|done| |].
  - split; [done|split; [done|split]].
    + intros f Hf'. destruct Hpc as [Hp|Hp]; rewrite Hp in Hf'; [done|]. by injection Hf' as <-.
    + unfold pc, after_handler. destruct (handler w fd mask (sv_clients s)) as [h|] eqn:Eh.
      * split; [by exists v|]. by eapply handler_ok.
      * destruct (_ || _); [by exists v|done].
  - intros f Hf'. destruct Hpc as [Hp|Hp]; rewrite Hp in Hf'; [done|]. injection Hf' as <-.
    by eapply owns_watched.
Qed.

Lemma worker_step_ok s s' w r :
  server_ok s -> w ∈ workers -> worker_step w r s = Some s' -> server_ok s'.
Proof.
  intros Hs Hin Hstep. pose proof Hs as (Ht & _ & _ & Hws & _). destruct (Hws w Hin) as [Hok _].
  unfold worker_step in Hstep. destruct (pc_at s (w_epoll_fd w)) as [| |fd mask h|fd|fd|] eqn:Hpc.
  - destruct (reply_to _ _ _) as [κ'|] eqn:Hr; [|done]. apply reply_to_Some in Hr as [Hr ->].
    injection Hstep as <-. apply worker_silent; [done|done| |done].
    destruct Hr as [[_ ->]|(_ & _ & H1 & H2)]; [by repeat constructor|done].
  - destruct (batch_at s (w_epoll_fd w)) as [|[fd mask] b] eqn:Hb; injection Hstep as <-.
    + apply worker_silent; [done|done| |done]. by repeat constructor.
    + by apply worker_takes_ok.
  - destruct h as [[ctx alive]|n|why| |o h'|c k] eqn:Hh; try done.
    + injection Hstep as <-. by apply handler_returns_ok.
    + injection Hstep as <-. pose proof Hok as (_ & _ & _ & Hwt & Hc & Hwp).
      apply worker_silent; [done|done| |].
      * by eapply worker_ok_keep.
      * intros f [= <-]. apply owns_held; [done|done|by rewrite Hpc].
    + destruct (reply_to _ _ _) as [κ'|] eqn:Hr; [|done]. apply reply_to_Some in Hr as [Hr ->].
      injection Hstep as <-. eapply handler_call_ok; done.
  - destruct (reply_to _ _ _) as [κ'|] eqn:Hr; [|done]. apply reply_to_Some in Hr as [_ ->].
    injection Hstep as <-. by eapply worker_leaves_ok.
  - destruct (reply_to _ _ _) as [κ'|] eqn:Hr; [|done]. apply reply_to_Some in Hr as [_ ->].
    injection Hstep as <-. by apply (worker_leaves_ok s w fd (WClose fd) r).
  - injection Hstep as <-. apply worker_silent; [done|done|by eapply worker_ok_nil|done].
Qed.

(** *** The acceptor moves *)
Lemma fresh_other s w fd :
  server_ok s -> w ∈ workers -> fresh (sv_acceptor s) = Some fd ->
  held (pc_at s (w_epoll_fd w)) <> Some fd /\ k_watch (sv_kern s) !! (w_epoll_fd w, fd) = None.
Proof.
  intros (_ & _ & [Ha _] & Hws & _) Hin Hf. split.
  - intros Hh. by apply (proj2 (Hws w Hin) fd Hh).
  - by apply Ha.
Qed.

(** A new descriptor is open nowhere yet. *)
Lemma closed_other s w fd :
  server_ok s -> w ∈ workers -> fd ∉ k_open (sv_kern s) ->
  held (pc_at s (w_epoll_fd w)) <> Some fd /\ k_watch (sv_kern s) !! (w_epoll_fd w, fd) = None.
Proof.
  intros (Ht & _ & _ & Hws & _) Hin Hn. split.
  - intros Hh. destruct (Hws w Hin) as [(_ & _ & H & _) _]. by apply Hn, (H fd Hh).
  - destruct (k_watch _ !! _) as [v|] eqn:Hv; [|done]. exfalso. by eapply Hn, watched_client.
Qed.

(** About a descriptor no worker knows; the batches of the workers stay. *)
Lemma acceptor_acts s fd m rr κ b pc :
  server_ok s ->
  (forall w, w ∈ workers -> held (pc_at s (w_epoll_fd w)) <> Some fd /\
     k_watch (sv_kern s) !! (w_epoll_fd w, fd) = None) ->
  server_table m κ -> 0 <= rr -> acceptor_ok m κ pc ->
  fresh pc = None \/ fresh pc = Some fd -> only_about fd (sv_kern s) κ ->
  (forall w, w ∈ workers -> default [] (b !! w_epoll_fd w) = batch_at s (w_epoll_fd w)) ->
  server_ok (Server m rr κ b pc (sv_worker s)).
Proof.
  intros Hs Hno Ht Hrr Hok Hf Hab Hb. pose proof Hs as (_ & _ & _ & Hws & Hd).
  split; [done|split; [done|split; [done|split; [|done]]]]. intros w Hin.
  unfold batch_at. cbn [sv_batch sv_kern sv_acceptor]. rewrite Hb by done.
  change (pc_at (Server _ _ _ _ _ _)) with (pc_at s). destruct (Hno w Hin) as [Hh Hw].
  split; [by eapply worker_ok_other; [apply Hws| | |]|].
  intros f Hf' Hfr. destruct Hf as [Hf|Hf]; rewrite Hf in Hfr; [done|]. by injection Hfr as <-.
Qed.

(** Without touching the kernel. *)
Lemma acceptor_silent s b pc :
  server_ok s -> acceptor_ok (sv_clients s) (sv_kern s) pc ->
  fresh pc = None \/ fresh pc = fresh (sv_acceptor s) ->
  (forall w, w ∈ workers -> default [] (b !! w_epoll_fd w) = batch_at s (w_epoll_fd w)) ->
  server_ok (Server (sv_clients s) (sv_rr s) (sv_kern s) b pc (sv_worker s)).
Proof.
  intros (Ht & Hrr & _ & Hws & Hd) Hok Hf Hb.
  split; [done|split; [done|split; [done|split; [|done]]]]. intros w Hin.
  unfold batch_at. cbn [sv_batch sv_kern sv_acceptor]. rewrite Hb by done.
  change (pc_at (Server _ _ _ _ _ _)) with (pc_at s). split; [by apply Hws|].
  intros f Hf'. destruct Hf as [->| ->]; [done|]. by apply (proj2 (Hws w Hin)).
Qed.

Lemma acceptor_batch s w l :
  w ∈ workers ->
  default [] (<[acceptor_epoll := l]> (sv_batch s) !! w_epoll_fd w) = batch_at s (w_epoll_fd w).
Proof. intros Hin%epoll_in. rewrite lookup_insert_ne; [done|]. by intros ->. Qed.

Lemma acceptor_accepts_ok s r :
  server_ok s -> sv_acceptor s = AAccept -> reply_ok (sv_kern s) (Accept listener) r ->
  server_ok (acceptor_to s (sv_clients s) (kern_next (sv_kern s) (Accept listener) r)
    (if rv r =? -1 then AEvents else if MAX_FDS <=? rv r then ARefuse (rv r)
     else ANonblock (rv r) (make_socket_non_blocking (rv r)))).
Proof.
  intros Hs Hpc Hr. pose proof Hs as (Ht & Hrr & _). cbn [kern_next reply_ok] in *.
  destruct (Z.eqb_spec (rv r) (-1)) as [Hm|Hm].
  { rewrite (proj2 (Z.leb_gt 0 (rv r))) by lia. apply acceptor_silent; [done|by split|by left|done]. }
  destruct Hr as [?|[Hpos Hnew]]; [lia|]. rewrite (proj2 (Z.leb_le 0 (rv r))) by done.
  assert (rv r ∉ infra) as Hni by (intros H; by apply Hnew, Ht).
  assert (forall e, k_watch (sv_kern s) !! (e, rv r) = None) as Hun.
  { intros e. destruct (k_watch (sv_kern s) !! (e, rv r)) as [v|] eqn:Hv; [|done].
    by apply (watch_open any_reply infra epolls acceptor_epoll listener (sv_clients s)) in Hv. }
  unfold acceptor_to. apply (acceptor_acts s (rv r)); try done.
  - intros w Hin. by apply closed_other.
  - eapply table_watch; [exact Ht|apply union_subseteq_r|]. intros e f v Hv. by exists v.
  - assert (forall pc, fresh pc = Some (rv r) -> forall fd, fresh pc = Some fd ->
      fd ∈ {[rv r]} ∪ k_open (sv_kern s) /\ fd ∉ infra /\ 0 <= fd /\
      forall e, k_watch (sv_kern s) !! (e, fd) = None) as Hfresh.
    { intros pc -> fd [= <-]. split; [apply open_new|done]. }
    destruct (Z.leb_spec MAX_FDS (rv r)); (split; [by apply Hfresh|]); [done|].
    split; [done|split].
    + unfold make_socket_non_blocking. cbn. split; [by left|]. intros g.
      destruct (_ =? _); [done|]. cbn. split; [right; by eexists|]. intros g'. by destruct (_ =? _).
    + exists (Kern {[rv r]} ∅). apply wp_make_socket_non_blocking; [set_solver +|done].
  - destruct (MAX_FDS <=? rv r); by right.
  - split; cbn; [done|]. intros f _ Hf. by apply open_old.
Qed.

(** The calls of [make_socket_non_blocking]. *)
Lemma fcntl_next fd c κ r :
  (c = FcntlGetfl fd \/ exists f, c = FcntlSetfl fd f) ->
  kern_next κ c r = κ /\ (forall κl, reply_ok κl c r).
Proof. by intros [->|[f ->]]. Qed.

Lemma acceptor_nonblock_ok s fd p p' :
  server_ok s -> sv_acceptor s = ANonblock fd p ->
  (exists o, p = Say o p') \/ (exists c k r, p = Sys c k /\ p' = k r /\ reply_ok (sv_kern s) c r) ->
  server_ok (acceptor_to s (sv_clients s) (sv_kern s) (ANonblock fd p')).
Proof.
  intros Hs Hpc Hp. pose proof Hs as (_ & _ & [Hf Hok] & _). rewrite Hpc in Hf, Hok.
  destruct Hok as (Hmax & Hc & κl & Hwp).
  apply acceptor_silent; [done| |right; by rewrite Hpc|done].
  split; [exact Hf|split; [done|]].
  destruct Hp as [[o ->]|(c & k & r & -> & -> & Hr)]; [split; [done|by exists κl]|].
  destruct Hc as [Hc Hcs]. split; [apply Hcs|]. exists κl. destruct Hwp as [_ Hk].
  destruct (fcntl_next fd c κl r Hc) as [He Hrep]. specialize (Hk r (Hrep κl) I). by rewrite He in Hk.
Qed.

Lemma acceptor_inits_ok s fd :
  server_ok s -> sv_acceptor s = AInit fd ->
  exists m, init_client_ctx (sv_clients s) fd = Ret m /\
    server_ok (acceptor_to s m (sv_kern s) (ATarget fd)).
Proof.
  intros Hs Hpc. pose proof Hs as (Ht & Hrr & [Hf Hok] & _). rewrite Hpc in Hf, Hok.
  destruct (Hf fd eq_refl) as (Hop & Hni & Hpos & Hun).
  unfold init_client_ctx. rewrite in_table_some by done. cbn [defined pbind].
  eexists. split; [reflexivity|]. set (c := Ctx _ _ _ _ _ _).
  assert (ctx_ok c) as Hc.
  { unfold ctx_ok, c, READ_BUF. ctx_cbn. split; [apply Ht|lia]. }
  unfold acceptor_to. apply (acceptor_acts s fd); try done.
  - intros w Hin. apply fresh_other; [done|done|by rewrite Hpc].
  - by apply table_store.
  - split; [done|]. split; [done|]. by rewrite client_at_insert, bool_decide_true.
  - by right.
Qed.

Context (Hcores : workers <> []).

Lemma target_worker_some rr :
  0 <= rr -> exists w, target_worker workers rr = Some w /\ w ∈ workers.
Proof.
  intros Hrr. unfold target_worker.
  destruct (Z.eqb_spec (Z.of_nat (length workers)) 0) as [H0|H0].
  { destruct workers; [done|simpl in H0; lia]. }
  pose proof (Z.rem_bound_pos rr (Z.of_nat (length workers))) as Hb.
  unfold mem_load. destruct (Z.leb_spec 0 (Z.rem rr (Z.of_nat (length workers)))); [|lia].
  destruct (lookup_lt_is_Some_2 workers (Z.to_nat (Z.rem rr (Z.of_nat (length workers)))))
    as [w Hw]; [lia|].
  exists w. split; [done|]. by eapply list_elem_of_lookup_2.
Qed.

Lemma acceptor_targets_ok s fd w rr :
  server_ok s -> sv_acceptor s = ATarget fd -> target_worker workers (sv_rr s) = Some w ->
  checked_int (sv_rr s + 1) = Some rr ->
  server_ok (Server (sv_clients s) rr (sv_kern s) (sv_batch s) (AAdd fd w) (sv_worker s)).
Proof.
  intros Hs Hpc Hw Hc. pose proof Hs as (Ht & Hrr & [Hf Hok] & _). rewrite Hpc in Hf, Hok.
  apply checked_int_Some in Hc as [-> _].
  apply (acceptor_acts s fd); try done; [|lia| |by right].
  - intros w' Hin. apply fresh_other; [done|done|by rewrite Hpc].
  - split; [exact Hf|]. destruct Hok as [H1 H2]. split; [done|split; [done|]].
    destruct (target_worker_some (sv_rr s) Hrr) as (w' & Hw' & Hin). congruence.
Qed.

Lemma acceptor_adds_ok s fd w r :
  server_ok s -> sv_acceptor s = AAdd fd w ->
  server_ok (acceptor_to s (sv_clients s)
    (kern_next (sv_kern s) (EpollCtl (w_epoll_fd w) EPOLL_CTL_ADD fd EPOLLIN) r) (ACount w)).
Proof.
  intros Hs Hpc. pose proof Hs as (Ht & Hrr & [Hf Hok] & _). rewrite Hpc in Hf, Hok.
  destruct (Hf fd eq_refl) as (Hop & Hni & Hpos & Hun). destruct Hok as (Hmax & Hc & Hin).
  unfold acceptor_to. apply (acceptor_acts s fd); try done.
  - intros w' Hin'. apply fresh_other; [done|done|by rewrite Hpc].
  - apply table_add; try done. by apply epoll_in.
  - by left.
  - split; cbn; destruct (rv r =? 0); try done. intros e f Hne. cbn.
    rewrite lookup_insert_ne; [done|congruence].
Qed.

Lemma acceptor_refuses_ok s fd r :
  server_ok s -> sv_acceptor s = ARefuse fd ->
  server_ok (acceptor_to s (sv_clients s) (kern_next (sv_kern s) (Close fd) r) AAccept).
Proof.
  intros Hs Hpc. pose proof Hs as (Ht & Hrr & [Hf _] & _). rewrite Hpc in Hf.
  destruct (Hf fd eq_refl) as (Hop & Hni & _).
  unfold acceptor_to. apply (acceptor_acts s fd); try done.
  - intros w Hin. apply fresh_other; [done|done|by rewrite Hpc].
  - by apply table_closed.
  - by left.
  - eapply close_only_about, not_epoll; done.
Qed.

Lemma acceptor_step_ok s s' r : server_ok s -> acceptor_step r s = Some s' -> server_ok s'.
Proof.
  intros Hs Hstep. unfold acceptor_step in Hstep. destruct (sv_acceptor s) as
    [| | |fd|fd p|fd|fd|fd w|w] eqn:Hpc.
  - destruct (reply_to _ _ _) as [κ'|] eqn:Hr; [|done]. apply reply_to_Some in Hr as [_ ->].
    injection Hstep as <-. apply acceptor_silent; [done|by split|by left|].
    intros w Hin. by apply acceptor_batch.
  - destruct (batch_at s acceptor_epoll) as [|ev evs]; injection Hstep as <-.
    + apply acceptor_silent; [done|by split|by left|done].
    + apply acceptor_silent; [done|by destruct (_ =? _)|left; by destruct (_ =? _)|].
      intros w Hin. by apply acceptor_batch.
  - destruct (reply_to _ _ _) as [κ'|] eqn:Hr; [|done]. apply reply_to_Some in Hr as [Hr ->].
    injection Hstep as <-. by apply acceptor_accepts_ok.
  - destruct (reply_to _ _ _) as [κ'|] eqn:Hr; [|done]. apply reply_to_Some in Hr as [_ ->].
    injection Hstep as <-. by apply (acceptor_refuses_ok s fd r).
  - destruct p as [z|n|why| |o p'|c k]; try done.
    + injection Hstep as <-. pose proof Hs as (_ & _ & [Hf Hok] & _). rewrite Hpc in Hf, Hok.
      apply acceptor_silent; [done| |right; by rewrite Hpc|done]. split; [exact Hf|apply Hok].
    + injection Hstep as <-. eapply acceptor_nonblock_ok; [done|done|left; by exists o].
    + destruct (reply_to _ _ _) as [κ'|] eqn:Hr; [|done]. apply reply_to_Some in Hr as [Hr ->].
      injection Hstep as <-. pose proof Hs as (_ & _ & [_ Hok] & _). rewrite Hpc in Hok.
      destruct Hok as (_ & [Hc _] & _). rewrite (proj1 (fcntl_next fd c (sv_kern s) r Hc)).
      eapply acceptor_nonblock_ok; [done|done|right; eauto 10].
  - destruct (acceptor_inits_ok s fd Hs Hpc) as (m & Hm & Hok). rewrite Hm in Hstep.
    by injection Hstep as <-.
  - destruct (target_worker _ _) as [w|] eqn:Hw; [|done]. cbn in Hstep.
    destruct (checked_int _) as [rr|] eqn:Hc; [|done]. cbn in Hstep. injection Hstep as <-.
    by apply acceptor_targets_ok.
  - destruct (reply_to _ _ _) as [κ'|] eqn:Hr; [|done]. apply reply_to_Some in Hr as [_ ->].
    injection Hstep as <-. by apply acceptor_adds_ok.
  - injection Hstep as <-. apply acceptor_silent; [done|by split|by left|done].
Qed.

Lemma started_ok s : started s -> server_ok s.
Proof.
  intros (_ & _ & _ & Hi & Hc & Hrr & Hw & Hb & Ha & Hpc).
  assert (forall e, pc_at s e = WWait) as Hpcs by (intros e; unfold pc_at; by rewrite Hpc, lookup_empty).
  split; [split; [split; [done|split; [|split]]|]|split; [by rewrite Hrr|split; [by rewrite Ha|split]]].
  - unfold infra. set_solver +.
  - unfold infra. set_solver +.
  - rewrite Hc. intros f. reflexivity.
  - intros e f v Hv. left. by eapply Hw.
  - intros w _. rewrite Hpcs. unfold batch_at. rewrite Hb, lookup_empty.
    split; [by repeat constructor|done].
  - intros w w' fd _ _. by rewrite Hpcs.
Qed.

Lemma reachable_ok s s' : started s -> rtc step s s' -> server_ok s'.
Proof.
  intros Hs Hr. apply started_ok in Hs. induction Hr as [|s1 s2 s3 Hstep _ IH]; [done|].
  apply IH. destruct Hstep; [by eapply worker_step_ok|by eapply acceptor_step_ok].
Qed.

(** *** What the invariant gives *)
Lemma worker_call_ok s w c :
  server_ok s -> w ∈ workers -> worker_call w s = Some c -> call_ok (sv_kern s) c.
Proof.
  intros Hs Hin Hc. pose proof Hs as (Ht & _ & _ & Hws & _). destruct (Hws w Hin) as [Hok _].
  assert (w_epoll_fd w ∈ k_open (sv_kern s)) as Hep.
  { apply (proj1 (proj1 Ht)). unfold infra. apply elem_of_union. right. by apply epoll_in. }
  unfold worker_call in Hc. destruct (pc_at s (w_epoll_fd w)) as [| |fd mask h|fd|fd|] eqn:Hpc;
    try done; try (destruct h; try done); injection Hc as <-.
  - split; [by constructor|done].
  - destruct Hok as (_ & _ & Hh & Hwt & [Hc _] & κl & Hwp).
    destruct (Hh fd eq_refl) as (_ & Hop & _). destruct Hwp as [[(_ & Hsz & _) _] _].
    destruct c0; cbn in Hc; try done; try destruct op; try done.
    + subst. split; [by constructor|done].
    + subst. split; [by constructor|done].
    + destruct Hc as [-> ->]. split; [by repeat constructor|by split].
  - destruct Hok as (_ & _ & Hh & Hwt). destruct (Hh fd eq_refl) as (_ & Hop & _).
    split; [by repeat constructor|by split].
  - destruct Hok as (_ & _ & Hh & _). destruct (Hh fd eq_refl) as (_ & Hop & _).
    split; [by repeat constructor|by split].
Qed.

Lemma acceptor_call_ok s c :
  server_ok s -> acceptor_call s = Some c -> call_ok (sv_kern s) c.
Proof.
  intros (Ht & _ & [Hf Hok] & _) Hc. pose proof (proj1 (proj1 Ht)) as Hi.
  unfold acceptor_call in Hc. destruct (sv_acceptor s) as [| | |fd|fd p|fd|fd|fd w|w]; try done.
  - injection Hc as <-. split; [constructor; [apply Hi; unfold infra; set_solver +|done]|done].
  - injection Hc as <-. split; [constructor; [apply Hi; unfold infra; set_solver +|done]|done].
  - injection Hc as <-. destruct (Hf fd eq_refl) as (Hop & _). split; [by constructor|done].
  - destruct p; try done. injection Hc as <-. destruct (Hf fd eq_refl) as (Hop & _).
    destruct Hok as (_ & [[->|[f ->]] _] & _); (split; [by constructor|done]).
  - injection Hc as <-. destruct (Hf fd eq_refl) as (Hop & _ & _ & Hun). destruct Hok as (_ & _ & Hin).
    split; [constructor; [|by constructor]|by split].
    apply Hi. unfold infra. apply elem_of_union. right. by apply epoll_in.
Qed.

Lemma calls_are_safe s : server_ok s -> calls_safe s.
Proof.
  intros Hs. pose proof Hs as (_ & Hrr & [Hf Hok] & Hws & _).
  split; [intros w c; by apply worker_call_ok|split; [intros c; by apply acceptor_call_ok|split]].
  - intros w why Hin Hu. destruct (Hws w Hin) as [(_ & _ & _ & Hpc) _]. unfold worker_undef in Hu.
    destruct (pc_at s (w_epoll_fd w)) as [| |fd mask h|fd|fd|]; try done.
    destruct h; try done. injection Hu as <-. by destruct Hpc as (_ & _ & κl & H).
  - intros why Hu. unfold acceptor_undef in Hu.
    destruct (sv_acceptor s) as [| | |fd|fd p|fd|fd|fd w|w] eqn:Hpc; try done.
    + destruct p; try done. by destruct Hok as (_ & _ & κl & []).
    + destruct (acceptor_inits_ok s fd Hs Hpc) as (m & Hm & _). by rewrite Hm in Hu.
    + destruct (target_worker_some (sv_rr s) Hrr) as (w & Hw & _). rewrite Hw in Hu.
      destruct (checked_int _); [done|]. by injection Hu as <-.
Qed.

Lemma no_races s : server_ok s -> race_free s.
Proof.
  intros (_ & _ & _ & Hws & Hd).
  assert (forall w fd, worker_uses w s = Some fd -> held (pc_at s (w_epoll_fd w)) = Some fd) as Hh.
  { intros w fd. unfold worker_uses. by destruct (pc_at s (w_epoll_fd w)). }
  split.
  - intros w w' fd Hin Hin' H1%Hh H2%Hh. by eapply Hd.
  - intros w fd Hin H1%Hh H2. apply (proj2 (Hws w Hin) fd H1). unfold acceptor_uses in H2.
    destruct (sv_acceptor s); try done. 
Qed.

Lemma events_are_own s : server_ok s -> events_own s.
Proof.
  intros (Ht & _ & _ & Hws & _). split.
  - intros w fd Hin Hfd. destruct (Hws w Hin) as [(_ & Hf & _ & Hpc) _]. destruct Hfd as [Hu|Hb].
    + unfold worker_uses in Hu. destruct (pc_at s (w_epoll_fd w)); try done.
      injection Hu as <-. apply Hpc.
    + apply list_elem_of_fmap in Hb as (ev & -> & Hev). rewrite Forall_forall in Hf.
      specialize (Hf ev Hev). unfold ready_ok in Hf. by destruct (_ !! _).
  - intros fd w w' Hin Hin' [v Hv] [v' Hv'].
    destruct (watched_client _ _ _ _ _ Ht Hin Hv) as (_ & _ & _ & _ & Ho). symmetry. by eapply Ho.
Qed.

(** *** The steps and the code

    A thread that is not interrupted does what the functions above do: an
    event of a worker is [worker_event], a turn of the acceptor is
    [accept_iter]. *)
Lemma reply_to_ok κ c r : reply_ok κ c r -> reply_to κ c r = Some (kern_next κ c r).
Proof. intros H. unfold reply_to. by rewrite decide_True. Qed.

Lemma worker_to_twice s e m κ b pc m' κ' b' pc' :
  worker_to (worker_to s e m κ b pc) e m' κ' b' pc' = worker_to s e m' κ' b' pc'.
Proof. unfold worker_to. cbn. by rewrite !insert_insert_eq. Qed.

(** One step of a worker at a given place. *)
Ltac worker_at :=
  match goal with
  | |- context [pc_at (worker_to ?s ?e ?m ?κ ?b ?pc) ?e] =>
      destruct (worker_at_same s e m κ b pc) as [-> ->]
  end.

Lemma worker_step_to s w r m κ b pc s2 s3 :
  w ∈ workers -> worker_step w r (worker_to s (w_epoll_fd w) m κ b pc) = Some s2 ->
  rtc step s2 s3 -> rtc step (worker_to s (w_epoll_fd w) m κ b pc) s3.
Proof. intros Hin Hs. apply rtc_l. by apply (step_worker _ _ w r). Qed.

Lemma handler_runs s w fd mask m b h κ env x rest t :
  w ∈ workers -> run h env = (Done x rest, t) -> kern_valid any_reply κ t ->
  rtc step (worker_to s (w_epoll_fd w) m κ b (WHandle fd mask h))
    (worker_to s (w_epoll_fd w) m (kern_after κ t) b (WHandle fd mask (Ret x))).
Proof.
  intros Hin. revert κ env t. induction h as [a|n|why| |o h IH|c k IH]; intros κ env t Hr Hv.
  1-4: cbn in Hr; try done. { injection Hr as -> _ <-. apply rtc_refl. }
  - cbn in Hr. destruct (run h env) as [o' t'] eqn:E. injection Hr as -> <-. cbn [kern_after].
    eapply (worker_step_to _ w (rint 0)); [done| |by apply (IH κ env t')].
    unfold worker_step. worker_at. cbn. by rewrite worker_to_twice.
  - destruct env as [|r env]; [done|]. cbn in Hr. destruct (run (k r) env) as [o' t'] eqn:E.
    injection Hr as -> <-. destruct Hv as (Hrep & _ & Hv). cbn [kern_after].
    eapply (worker_step_to _ w r); [done| |by apply (IH r _ env t')].
    unfold worker_step. worker_at. cbn. rewrite reply_to_ok by done. cbn. by rewrite worker_to_twice.
Qed.

(** The farewell of a worker to a client that is gone. *)
Lemma leave_runs s w fd m b κ bye env m' rest t :
  w ∈ workers ->
  run (sys (EpollCtl (w_epoll_fd w) EPOLL_CTL_DEL fd 0) ;;; sys (Close fd) ;;; Say bye (Ret m)) env
    = (Done m' rest, t) ->
  kern_valid any_reply κ t ->
  m' = m /\ rtc step (worker_to s (w_epoll_fd w) m κ b (WDel fd))
    (worker_to s (w_epoll_fd w) m (kern_after κ t) b WEvents).
Proof.
  intros Hin Hr Hv. destruct env as [|r1 [|r2 env]]; try done. cbn in Hr. injection Hr as <- _ <-.
  destruct Hv as (H1 & _ & H2 & _ & _). split; [done|]. cbn [kern_after].
  eapply (worker_step_to _ w r1); [done| |].
  { unfold worker_step. worker_at. cbn [sv_kern sv_clients worker_to].
    rewrite reply_to_ok by done. cbn [mbind option_bind]. by rewrite worker_to_twice. }
  eapply (worker_step_to _ w r2); [done| |].
  { unfold worker_step. worker_at. cbn [sv_kern sv_clients worker_to].
    rewrite reply_to_ok by done. cbn [mbind option_bind]. by rewrite worker_to_twice. }
  eapply (worker_step_to _ w r2); [done| |apply rtc_refl].
  unfold worker_step. worker_at. cbn [sv_kern sv_clients worker_to]. by rewrite worker_to_twice.
Qed.

(** An event. *)
Lemma worker_event_runs s w fd mask b env m rest t :
  w ∈ workers -> pc_at s (w_epoll_fd w) = WEvents ->
  batch_at s (w_epoll_fd w) = (fd, mask) :: b ->
  run (worker_event w (fd, mask) (sv_clients s)) env = (Done m rest, t) ->
  kern_valid any_reply (sv_kern s) t ->
  rtc step s (worker_to s (w_epoll_fd w) m (kern_after (sv_kern s) t) b WEvents).
Proof.
  intros Hin Hpc Hb Hr Hv. unfold worker_event, serve_event in Hr.
  apply run_bind_done in Hr as ([m1 alive] & rest1 & t1 & t2 & H1 & H2 & ->).
  apply kern_valid_app in Hv as [Hv1 Hv2]. rewrite kern_after_app.
  assert (rtc step
    (worker_to s (w_epoll_fd w) m1 (kern_after (sv_kern s) t1) b (after_handler fd mask alive))
    (worker_to s (w_epoll_fd w) m (kern_after (kern_after (sv_kern s) t1) t2) b WEvents)) as Hleave.
  { unfold after_handler. destruct (negb alive || _).
    - by destruct (leave_runs s w fd m1 b _ _ _ _ _ _ Hin H2 Hv2) as [-> ?].
    - cbn in H2. injection H2 as <- _ <-. apply rtc_refl. }
  eapply rtc_l; [apply (step_worker _ _ w (rint 0)); [done|]|].
  { unfold worker_step. rewrite Hpc, Hb. reflexivity. }
  assert (forall f, run (with_ctx (sv_clients s) fd f) env = (Done (m1, alive) rest1, t1) ->
    rtc step (worker_to s (w_epoll_fd w) (sv_clients s) (sv_kern s) b (WHandle fd mask
      (let! _ := defined "clients: out of range" (in_table fd) in f (client_at (sv_clients s) fd))))
    (worker_to s (w_epoll_fd w) m1 (kern_after (sv_kern s) t1) b (after_handler fd mask alive))) as Hf.
  { intros f Hf. unfold with_ctx in Hf. destruct (in_table fd); [|done]. cbn [defined pbind] in *.
    apply run_bind_done in Hf as ([c a] & rest2 & t3 & t4 & H3 & H4 & ->).
    cbn in H4. injection H4 as <- <- <- <-. rewrite app_nil_r.
    etrans; [by eapply handler_runs; [|exact H3|rewrite app_nil_r in Hv1]|].
    eapply (worker_step_to _ w (rint 0)); [done| |apply rtc_refl].
    unfold worker_step. worker_at. cbn [sv_kern sv_clients worker_to]. by rewrite worker_to_twice. }
  etrans; [|exact Hleave]. unfold client_event in H1. unfold handler.
  destruct (has mask EPOLLIN); [by apply Hf|]. destruct (has mask EPOLLOUT); [by apply Hf|].
  cbn in H1. injection H1 as <- <- _ <-. apply rtc_refl.
Qed.

Lemma acceptor_step_to s r s2 s3 : acceptor_step r s = Some s2 -> rtc step s2 s3 -> rtc step s s3.
Proof. intros Hs. apply rtc_l. by apply (step_acceptor _ _ r). Qed.

Lemma nonblock_runs s fd m p κ env z rest t :
  run p env = (Done z rest, t) -> kern_valid any_reply κ t ->
  rtc step (acceptor_to s m κ (ANonblock fd p)) (acceptor_to s m (kern_after κ t) (ANonblock fd (Ret z))).
Proof.
  revert κ env t. induction p as [a|n|why| |o p IH|c k IH]; intros κ env t Hr Hv.
  1-4: cbn in Hr; try done. { injection Hr as -> _ <-. apply rtc_refl. }
  - cbn in Hr. destruct (run p env) as [o' t'] eqn:E. injection Hr as -> <-. cbn [kern_after].
    by eapply (acceptor_step_to _ (rint 0)); [|by apply (IH κ env t')].
  - destruct env as [|r env]; [done|]. cbn in Hr. destruct (run (k r) env) as [o' t'] eqn:E.
    injection Hr as -> <-. destruct Hv as (Hrep & _ & Hv). cbn [kern_after].
    eapply (acceptor_step_to _ r); [|by apply (IH r _ env t')].
    unfold acceptor_step. cbn [sv_acceptor acceptor_to sv_kern sv_clients].
    by rewrite reply_to_ok.
Qed.

(** A turn of the accept loop. *)
Lemma accept_iter_runs s env x rest t :
  sv_acceptor s = AAccept ->
  run (accept_iter workers listener (sv_rr s, sv_clients s)) env = (Done x rest, t) ->
  kern_valid any_reply (sv_kern s) t ->
  rtc step s (match x with
              | inl (rr, m) => Server m rr (kern_after (sv_kern s) t) (sv_batch s) AAccept (sv_worker s)
              | inr (rr, m) => Server m rr (kern_after (sv_kern s) t) (sv_batch s) AEvents (sv_worker s)
              end).
Proof.
  intros Hpc Hr Hv. unfold accept_iter, accept_client in Hr.
  apply run_bind_done in Hr as (a & e1 & t1 & t2 & H1 & H2 & ->).
  apply run_sys_done in H1 as [-> ->]. apply kern_valid_app in Hv as [(Ha & _ & _) Hv].
  rewrite kern_after_app. cbn [kern_after] in Hv |- *. set (κ1 := kern_next _ _ a) in *.
  eapply (acceptor_step_to _ a).
  { unfold acceptor_step. rewrite Hpc, reply_to_ok by done. reflexivity. }
  fold κ1. clearbody κ1. clear Ha.
  destruct (rv a =? -1); [cbn in H2; injection H2 as <- _ <-; apply rtc_refl|].
  destruct (MAX_FDS <=? rv a).
  { apply run_bind_done in H2 as (c & e3 & t3 & t4 & H3 & H4 & ->).
    apply run_sys_done in H3 as [-> ->]. cbn in H4. injection H4 as <- _ <-.
    destruct Hv as (Hc & _). eapply (acceptor_step_to _ c); [|apply rtc_refl].
    unfold acceptor_step. cbn [sv_acceptor acceptor_to sv_kern sv_clients].
    by rewrite reply_to_ok. }
  apply run_bind_done in H2 as (z & e3 & t3 & t4 & H3 & H4 & ->).
  apply kern_valid_app in Hv as [Hv3 Hv]. rewrite kern_after_app.
  etrans; [by eapply nonblock_runs|]. set (κ3 := kern_after κ1 t3) in *. clearbody κ3.
  eapply (acceptor_step_to _ (rint 0)); [reflexivity|].
  unfold init_client_ctx in H4. destruct (in_table (rv a)) eqn:Hin; [|done]. cbn [defined pbind] in H4.
  eapply (acceptor_step_to _ (rint 0)).
  { unfold acceptor_step. cbn [sv_acceptor acceptor_to sv_clients]. unfold init_client_ctx.
    rewrite Hin. reflexivity. }
  destruct (target_worker workers (sv_rr s)) as [w|] eqn:Hw; [|done]. cbn [defined pbind] in H4.
  destruct (checked_int (sv_rr s + 1)) as [rr|] eqn:Hc; [|done]. cbn [defined pbind] in H4.
  eapply (acceptor_step_to _ (rint 0)).
  { unfold acceptor_step. cbn [sv_acceptor acceptor_to sv_clients sv_rr]. rewrite Hw. cbn [mbind option_bind].
    rewrite Hc. reflexivity. }
  apply run_bind_done in H4 as (c & e5 & t5 & t6 & H5 & H6 & ->).
  apply run_sys_done in H5 as [-> ->]. cbn in H6. injection H6 as <- _ <-.
  destruct Hv as (Hrep & _). eapply (acceptor_step_to _ c).
  { unfold acceptor_step. cbn [sv_acceptor sv_kern acceptor_to]. rewrite reply_to_ok by done. reflexivity. }
  by eapply (acceptor_step_to _ (rint 0)); [reflexivity|apply rtc_refl].
Qed.
End System.

(** C7. In every interleaving of the acceptor and the workers, one system call
    or one shared access at a time: every call any of them makes is on open
    descriptors (DEL and MOD on a registered one, ADD on an unregistered one);
    no two threads use the context of a client at the same time, in particular
    the acceptor has initialised it before a worker can see the client; an
    event, being handled or still to be, is for a descriptor that is registered
    with this worker and no other, never one that another thread closed; and
    the only undefined behaviour is an overflow a client causes by its command
    ([epoll_ub]) or, after [INT_MAX] connections, that of [rr_counter]. *)
Theorem workers_system_safe workers acceptor_epoll listener s s' :
  workers <> [] ->
  started workers acceptor_epoll listener s ->
  rtc (step workers acceptor_epoll listener) s s' ->
  calls_safe workers acceptor_epoll listener s' /\ race_free workers s' /\ events_own workers s'.
Proof.
  intros Hcores Hst Hr. pose proof Hst as (_ & Hacc & Hlis & _).
  assert (server_ok workers acceptor_epoll listener s') as Hok by (by eapply reachable_ok).
  split; [by apply calls_are_safe|split; [by eapply no_races|]].
  by apply (events_are_own workers acceptor_epoll listener).
Qed.

Definition example_server : server :=
  Server ∅ 0 (Kern {[0; 1; 2; 3; 4; 10; 11]} {[(4, 3) := EPOLLIN]}) ∅ AWait ∅.

(** A schedule: whose turn it is ([None] is the acceptor), and the reply. *)
Fixpoint run_schedule (workers : list worker_ctx_t) (acceptor_epoll listener : Z)
    (sched : list (option nat * reply)) (s : server) : option server :=
  match sched with
  | [] => Some s
  | (None, r) :: sched' =>
      s' ← acceptor_step workers acceptor_epoll listener r s;
      run_schedule workers acceptor_epoll listener sched' s'
  | (Some i, r) :: sched' =>
      w ← workers !! i; s' ← worker_step w r s;
      run_schedule workers acceptor_epoll listener sched' s'
  end.

Lemma run_schedule_steps workers acceptor_epoll listener sched s s' :
  run_schedule workers acceptor_epoll listener sched s = Some s' ->
  rtc (step workers acceptor_epoll listener) s s'.
Proof.
  revert s. induction sched as [|[[i|] r] sched IH]; intros s; cbn.
  - intros [= ->]. apply rtc_refl.
  - destruct (workers !! i) as [w|] eqn:Hw; [|done]. cbn.
    destruct (worker_step w r s) as [s1|] eqn:Hs; [|done]. cbn. intros H.
    eapply rtc_l; [|by apply IH]. apply (step_worker _ _ _ _ _ w r); [|done].
    by eapply list_elem_of_lookup_2.
  - destruct (acceptor_step _ _ _ r s) as [s1|] eqn:Hs; [|done]. cbn. intros H.
    eapply rtc_l; [|by apply IH]. by apply (step_acceptor _ _ _ _ _ r).
Qed.

(** Client 5 is accepted for the first worker; while that worker reads its
    [PING], the acceptor accepts client 6 and is about to initialise its
    context. *)
Definition example_schedule : list (option nat * reply) :=
  let a r := (None, r) in let w r := (Some 0%nat, r) in
  [a (ready_reply [(3, EPOLLIN)]); a (rint 0); a (rint 5); a (rint 2); a (rint 0); a (rint 0);
   a (rint 0); a (rint 0); a (rint 0); a (rint 0);
   w (ready_reply [(5, EPOLLIN)]); a (rint 6); w (rint 0); a (rint 2);
   w (data_reply (str "PING" ++ [NL])); a (rint 0); a (rint 0)].

Lemma example_started : started (example_workers 2) 4 3 example_server.
Proof.
  split; [vm_decide|split; [vm_decide|split; [vm_decide|split; [vm_decide|]]]].
  split; [done|split; [done|split; [|done]]].
  intros e f v Hv. cbn [example_server sv_kern k_watch] in Hv.
  apply lookup_singleton_Some in Hv as [Heq _]. by injection Heq as <- <-.
Qed.

Lemma workers_system_safe_witness :
  exists s', run_schedule (example_workers 2) 4 3 example_schedule example_server = Some s' /\
    (worker_uses (Worker 0 10) s' = Some 5 /\ acceptor_uses s' = Some 6) /\
    calls_safe (example_workers 2) 4 3 s' /\ race_free (example_workers 2) s' /\
    events_own (example_workers 2) s'.
Proof.
  destruct (run_schedule (example_workers 2) 4 3 example_schedule example_server) as [s'|] eqn:E;
    [|exfalso; vm_compute in E; discriminate E].
  exists s'. split; [reflexivity|]. split.
  { vm_compute in E. injection E as <-. split; reflexivity. }
  refine (workers_system_safe (example_workers 2) 4 3 example_server s' _ example_started
    (run_schedule_steps _ _ _ example_schedule _ _ E)).
  clear E. discriminate.
Defined.
