(* ===== verification/DumbReactor.v ===== *)
(** * servers/code/dumb_reactor.c

    The epoll server turned inside out: a registry of handlers with callbacks,
    and one event loop that only dispatches.  The context of a client, its
    callbacks and the dispatcher are translated here from their own source; the
    theorem compares them with the event loop of dumb_epoll.c. *)

From S2P Require Import Prelude CLib Os Kernel DumbCommon ClientState DumbEpoll.

Local Open Scope Z_scope.

Definition MAX_EVENTS : Z := 10000.

(** This file's context has no descriptor in it. *)
Record client_ctx_t := Ctx {
  state : client_state_t;
  read_buf : list Z;
  read_len : Z;
  bytes_to_send : Z;
  bytes_sent : Z
}.

Record worker_ctx_t := Worker { w_id : Z; w_epoll_fd : Z }.

(** The values the callback pointers take. *)
Inductive event_cb := client_read_cb | client_write_cb | accept_cb.

(** [app_data] points to the context of a descriptor. *)
Record handler_t := Handler {
  h_fd : Z;
  on_read : option event_cb;
  on_write : option event_cb;
  app_data : option Z
}.

(** The globals: [clients], [reactor_registry] (zero-initialised), and the
    [rr_counter] of [accept_handler].  An item is named by its index in the
    registry, which is the descriptor it is registered with. *)
Record globals := Globals {
  g_clients : gmap Z client_ctx_t;
  g_registry : gmap Z handler_t;
  g_rr : Z
}.

Definition zero_ctx : client_ctx_t := Ctx STATE_READ_COMMAND (replicate READ_BUF 0) 0 0 0.
Definition client_at (g : globals) (fd : Z) : client_ctx_t :=
  default zero_ctx (g_clients g !! fd).
Definition set_client (g : globals) (fd : Z) (ctx : client_ctx_t) : globals :=
  Globals (<[fd := ctx]> (g_clients g)) (g_registry g) (g_rr g).
Definition zero_handler : handler_t := Handler 0 None None None.
Definition item_at (g : globals) (i : Z) : handler_t := default zero_handler (g_registry g !! i).
Definition set_item (g : globals) (i : Z) (h : handler_t) : globals :=
  Globals (g_clients g) (<[i := h]> (g_registry g)) (g_rr g).

Definition init_client_ctx (g : globals) (fd : Z) : prog globals :=
  let! _ := defined "clients: out of range" (in_table fd) in
  Ret (set_client g fd (Ctx STATE_READ_COMMAND (read_buf (client_at g fd)) 0 0 0)).

Definition reactor_modify (epollfd : Z) (item : handler_t) (events : Z) : prog unit :=
  sys (EpollCtl epollfd EPOLL_CTL_MOD (h_fd item) events) ;;; Ret tt.

(** The two halves of [reactor_remove]: leaving the kernel, and clearing the
    item.  [worker] is null in the main thread. *)
Definition remove_close (worker : option worker_ctx_t) (g : globals) (i : Z) : prog unit :=
  let! w := defined "null pointer: worker" worker in
  let fd := h_fd (item_at g i) in
  sys (EpollCtl (w_epoll_fd w) EPOLL_CTL_DEL fd 0) ;;;
  sys (Close fd) ;;;
  Ret tt.
Definition remove_clear (g : globals) (i : Z) : globals :=
  set_item g i (Handler (h_fd (item_at g i)) None None None).

Definition reactor_remove (worker : option worker_ctx_t) (i : Z) (g : globals) : prog globals :=
  remove_close worker g i ;;;
  Ret (remove_clear g i).

(** The context [item->app_data] points to, as its index in [clients]; the
    callbacks dereference it at once. *)
Definition app_ctx (g : globals) (i : Z) : prog Z :=
  let! c := defined "null pointer: app_data" (app_data (item_at g i)) in
  let! _ := defined "clients: out of range" (in_table c) in
  Ret c.

(** The branches on the command line [ctx->read_buf]; [None] is the unknown
    command, which resets [read_len] and returns. *)
Definition parse_command (ctx : client_ctx_t) (line : list Z) : prog (option client_ctx_t) :=
  if strncmp line (str "PING") 4 =? 0 then
    Ret (Some (Ctx STATE_WRITE_PONG (read_buf ctx) (read_len ctx) 5 0))
  else if strncmp line (str "BURN") 4 =? 0 then
    let depth := sscanf_lld line (str "BURN") 0 in
    let! sum := defined "overflow: recursive_burn" (recursive_burn depth) in
    let out := result_text sum in
    let! buf := defined "snprintf: read_buf"
                  (mem_store (read_buf ctx) 0 (snprintf_bytes (Z.of_nat READ_BUF) out)) in
    Ret (Some (Ctx STATE_WRITE_BURN buf (read_len ctx) (Z.of_nat (length out)) 0))
  else if strncmp line (str "STREAM") 6 =? 0 then
    let bytes := sscanf_lld line (str "STREAM") 65536 in
    Ret (Some (Ctx STATE_WRITE_STREAM (read_buf ctx) (read_len ctx) bytes 0))
  else Ret None.

Definition client_read_handler (worker : option worker_ctx_t) (i : Z) (g : globals)
    : prog globals :=
  let! c := app_ctx g i in
  let ctx := client_at g c in
  let item := item_at g i in
  let! r := sys (Read (h_fd item) (Z.of_nat READ_BUF - 1 - read_len ctx)) in
  if rv r =? -1 then
    if again r then Ret g else reactor_remove worker i g
  else if rv r =? 0 then reactor_remove worker i g else
  let! buf := defined "read: read_buf" (mem_store (read_buf ctx) (read_len ctx) (rdata r)) in
  let len := read_len ctx + rv r in
  let! buf := defined "read_buf: out of range" (mem_store buf len [0]) in
  let! s := defined "read_buf: unterminated" (cstr buf) in
  match strchr s NL with
  | Some newline =>
      let! buf := defined "read_buf: out of range" (mem_store buf (Z.of_nat newline) [0]) in
      let! line := defined "read_buf: unterminated" (cstr buf) in
      let ctx := Ctx (state ctx) buf len (bytes_to_send ctx) (bytes_sent ctx) in
      let! parsed := parse_command ctx line in
      match parsed with
      | Some ctx' =>
          let! w := defined "null pointer: worker" worker in
          reactor_modify (w_epoll_fd w) item EPOLLOUT ;;;
          Ret (set_client g c ctx')
      | None => Ret (set_client g c (Ctx (state ctx) buf 0 (bytes_to_send ctx) (bytes_sent ctx)))
      end
  | None =>
      let len := if len =? Z.of_nat READ_BUF - 1 then 0 else len in
      Ret (set_client g c (Ctx (state ctx) buf len (bytes_to_send ctx) (bytes_sent ctx)))
  end.

(** Reading on: [ctx->state = STATE_READ_COMMAND; ctx->read_len = 0;
    reactor_modify(worker->epoll_fd, item, EPOLLIN)]. *)
Definition read_on (worker : option worker_ctx_t) (item : handler_t) (ctx : client_ctx_t)
    : prog client_ctx_t :=
  let! w := defined "null pointer: worker" worker in
  reactor_modify (w_epoll_fd w) item EPOLLIN ;;;
  Ret (Ctx STATE_READ_COMMAND (read_buf ctx) 0 (bytes_to_send ctx) (bytes_sent ctx)).

(** A branch of [client_write_handler]: [data] gives the bytes it hands to
    [write], [complete] is what it does when all of them are sent. *)
Definition write_state (worker : option worker_ctx_t) (i : Z) (g : globals) (c : Z)
    (data : Z -> option (list Z)) (complete : client_ctx_t -> prog client_ctx_t) : prog globals :=
  let ctx := client_at g c in
  let! remaining := defined "overflow: bytes_to_send - bytes_sent"
                      (checked_ll (bytes_to_send ctx - bytes_sent ctx)) in
  let! d := defined "write: out of range" (data remaining) in
  let! w := sys (Write (h_fd (item_at g i)) d) in
  if rv w <? 0 then
    if again w then Ret g else reactor_remove worker i g
  else
    let! sent := defined "overflow: bytes_sent" (checked_ll (bytes_sent ctx + rv w)) in
    let ctx := Ctx (state ctx) (read_buf ctx) (read_len ctx) (bytes_to_send ctx) sent in
    if bytes_sent ctx =? bytes_to_send ctx then
      let! ctx := complete ctx in Ret (set_client g c ctx)
    else Ret (set_client g c ctx).

Definition client_write_handler (worker : option worker_ctx_t) (i : Z) (g : globals)
    : prog globals :=
  let! c := app_ctx g i in
  let ctx := client_at g c in
  let item := item_at g i in
  match state ctx with
  | STATE_WRITE_PONG =>
      write_state worker i g c (mem_slice (PONG_NL ++ [0]) (bytes_sent ctx)) (read_on worker item)
  | STATE_WRITE_BURN =>
      write_state worker i g c (mem_slice (read_buf ctx) (bytes_sent ctx)) (read_on worker item)
  | STATE_WRITE_STREAM =>
      let chunk := replicate (Z.to_nat CHUNK) 65 in
      write_state worker i g c
        (fun remaining =>
           mem_slice chunk 0 (if wrap_u 64 remaining <? CHUNK then wrap_u 64 remaining else CHUNK))
        (fun ctx => Ret (Ctx STATE_WRITE_DONE (read_buf ctx) (read_len ctx) 5 0))
  | STATE_WRITE_DONE =>
      write_state worker i g c (mem_slice (DONE_NL ++ [0]) (bytes_sent ctx)) (read_on worker item)
  | STATE_READ_COMMAND => Ret g
  end.

Definition target_worker (workers : list worker_ctx_t) (rr_counter : Z) : option worker_ctx_t :=
  let num_cores_global := Z.of_nat (length workers) in
  if num_cores_global =? 0 then None else mem_load workers (Z.rem rr_counter num_cores_global).

Definition accept_iter (workers : list worker_ctx_t) (listener_item : Z) (g : globals)
    : prog (globals + globals) :=
  accept_client (h_fd (item_at g listener_item)) (inr g) (inl g) (fun client_fd =>
  let! g := init_client_ctx g client_fd in
  let! w := defined "workers: out of range" (target_worker workers (g_rr g)) in
  let! rr := defined "overflow: rr_counter" (checked_int (g_rr g + 1)) in
  let item := Handler client_fd (Some client_read_cb) (Some client_write_cb) (Some client_fd) in
  sys (EpollCtl (w_epoll_fd w) EPOLL_CTL_ADD client_fd EPOLLIN) ;;;
  Ret (inl (Globals (g_clients g) (<[client_fd := item]> (g_registry g)) rr))).

Definition accept_handler (F : nat) (workers : list worker_ctx_t) (listener_item : Z)
    (g : globals) : prog globals :=
  loop F (accept_iter workers listener_item) g.

(** [item->on_read(worker_context, item)] *)
Definition call_cb (F : nat) (workers : list worker_ctx_t) (worker : option worker_ctx_t)
    (cb : event_cb) (i : Z) (g : globals) : prog globals :=
  match cb with
  | client_read_cb => client_read_handler worker i g
  | client_write_cb => client_write_handler worker i g
  | accept_cb => accept_handler F workers i g
  end.

(** The body of the loop over the ready events. *)
Definition dispatch_event (F : nat) (workers : list worker_ctx_t) (worker : option worker_ctx_t)
    (ev : Z * Z) (g : globals) : prog globals :=
  let '(i, mask) := ev in
  let item := item_at g i in
  if has mask (Z.lor EPOLLERR EPOLLHUP) then reactor_remove worker i g else
  match on_read item, on_write item with
  | Some cb, ow =>
      if has mask EPOLLIN then call_cb F workers worker cb i g
      else match ow with
           | Some cb' => if has mask EPOLLOUT then call_cb F workers worker cb' i g else Ret g
           | None => Ret g
           end
  | None, Some cb' => if has mask EPOLLOUT then call_cb F workers worker cb' i g else Ret g
  | None, None => Ret g
  end.

Definition reactor_iter (F : nat) (workers : list worker_ctx_t) (epoll_fd : Z)
    (worker : option worker_ctx_t) (g : globals) : prog (globals + unit) :=
  let! r := sys (EpollWait epoll_fd MAX_EVENTS) in
  let! g := for_each (dispatch_event F workers worker) (revs r) g in
  Ret (inl g).

Definition reactor_run (F : nat) (workers : list worker_ctx_t) (epoll_fd : Z)
    (worker : option worker_ctx_t) (g : globals) : prog unit :=
  loop F (reactor_iter F workers epoll_fd worker) g.

Definition worker_thread (F : nat) (workers : list worker_ctx_t) (w : worker_ctx_t)
    (g : globals) : prog unit :=
  printf "Worker %d starting dispatches events (epoll_fd=%d)" [PZ (w_id w); PZ (w_epoll_fd w)] ;;;
  reactor_run F workers (w_epoll_fd w) (Some w) g.

Definition start_worker (i : nat) (ws : list worker_ctx_t) : prog (list worker_ctx_t) :=
  let! e := sys EpollCreate in
  sys (Spawn "worker_thread" (Z.of_nat i)) ;;;
  Ret (ws ++ [Worker (Z.of_nat i) (rv e)]).

Definition main (F : nat) : prog Z :=
  ignored "signal(SIGPIPE, SIG_IGN)" [] ;;;
  let! a := sys (Libc "sched_getaffinity" []) in
  if rv a =? -1 then perror "sched_getaffinity" ;;; Ret EXIT_FAILURE else
  let! c := sys (Libc "CPU_COUNT" []) in
  let num_cores_global := rv c in
  ignored "active_threads = " [num_cores_global + 1] ;;;
  let! l := sys Socket in
  let listener := rv l in
  sys (Setsockopt listener) ;;;
  make_socket_non_blocking listener ;;;
  let! b := sys (Bind listener PORT) in
  if rv b =? -1 then perror "bind" ;;; Ret EXIT_FAILURE else
  let! li := sys (Listen listener MAX_FDS) in
  if rv li =? -1 then perror "listen" ;;; Ret EXIT_FAILURE else
  printf "DUMB epoll reactor server with %ld workers listening on 0.0.0.0:%d"
    [PZ num_cores_global; PZ PORT] ;;;
  let! mem := sys (Malloc (num_cores_global * 16)) in
  let! workers :=
    if (0 <? num_cores_global) && (rv mem =? 0) then Undef "workers: null pointer"
    else for_each start_worker (seq 0 (Z.to_nat num_cores_global)) [] in
  let! e := sys EpollCreate in
  let acceptor_epoll := rv e in
  let! _ := defined "reactor_registry: out of range" (in_table listener) in
  let g := Globals ∅ {[listener := Handler listener (Some accept_cb) None None]} 0 in
  sys (EpollCtl acceptor_epoll EPOLL_CTL_ADD listener EPOLLIN) ;;;
  printf "Main thread dispatches events (epoll_fd=%d)" [PZ acceptor_epoll] ;;;
  reactor_run F workers acceptor_epoll None g ;;;
  Ret EXIT_SUCCESS.

(** ** The callbacks against the event loop of dumb_epoll.c *)

(** What [accept_handler] installs for a client. *)
Definition client_item (fd : Z) : handler_t :=
  Handler fd (Some client_read_cb) (Some client_write_cb) (Some fd).

(** A context of dumb_epoll.c without its descriptor. *)
Definition erase (c : ClientState.client_ctx_t) : client_ctx_t :=
  Ctx (c_state c) (ClientState.read_buf c) (ClientState.read_len c)
    (ClientState.bytes_to_send c) (ClientState.bytes_sent c).

(** The events the dispatcher lets through: with an error or a hang-up the
    input is not looked at. *)
Definition seen (mask : Z) : Z :=
  if has mask (Z.lor EPOLLERR EPOLLHUP) then Z.land mask (Z.lor EPOLLERR EPOLLHUP) else mask.

(** Whether a trace closes a descriptor. *)
Definition closes (fd : Z) (t : list event) : bool :=
  existsb (fun e => match e with ECall (Close f) _ => f =? fd | _ => false end) t.

(** The globals after an event: the contexts of dumb_epoll.c, and the item
    cleared when the descriptor was closed. *)
Definition after_event (g : globals) (fd : Z) (t : list event) (m : clients_t) : globals :=
  let g := Globals (erase <$> m) (g_registry g) (g_rr g) in
  if closes fd t then remove_clear g fd else g.

Lemma set_client_same g fd ctx : g_clients g !! fd = Some ctx -> set_client g fd ctx = g.
Proof. intros H. unfold set_client. rewrite insert_id by done. by destruct g. Qed.

Section Client.
Context (cnt : string -> option obs) (w : worker_ctx_t) (fd : Z) (g : globals).
Context (ctx : ClientState.client_ctx_t).
Context (Hitem : item_at g fd = client_item fd) (Hctx : g_clients g !! fd = Some (erase ctx)).

(** What becomes of a handler's result. *)
Definition outcome_of (x : ClientState.client_ctx_t * bool) : prog globals :=
  let g := set_client g fd (erase x.1) in
  if x.2 : bool then Ret g else reactor_remove (Some w) fd g.

Lemma outcome_same (alive : bool) :
  outcome_of (ctx, alive) = if alive then Ret g else reactor_remove (Some w) fd g.
Proof. unfold outcome_of. cbn [fst snd]. by rewrite set_client_same. Qed.

Lemma client_at_ctx : client_at g fd = erase ctx.
Proof. unfold client_at. by rewrite Hctx. Qed.

Lemma app_ctx_client {A} (k : Z -> prog A) :
  in_table fd = Some tt -> pbind (app_ctx g fd) k = k fd.
Proof. intros Ht. unfold app_ctx. rewrite Hitem. cbn. by rewrite Ht. Qed.

(** The command line is parsed alike. *)
Lemma parse_command_dispatch c line {A} (k : option client_ctx_t -> prog A) k' :
  (forall c', k (Some (erase c')) ≃ k' (c', true)) ->
  (forall c', erase c' = Ctx (c_state c) (ClientState.read_buf c) 0
      (ClientState.bytes_to_send c) (ClientState.bytes_sent c) -> k None ≃ k' (c', false)) ->
  pbind (parse_command (erase c) line) k ≃ pbind (quiet (dispatch cnt c line)) k'.
Proof.
  intros Hs Hn. unfold parse_command, dispatch, note. cbn [erase read_buf read_len].
  destruct (strncmp line (str "PING") 4 =? 0).
  { destruct (cnt _); exact (Hs (set_write c _ _ _)). }
  destruct (strncmp line (str "BURN") 4 =? 0).
  { destruct (cnt "total_burn_requests"); cbn [pbind quiet];
      destruct (recursive_burn _); cbn [defined pbind quiet]; try done;
      (destruct (mem_store _ _ _); [exact (Hs (set_write c _ _ _))|done]). }
  destruct (strncmp line (str "STREAM") 6 =? 0).
  { destruct (cnt _); exact (Hs (set_write c _ _ _)). }
  by destruct (cnt _); cbn [pbind quiet]; apply Hn.
Qed.

Lemma read_handler_refines :
  in_table fd = Some tt ->
  client_read_handler (Some w) fd g ≃
    pbind (quiet (handle_read_ctx cnt (w_epoll_fd w) fd ctx)) outcome_of.
Proof.
  intros Ht. unfold client_read_handler. rewrite app_ctx_client, client_at_ctx, Hitem by done.
  unfold handle_read_ctx. cbn [client_item h_fd sys pbind quiet peq erase read_buf read_len].
  split; [done|]. intros r.
  destruct (rv r =? -1); [by destruct (again r); cbn [quiet pbind]; rewrite outcome_same|].
  destruct (rv r =? 0); [by cbn [quiet pbind]; rewrite outcome_same|].
  destruct (mem_store _ _ (rdata r)) as [buf|]; [|done]. cbn [defined pbind].
  destruct (mem_store buf _ [0]) as [buf1|]; [|done]. cbn [defined pbind].
  destruct (cstr buf1) as [s|]; [|done]. cbn [defined pbind].
  destruct (strchr s NL) as [n|]; [|done].
  destruct (mem_store buf1 _ [0]) as [buf2|]; [|done]. cbn [defined pbind].
  destruct (cstr buf2) as [line|]; [|done]. cbn [defined pbind].
  rewrite quiet_bind, peq_bind_assoc.
  set (c := ClientState.Ctx _ _ _ _ _ _). change (parse_command _ line) with (parse_command (erase c) line).
  apply parse_command_dispatch.
  - intros c'. done.
  - intros c' Hc. cbn [pbind quiet outcome_of fst snd]. unfold outcome_of. cbn [fst snd]. by rewrite Hc.
Qed.

(** A branch that writes, given that it completes alike. *)
Lemma write_state_refines (data : Z -> option (list Z)) complete complete' :
  (forall n, complete (erase (sent_more ctx n)) ≃
     pbind (quiet (complete' (sent_more ctx n))) (fun c => Ret (erase c))) ->
  write_state (Some w) fd g fd data complete ≃
    pbind (quiet (write_branch fd ctx data complete')) outcome_of.
Proof.
  intros Hc. unfold write_state, write_branch. rewrite client_at_ctx, Hitem.
  cbn [erase bytes_to_send bytes_sent client_item h_fd].
  destruct (checked_ll (_ - _)) as [n|]; [|done]. cbn [defined pbind].
  destruct (data n) as [d|]; [|done]. cbn [defined pbind sys quiet peq]. split; [done|]. intros r.
  destruct (rv r <? 0); [by destruct (again r); cbn [quiet pbind]; rewrite outcome_same|].
  destruct (checked_ll (_ + rv r)) as [k|] eqn:Hk; [|done].
  apply checked_ll_Some in Hk as [-> _]. cbn [defined pbind].
  cbn [bytes_sent bytes_to_send ClientState.bytes_sent ClientState.bytes_to_send].
  change (ClientState.Ctx _ _ _ _ _ _) with (sent_more ctx (rv r)).
  destruct (_ =? _); [|done].
  change (Ctx _ _ _ _ _) with (erase (sent_more ctx (rv r))).
  rewrite Hc, quiet_bind, !peq_bind_assoc. apply pbind_proper; [done|]. by intros c.
Qed.

Lemma read_on_refines c :
  read_on (Some w) (client_item fd) (erase c) ≃
    pbind (quiet (back_to_reading (w_epoll_fd w) fd c)) (fun c => Ret (erase c)).
Proof. done. Qed.

Lemma write_handler_refines :
  in_table fd = Some tt ->
  client_write_handler (Some w) fd g ≃
    pbind (quiet (handle_write_ctx (w_epoll_fd w) fd ctx)) outcome_of.
Proof.
  intros Ht. unfold client_write_handler. rewrite app_ctx_client, client_at_ctx, Hitem by done.
  unfold handle_write_ctx. cbn [erase state read_buf bytes_sent].
  destruct (c_state ctx); [by cbn [quiet pbind]; rewrite outcome_same|..];
    apply write_state_refines; intros n; solve [apply read_on_refines|done].
Qed.
End Client.

(** ** The event loops compared *)

Lemma land_has a b c : Z.land b c = 0 -> has (Z.land a b) c = false.
Proof. intros H. unfold has. by rewrite <- Z.land_assoc, H, Z.land_0_r. Qed.

(** The program of an event: dumb_epoll.c's, then what is left to do. *)
Lemma dispatch_event_quiet F workers w fd mask g m ctx :
  item_at g fd = client_item fd -> m !! fd = Some ctx -> g_clients g = erase <$> m ->
  dispatch_event F workers (Some w) (fd, mask) g ≃
    (let! x := quiet (client_event global_counter (w_epoll_fd w) fd (seen mask) m) in
     let g' := Globals (erase <$> x.1) (g_registry g) (g_rr g) in
     if negb x.2 || has (seen mask) (Z.lor EPOLLERR EPOLLHUP)
     then reactor_remove (Some w) fd g' else Ret g').
Proof.
  intros Hi Hm Hg. unfold dispatch_event, seen, client_event.
  assert (Globals (erase <$> m) (g_registry g) (g_rr g) = g) as Hsame
    by (rewrite <- Hg; by destruct g).
  destruct (has mask (Z.lor EPOLLERR EPOLLHUP)) eqn:Herr.
  { rewrite !land_has by done. cbn [quiet pbind fst snd negb orb]. rewrite Hsame.
    replace (has (Z.land _ _) _) with true; [done|]. symmetry.
    unfold has in *. by rewrite <- Z.land_assoc, Z.land_diag. }
  rewrite Hi, Herr. cbn [client_item on_read on_write].
  assert (g_clients g !! fd = Some (erase ctx)) as Hctx by (by rewrite Hg, lookup_fmap, Hm).
  assert (forall h f, (in_table fd = Some tt -> h ≃ pbind (quiet (f ctx)) (outcome_of w fd g)) ->
    (in_table fd = None -> h ≃ Undef "clients: out of range") ->
    h ≃ (let! x := quiet (with_ctx m fd f) in
         let g' := Globals (erase <$> x.1) (g_registry g) (g_rr g) in
         if negb x.2 || false then reactor_remove (Some w) fd g' else Ret g')) as Hstep.
  { intros h f H1 H2. unfold with_ctx.
    destruct (in_table fd) as [[]|]; [|by rewrite (H2 eq_refl)].
    rewrite (H1 eq_refl). cbn [defined pbind]. unfold ClientState.client_at. rewrite Hm.
    cbn [default from_option]. rewrite quiet_bind, peq_bind_assoc.
    apply pbind_proper; [done|]. intros [c b]. cbn [quiet pbind fst snd]. unfold outcome_of, set_client.
    rewrite fmap_insert, Hg, orb_false_r. cbn [fst snd]. by destruct b. }
  destruct (has mask EPOLLIN); [|destruct (has mask EPOLLOUT)].
  - apply Hstep; [by apply read_handler_refines|]. intros Ht. cbn [call_cb].
    unfold client_read_handler, app_ctx. rewrite Hi. cbn. by rewrite Ht.
  - apply Hstep; [by apply write_handler_refines|]. intros Ht. cbn [call_cb].
    unfold client_write_handler, app_ctx. rewrite Hi. cbn. by rewrite Ht.
  - cbn [quiet pbind fst snd negb orb]. by rewrite Hsame.
Qed.

Lemma closes_app fd t t' : closes fd (t ++ t') = closes fd t || closes fd t'.
Proof. apply existsb_app. Qed.

Lemma closes_calls fd t : closes fd (calls t) = closes fd t.
Proof.
  induction t as [|e t IH]; [done|]. change (e :: t) with ([e] ++ t).
  unfold calls in *. rewrite omap_app, !closes_app, IH. by destruct e.
Qed.

Lemma own_calls_keep_open ep fd t :
  Forall (fun e => match e with ECall c _ | EPend c => own_call ep fd c | ESay _ => True end) t ->
  closes fd t = false.
Proof. induction 1 as [|[[]| |] t]; cbn in *; done. Qed.

(** C9. On a client, the reactor's callbacks do what the event loop of
    dumb_epoll.c does: whatever the replies, the dispatcher makes the same
    calls in the same order, with the same result, as the body of the loop of
    dumb_epoll.c on the same event, and it clears the client's item exactly
    when the descriptor was closed.  There is one difference, in [seen]: with
    [EPOLLERR] or [EPOLLHUP] set, the reactor takes no notice of [EPOLLIN] and
    [EPOLLOUT], so what the client sent before it hung up is not read. *)
Theorem reactor_client_event F F' workers w listener fd mask g m ctx env o t :
  fd <> listener -> item_at g fd = client_item fd ->
  m !! fd = Some ctx -> g_clients g = erase <$> m ->
  run (DumbEpoll.event_step F' (w_epoll_fd w) listener (fd, seen mask) m) env = (o, t) ->
  run (dispatch_event F workers (Some w) (fd, mask) g) env =
    (map_outcome (after_event g fd t) o, calls t).
Proof.
  intros Hl Hi Hm Hg Hr. unfold event_step in Hr. rewrite (proj2 (Z.eqb_neq _ _) Hl) in Hr.
  pose proof (run_quiet (serve_event global_counter (FetchAdd "active_connections" 0 (-1))
    (w_epoll_fd w) (fd, seen mask) m) env) as Hq.
  rewrite Hr in Hq. unfold serve_event in Hq. rewrite quiet_bind, run_bind in Hq.
  rewrite (dispatch_event_quiet F workers w fd mask g m ctx Hi Hm Hg), run_bind.
  pose proof (run_quiet (client_event global_counter (w_epoll_fd w) fd (seen mask) m) env) as Hc.
  destruct (run (client_event global_counter (w_epoll_fd w) fd (seen mask) m) env) as [o1 t1] eqn:E1.
  rewrite Hc in Hq |- *. pose proof (client_event_calls global_counter (w_epoll_fd w) fd (seen mask) m) as Hown.
  eapply only_calls_run, own_calls_keep_open in Hown; [|exact E1]. rewrite <- closes_calls in Hown.
  unfold after_event. rewrite <- (closes_calls fd t).
  destruct o1 as [[m1 alive] rest| | | |]; try (injection Hq as <- <-; done).
  cbn [fst snd]. destruct (negb alive || _).
  - unfold reactor_remove, remove_close.
    assert (forall gc gr, item_at (Globals gc (g_registry g) gr) fd = client_item fd) as Hi'
      by (intros; exact Hi).
    rewrite Hi'. cbn [defined pbind sys client_item h_fd].
    cbn [quiet pbind sys] in Hq.
    destruct rest as [|r1 [|r2 rest]]; cbn in Hq |- *; injection Hq as <- <-; cbn; try done.
    rewrite closes_app, Hown. cbn. by rewrite Z.eqb_refl.
  - cbn in Hq |- *. injection Hq as <- <-. cbn. rewrite app_nil_r, Hown. done.
Qed.

(** An error on the listening socket makes the main thread, whose worker
    context is null, dereference it. *)
Lemma listener_error_crashes F workers i mask g env :
  has mask (Z.lor EPOLLERR EPOLLHUP) = true ->
  run (dispatch_event F workers None (i, mask) g) env = (Undefined "null pointer: worker", []).
Proof. intros Hm. unfold dispatch_event. by rewrite Hm. Qed.

(** [reactor_remove] closes the descriptor before it clears the item.  When
    the acceptor is handed the same number in between, the clearing hits the
    new connection: its events are dispatched to nobody, for ever. *)
Lemma remove_races_accept F workers w fd g :
  dispatch_event F workers w (fd, EPOLLIN) (remove_clear g fd) ≃ Ret (remove_clear g fd).
Proof.
  unfold dispatch_event, remove_clear, set_item, item_at. cbn [g_registry has].
  rewrite lookup_insert, decide_True by done. reflexivity.
Qed.

(** A client sends [PING] and shuts its end at once: dumb_epoll.c reads the
    command before it closes, the reactor closes. *)
Example hup_unread :
  let g := Globals {[5 := zero_ctx]} {[5 := client_item 5]} 0 in
  (run (dispatch_event 1 [] (Some (Worker 0 10)) (5, EPOLLIN + EPOLLHUP) g) [rint 0; rint 0]).2
    = [ECall (EpollCtl 10 EPOLL_CTL_DEL 5 0) (rint 0); ECall (Close 5) (rint 0)] /\
  received 5 (run (DumbEpoll.event_step 1 10 3 (5, EPOLLIN + EPOLLHUP) {[5 := ClientState.zero_ctx]})
    [data_reply (str "PING" ++ [NL]); rint 0; rint 0; rint 0]).2 = str "PING" ++ [NL].
Proof. split; vm_compute; reflexivity. Qed.

(** A [PING] is read and the client is armed for the answer, by the same calls
    as in dumb_epoll.c. *)
Lemma reactor_client_event_witness :
  let m : clients_t := {[5 := ClientState.zero_ctx]} in
  let g := Globals (erase <$> m) {[5 := client_item 5]} 0 in
  let env := [data_reply (str "PING" ++ [NL]); rint 0] in
  exists o t,
    run (DumbEpoll.event_step 1 10 3 (5, seen EPOLLIN) m) env = (o, t) /\
    run (dispatch_event 1 [] (Some (Worker 0 10)) (5, EPOLLIN) g) env
      = (map_outcome (after_event g 5 t) o, calls t) /\
    received 5 (calls t) = str "PING" ++ [NL].
Proof.
  intros m g env. destruct (run (DumbEpoll.event_step 1 10 3 (5, seen EPOLLIN) m) env) as [o t] eqn:Hr.
  exists o, t. split; [done|split].
  - apply (reactor_client_event 1 1 [] (Worker 0 10) 3 5 EPOLLIN g m ClientState.zero_ctx env o t).
    + done.
    + reflexivity.
    + reflexivity.
    + reflexivity.
    + exact Hr.
  - vm_compute in Hr. injection Hr as _ <-. vm_compute. reflexivity.
Defined.
