(* ===== verification/SelectChat.v ===== *)
(** * servers/code/select_chat.c

    The chat server on [select]: a master set of descriptors, the loop over
    the ready ones, and the broadcast of a message to every other client. *)

From S2P Require Import Prelude CLib Os Kernel.

Local Open Scope Z_scope.

Definition PORT : Z := 8090.
Definition BUF_SIZE : Z := 1024.

(** [fd_set] holds the descriptors below [FD_SETSIZE]; the macros do not test
    the range. *)
Definition FD_SETSIZE : Z := 1024.
Definition FD_SET (fd : Z) (s : gset Z) : option (gset Z) :=
  if (0 <=? fd) && (fd <? FD_SETSIZE) then Some ({[fd]} ∪ s) else None.
Definition FD_CLR (fd : Z) (s : gset Z) : option (gset Z) :=
  if (0 <=? fd) && (fd <? FD_SETSIZE) then Some (s ∖ {[fd]}) else None.
Definition FD_ISSET (fd : Z) (s : gset Z) : option bool :=
  if (0 <=? fd) && (fd <? FD_SETSIZE) then Some (bool_decide (fd ∈ s)) else None.

(** ** The texts, shared with the epoll version *)
Definition welcome_text (fd : Z) : list Z :=
  str "Welcome chat user no. " ++ dec fd ++ str "!" ++ [NL].
Definition chat_text (i : Z) (buf : list Z) : list Z :=
  str "[User " ++ dec i ++ str "]: " ++ buf.

(** [snprintf] into an array of [size] bytes, then [send] of its [strlen]. *)
Definition send_text (fd size : Z) (text : list Z) : prog reply :=
  let! s := defined "unterminated" (cstr (snprintf_bytes size text)) in
  sys (Send fd s).

(** [buf[bytes_received] = '\0'] on the array [recv] filled, and the string it
    then holds; the rest of the array is not read. *)
Definition received_text (bytes : list Z) : prog (list Z) :=
  let! buf := defined "buf: out of range"
    (mem_store (bytes ++ replicate (Z.to_nat BUF_SIZE - length bytes) 0)
       (Z.of_nat (length bytes)) [0]) in
  defined "buf: unterminated" (cstr buf).

(** ** The server *)
Record state := State { master_set : gset Z; fd_max : Z }.

Definition accept_client (listener : Z) (st : state) : prog state :=
  printf "Calling accept()... " [] ;;;
  let! a := sys (Accept listener) in
  let new_fd := rv a in
  if new_fd =? -1 then perror "accept() failed" ;;; Ret st else
  let! master := defined "FD_SET: out of range" (FD_SET new_fd (master_set st)) in
  let fd_max := if fd_max st <? new_fd then new_fd else fd_max st in
  printf "done!: new client (fd=%d) connected from %s:%d" [PZ new_fd; PS (rdata a)] ;;;
  send_text new_fd 32 (welcome_text new_fd) ;;;
  Ret (State master fd_max).

(** The loop over [j], with [j] the remaining descriptors up to [fd_max]. *)
Definition broadcast_to (listener i : Z) (st : state) (buf : list Z) (j : Z) (_ : unit)
    : prog unit :=
  let! set := defined "FD_ISSET: out of range" (FD_ISSET j (master_set st)) in
  if set && negb (j =? listener) && negb (j =? i) then
    let! r := send_text j (BUF_SIZE + 32) (chat_text i buf) in
    if rv r =? -1 then perror "send() failed" else Ret tt
  else Ret tt.

Definition upto (n : Z) : list Z := Z.of_nat <$> seq 0 (Z.to_nat (n + 1)).

Definition broadcast (listener i : Z) (st : state) (buf : list Z) : prog unit :=
  for_each (broadcast_to listener i st buf) (upto (fd_max st)) tt.

Definition client_ready (listener i : Z) (st : state) : prog state :=
  printf "Calling recv(fd=%d)... " [PZ i] ;;;
  let! r := sys (Recv i (BUF_SIZE - 1)) in
  if rv r <=? 0 then
    (if rv r =? 0 then printf "done! client disconnected!" [] else perror "recv() failed") ;;;
    sys (Close i) ;;;
    let! master := defined "FD_CLR: out of range" (FD_CLR i (master_set st)) in
    Ret (State master (fd_max st))
  else
    let! buf := received_text (rdata r) in
    printf "done! client received %d bytes!" [PZ (rv r)] ;;;
    broadcast listener i st buf ;;;
    Ret st.

(** One turn of [for (int i = 0; i <= fd_max; i++)]; [fd_max] may grow. *)
Definition ready_iter (listener : Z) (read_fds : gset Z) (x : Z * state)
    : prog (Z * state + state) :=
  let '(i, st) := x in
  if fd_max st <? i then Ret (inr st) else
  let! ready := defined "FD_ISSET: out of range" (FD_ISSET i read_fds) in
  let! st :=
    if ready : bool then
      if i =? listener then accept_client listener st else client_ready listener i st
    else Ret st in
  Ret (inl (i + 1, st)).

Definition select_iter (listener : Z) (st : state) : prog (state + unit) :=
  printf "Calling select()... " [] ;;;
  let! r := sys (Select (fd_max st + 1) (master_set st)) in
  if rv r =? -1 then perror "select() failed" ;;; Ret (inr tt) else
  printf " done! %d descriptors ready!" [PZ (rv r)] ;;;
  let read_fds : gset Z := list_to_set (revs r).*1 in
  let! st := loop (Z.to_nat FD_SETSIZE + 2) (ready_iter listener read_fds) (0, st) in
  Ret (inl st).

Definition main (F : nat) : prog Z :=
  ignored "signal(SIGPIPE, SIG_IGN)" [] ;;;
  let! s := sys Socket in
  let listener := rv s in
  if listener <? 0 then perror "socket() failed" ;;; Ret EXIT_FAILURE else
  let! b := sys (Bind listener PORT) in
  if rv b <? 0 then perror "bind() failed" ;;; Ret EXIT_FAILURE else
  let! l := sys (Listen listener 10) in
  if rv l <? 0 then perror "listen() failed" ;;; Ret EXIT_FAILURE else
  printf "Listening on 0.0.0.0:%d" [PZ PORT] ;;;
  let! master := defined "FD_SET: out of range" (FD_SET listener ∅) in
  loop F (select_iter listener) (State master listener) ;;;
  Ret 0.

#[global] Arguments welcome_text : simpl never.
#[global] Arguments chat_text : simpl never.
#[global] Arguments upto : simpl never.

(** ** The texts fit their arrays *)
(** A text without NUL that fits is sent whole. *)
Lemma send_text_whole fd size text :
  Z.of_nat (length text) < size -> 0 ∉ text -> send_text fd size text = sys (Send fd text).
Proof.
  intros Hl H0. unfold send_text, snprintf_bytes.
  destruct (Z.leb_spec size 0); [lia|]. rewrite take_ge by lia.
  by rewrite cstr_app.
Qed.

Lemma upto_lookup n j : j ∈ upto n <-> 0 <= j <= n.
Proof.
  unfold upto. rewrite list_elem_of_fmap. setoid_rewrite elem_of_seq. split.
  - intros (k & -> & Hk). lia.
  - intros Hj. exists (Z.to_nat j). lia.
Qed.

Lemma chat_text_length i buf :
  0 <= i <= INT_MAX -> (length (chat_text i buf) <= 30 + length buf)%nat.
Proof.
  intros Hi. limits. unfold chat_text. rewrite !length_app, !str_length.
  destruct (dec_nonneg_spec i) as (ds & -> & _ & Hl & _); [lia|]. cbn [String.length]. lia.
Qed.

Lemma chat_text_no_nul i buf : 0 <= i <= INT_MAX -> 0 ∉ buf -> 0 ∉ chat_text i buf.
Proof.
  intros Hi Hb. limits. unfold chat_text. rewrite !not_elem_of_app.
  split; [by vm_compute; set_solver|split; [apply dec_no_nul; lia|]].
  split; [by vm_compute; set_solver|done].
Qed.

(** ** Broadcast *)

(** Everybody registered but the listener and the sender. *)
Definition recipients (listener i : Z) (st : state) : list Z :=
  filter (fun j => j ∈ master_set st /\ j <> listener /\ j <> i) (upto (fd_max st)).

Lemma FD_ISSET_some j s : 0 <= j < FD_SETSIZE -> FD_ISSET j s = Some (bool_decide (j ∈ s)).
Proof.
  intros Hj. unfold FD_ISSET. destruct (Z.leb_spec 0 j), (Z.ltb_spec j FD_SETSIZE); simpl;
    done || lia.
Qed.

Lemma broadcast_run listener i st buf env u rest t :
  0 <= i < FD_SETSIZE -> fd_max st < FD_SETSIZE -> 0 ∉ buf -> Z.of_nat (length buf) < BUF_SIZE ->
  run (broadcast listener i st buf) env = (Done u rest, t) ->
  sends t = (fun j => (j, chat_text i buf)) <$> recipients listener i st.
Proof.
  intros Hi Hmax H0 Hlen. unfold broadcast, recipients.
  assert (0 <= i <= INT_MAX) as Hi' by (limits; unfold FD_SETSIZE in *; lia).
  assert (Forall (fun j => 0 <= j < FD_SETSIZE) (upto (fd_max st))) as Hall.
  { apply Forall_forall. intros j Hj%upto_lookup. lia. }
  revert env u t. induction Hall as [|j l Hj _ IH]; intros env u t; cbn [for_each].
  { intros [= _ _ <-]. done. }
  intros ([] & rest1 & t1 & t2 & H1 & H2 & ->)%run_bind_done.
  apply IH in H2. rewrite sends_app, H2, filter_cons.
  unfold broadcast_to in H1. rewrite FD_ISSET_some in H1 by done. cbn [defined pbind] in H1.
  assert (bool_decide (j ∈ master_set st) && negb (j =? listener) && negb (j =? i)
    = bool_decide (j ∈ master_set st /\ j <> listener /\ j <> i)) as Hb.
  { destruct (Z.eqb_spec j listener), (Z.eqb_spec j i); repeat case_bool_decide; simpl; tauto. }
  rewrite Hb in H1. clear Hb. case_bool_decide as Hc.
  - rewrite decide_True by done. cbn [fmap list_fmap].
    rewrite send_text_whole in H1.
    + apply run_bind_done in H1 as (r & e & t3 & t4 & H3 & H4 & ->).
      apply run_sys_done in H3 as [-> ->]. rewrite sends_app. cbn.
      destruct (rv r =? -1); cbn in H4; by simplify_eq.
    + pose proof (chat_text_length i buf Hi'). unfold BUF_SIZE in *. lia.
    + by apply chat_text_no_nul.
  - rewrite decide_False by done. cbn in H1. by simplify_eq.
Qed.

(** The text of a message: what was received up to its first NUL. *)
Definition message (bytes : list Z) : list Z := default [] (cstr (bytes ++ [0])).

Lemma received_text_message bytes :
  Z.of_nat (length bytes) < BUF_SIZE ->
  received_text bytes = Ret (message bytes) /\ 0 ∉ message bytes /\
  (length (message bytes) <= length bytes)%nat.
Proof.
  intros Hl. unfold received_text, message, BUF_SIZE in *.
  destruct (mem_store _ _ _) as [b|] eqn:Hm;
    [|rewrite mem_store_is_Some in Hm by (rewrite ?length_app, ?length_replicate; simpl; lia); done].
  apply mem_store_prefix in Hm. subst b. cbn [defined pbind app].
  assert (forall r, cstr (bytes ++ 0 :: r) = cstr (bytes ++ [0])) as Hc.
  { intros r. clear Hl. induction bytes as [|c bs IH]; simpl; [done|].
    destruct (c =? 0); [done|]. by rewrite IH. }
  rewrite Hc. destruct (cstr_terminated bytes []) as (s & Hs & Hsl). rewrite Hs. simpl.
  apply cstr_Some in Hs as (r & _ & H0). done.
Qed.

(** C10. A message received from client [i] goes to every other registered
    client exactly once, in increasing order of the descriptors, as
    ["[User i]: "] and the received text, neither truncated nor sent to the
    sender or the listening socket; and the set of clients does not change. *)
Theorem select_broadcast_exact listener i st env st' rest t n r :
  0 <= i < FD_SETSIZE -> fd_max st < FD_SETSIZE ->
  run (client_ready listener i st) (Reply n 0 r [] :: env) = (Done st' rest, t) ->
  0 < n -> n = Z.of_nat (length r) -> n < BUF_SIZE ->
  st' = st /\ sends t = (fun j => (j, chat_text i (message r))) <$> recipients listener i st.
Proof.
  intros Hi Hmax Hr Hn -> Hlt. unfold client_ready in Hr.
  apply run_say_done in Hr as (t1 & Hr & ->). cbn [pbind] in Hr.
  apply run_bind_done in Hr as (x & rest1 & t2 & t3 & H1 & H2 & ->).
  apply run_sys_done in H1 as [[= <- <-] ->]. cbn [rv rdata] in H2.
  destruct (Z.leb_spec (Z.of_nat (length r)) 0); [lia|].
  destruct (received_text_message r Hlt) as (Heq & H0 & Hl). rewrite Heq in H2. cbn [pbind] in H2.
  apply run_say_done in H2 as (t4 & H2 & ->). cbn [pbind] in H2.
  apply run_bind_done in H2 as (u & rest2 & t5 & t6 & H3 & H4 & ->).
  apply broadcast_run in H3; [|done|done|done|lia].
  cbn in H4. simplify_eq. split; [done|]. rewrite app_nil_r. exact H3.
Qed.

(** ** Safety *)

(** A descriptor beyond [FD_SETSIZE] is put into the set unchecked. *)
Definition select_ub (why : string) : Prop := why = "FD_SET: out of range"%string.

(** The master set: open descriptors up to [fd_max], the listener among
    them. *)
Definition chat_ok (listener : Z) (st : state) (κ : kern) : Prop :=
  listener ∈ master_set st /\ fd_max st < FD_SETSIZE /\
  forall fd, fd ∈ master_set st -> 0 <= fd <= fd_max st /\ fd ∈ k_open κ.

Lemma FD_SET_ok fd s s' : FD_SET fd s = Some s' -> s' = {[fd]} ∪ s /\ 0 <= fd < FD_SETSIZE.
Proof.
  unfold FD_SET. destruct (Z.leb_spec 0 fd), (Z.ltb_spec fd FD_SETSIZE); simpl; intros;
    simplify_eq; done.
Qed.

Lemma FD_CLR_some fd s : 0 <= fd < FD_SETSIZE -> FD_CLR fd s = Some (s ∖ {[fd]}).
Proof.
  intros Hj. unfold FD_CLR. destruct (Z.leb_spec 0 fd), (Z.ltb_spec fd FD_SETSIZE); simpl;
    done || lia.
Qed.

Section Safety.
Context (listener : Z).

Lemma wp_send_text E U fd size text κ (Q : reply -> kern -> Prop) :
  0 < size -> fd ∈ k_open κ -> (forall r, Q r κ) ->
  wp E U any_call (send_text fd size text) κ Q.
Proof.
  intros Hs Hf HQ. unfold send_text, snprintf_bytes. destruct (Z.leb_spec size 0); [lia|].
  destruct (cstr_terminated (take (Z.to_nat (Z.min (size - 1) (Z.of_nat (length text)))) text) [])
    as (s & -> & _).
  cbn [defined pbind]. wp_sys r _ _. apply HQ.
Qed.

Lemma select_wp_accept_client st κ :
  chat_ok listener st κ ->
  wp any_reply select_ub any_call (accept_client listener st) κ
    (fun st' κ' => chat_ok listener st' κ' /\ master_set st ⊆ master_set st').
Proof.
  intros (Hl & Hmax & Hs). destruct (Hs _ Hl) as [Hlr Hlo].
  unfold accept_client. cbn [printf pbind wp]. wp_sys a Ha _.
  destruct (Z.eqb_spec (rv a) (-1)) as [Hm|Hm].
  { destruct (Z.leb_spec 0 (rv a)); [lia|]. cbn. done. }
  destruct Ha as [?|[Hpos Hnew]]; [done|]. rewrite (proj2 (Z.leb_le 0 (rv a))) by done.
  destruct (FD_SET (rv a) (master_set st)) as [s'|] eqn:Hset; [|done].
  apply FD_SET_ok in Hset as [-> Hr]. cbn [defined pbind printf wp].
  apply wp_bind. apply wp_send_text; [done|apply open_new|]. intros r. cbn [wp].
  split; [|cbn; set_solver +]. split; [cbn; set_solver +Hl|]. cbn [fd_max master_set k_open].
  destruct (Z.ltb_spec (fd_max st) (rv a)) as [Hlt|Hge].
  - split; [lia|]. intros fd [->%elem_of_singleton|Hfd]%elem_of_union; [split; [lia|apply open_new]|].
    apply Hs in Hfd as [? ?]. split; [lia|by apply open_old].
  - split; [done|]. intros fd [->%elem_of_singleton|Hfd]%elem_of_union; [split; [lia|apply open_new]|].
    apply Hs in Hfd as [? ?]. split; [lia|by apply open_old].
Qed.

Lemma select_wp_broadcast i st buf κ (Q : unit -> kern -> Prop) :
  chat_ok listener st κ -> Q tt κ ->
  wp any_reply select_ub any_call (broadcast listener i st buf) κ Q.
Proof.
  intros (Hl & Hmax & Hs) HQ. unfold broadcast.
  apply wp_for_each with (I := fun l _ κ' => κ' = κ /\ Forall (fun j => 0 <= j < FD_SETSIZE) l).
  - intros j l [] ? (-> & [Hj Hf]%Forall_cons). unfold broadcast_to.
    rewrite FD_ISSET_some by done. cbn [defined pbind]. case_bool_decide as Hin; [|done].
    destruct (_ && _); [|done]. apply wp_bind. apply wp_send_text; [done|by apply Hs|].
    intros r. by destruct (rv r =? -1).
  - intros [] ? [-> _]. done.
  - split; [done|]. apply Forall_forall. intros j Hj%upto_lookup. lia.
Qed.

Lemma select_wp_client_ready i st κ :
  chat_ok listener st κ -> i ∈ master_set st -> i <> listener ->
  wp any_reply select_ub any_call (client_ready listener i st) κ
    (fun st' κ' => chat_ok listener st' κ' /\ master_set st ∖ {[i]} ⊆ master_set st').
Proof.
  intros Hok Hi Hne. pose proof Hok as (Hl & Hmax & Hs). destruct (Hs _ Hi) as [Hir Hio].
  unfold client_ready. change (BUF_SIZE - 1) with 1023. cbn [printf pbind wp]. wp_sys r Hr _.
  destruct (Z.leb_spec (rv r) 0) as [Hle|Hgt].
  - apply wp_bind.
    assert (wp any_reply select_ub any_call
      (if rv r =? 0 then Say (Printf "done! client disconnected!" []) (Ret tt)
       else Say (Printf "recv() failed" []) (Ret tt)) κ (fun _ κ' => κ' = κ)) as Hp
      by (by destruct (rv r =? 0)).
    eapply wp_mono; [|exact Hp]. intros u ? ->. wp_sys.
    rewrite FD_CLR_some by lia. cbn [defined pbind wp]. cbn [master_set fd_max k_open].
    split; [|done]. split; [cbn; set_solver +Hl Hne|]. split; [done|].
    cbn. intros fd [Hfd Hn]%elem_of_difference. apply Hs in Hfd as [? ?]. split; [done|].
    apply elem_of_difference. done.
  - destruct Hr as [[? _]|(Hr1 & Hr2 & _)]; [lia|].
    destruct (received_text_message (rdata r)) as (-> & _ & _); [unfold BUF_SIZE in *; lia|].
    cbn [pbind printf wp]. apply wp_bind, select_wp_broadcast; [done|]. cbn. split; [done|set_solver +].
Qed.

(** Between two turns of the loop over the ready set: what is left of it is
    registered. *)
Definition ready_ok_set (read_fds : gset Z) (x : Z * state) (κ : kern) : Prop :=
  chat_ok listener x.2 κ /\ 0 <= x.1 /\
  forall fd, fd ∈ read_fds -> x.1 <= fd -> fd ∈ master_set x.2.

Lemma wp_ready_iter read_fds x κ :
  ready_ok_set read_fds x κ ->
  wp any_reply select_ub any_call (ready_iter listener read_fds x) κ
    (fun y κ' => match y with
                 | inl x' => ready_ok_set read_fds x' κ'
                 | inr st => chat_ok listener st κ'
                 end).
Proof.
  destruct x as [i st]. intros (Hok & Hi & Hleft). cbn [fst snd] in *.
  pose proof Hok as (_ & Hmax & _). unfold ready_iter.
  destruct (Z.ltb_spec (fd_max st) i); [done|].
  rewrite FD_ISSET_some by lia. cbn [defined pbind]. apply wp_bind.
  assert (forall st' κ', chat_ok listener st' κ' -> master_set st ∖ {[i]} ⊆ master_set st' ->
    ready_ok_set read_fds (i + 1, st') κ') as Hnext.
  { intros st' κ' H1 H2. split; [done|split; [cbn; lia|]]. cbn. intros fd Hfd Hle.
    apply H2, elem_of_difference. split; [apply Hleft; [done|lia]|].
    intros ->%elem_of_singleton. lia. }
  case_bool_decide as Hin.
  - destruct (Z.eqb_spec i listener) as [->|Hne].
    + eapply wp_mono; [|by apply select_wp_accept_client]. intros st' κ' [H1 H2]. cbn [wp].
      apply Hnext; [done|]. set_solver +H2.
    + eapply wp_mono; [|apply select_wp_client_ready; [done|by apply Hleft|done]].
      intros st' κ' [H1 H2]. cbn [wp]. by apply Hnext.
  - cbn [wp]. apply Hnext; [done|]. set_solver +.
Qed.

Lemma wp_select_iter st κ :
  chat_ok listener st κ ->
  wp any_reply select_ub any_call (select_iter listener st) κ
    (fun y κ' => match y with inl st' => chat_ok listener st' κ' | inr _ => True end).
Proof.
  intros Hok. pose proof Hok as (_ & _ & Hs). unfold select_iter. cbn [printf pbind wp sys].
  split; [split; [|exact I]|].
  { unfold call_ok. cbn [call_fds call_size]. split; [|done]. apply Forall_forall.
    intros fd Hfd%elem_of_elements. by apply Hs. }
  intros r Hr _. destruct (rv r =? -1); [done|]. cbn [printf pbind wp]. apply wp_bind.
  apply wp_loop with (I := ready_ok_set (list_to_set (revs r).*1)).
  - intros x κ' Hx. eapply wp_mono; [|by apply wp_ready_iter]. by intros [x'|st'] κ2.
  - split; [done|split; [done|]]. cbn. intros fd Hfd _.
    apply elem_of_list_to_set, list_elem_of_fmap in Hfd as (e & -> & He).
    destruct Hr as [[_ Hr]|(_ & _ & Hf)]; [by rewrite Hr in He; apply elem_of_nil in He|].
    rewrite Forall_forall in Hf. by apply Hf.
Qed.
End Safety.

(** C11. In every run of the select server each call is on an open descriptor,
    closed clients are never used again even when their number is reused
    within a round, the buffers are not overrun, and the only undefined
    behaviour reachable is [FD_SET] on a descriptor of 1024 or more. *)
Theorem select_server_safe F κ env :
  safe_run any_reply select_ub any_call κ (fun _ _ => True) (run (main F) env).
Proof.
  apply wp_sound. unfold main. cbn [ignored pbind wp].
  wp_sys s Hs _. destruct (Z.ltb_spec (rv s) 0); [done|].
  destruct Hs as [?|[Hpos Hnew]]; [lia|]. rewrite (proj2 (Z.leb_le 0 (rv s))) by done.
  wp_sys b _ _. destruct (rv b <? 0); [done|]. wp_sys l _ _. destruct (rv l <? 0); [done|].
  cbn [printf pbind wp].
  destruct (FD_SET (rv s) ∅) as [m|] eqn:Hset; [|done]. apply FD_SET_ok in Hset as [-> Hr].
  cbn [defined pbind]. apply wp_bind.
  apply wp_loop with (I := chat_ok (rv s)); [intros st κ' Hst|].
  - eapply wp_mono; [|by apply wp_select_iter]. by intros [st'|[]] κ2.
  - split; [cbn; set_solver +|]. cbn [fd_max master_set k_open]. split; [lia|].
    intros fd Hfd. assert (fd = rv s) as -> by set_solver +Hfd. split; [lia|apply open_new].
Qed.

(** ** A round ends *)
Lemma spinless_send_text fd size text : spinless (send_text fd size text).
Proof. apply spinless_bind; [apply spinless_defined|]. by intros s r. Qed.

Lemma spinless_accept_client listener st : spinless (accept_client listener st).
Proof.
  unfold accept_client. cbn. intros r. destruct (rv r =? -1); [done|].
  apply spinless_bind; [apply spinless_defined|]. intros s. cbn.
  apply spinless_bind; [apply spinless_send_text|done].
Qed.

Lemma spinless_client_ready listener i st : spinless (client_ready listener i st).
Proof.
  unfold client_ready. cbn. intros r. destruct (rv r <=? 0).
  - apply spinless_bind; [by destruct (rv r =? 0)|]. intros [] r'. cbn.
    apply spinless_bind; [apply spinless_defined|done].
  - apply spinless_bind; [apply spinless_bind; [apply spinless_defined|intros; apply spinless_defined]|].
    intros s. cbn. apply spinless_bind; [|done]. apply spinless_for_each. intros j [].
    apply spinless_bind; [apply spinless_defined|]. intros b. destruct (_ && _); [|done].
    apply spinless_bind; [apply spinless_send_text|]. intros r'. by destruct (rv r' =? -1).
Qed.

Lemma accept_client_max listener st env st' rest t :
  fd_max st < FD_SETSIZE -> run (accept_client listener st) env = (Done st' rest, t) ->
  fd_max st' < FD_SETSIZE.
Proof.
  intros Hmax Hr. unfold accept_client in Hr. apply run_say_done in Hr as (t1 & Hr & ->).
  cbn [pbind] in Hr. apply run_bind_done in Hr as (a & rest1 & t2 & t3 & _ & H2 & ->).
  destruct (rv a =? -1); [cbn in H2; by simplify_eq|].
  destruct (FD_SET (rv a) (master_set st)) as [s|] eqn:Hs; [|done].
  apply FD_SET_ok in Hs as [_ Hs]. cbn [defined pbind printf] in H2.
  apply run_say_done in H2 as (t4 & H2 & ->). cbn [pbind] in H2.
  apply run_bind_done in H2 as (x & rest2 & t5 & t6 & _ & H3 & ->). cbn in H3. simplify_eq. cbn.
  destruct (Z.ltb_spec (fd_max st) (rv a)); lia.
Qed.

Lemma client_ready_max listener i st env st' rest t :
  run (client_ready listener i st) env = (Done st' rest, t) -> fd_max st' = fd_max st.
Proof.
  intros Hr. unfold client_ready in Hr. apply run_say_done in Hr as (t1 & Hr & ->).
  cbn [pbind] in Hr. apply run_bind_done in Hr as (a & rest1 & t2 & t3 & _ & H2 & ->).
  destruct (rv a <=? 0).
  - apply run_bind_done in H2 as (u & rest2 & t4 & t5 & _ & H3 & ->).
    apply run_bind_done in H3 as (c & rest3 & t6 & t7 & _ & H4 & ->).
    destruct (FD_CLR i (master_set st)); [|done]. cbn in H4. by simplify_eq.
  - apply run_bind_done in H2 as (u & rest2 & t4 & t5 & _ & H3 & ->).
    apply run_say_done in H3 as (t6 & H3 & ->). cbn [pbind] in H3.
    apply run_bind_done in H3 as (c & rest3 & t7 & t8 & _ & H4 & ->). cbn in H4. by simplify_eq.
Qed.

(** The loop over the ready descriptors ends after at most 1025 turns,
    although [fd_max] can grow while it runs: the bound given to the model's
    loop is never exhausted. *)
Theorem select_round_terminates listener read_fds st env o t :
  fd_max st < FD_SETSIZE ->
  run (loop (Z.to_nat FD_SETSIZE + 2) (ready_iter listener read_fds) (0, st)) env = (o, t) ->
  o <> Spun.
Proof.
  intros Hmax. apply (loop_measure (fun x => 0 <= x.1 /\ fd_max x.2 < FD_SETSIZE)
    (fun x => Z.to_nat (FD_SETSIZE + 1 - x.1))).
  - clear. intros [i st] env o t [Hi Hmax] Hr. cbn [fst snd] in *. unfold ready_iter in Hr.
    destruct (Z.ltb_spec (fd_max st) i) as [Hlt|Hle].
    { cbn in Hr. by simplify_eq. }
    rewrite run_bind in Hr. destruct (FD_ISSET i read_fds) as [b|]; cbn [defined run] in Hr;
      [|by simplify_eq].
    rewrite run_bind in Hr.
    set (body := if b then _ else _) in Hr.
    assert (spinless body) as Hsp.
    { unfold body. destruct b; [|done]. destruct (i =? listener);
        [apply spinless_accept_client|apply spinless_client_ready]. }
    destruct (run body env) as [o1 t1] eqn:E. pose proof (spinless_run _ _ _ _ Hsp E) as Hns.
    destruct o1 as [st' rest1| | | |]; cbn in Hr; simplify_eq; try done.
    split; [done|]. intros [i' st2] rest [= <- <- <-]. cbn [fst snd]. split; [split; [lia|]|lia].
    unfold body in E. destruct b; [|cbn in E; by simplify_eq].
    destruct (i =? listener); [by eapply accept_client_max|].
    by rewrite (client_ready_max _ _ _ _ _ _ _ E).
  - cbn. split; [done|exact Hmax].
  - cbn [fst]. unfold FD_SETSIZE. lia.
Qed.

(** ** Witnesses *)
Definition chat_state : state := State {[3; 4; 5; 6]} 6.
Definition hello_reply : reply := Reply 5 0 (str "hello") [].

Lemma select_broadcast_exact_witness :
  exists st' t,
    run (client_ready 3 5 chat_state) [hello_reply; rint 15; rint 15] = (Done st' [], t) /\
    st' = chat_state /\
    sends t = (fun j => (j, chat_text 5 (message (str "hello")))) <$> recipients 3 5 chat_state /\
    sends t = [(4, str "[User 5]: hello"); (6, str "[User 5]: hello")].
Proof.
  destruct (run (client_ready 3 5 chat_state) [hello_reply; rint 15; rint 15]) as [o t] eqn:Hr.
  assert (exists st', o = Done st' []) as [st' ->].
  { vm_compute in Hr. injection Hr as <- _. by eexists. }
  exists st', t. split; [done|].
  assert (st' = chat_state /\
    sends t = (fun j => (j, chat_text 5 (message (str "hello")))) <$> recipients 3 5 chat_state)
    as [H1 H2].
  { apply (select_broadcast_exact 3 5 chat_state [rint 15; rint 15] st' [] t 5 (str "hello"));
      [vm_compute; done|done|exact Hr|done|done|done]. }
  split; [done|split; [done|]]. rewrite H2. vm_compute. reflexivity.
Defined.

Lemma select_round_terminates_witness :
  exists o t,
    run (loop (Z.to_nat FD_SETSIZE + 2) (ready_iter 3 {[5]}) (0, chat_state))
      [hello_reply; rint 15; rint 15] = (o, t) /\ o <> Spun.
Proof.
  eexists _, _. split; [apply surjective_pairing|].
  eapply (select_round_terminates 3 {[5]} chat_state); [done|apply surjective_pairing].
Defined.
