(* ===== verification/EpollChat.v ===== *)
(** * servers/code/epoll_chat.c

    The chat server on [epoll]: a growing array of clients whose first cell
    holds its capacity, with [-1] for a free cell, and the broadcast over it.
    The array refines the multiset of connected descriptors. *)

From S2P Require Import Prelude CLib Os Kernel SelectChat.

Local Open Scope Z_scope.

Definition PORT : Z := 8091.
Definition BUF_SIZE : Z := 1024.
Definition MAX_EVENTS : Z := 10.
Definition DEFAULT_CLIENTS_CAP : Z := 2.

(** ** The array of clients *)

(** [for (int i = 1; i < cap; i++) if (clients[i] == v) ...]: the first index
    from [i] on, below [cap], that holds [v]; [None] in the outer option is a
    read outside the array. *)
Fixpoint find_cell (clients : list Z) (v cap : Z) (i : Z) (fuel : nat) : option (option Z) :=
  if i <? cap then
    match fuel with
    | O => None
    | S fuel' =>
        mem_load clients i ≫= fun x =>
          if x =? v then Some (Some i) else find_cell clients v cap (i + 1) fuel'
    end
  else Some None.

(** The search from cell 1; [cap] turns are enough. *)
Definition search (clients : list Z) (v : Z) : option (option Z) :=
  mem_load clients 0 ≫= fun cap => find_cell clients v cap 1 (Z.to_nat cap).

(** The cells [realloc] adds to an array of [cap] hold [junk cap] until the
    code fills them. *)
Definition grow (clients : list Z) (cap fd : Z) (junk : list Z) : option (list Z) :=
  mem_store (clients ++ junk) 0 [2 * cap] ≫= fun a =>
  mem_store a cap [fd] ≫= fun a =>
  mem_store a (cap + 1) (replicate (Z.to_nat (2 * cap - (cap + 1))) (-1)).

Definition add_client (junk : Z -> list Z) (clients : list Z) (fd : Z) : prog (list Z) :=
  let! cap := defined "clients: out of range" (mem_load clients 0) in
  let! found := defined "clients: out of range" (search clients (-1)) in
  match found with
  | Some i => defined "clients: out of range" (mem_store clients i [fd])
  | None =>
      let! m := sys (Libc "realloc" [2 * cap * 4]) in
      if rv m =? 0 then perror "realloc" ;;; Exit EXIT_FAILURE
      else defined "clients: out of range" (grow clients cap fd (junk cap))
  end.

Definition remove_client (clients : list Z) (fd : Z) : prog (list Z) :=
  let! found := defined "clients: out of range" (search clients fd) in
  match found with
  | Some i => defined "clients: out of range" (mem_store clients i [-1])
  | None => Ret clients
  end.

(** ** The server *)
Definition broadcast_to (current_fd : Z) (buf : list Z) (clients : list Z) (j : Z) (_ : unit)
    : prog unit :=
  let! c := defined "clients: out of range" (mem_load clients j) in
  if negb (c =? -1) && negb (c =? current_fd) then
    let! r := send_text c (BUF_SIZE + 32) (chat_text current_fd buf) in
    if rv r =? -1 then perror "send() failed" else Ret tt
  else Ret tt.

(** [for (int j = 1; j < clients[0]; j++)] *)
Definition broadcast (current_fd : Z) (buf : list Z) (clients : list Z) : prog unit :=
  let! cap := defined "clients: out of range" (mem_load clients 0) in
  for_each (broadcast_to current_fd buf clients)
    (Z.of_nat <$> seq 1 (Z.to_nat (cap - 1))) tt.

Definition accept_client (junk : Z -> list Z) (epoll_fd listener : Z) (clients : list Z)
    : prog (list Z) :=
  printf "Calling accept()... " [] ;;;
  let! a := sys (Accept listener) in
  let new_fd := rv a in
  if new_fd =? -1 then perror "accept() failed" ;;; Ret clients else
  printf "done!: new client (fd=%d) connected from %s:%d" [PZ new_fd; PS (rdata a)] ;;;
  let! c := sys (EpollCtl epoll_fd EPOLL_CTL_ADD new_fd EPOLLIN) in
  if rv c =? -1 then
    perror "epoll_ctl(EPOLL_CTL_ADD) failed" ;;; sys (Close new_fd) ;;; Ret clients
  else
    let! clients := add_client junk clients new_fd in
    send_text new_fd 32 (welcome_text new_fd) ;;;
    Ret clients.

Definition client_ready (epoll_fd current_fd : Z) (clients : list Z) : prog (list Z) :=
  printf "Calling recv(fd=%d)... " [PZ current_fd] ;;;
  let! r := sys (Recv current_fd (BUF_SIZE - 1)) in
  if rv r <=? 0 then
    (if rv r =? 0 then printf "done! client disconnected!" [] else perror "recv() failed") ;;;
    sys (EpollCtl epoll_fd EPOLL_CTL_DEL current_fd 0) ;;;
    sys (Close current_fd) ;;;
    remove_client clients current_fd
  else
    let! buf := received_text (rdata r) in
    printf "done! client received %d bytes!" [PZ (rv r)] ;;;
    broadcast current_fd buf clients ;;;
    Ret clients.

Definition handle_event (junk : Z -> list Z) (epoll_fd listener : Z) (ev : Z * Z) (clients : list Z)
    : prog (list Z) :=
  if ev.1 =? listener then accept_client junk epoll_fd listener clients
  else client_ready epoll_fd ev.1 clients.

Definition wait_iter (junk : Z -> list Z) (epoll_fd listener : Z) (clients : list Z)
    : prog (list Z + unit) :=
  printf "Calling epoll_wait()... " [] ;;;
  let! w := sys (EpollWait epoll_fd MAX_EVENTS) in
  if rv w =? -1 then perror "epoll_wait() failed" ;;; Ret (inr tt) else
  printf " done! %d descriptors ready!" [PZ (rv w)] ;;;
  let! clients := for_each (handle_event junk epoll_fd listener) (revs w) clients in
  Ret (inl clients).

Definition initial_clients : list Z :=
  DEFAULT_CLIENTS_CAP :: replicate (Z.to_nat (DEFAULT_CLIENTS_CAP - 1)) (-1).

(** What [main] does before its loop: the exit status, or the epoll instance
    and the listening socket. *)
Definition setup : prog (Z + Z * Z) :=
  ignored "signal(SIGPIPE, SIG_IGN)" [] ;;;
  let! s := sys Socket in
  let listener := rv s in
  if listener <? 0 then perror "socket() failed" ;;; Ret (inl EXIT_FAILURE) else
  sys (Setsockopt listener) ;;;
  let! b := sys (Bind listener PORT) in
  if rv b <? 0 then perror "bind() failed" ;;; Ret (inl EXIT_FAILURE) else
  let! l := sys (Listen listener 10) in
  if rv l <? 0 then perror "listen() failed" ;;; Ret (inl EXIT_FAILURE) else
  printf "Listening on 0.0.0.0:%d" [PZ PORT] ;;;
  let! e := sys EpollCreate in
  let epoll_fd := rv e in
  if epoll_fd =? -1 then perror "epoll_create1() failed" ;;; Ret (inl EXIT_FAILURE) else
  let! c := sys (EpollCtl epoll_fd EPOLL_CTL_ADD listener EPOLLIN) in
  if rv c =? -1 then perror "epoll_ctl: listener" ;;; Ret (inl EXIT_FAILURE) else
  let! m := sys (Malloc (DEFAULT_CLIENTS_CAP * 4)) in
  if rv m =? 0 then perror "malloc" ;;; Ret (inl EXIT_FAILURE) else
  Ret (inr (epoll_fd, listener)).

Definition main (F : nat) (junk : Z -> list Z) : prog Z :=
  let! s := setup in
  match s with
  | inl status => Ret status
  | inr (epoll_fd, listener) =>
      loop F (wait_iter junk epoll_fd listener) initial_clients ;;;
      sys (Close epoll_fd) ;;;
      sys (Close listener) ;;;
      Ret 0
  end.

(** ** The array refines a multiset of descriptors *)

(** A well-formed array, and the descriptors it holds. *)
Definition array_ok (clients : list Z) : Prop :=
  exists cells, clients = Z.of_nat (S (length cells)) :: cells /\ cells <> [].
Definition members (clients : list Z) : list Z := filter (fun c => c <> -1) (tl clients).

Lemma find_cell_spec pre cells v (i : Z) fuel :
  i = Z.of_nat (length pre) -> (length cells <= fuel)%nat ->
  let cap := Z.of_nat (length pre + length cells) in
  (v ∉ cells /\ find_cell (pre ++ cells) v cap i fuel = Some None) \/
  (exists a b, cells = a ++ v :: b /\ v ∉ a /\
     find_cell (pre ++ cells) v cap i fuel = Some (Some (Z.of_nat (length pre + length a)))).
Proof.
  revert pre i fuel. induction cells as [|c cells IH]; intros pre i fuel -> Hf cap.
  - left. split; [set_solver|]. unfold cap. cbn [length].
    destruct fuel; cbn [find_cell]; destruct (Z.ltb_spec (Z.of_nat (length pre))
      (Z.of_nat (length pre + 0))); done || lia.
  - destruct fuel as [|fuel]; [cbn in Hf; lia|]. cbn [find_cell]. unfold cap. cbn [length].
    destruct (Z.ltb_spec (Z.of_nat (length pre)) (Z.of_nat (length pre + S (length cells)))); [|lia].
    unfold mem_load. destruct (Z.leb_spec 0 (Z.of_nat (length pre))); [|lia].
    rewrite Nat2Z.id, list_lookup_middle by done. cbn [mbind option_bind].
    destruct (Z.eqb_spec c v) as [->|Hne].
    + right. exists [], cells. split; [done|split; [set_solver|]]. by rewrite Nat.add_0_r.
    + destruct (IH (pre ++ [c]) (Z.of_nat (length pre) + 1) fuel) as [[Hn Heq]|(a & b & -> & Hn & Heq)].
      * rewrite length_app. cbn. lia.
      * cbn in Hf. lia.
      * left. split; [set_solver|]. rewrite <- app_assoc in Heq. cbn [app] in Heq.
        rewrite length_app in Heq. cbn [length] in Heq. rewrite <- Heq. f_equal. lia.
      * right. exists (c :: a), b. split; [done|split; [set_solver|]].
        rewrite <- app_assoc in Heq. cbn [app] in Heq. rewrite length_app in Heq.
        cbn [length] in *. rewrite <- Nat.add_assoc in Heq. cbn [Nat.add] in Heq. rewrite Heq.
        do 2 f_equal. lia.
Qed.

Lemma mem_load_head (x : Z) l : mem_load (x :: l) 0 = Some x.
Proof. done. Qed.

Lemma search_spec clients cells v :
  clients = Z.of_nat (S (length cells)) :: cells ->
  (v ∉ cells /\ search clients v = Some None) \/
  (exists a b, cells = a ++ v :: b /\ v ∉ a /\
     search clients v = Some (Some (Z.of_nat (S (length a))))).
Proof.
  intros ->. unfold search. rewrite mem_load_head. cbn [mbind option_bind].
  destruct (find_cell_spec [Z.of_nat (S (length cells))] cells v 1
    (Z.to_nat (Z.of_nat (S (length cells))))) as [H|(a & b & H1 & H2 & H3)].
  - done.
  - lia.
  - left. exact H.
  - right. exists a, b. done.
Qed.

Section Array.
Context (junk : Z -> list Z) (Hjunk : forall n, length (junk n) = Z.to_nat n).

Lemma members_split x a v b :
  members (x :: a ++ v :: b) = filter (fun c => c <> -1) a
    ++ filter (fun c => c <> -1) [v] ++ filter (fun c => c <> -1) b.
Proof. unfold members. cbn [tl]. rewrite filter_app, (filter_app _ [v] b). done. Qed.

Lemma filter_free n : filter (fun c : Z => c <> -1) (replicate n (-1)) = [].
Proof. induction n as [|n IH]; [done|]. cbn [replicate].
  rewrite filter_cons_False; [done|by intros H]. Qed.

Lemma filter_one v : v <> -1 -> filter (fun c : Z => c <> -1) [v] = [v].
Proof. intros H. by rewrite filter_cons_True. Qed.

(** A store over one cell. *)
Lemma store_cell (x : Z) (a : list Z) v b w :
  mem_store (x :: a ++ v :: b) (Z.of_nat (S (length a))) [w] = Some (x :: a ++ w :: b).
Proof.
  destruct (mem_store _ _ [w]) as [m|] eqn:Hm.
  - apply (mem_store_prefix (x :: a) (v :: b)) in Hm. rewrite Hm. done.
  - rewrite mem_store_is_Some in Hm; [done|lia|]. cbn. rewrite length_app. cbn. lia.
Qed.

(** The array doubles: the old cells, the new client, and free cells. *)
Lemma grow_spec cells fd :
  let cap := Z.of_nat (S (length cells)) in
  grow (cap :: cells) cap fd (junk cap) =
    Some (2 * cap :: cells ++ fd :: replicate (length cells) (-1)).
Proof.
  intros cap. unfold grow.
  assert (length (junk cap) = S (length cells)) as Hj by (rewrite Hjunk; unfold cap; lia).
  destruct (junk cap) as [|j js]; [done|]. injection Hj as Hj.
  destruct (mem_store ((cap :: cells) ++ j :: js) 0 [2 * cap]) as [m1|] eqn:H1;
    [|rewrite mem_store_is_Some in H1; [done|lia|cbn; rewrite length_app; cbn; lia]].
  apply (mem_store_prefix [] (cap :: cells ++ j :: js)) in H1. cbn in H1.
  rewrite drop_0 in H1. subst m1.
  cbn [mbind option_bind]. unfold cap at 2. rewrite store_cell. cbn [mbind option_bind].
  destruct (mem_store _ (cap + 1) _) as [m3|] eqn:H3.
  - change (2 * cap :: cells ++ fd :: js) with ([2 * cap] ++ cells ++ [fd] ++ js) in H3.
    rewrite !app_assoc in H3.
    replace (cap + 1) with (Z.of_nat (length (([2 * cap] ++ cells) ++ [fd]))) in H3 at 1
      by (rewrite !length_app; cbn; unfold cap; lia).
    apply mem_store_prefix in H3. rewrite H3, length_replicate.
    replace (Z.to_nat (2 * Z.of_nat (S (length cells)) - (cap + 1))) with (length cells)
      by (unfold cap; lia).
    rewrite drop_ge by lia. rewrite app_nil_r. cbn [app]. by rewrite <- app_assoc.
  - rewrite mem_store_is_Some in H3; [done|unfold cap; lia|].
    cbn. rewrite length_app, length_replicate. cbn. unfold cap. lia.
Qed.

Lemma array_nonempty a (v : Z) b : a ++ v :: b <> [].
Proof. by destruct a. Qed.

(** The two outcomes of [add_client]: the client is in, possibly after the
    array was reallocated. *)
Lemma add_client_eq clients fd :
  array_ok clients -> fd <> -1 ->
  exists clients', array_ok clients' /\ members clients' ≡ₚ fd :: members clients /\
    (add_client junk clients fd = Ret clients' \/
     exists n, add_client junk clients fd ≃
       (let! m := sys (Libc "realloc" [n]) in
        if rv m =? 0 then perror "realloc" ;;; Exit EXIT_FAILURE else Ret clients')).
Proof.
  intros (cells & -> & Hne) Hfd. set (cap := Z.of_nat (S (length cells))).
  unfold add_client. rewrite mem_load_head. cbn [defined pbind].
  destruct (search_spec (cap :: cells) cells (-1) eq_refl) as [[Hn ->]|(a & b & -> & Hn & ->)].
  - exists (2 * cap :: cells ++ fd :: replicate (length cells) (-1)). split; [|split].
    + exists (cells ++ fd :: replicate (length cells) (-1)). split; [|apply array_nonempty].
      f_equal. rewrite length_app. cbn. rewrite length_replicate. unfold cap. lia.
    + rewrite members_split, filter_free, app_nil_r, filter_one by done. unfold members.
      cbn [tl]. symmetry. apply Permutation_cons_append.
    + right. exists (2 * cap * 4). cbn [defined pbind].
      apply pbind_proper; [done|]. intros m. destruct (rv m =? 0); [done|].
      unfold cap. by rewrite grow_spec.
  - exists (cap :: a ++ fd :: b). split; [|split].
    + exists (a ++ fd :: b). split; [|apply array_nonempty].
      unfold cap. by rewrite !length_app.
    + rewrite !members_split, (filter_one fd) by done.
      rewrite (filter_cons_False _ (-1) []) by (by intros H). cbn [app].
      symmetry. apply Permutation_middle.
    + left. cbn [defined pbind]. by rewrite store_cell.
Qed.

Lemma remove_client_eq clients fd :
  array_ok clients -> fd <> -1 ->
  exists clients', remove_client clients fd = Ret clients' /\ array_ok clients' /\
    ((fd ∉ members clients /\ clients' = clients) \/
     members clients ≡ₚ fd :: members clients').
Proof.
  intros (cells & -> & Hne) Hfd. unfold remove_client.
  destruct (search_spec _ cells fd eq_refl) as [[Hn ->]|(a & b & -> & Hn & ->)]; cbn [defined pbind].
  - eexists. split; [done|split; [by exists cells|]]. left. split; [|done].
    intros [_ Hin]%list_elem_of_filter. done.
  - rewrite store_cell. eexists. split; [done|split].
    + exists (a ++ -1 :: b). split; [by rewrite !length_app|apply array_nonempty].
    + right. rewrite !members_split, (filter_one fd) by done.
      rewrite (filter_cons_False _ (-1) []) by (by intros H). cbn [app].
      symmetry. apply Permutation_middle.
Qed.
End Array.

(** Adding a client puts its descriptor into the array and keeps every
    other, whether or not the array had to be doubled: in every run that
    returns, the new array is well formed and represents the old multiset of
    descriptors plus the new one; there is no access outside it, and the only
    other outcome is the exit on a failed [realloc]. *)
Theorem add_client_refines junk clients fd env o t :
  (forall n, length (junk n) = Z.to_nat n) -> array_ok clients -> fd <> -1 ->
  run (add_client junk clients fd) env = (o, t) ->
  match o with
  | Done clients' _ => array_ok clients' /\ members clients' ≡ₚ fd :: members clients
  | Exited n => n = EXIT_FAILURE
  | Blocked => env = []
  | _ => False
  end.
Proof.
  intros Hj Hok Hfd Hr. destruct (add_client_eq junk Hj clients fd Hok Hfd)
    as (clients' & H1 & H2 & [Heq|(n & Heq)]); rewrite Heq in Hr.
  - cbn in Hr. by simplify_eq.
  - cbn in Hr. destruct env as [|r env]; [by simplify_eq|].
    destruct (rv r =? 0); cbn in Hr; by simplify_eq.
Qed.

(** Connecting and disconnecting a client cancel out: after
    [remove_client] the array represents the same multiset of descriptors as
    before [add_client], even if it was reallocated in between. *)
Theorem add_remove_roundtrip junk clients fd env clients' rest t :
  (forall n, length (junk n) = Z.to_nat n) -> array_ok clients -> fd <> -1 ->
  run (let! c := add_client junk clients fd in remove_client c fd) env
    = (Done clients' rest, t) ->
  array_ok clients' /\ members clients' ≡ₚ members clients.
Proof.
  intros Hj Hok Hfd (c & rest1 & t1 & t2 & H1 & H2 & ->)%run_bind_done.
  destruct (add_client_eq junk Hj clients fd Hok Hfd) as (c1 & Hok1 & Hm1 & Heq).
  assert (c = c1) as ->.
  { destruct Heq as [Heq|(n & Heq)]; rewrite Heq in H1; cbn in H1; [by simplify_eq|].
    destruct env as [|r env]; [done|]. destruct (rv r =? 0); cbn in H1; by simplify_eq. }
  destruct (remove_client_eq c1 fd Hok1 Hfd) as (c2 & Heq2 & Hok2 & [[Hn _]|Hm2]).
  - exfalso. apply Hn. rewrite Hm1. by left.
  - rewrite Heq2 in H2. cbn in H2. injection H2 as <- _ _. split; [done|].
    rewrite Hm1 in Hm2. by apply Permutation_cons_inv in Hm2.
Qed.

(** ** Safety *)
Section Safety.
Context (junk : Z -> list Z) (Hjunk : forall n, length (junk n) = Z.to_nat n).
Context (epoll_fd listener : Z).

(** The array holds exactly the open client connections of the epoll set,
    each once. *)
Definition chat_ok (clients : list Z) (κ : kern) : Prop :=
  array_ok clients /\ NoDup (members clients) /\
  (epoll_fd ∈ k_open κ /\ listener ∈ k_open κ /\ epoll_fd <> listener) /\
  (forall f, f ∈ members clients ->
     f ∈ k_open κ /\ f <> listener /\ f <> epoll_fd /\ is_Some (k_watch κ !! (epoll_fd, f))) /\
  forall e f v, k_watch κ !! (e, f) = Some v ->
    e = epoll_fd /\ f ∈ k_open κ /\ (f = listener \/ f ∈ members clients).

Lemma chat_wp_add_client clients fd κ (Q : list Z -> kern -> Prop) :
  array_ok clients -> fd <> -1 ->
  (forall clients', array_ok clients' -> members clients' ≡ₚ fd :: members clients -> Q clients' κ) ->
  wp any_reply no_ub any_call (add_client junk clients fd) κ Q.
Proof.
  intros Hok Hfd HQ.
  destruct (add_client_eq junk Hjunk clients fd Hok Hfd) as (c & H1 & H2 & [Heq|(n & Heq)]).
  - rewrite Heq. by apply HQ.
  - eapply wp_peq; [symmetry; exact Heq|]. wp_sys r _ _. destruct (rv r =? 0); [done|].
    by apply HQ.
Qed.

Lemma chat_wp_accept_client clients κ :
  chat_ok clients κ ->
  wp any_reply no_ub any_call (accept_client junk epoll_fd listener clients) κ
    (fun c' κ' => chat_ok c' κ' /\ others listener κ κ').
Proof.
  intros Hok. pose proof Hok as (Ha & Hnd & (He & Hl & Hel) & Hm & Hw).
  unfold accept_client. cbn [printf pbind wp]. wp_sys a Hacc _.
  destruct (Z.eqb_spec (rv a) (-1)) as [Hm1|Hm1].
  { destruct (Z.leb_spec 0 (rv a)); [lia|]. cbn. split; [done|apply others_refl]. }
  destruct Hacc as [?|[Hpos Hnew]]; [done|]. rewrite (proj2 (Z.leb_le 0 (rv a))) by done.
  cbn [printf pbind wp sys]. split.
  { split; [|exact I]. unfold call_ok. cbn [call_fds call_size k_open k_watch].
    split; [eauto 8 with kern|split; [lia|]].
    destruct (k_watch κ !! (epoll_fd, rv a)) as [v|] eqn:Hv; [|done].
    by apply Hw in Hv as (_ & ? & _). }
  assert (forall e f v, k_watch κ !! (e, f) = Some v -> e <> rv a /\ f <> rv a) as Hfresh.
  { intros e f v Hv. apply Hw in Hv as (-> & Hin & _). split; congruence. }
  intros c Hc _. cbn [reply_ok] in Hc. cbn [kern_next k_open k_watch].
  destruct (Z.eqb_spec (rv c) (-1)) as [Hc1|Hc1].
  - rewrite (proj2 (Z.eqb_neq (rv c) 0)) by lia. cbn [printf pbind wp]. wp_sys r _ _.
    rewrite union_close. split.
    + split; [done|split; [done|]]. cbn [k_open k_watch]. split; [|split].
      * split; [|split; [|done]]; (apply open_other; [done|congruence]).
      * intros f Hf. apply Hm in Hf as (H1 & H2 & H3 & v & Hv).
        split; [apply open_other; [done|congruence]|]. repeat (split; [done|]).
        exists v. apply map_lookup_filter_Some. split; [done|]. cbn. by eapply Hfresh.
      * intros e f v [Hv _]%map_lookup_filter_Some. pose proof (Hfresh _ _ _ Hv) as [_ Hne].
        apply Hw in Hv as (H1 & H2 & H3). split; [done|split; [by apply open_other|done]].
    + intros e f v _ Hv. cbn. apply map_lookup_filter_Some. split; [done|]. cbn. by eapply Hfresh.
  - rewrite (proj2 (Z.eqb_eq (rv c) 0)) by lia. apply wp_bind, chat_wp_add_client; [done|done|].
    intros c' Ha' Hm'. apply wp_bind, wp_send_text; [done|apply open_new|]. intros r. cbn [wp].
    assert (rv a ∉ members clients) as Hna by (intros H; by apply Hm in H as [? _]).
    split.
    + split; [done|split; [rewrite Hm'; by constructor|]]. cbn [k_open k_watch].
      split; [|split].
      * split; [by apply open_old|split; [by apply open_old|done]].
      * intros f. rewrite Hm', elem_of_cons. intros [->|Hf].
        -- split; [apply open_new|split; [congruence|split; [congruence|]]].
           eexists. apply lookup_insert_eq.
        -- apply Hm in Hf as (H1 & H2 & H3 & v & Hv). split; [by apply open_old|].
           repeat (split; [done|]). exists v. rewrite lookup_insert_ne; [done|].
           intros [= <-]. by apply Hfresh in Hv as [_ ?].
      * intros e f v. rewrite Hm'. intros [[Heq _]|[_ Hv]]%lookup_insert_Some.
        -- injection Heq as <- <-. split; [done|split; [apply open_new|]]. right. by left.
        -- apply Hw in Hv as (H1 & H2 & H3). split; [done|split; [by apply open_old|]].
           destruct H3 as [?|H3]; [by left|]. right. by right.
    + intros e f v _ Hv. cbn. rewrite lookup_insert_ne; [done|].
      intros [= <- <-]. by apply Hfresh in Hv as [_ ?].
Qed.

Lemma members_cells clients i c :
  clients !! S i = Some c -> c <> -1 -> c ∈ members clients.
Proof.
  intros Hi Hc. unfold members. apply list_elem_of_filter. split; [done|].
  destruct clients as [|x l]; [done|]. cbn in *. by eapply list_elem_of_lookup_2.
Qed.

Lemma chat_wp_broadcast fd buf clients κ (Q : unit -> kern -> Prop) :
  chat_ok clients κ -> Q tt κ ->
  wp any_reply no_ub any_call (broadcast fd buf clients) κ Q.
Proof.
  intros ((cells & -> & Hne) & _ & _ & Hm & _) HQ. unfold broadcast. rewrite mem_load_head.
  cbn [defined pbind].
  apply wp_for_each with (I := fun l _ κ' => κ' = κ /\
    Forall (fun j => exists k, j = Z.of_nat (S k) /\ (k < length cells)%nat) l).
  - intros j l [] ? (-> & [(k & -> & Hk) Hf]%Forall_cons). unfold broadcast_to, mem_load.
    destruct (Z.leb_spec 0 (Z.of_nat (S k))); [|lia]. rewrite Nat2Z.id.
    destruct (lookup_lt_is_Some_2 cells k Hk) as [c Hc].
    change ((Z.of_nat (S (length cells)) :: cells) !! S k) with (cells !! k). rewrite Hc.
    cbn [defined pbind].
    destruct (Z.eqb_spec c (-1)) as [->|Hc1]; [done|].
    destruct (negb (c =? fd)); [|done]. cbn [negb andb]. apply wp_bind, wp_send_text; [done| |].
    + apply Hm. by eapply (members_cells _ k).
    + intros r. by destruct (rv r =? -1).
  - intros [] ? [-> _]. done.
  - split; [done|]. apply Forall_forall. intros j (k & -> & Hk%elem_of_seq)%list_elem_of_fmap.
    exists (k - 1)%nat. split; [f_equal|]; lia.
Qed.

Lemma wp_remove_client clients fd κ (Q : list Z -> kern -> Prop) :
  array_ok clients -> fd <> -1 ->
  (forall clients', array_ok clients' ->
     (fd ∉ members clients /\ clients' = clients) \/ members clients ≡ₚ fd :: members clients' ->
     Q clients' κ) ->
  wp any_reply no_ub any_call (remove_client clients fd) κ Q.
Proof.
  intros Hok Hfd HQ. destruct (remove_client_eq clients fd Hok Hfd) as (c & -> & H1 & H2).
  by apply HQ.
Qed.

Lemma chat_wp_client_ready fd clients κ :
  chat_ok clients κ -> fd <> listener -> fd <> -1 -> is_Some (k_watch κ !! (epoll_fd, fd)) ->
  wp any_reply no_ub any_call (client_ready epoll_fd fd clients) κ
    (fun c' κ' => chat_ok c' κ' /\ others fd κ κ').
Proof.
  intros Hok Hfl Hfd [v Hv]. pose proof Hok as (Ha & Hnd & (He & Hl & Hel) & Hm & Hw).
  pose proof (Hw _ _ _ Hv) as (_ & Hop & [|Hmem]); [done|].
  pose proof (Hm _ Hmem) as (_ & _ & Hfe & _).
  unfold client_ready. change (BUF_SIZE - 1) with 1023. cbn [printf pbind wp]. wp_sys r Hr _.
  destruct (Z.leb_spec (rv r) 0) as [Hle|Hgt].
  - apply wp_bind.
    assert (wp any_reply no_ub any_call
      (if rv r =? 0 then Say (Printf "done! client disconnected!" []) (Ret tt)
       else Say (Printf "recv() failed" []) (Ret tt)) κ (fun _ κ' => κ' = κ)) as Hp
      by (by destruct (rv r =? 0)).
    eapply wp_mono; [|exact Hp]. intros u ? ->. cbn [sys pbind wp].
    split; [split; [|exact I]|].
    { unfold call_ok. cbn [call_fds call_size]. split; [eauto 8 with kern|split; [lia|by exists v]]. }
    intros d _ _. set (κ2 := kern_next κ _ d).
    assert (k_open κ2 = k_open κ) as Ho2 by (unfold κ2; cbn; by destruct (rv d =? 0)).
    assert (forall e f, f <> fd -> k_watch κ2 !! (e, f) = k_watch κ !! (e, f)) as Hw2.
    { intros e f Hf. unfold κ2. cbn. destruct (rv d =? 0); [|done]. cbn.
      rewrite lookup_delete_ne; [done|congruence]. }
    clearbody κ2. cbn [wp]. split.
    { split; [|exact I]. unfold call_ok. cbn [call_fds call_size]. rewrite Ho2.
      split; [by constructor|done]. }
    intros c _ _. apply wp_remove_client; [done|done|]. intros cl Ha' Hcase.
    assert (members clients ≡ₚ fd :: members cl) as Hperm by (by destruct Hcase as [[? _]|?]).
    assert (fd ∉ members cl) as Hni by (rewrite Hperm in Hnd; by apply NoDup_cons in Hnd as [? _]).
    split.
    + split; [done|split; [rewrite Hperm in Hnd; by apply NoDup_cons in Hnd as [_ ?]|]].
      cbn [kern_next k_open k_watch]. rewrite Ho2. split; [|split].
      * split; [|split; [|done]]; (apply open_other; [done|congruence]).
      * intros f Hf. assert (f ∈ members clients) as (H1 & H2 & H3 & w & Hfw)%Hm by (rewrite Hperm; by right).
        assert (f <> fd) by (intros ->; done).
        split; [by apply open_other|]. repeat (split; [done|]). exists w.
        apply map_lookup_filter_Some. rewrite Hw2 by done. split; [done|]. cbn. by split.
      * intros e f w [Hew [_ Hne]]%map_lookup_filter_Some. cbn in Hne. rewrite Hw2 in Hew by done.
        apply Hw in Hew as (H1 & H2 & H3). split; [done|split; [by apply open_other|]].
        destruct H3 as [?|H3]; [by left|]. right. rewrite Hperm in H3.
        by apply elem_of_cons in H3 as [?|?].
    + intros e f w Hf Hew. cbn. apply map_lookup_filter_Some. rewrite Hw2 by done.
      split; [done|]. cbn. apply Hw in Hew as (-> & _ & _). done.
  - destruct Hr as [[? _]|(Hr1 & Hr2 & _)]; [lia|].
    destruct (received_text_message (rdata r)) as (-> & _ & _);
      [unfold SelectChat.BUF_SIZE in *; lia|].
    cbn [pbind printf wp]. apply wp_bind, chat_wp_broadcast; [done|]. cbn [wp].
    split; [done|apply others_refl].
Qed.

(** The events still to be handled are distinct and truly pending. *)
Definition batch_ok (evs : list (Z * Z)) (clients : list Z) (κ : kern) : Prop :=
  chat_ok clients κ /\ NoDup evs.*1 /\ Forall (ready_ok κ epoll_fd) evs /\
  -1 ∉ evs.*1.

Lemma wp_handle_event ev evs clients κ :
  batch_ok (ev :: evs) clients κ ->
  wp any_reply no_ub any_call (handle_event junk epoll_fd listener ev clients) κ (batch_ok evs).
Proof.
  intros (Hok & [Hn Hnd]%NoDup_cons & [Hr Hf]%Forall_cons & Hneg).
  assert (ev.1 <> -1 /\ -1 ∉ evs.*1) as [Hne Hneg2].
  { split; [intros Heq; apply Hneg; cbn; rewrite Heq; by left|]. intros H. apply Hneg. by right. }
  assert (forall c' κ', chat_ok c' κ' /\ others ev.1 κ κ' -> batch_ok evs c' κ') as Hnext.
  { intros c' κ' [H1 H2]. split; [done|split; [done|split; [|done]]]. by eapply others_ready. }
  unfold handle_event. destruct (Z.eqb_spec ev.1 listener) as [Heq|Hnl].
  - eapply wp_mono; [|by apply chat_wp_accept_client]. intros c' κ'. rewrite <- Heq. apply Hnext.
  - unfold ready_ok in Hr.
    destruct (k_watch κ !! (epoll_fd, ev.1)) as [v|] eqn:Hv; [|done].
    eapply wp_mono; [|apply chat_wp_client_ready; [done|done|done|by exists v]]. exact Hnext.
Qed.
Lemma chat_wp_wait_iter clients κ :
  listener <> -1 -> chat_ok clients κ ->
  wp any_reply no_ub any_call (wait_iter junk epoll_fd listener clients) κ
    (fun x κ' => match x with inl c' => chat_ok c' κ' | inr _ => chat_ok clients κ' end).
Proof.
  intros Hl1 Hok. pose proof Hok as (_ & _ & (He & _) & _ & Hw).
  unfold wait_iter. cbn [printf pbind wp]. wp_sys w Hr _.
  destruct (rv w =? -1); [done|]. cbn [printf pbind wp]. apply wp_bind.
  apply wp_for_each with (I := batch_ok).
  - intros ev evs c κ'. apply wp_handle_event.
  - intros c κ' (H & _). exact H.
  - split; [done|]. destruct Hr as [[_ ->]|(_ & _ & Hnd & Hf)].
    { repeat split; try constructor. by intros ?%elem_of_nil. }
    split; [done|split; [done|]]. intros (ev & Heq & Hin)%list_elem_of_fmap.
    rewrite Forall_forall in Hf. specialize (Hf _ Hin). unfold ready_ok in Hf.
    destruct (k_watch κ !! (epoll_fd, ev.1)) as [v|] eqn:Hv; [|done].
    apply Hw in Hv as (_ & _ & [Hv|[Hv _]%list_elem_of_filter]); congruence.
Qed.
End Safety.

Lemma wp_setup κ (Q : Z + Z * Z -> kern -> Prop) :
  k_watch κ = ∅ ->
  (forall n κ', Q (inl n) κ') ->
  (forall e l κ', l <> -1 -> chat_ok e l initial_clients κ' -> Q (inr (e, l)) κ') ->
  wp any_reply no_ub any_call setup κ Q.
Proof.
  intros Hκ Hn HQ. unfold setup. cbn [ignored pbind wp].
  wp_sys s Hs _. destruct (Z.ltb_spec (rv s) 0); [apply Hn|].
  destruct Hs as [?|[Hpos Hnew]]; [lia|]. rewrite (proj2 (Z.leb_le 0 (rv s))) by done.
  wp_sys ? _ _. wp_sys b _ _. destruct (rv b <? 0); [apply Hn|].
  wp_sys l _ _. destruct (rv l <? 0); [apply Hn|]. cbn [printf pbind wp].
  wp_sys e He _. destruct (Z.eqb_spec (rv e) (-1)) as [|Hem]; [apply Hn|].
  destruct He as [?|[Hepos Henew]]; [done|]. rewrite (proj2 (Z.leb_le 0 (rv e))) by done.
  assert (rv s <> rv e) as Hse by (intros Heq; apply Henew; rewrite Heq; apply open_new).
  cbn [sys pbind wp k_watch]. rewrite Hκ. split.
  { split; [|exact I]. unfold call_ok. cbn [call_fds call_size k_open k_watch].
    split; [eauto 8 with kern|split; [lia|apply lookup_empty]]. }
  intros c Hc _. cbn [reply_ok] in Hc. destruct (Z.eqb_spec (rv c) (-1)); [apply Hn|].
  cbn [kern_next k_open k_watch]. rewrite (proj2 (Z.eqb_eq (rv c) 0)) by lia.
  wp_sys m _ _. destruct (rv m =? 0); [apply Hn|]. apply HQ; [lia|].
  split; [exists [-1]; done|]. split; [constructor|]. cbn [k_open k_watch].
  split; [eauto 8 with kern|split].
  - intros f Hf. by apply elem_of_nil in Hf.
  - intros e' f v [[Heq _]|[_ Hv]]%lookup_insert_Some; [|by rewrite lookup_empty in Hv].
    injection Heq as <- <-. split; [done|split; [eauto with kern|by left]].
Qed.

(** The server stopped after [n] turns of its loop, by [loop_turns] a part of
    every run of [main]: the epoll instance, the listening socket, and the
    array of clients; [None] if it has ended before. *)
Definition serve_turns (n : nat) (junk : Z -> list Z) : prog (option (Z * Z * list Z)) :=
  let! s := setup in
  match s with
  | inl _ => Ret None
  | inr (epoll_fd, listener) =>
      let! x := turns n (wait_iter junk epoll_fd listener) initial_clients in
      Ret (match x with inl clients => Some (epoll_fd, listener, clients) | inr _ => None end)
  end.

(** The array is well formed and holds exactly the connections registered with
    the epoll set, each once, all open. *)
Definition holds_registered (st : option (Z * Z * list Z)) (κ : kern) : Prop :=
  match st with
  | Some (epoll_fd, listener, clients) =>
      array_ok clients /\ NoDup (members clients) /\
      forall fd, fd ∈ members clients <->
        fd <> listener /\ fd ∈ k_open κ /\ is_Some (k_watch κ !! (epoll_fd, fd))
  | None => True
  end.

(** C12. The array of clients of the epoll chat server stays well formed and
    holds exactly the connections of the epoll set, each once: this holds
    before the loop and after any number [n] of its turns, whatever the
    clients and the kernel do.  In every run of [main] no access leaves the
    array or the message buffers, every call is on an open descriptor,
    registered where the call needs it, no event is handled for a connection
    closed earlier in the batch, and no undefined behaviour is reachable.
    [junk] gives the cells that [realloc] adds. *)
Theorem chat_server_safe junk κ env :
  (forall n, length (junk n) = Z.to_nat n) -> k_watch κ = ∅ ->
  (forall n, safe_run any_reply no_ub any_call κ holds_registered (run (serve_turns n junk) env)) /\
  (forall F, safe_run any_reply no_ub any_call κ (fun _ _ => True) (run (main F junk) env)).
Proof.
  intros Hj Hκ. split.
  - intros n. apply wp_sound. unfold serve_turns. apply wp_bind, wp_setup; [done|done|].
    intros e l κ' Hl Hok. apply wp_bind.
    eapply wp_mono; [|apply (wp_turns _ _ _ (chat_ok e l) (fun _ _ => True)); [|exact Hok]].
    + intros [c|[]] κ2 Hc; cbn [wp holds_registered]; [|done].
      destruct Hc as (Ha & Hnd & (He & Hlo & _) & Hm & Hw). split; [done|split; [done|]].
      intros fd. split; [intros (H1 & H2 & _ & H4)%Hm; done|].
      intros (H1 & _ & v & Hv). by apply Hw in Hv as (_ & _ & [?|?]).
    + intros c κ2 Hc. eapply wp_mono; [|by apply chat_wp_wait_iter]. by intros [c'|[]] κ3.
  - intros F. apply wp_sound. unfold main. apply wp_bind, wp_setup; [done|done|].
    intros e l κ' Hl Hok. cbn beta iota.
    assert (forall c κ', chat_ok e l c κ' ->
      e ∈ k_open κ' /\ l ∈ k_open κ' /\ e <> l) as Hopen by (by intros c' κ2 (_ & _ & ? & _)).
    apply wp_bind. apply wp_loop with (I := chat_ok e l); [|exact Hok].
    intros cl κ2 Hc. eapply wp_mono; [|by apply chat_wp_wait_iter].
    intros [c'|[]] κ3; [done|]. intros (He2 & Hs2 & Hne)%Hopen. wp_sys ? _ _.
    split; [|done]. wp_call_ok.
Qed.

(** ** Broadcast *)

Lemma broadcast_cells fd buf x pre cells env u rest t :
  0 <= fd <= INT_MAX -> 0 ∉ buf -> (length buf < 1024)%nat ->
  run (for_each (broadcast_to fd buf (x :: pre ++ cells))
         (Z.of_nat <$> seq (S (length pre)) (length cells)) tt) env = (Done u rest, t) ->
  sends t = (fun c => (c, chat_text fd buf)) <$> filter (fun c => c <> -1 /\ c <> fd) cells.
Proof.
  intros Hfd H0 Hlen. revert pre env u t.
  induction cells as [|c cells IH]; intros pre env u t; cbn [length seq fmap list_fmap for_each].
  { intros [= _ _ <-]. done. }
  intros ([] & rest1 & t1 & t2 & H1 & H2 & ->)%run_bind_done.
  specialize (IH (pre ++ [c]) rest1 u t2).
  rewrite length_app, Nat.add_1_r, <- app_assoc in IH. apply IH in H2. clear IH.
  rewrite sends_app, H2, filter_cons. clear H2.
  unfold broadcast_to, mem_load in H1. destruct (Z.leb_spec 0 (Z.of_nat (S (length pre)))); [|lia].
  rewrite Nat2Z.id in H1. change ((x :: pre ++ c :: cells) !! S (length pre)) with
    ((pre ++ c :: cells) !! length pre) in H1.
  rewrite list_lookup_middle in H1 by done. cbn [defined pbind] in H1.
  assert (negb (c =? -1) && negb (c =? fd) = bool_decide (c <> -1 /\ c <> fd)) as Hb.
  { destruct (Z.eqb_spec c (-1)), (Z.eqb_spec c fd); case_bool_decide; simpl; tauto. }
  rewrite Hb in H1. clear Hb. case_bool_decide as Hc.
  - rewrite decide_True by done. cbn [fmap list_fmap].
    rewrite send_text_whole in H1.
    + apply run_bind_done in H1 as (r & e & t3 & t4 & H3 & H4 & ->).
      apply run_sys_done in H3 as [-> ->]. rewrite sends_app. cbn.
      destruct (rv r =? -1); cbn in H4; by simplify_eq.
    + pose proof (chat_text_length fd buf Hfd). unfold BUF_SIZE. lia.
    + by apply chat_text_no_nul.
  - rewrite decide_False by done. cbn in H1. by simplify_eq.
Qed.

(** A broadcast sends the text once to every member of the array other
    than the sender, and to nobody else. *)
Theorem epoll_broadcast_exact fd buf clients env u rest t :
  array_ok clients -> 0 <= fd <= INT_MAX -> 0 ∉ buf -> (length buf < 1024)%nat ->
  run (broadcast fd buf clients) env = (Done u rest, t) ->
  sends t = (fun c => (c, chat_text fd buf)) <$> filter (fun c => c <> fd) (members clients).
Proof.
  intros (cells & -> & Hne) Hfd H0 Hlen Hr. unfold broadcast in Hr. rewrite mem_load_head in Hr.
  cbn [defined pbind] in Hr.
  replace (Z.to_nat (Z.of_nat (S (length cells)) - 1)) with (length cells) in Hr by lia.
  apply (broadcast_cells fd buf _ []) in Hr; [|done|done|done]. rewrite Hr. f_equal.
  unfold members. cbn [tl]. clear. induction cells as [|c l IH]; [done|].
  rewrite !filter_cons, IH. destruct (decide (c <> -1)).
  - rewrite filter_cons. destruct (decide (c <> fd)).
    + by rewrite decide_True.
    + rewrite decide_False by tauto. done.
  - rewrite decide_False by tauto. done.
Qed.

(** ** Witnesses *)
Definition zero_cells (n : Z) : list Z := replicate (Z.to_nat n) 0.

Lemma add_client_refines_witness :
  exists o t, run (add_client zero_cells [2; 7] 9) [rint 1] = (o, t) /\
    o = Done [4; 7; 9; -1] [] /\
    match o with
    | Done c _ => array_ok c /\ members c ≡ₚ 9 :: members [2; 7]
    | Exited n => n = EXIT_FAILURE
    | Blocked => [rint 1] = []
    | _ => False
    end.
Proof.
  exists (Done [4; 7; 9; -1] []), [ECall (Libc "realloc" [16]) (rint 1)].
  split; [vm_compute; reflexivity|split; [reflexivity|]].
  refine (add_client_refines zero_cells [2; 7] 9 [rint 1] (Done [4; 7; 9; -1] [])
    [ECall (Libc "realloc" [16]) (rint 1)] _ _ _ _).
  - intros n. apply length_replicate.
  - by exists [7].
  - done.
  - vm_compute. reflexivity.
Defined.

Lemma add_remove_roundtrip_witness :
  exists clients' t,
    run (let! c := add_client zero_cells [2; 7] 9 in remove_client c 9) [rint 1]
      = (Done clients' [], t) /\
    clients' = [4; 7; -1; -1] /\ array_ok clients' /\ members clients' ≡ₚ members [2; 7].
Proof.
  exists [4; 7; -1; -1], [ECall (Libc "realloc" [16]) (rint 1)].
  split; [vm_compute; reflexivity|split; [reflexivity|]].
  apply (add_remove_roundtrip zero_cells [2; 7] 9 [rint 1] [4; 7; -1; -1] []
    [ECall (Libc "realloc" [16]) (rint 1)]).
  - intros n. apply length_replicate.
  - by exists [7].
  - done.
  - vm_compute. reflexivity.
Defined.

Lemma epoll_broadcast_exact_witness :
  exists t, run (broadcast 7 (str "hi") [4; 7; -1; 9]) [rint 11] = (Done tt [], t) /\
    sends t = [(9, str "[User 7]: hi")] /\
    sends t = (fun c => (c, chat_text 7 (str "hi"))) <$> filter (fun c => c <> 7) (members [4; 7; -1; 9]).
Proof.
  eexists. split; [vm_compute; reflexivity|split; [reflexivity|]].
  eapply (epoll_broadcast_exact 7 (str "hi") [4; 7; -1; 9] [rint 11] tt []).
  - by exists [7; -1; 9].
  - done.
  - vm_decide.
  - simpl. lia.
  - vm_compute. reflexivity.
Defined.

(** Clients 5 and 6 connect, the second by a doubling of the array, and client
    5 leaves. *)
Definition chat_env : list reply :=
  [rint 3; rint 0; rint 0; rint 0; rint 4; rint 0; rint 1;
   Reply 1 0 [] [(3, EPOLLIN)]; rint 5; rint 0; rint 26;
   Reply 1 0 [] [(3, EPOLLIN)]; rint 6; rint 0; rint 1; rint 26;
   Reply 1 0 [] [(5, EPOLLIN)]; rint 0; rint 0; rint 0].

Lemma chat_server_safe_witness :
  exists c t, run (serve_turns 3 zero_cells) chat_env = (Done (Some (4, 3, c)) [], t) /\
    c = [4; -1; 6; -1] /\ sends t = [(5, welcome_text 5); (6, welcome_text 6)] /\
    safe_run any_reply no_ub any_call kern0 holds_registered
      (run (serve_turns 3 zero_cells) chat_env).
Proof.
  eexists _, _. split; [vm_compute; reflexivity|split; [reflexivity|split; [vm_compute; reflexivity|]]].
  refine (proj1 (chat_server_safe zero_cells kern0 chat_env _ _) 3%nat); [|done].
  intros n. apply length_replicate.
Defined.
