(* ===== verification/KvStore.v ===== *)
(** * sockets/code/kv_protocol.h and kv_store.c

    The key-value server: packed request and response headers in network
    order, a table of 100 entries, and one connection served at a time. *)

From S2P Require Import Prelude CLib Os Kernel Net.

Local Open Scope Z_scope.

(** ** The protocol *)
Definition OP_READ : Z := 1.
Definition OP_WRITE : Z := 2.
Definition OP_DELETE : Z := 3.
Definition OP_FIRE : Z := 4.
Definition STATUS_OK : Z := 0.
Definition STATUS_NOT_FOUND : Z := 1.
Definition STATUS_ERROR : Z := 2.

(** The members hold what is in memory: [key] and [val_len] in network order
    on the wire. *)
Record request_hdr := Request { op : Z; rq_key : Z; rq_val_len : Z }.
Record response_hdr := Response { status : Z; rs_val_len : Z }.

(** Object representations of the packed structures: 9 and 5 bytes. *)
Definition request_bytes (q : request_hdr) : list Z :=
  op q :: le_bytes 4 (rq_key q) ++ le_bytes 4 (rq_val_len q).
Definition request_of (m : list Z) : request_hdr :=
  Request (nth 0 m 0) (of_le (take 4 (drop 1 m))) (of_le (take 4 (drop 5 m))).
Definition response_bytes (s : response_hdr) : list Z :=
  status s :: le_bytes 4 (rs_val_len s).
Definition response_of (m : list Z) : response_hdr :=
  Response (nth 0 m 0) (of_le (take 4 (drop 1 m))).

Definition REQUEST_SIZE : Z := 9.
Definition RESPONSE_SIZE : Z := 5.

(** ** The table *)
Definition MAX_ENTRIES : nat := 100%nat.
Definition VALUE_SIZE : nat := 256%nat.

Record kv_entry := KvEntry { key : Z; value : list Z; in_use : Z }.

Definition used (e : kv_entry) : bool := negb (in_use e =? 0).

Fixpoint find_entry_from (i : Z) (db : list kv_entry) (k : Z) : Z :=
  match db with
  | [] => -1
  | e :: db' => if used e && (key e =? k) then i else find_entry_from (i + 1) db' k
  end.
Definition find_entry (db : list kv_entry) (k : Z) : Z := find_entry_from 0 db k.

(** The search for an empty slot in the WRITE branch. *)
Fixpoint empty_slot_from (i : Z) (db : list kv_entry) : Z :=
  match db with
  | [] => -1
  | e :: db' => if used e then empty_slot_from (i + 1) db' else i
  end.
Definition empty_slot (db : list kv_entry) : Z := empty_slot_from 0 db.

Definition db_set (db : list kv_entry) (idx : Z) (e : kv_entry) : list kv_entry :=
  <[Z.to_nat idx := e]> db.

(** [db[idx].value] after [strncpy(value, buf, n)] and [value[n] = '\0']. *)
Definition copy_value (old buf : list Z) (n : Z) : option (list Z) :=
  s ← strncpy buf (Z.to_nat n);
  v ← mem_store old 0 s;
  mem_store v n [0].

(** ** One request *)
Section Handlers.
Context (client_fd : Z).

Definition respond (s : response_hdr) : prog reply := send_pipe client_fd (response_bytes s).

Definition handle_write (k val_len : Z) (db : list kv_entry) : prog (list kv_entry) :=
  let val_len := if Z.of_nat VALUE_SIZE <=? val_len then Z.of_nat VALUE_SIZE - 1 else val_len in
  let! r := sys (RecvAll client_fd val_len) in
  let! buf := defined "buf: overrun" (mem_store (replicate VALUE_SIZE 0) 0 (rdata r)) in
  let idx := find_entry db k in
  let idx := if idx =? -1 then empty_slot db else idx in
  if negb (idx =? -1) then
    let! e := defined "db: out of range" (mem_load db idx) in
    let! v := defined "value: overrun" (copy_value (value e) buf val_len) in
    let! s := defined "value: unterminated" (cstr v) in
    printf " -> WRITE: Key %u = '%s'" [PZ k; PS s] ;;;
    respond (Response STATUS_OK 0) ;;;
    Ret (db_set db idx (KvEntry k v 1))
  else
    respond (Response STATUS_ERROR 0) ;;;
    Ret db.

Definition handle_read (k : Z) (db : list kv_entry) : prog (list kv_entry) :=
  let idx := find_entry db k in
  if negb (idx =? -1) then
    let! e := defined "db: out of range" (mem_load db idx) in
    let! s := defined "value: unterminated" (cstr (value e)) in
    respond (Response STATUS_OK (htonl (Z.of_nat (length s)))) ;;;
    send_pipe client_fd s ;;;
    printf " -> READ: Key %u found." [PZ k] ;;;
    Ret db
  else
    respond (Response STATUS_NOT_FOUND 0) ;;;
    printf " -> READ: Key %u NOT FOUND." [PZ k] ;;;
    Ret db.

Definition handle_delete (k : Z) (db : list kv_entry) : prog (list kv_entry) :=
  let idx := find_entry db k in
  if negb (idx =? -1) then
    let! e := defined "db: out of range" (mem_load db idx) in
    printf " -> DELETE: Key %u removed." [PZ k] ;;;
    respond (Response STATUS_OK 0) ;;;
    Ret (db_set db idx (KvEntry (key e) (value e) 0))
  else
    respond (Response STATUS_NOT_FOUND 0) ;;;
    Ret db.

Definition handle_fire : prog unit :=
  printf " -> FIRE" [] ;;;
  printf "Busy for 3 seconds (1)... " [] ;;;
  sys (Sleep 3) ;;;
  printf "done!" [] ;;;
  let! r := respond (Response STATUS_OK 0) in
  (if rv r <? 0 then perror "send() failed" else Ret tt) ;;;
  printf "Busy for 3 seconds (2)... " [] ;;;
  sys (Sleep 3) ;;;
  printf "done!" [] ;;;
  let! r := send_pipe client_fd (str "Fire!") in
  if rv r <? 0 then perror "send() failed" else Ret tt.

(** The dispatch on [req.op]; an operation the server does not know gets no
    response. *)
Definition handle_request (req : request_hdr) (db : list kv_entry) : prog (list kv_entry) :=
  let k := ntohl (rq_key req) in
  let val_len := ntohl (rq_val_len req) in
  if op req =? OP_WRITE then handle_write k val_len db
  else if op req =? OP_READ then handle_read k db
  else if op req =? OP_DELETE then handle_delete k db
  else if op req =? OP_FIRE then handle_fire ;;; Ret db
  else Ret db.

(** One turn of the inner loop; [junk i] is what the stack holds at [&req] in
    turn [i], seen when [recv] returns a part of the header. *)
Definition serve_iter (junk : nat -> list Z) (s : nat * list kv_entry)
    : prog (nat * list kv_entry + list kv_entry) :=
  let '(i, db) := s in
  let! r := sys (RecvAll client_fd REQUEST_SIZE) in
  if rv r <=? 0 then
    (if rv r <? 0 then perror "recv() failed" else Ret tt) ;;; Ret (inr db)
  else
    let! m := defined "req: overrun" (mem_store (junk i) 0 (rdata r)) in
    let! db' := handle_request (request_of m) db in
    Ret (inl (S i, db')).
End Handlers.

(** ** The server *)
Definition accept_iter (F : nat) (junk : nat -> list Z) (listen_fd : Z) (db : list kv_entry)
    : prog (list kv_entry + unit) :=
  printf "Waiting for client... " [] ;;;
  let! a := sys (Accept listen_fd) in
  let client_fd := rv a in
  if client_fd <? 0 then perror "accept() failed" ;;; Ret (inl db) else
  printf " connected from %s:%d!" [PS (rdata a)] ;;;
  let! db := loop F (serve_iter client_fd junk) (0%nat, db) in
  printf "Client disconnected. Closing socket." [] ;;;
  sys (Close client_fd) ;;;
  Ret (inl db).

Definition zero_entry : kv_entry := KvEntry 0 (replicate VALUE_SIZE 0) 0.
Definition zero_db : list kv_entry := replicate MAX_ENTRIES zero_entry.

Definition main (n F : nat) (junk : nat -> list Z) : prog Z :=
  let! s := sys Socket in
  let listen_fd := rv s in
  if listen_fd <? 0 then perror "socket() failed" ;;; Ret EXIT_FAILURE else
  let! o := sys (Setsockopt listen_fd) in
  if rv o <? 0 then perror "setsockopt() failed" ;;; Ret EXIT_FAILURE else
  let! b := sys (Bind listen_fd 8085) in
  if rv b <? 0 then perror "bind() failed" ;;; Ret EXIT_FAILURE else
  let! l := sys (Listen listen_fd 5) in
  if rv l <? 0 then perror "listen() failed" ;;; Ret EXIT_FAILURE else
  printf "KV Store listening on port 8085 (Iterative Mode)" [] ;;;
  loop n (accept_iter F junk listen_fd) zero_db ;;;
  sys (Close listen_fd) ;;;
  Ret EXIT_SUCCESS.

(** ** The abstract store

    What the server promises: a finite map from keys to strings with at most
    100 keys, and for each request the messages it sends back. *)
Inductive request :=
| Write (k : Z) (v : list Z)
| Read (k : Z)
| Delete (k : Z)
| Fire
| Unknown (o : Z).

Notation store := (gmap Z (list Z)).

(** The part of a value the server reads and keeps: a longer one is cut to
    what the buffer takes. *)
Definition clip (v : list Z) : list Z := take (VALUE_SIZE - 1) v.

Definition fits (m : store) (k : Z) : bool :=
  bool_decide (is_Some (m !! k)) || (Nat.ltb (size m) MAX_ENTRIES).

Definition apply (m : store) (q : request) : store :=
  match q with
  | Write k v => if fits m k then <[k := upto_nul (clip v)]> m else m
  | Delete k => delete k m
  | _ => m
  end.

Definition answers (m : store) (q : request) : list (list Z) :=
  let status s := response_bytes (Response s 0) in
  match q with
  | Write k v => [status (if fits m k then STATUS_OK else STATUS_ERROR)]
  | Read k =>
      match m !! k with
      | Some v => [response_bytes (Response STATUS_OK (htonl (Z.of_nat (length v)))); v]
      | None => [status STATUS_NOT_FOUND]
      end
  | Delete k => [status (if bool_decide (is_Some (m !! k)) then STATUS_OK else STATUS_NOT_FOUND)]
  | Fire => [status STATUS_OK; str "Fire!"]
  | Unknown _ => []
  end.

Fixpoint serve_all (m : store) (qs : list request) : store * list (list Z) :=
  match qs with
  | [] => (m, [])
  | q :: qs' => let '(m', out) := serve_all (apply m q) qs' in (m', answers m q ++ out)
  end.

(** *** Requests on the wire *)
Definition word (z : Z) : Prop := 0 <= z < 2 ^ 32.

Definition request_ok (q : request) : Prop :=
  match q with
  | Write k v => word k /\ word (Z.of_nat (length v)) /\ Forall byte v
  | Read k | Delete k => word k
  | Fire => True
  | Unknown o => byte o /\ o ∉ [OP_READ; OP_WRITE; OP_DELETE; OP_FIRE]
  end.

Definition header (q : request) : list Z :=
  let hdr o k n := request_bytes (Request o (htonl k) (htonl n)) in
  match q with
  | Write k v => hdr OP_WRITE k (Z.of_nat (length v))
  | Read k => hdr OP_READ k 0
  | Delete k => hdr OP_DELETE k 0
  | Fire => hdr OP_FIRE 0 0
  | Unknown o => hdr o 0 0
  end.

(** What the server reads after the header.  Of a value of 256 bytes or more
    it reads the first 255; the next request is what follows them. *)
Definition payload (q : request) : list (list Z) :=
  match q with Write _ v => [clip v] | _ => [] end.

(** Calls of the server after it has the whole request. *)
Definition calls_left (m : store) (q : request) : nat :=
  match q with Fire => 4%nat | _ => length (answers m q) end.

Definition full (d : list Z) : reply := Reply (Z.of_nat (length d)) 0 d [].

(** The kernel delivers each request whole and lets the sends pass; their
    results are otherwise free. *)
Inductive session : store -> list request -> list reply -> Prop :=
| session_nil m : session m [] []
| session_cons m q qs acks env :
    length acks = calls_left m q -> Forall (fun r => survives r = true) acks ->
    session (apply m q) qs env ->
    session m (q :: qs) (full (header q) :: (full <$> payload q) ++ acks ++ env).

(** ** The table as a store *)
Definition entry_kv (e : kv_entry) : option (Z * list Z) :=
  if used e then Some (key e, default [] (cstr (value e))) else None.
Definition abs (db : list kv_entry) : store := list_to_map (omap entry_kv db).

Definition entry_ok (e : kv_entry) : Prop :=
  length (value e) = VALUE_SIZE /\ is_Some (cstr (value e)).

(** The invariant: 100 well-formed entries, no key used twice. *)
Definition db_ok (db : list kv_entry) : Prop :=
  length db = MAX_ENTRIES /\ Forall entry_ok db /\ NoDup (omap entry_kv db).*1.

Lemma find_entry_from_spec i db k :
  0 <= i ->
  (find_entry_from i db k = -1 /\ k ∉ (omap entry_kv db).*1) \/
  exists l1 e l2, db = l1 ++ e :: l2 /\ find_entry_from i db k = i + Z.of_nat (length l1) /\
    used e = true /\ key e = k.
Proof.
  revert i. induction db as [|e db IH]; intros i Hi; simpl; [left; set_solver|].
  unfold entry_kv at 1.
  destruct (used e) eqn:Eu; [destruct (Z.eqb_spec (key e) k)|]; simpl.
  - right. exists [], e, db. simpl. repeat split; auto; lia.
  - destruct (IH (i + 1)) as [[-> Hn]|(l1 & x & l2 & -> & -> & Hx)]; [lia| |].
    + left. split; [done|]. set_solver.
    + right. exists (e :: l1), x, l2. simpl. repeat split; try tauto; lia.
  - destruct (IH (i + 1)) as [[-> Hn]|(l1 & x & l2 & -> & -> & Hx)]; [lia| |].
    + left. done.
    + right. exists (e :: l1), x, l2. simpl. repeat split; try tauto; lia.
Qed.

Lemma empty_slot_from_spec i db :
  0 <= i ->
  (empty_slot_from i db = -1 /\ length (omap entry_kv db) = length db) \/
  exists l1 e l2, db = l1 ++ e :: l2 /\ empty_slot_from i db = i + Z.of_nat (length l1) /\
    used e = false.
Proof.
  revert i. induction db as [|e db IH]; intros i Hi; simpl; [by left|].
  unfold entry_kv at 1. destruct (used e) eqn:Eu; simpl.
  - destruct (IH (i + 1)) as [[-> Hn]|(l1 & x & l2 & -> & -> & Hx)]; [lia| |].
    + left. auto.
    + right. exists (e :: l1), x, l2. simpl. repeat split; try tauto; lia.
  - right. exists [], e, db. simpl. repeat split; auto; lia.
Qed.

(** An entry in the middle of the table contributes its pair to the store. *)
Lemma abs_middle l1 e l2 :
  NoDup (omap entry_kv (l1 ++ e :: l2)).*1 ->
  abs (l1 ++ e :: l2) =
    match entry_kv e with
    | Some (k, v) => <[k := v]> (abs (l1 ++ l2))
    | None => abs (l1 ++ l2)
    end.
Proof.
  unfold abs. rewrite !omap_app. simpl. destruct (entry_kv e) as [[k v]|]; [|done].
  intros Hn.
  change (<[k:=v]> (list_to_map (omap entry_kv l1 ++ omap entry_kv l2)) : store)
    with (list_to_map ((k, v) :: omap entry_kv l1 ++ omap entry_kv l2) : store).
  apply list_to_map_proper; [done|]. symmetry. apply Permutation_middle.
Qed.

Lemma keys_middle l1 e l2 :
  (omap entry_kv (l1 ++ e :: l2)).*1 ≡ₚ
    match entry_kv e with
    | Some (k, v) => k :: (omap entry_kv (l1 ++ l2)).*1
    | None => (omap entry_kv (l1 ++ l2)).*1
    end.
Proof.
  rewrite !omap_app. simpl. destruct (entry_kv e) as [[k v]|]; [|done].
  rewrite !fmap_app. simpl. symmetry. apply Permutation_middle.
Qed.

Lemma abs_none db k : k ∉ (omap entry_kv db).*1 -> abs db !! k = None.
Proof. apply not_elem_of_list_to_map_1. Qed.

Lemma abs_size db : NoDup (omap entry_kv db).*1 -> size (abs db) = length (omap entry_kv db).
Proof. apply map_size_list_to_map. Qed.

Lemma omap_length_le {A B} (f : A -> option B) l : (length (omap f l) <= length l)%nat.
Proof.
  unfold omap. induction l as [|x l IH]; [done|]. simpl. destruct (f x); simpl; lia.
Qed.

Lemma db_set_middle l1 (e e' : kv_entry) l2 :
  db_set (l1 ++ e :: l2) (Z.of_nat (length l1)) e' = l1 ++ e' :: l2.
Proof.
  unfold db_set. rewrite Nat2Z.id, <- (Nat.add_0_r (length l1)), insert_app_r. done.
Qed.

Lemma db_load_middle l1 (e : kv_entry) l2 :
  mem_load (l1 ++ e :: l2) (Z.of_nat (length l1)) = Some e.
Proof.
  unfold mem_load. rewrite (proj2 (Z.leb_le _ _)) by lia.
  rewrite Nat2Z.id, list_lookup_middle by done. done.
Qed.

Lemma find_entry_spec db k :
  db_ok db ->
  (find_entry db k = -1 /\ abs db !! k = None /\ k ∉ (omap entry_kv db).*1) \/
  exists l1 e l2 s, db = l1 ++ e :: l2 /\ find_entry db k = Z.of_nat (length l1) /\
    used e = true /\ key e = k /\ cstr (value e) = Some s /\ abs db !! k = Some s /\
    k ∉ (omap entry_kv (l1 ++ l2)).*1.
Proof.
  intros (_ & He & Hn). unfold find_entry.
  destruct (find_entry_from_spec 0 db k) as [[-> Hk]|(l1 & e & l2 & -> & -> & Hu & <-)];
    [lia| |].
  - left. auto using abs_none.
  - right. rewrite abs_middle by done. rewrite (keys_middle l1 e l2) in Hn.
    unfold entry_kv in Hn |- * at 1. rewrite Hu in *.
    apply Forall_app in He as [_ [[_ [s Hs]] _]%Forall_cons].
    apply NoDup_cons in Hn as [Hn _].
    exists l1, e, l2, s. rewrite Hs, lookup_insert_eq. repeat split; done || lia.
Qed.

(** A slot that is free or holds [k] takes a new value for [k]. *)
Lemma write_slot l1 e l2 k v s :
  db_ok (l1 ++ e :: l2) -> (used e = true -> key e = k) ->
  k ∉ (omap entry_kv (l1 ++ l2)).*1 -> length v = VALUE_SIZE -> cstr v = Some s ->
  db_ok (l1 ++ KvEntry k v 1 :: l2) /\
  abs (l1 ++ KvEntry k v 1 :: l2) = <[k := s]> (abs (l1 ++ e :: l2)).
Proof.
  intros (Hl & He & Hn) Hu Hk Hv Hs.
  assert (NoDup (omap entry_kv (l1 ++ KvEntry k v 1 :: l2)).*1) as Hn'.
  { rewrite keys_middle. simpl. apply NoDup_cons. split; [done|].
    rewrite keys_middle in Hn. destruct (entry_kv e) as [[]|]; [|done].
    by apply NoDup_cons in Hn as [_ ?]. }
  split; [repeat split; [|apply Forall_app in He as [? [_ ?]%Forall_cons]|done]|].
  - rewrite !length_app in *. done.
  - apply Forall_app. split; [done|]. constructor; [|done]. split; simpl; eauto.
  - rewrite !abs_middle by done. unfold entry_kv at 1. simpl. rewrite Hs. simpl.
    unfold entry_kv. destruct (used e); [|done].
    rewrite Hu by done. by rewrite insert_insert_eq.
Qed.

Lemma delete_slot l1 e l2 :
  db_ok (l1 ++ e :: l2) -> used e = true -> key e ∉ (omap entry_kv (l1 ++ l2)).*1 ->
  db_ok (l1 ++ KvEntry (key e) (value e) 0 :: l2) /\
  abs (l1 ++ KvEntry (key e) (value e) 0 :: l2) = delete (key e) (abs (l1 ++ e :: l2)).
Proof.
  intros (Hl & He & Hn) Hu Hk.
  pose proof Hn as Hn'. rewrite keys_middle in Hn'. unfold entry_kv at 1 in Hn'.
  rewrite Hu in Hn'. apply NoDup_cons in Hn' as [_ Hn'].
  assert (NoDup (omap entry_kv (l1 ++ KvEntry (key e) (value e) 0 :: l2)).*1) as Hn2
    by (by rewrite keys_middle).
  split; [repeat split; [|apply Forall_app in He as [? [? ?]%Forall_cons]|done]|].
  - rewrite !length_app in *. done.
  - apply Forall_app. split; [done|]. by constructor.
  - rewrite !abs_middle by done. unfold entry_kv at 1 2. simpl. rewrite Hu.
    rewrite delete_insert_id by by apply abs_none. done.
Qed.

(** [strncpy] and the terminator leave a proper string: what precedes the
    first NUL of the bytes copied. *)
Lemma copy_value_spec old buf n :
  length old = VALUE_SIZE -> (Z.to_nat n <= length buf)%nat -> 0 <= n < Z.of_nat VALUE_SIZE ->
  exists v, copy_value old buf n = Some v /\ length v = VALUE_SIZE /\
    cstr v = Some (upto_nul (take (Z.to_nat n) buf)).
Proof.
  intros Ho Hb Hn. unfold copy_value. rewrite strncpy_eq by done. simpl.
  set (u := upto_nul (take (Z.to_nat n) buf)).
  assert (length u <= Z.to_nat n)%nat as Hu.
  { unfold u. rewrite upto_nul_length, length_take. lia. }
  rewrite mem_store_is_Some by (rewrite ?length_app, ?length_replicate; lia). simpl.
  set (s := u ++ replicate (Z.to_nat n - length u) 0).
  assert (length s = Z.to_nat n) as Hs by (unfold s; rewrite length_app, length_replicate; lia).
  rewrite Hs, mem_store_is_Some by (rewrite ?length_app, ?length_drop, ?Hs; simpl; lia).
  eexists. split; [done|]. split.
  - rewrite !length_app, length_take, length_drop, !length_app, length_drop, Hs. simpl. lia.
  - rewrite take_app_le, (take_ge s) by lia.
    unfold s. rewrite <- app_assoc.
    destruct (Z.to_nat n - length u)%nat eqn:E; simpl.
    + apply cstr_app, upto_nul_nul_free.
    + apply cstr_app, upto_nul_nul_free.
Qed.

Lemma no_slot_full db :
  db_ok db -> empty_slot db = -1 -> size (abs db) = MAX_ENTRIES.
Proof.
  intros (Hl & _ & Hn) He. rewrite abs_size by done. unfold empty_slot in He.
  destruct (empty_slot_from_spec 0 db) as [[_ ->]|(? & ? & ? & _ & E & _)]; [lia|done|lia].
Qed.

Lemma slot_free db :
  db_ok db -> empty_slot db <> -1 ->
  exists l1 e l2, db = l1 ++ e :: l2 /\ empty_slot db = Z.of_nat (length l1) /\
    used e = false /\ (size (abs db) < MAX_ENTRIES)%nat.
Proof.
  intros (Hl & _ & Hn) He. unfold empty_slot in *.
  destruct (empty_slot_from_spec 0 db) as [[? _]|(l1 & e & l2 & -> & E & Hu)]; [lia|done|].
  exists l1, e, l2. rewrite abs_size by done. repeat split; auto.
  rewrite omap_app, length_app.
  assert (omap entry_kv (e :: l2) = omap entry_kv l2) as ->
    by (cbn; unfold entry_kv at 1; by rewrite Hu).
  rewrite length_app in Hl. simpl in Hl.
  pose proof (omap_length_le entry_kv l1). pose proof (omap_length_le entry_kv l2). lia.
Qed.

(** The slot WRITE picks, and what it leaves there. *)
Lemma write_spec db k buf n :
  db_ok db -> (Z.to_nat n <= length buf)%nat -> 0 <= n < Z.of_nat VALUE_SIZE ->
  let idx := if find_entry db k =? -1 then empty_slot db else find_entry db k in
  (idx = -1 /\ fits (abs db) k = false) \/
  exists e v, idx <> -1 /\ mem_load db idx = Some e /\ copy_value (value e) buf n = Some v /\
    cstr v = Some (upto_nul (take (Z.to_nat n) buf)) /\ fits (abs db) k = true /\
    db_ok (db_set db idx (KvEntry k v 1)) /\
    abs (db_set db idx (KvEntry k v 1)) =
      <[k := upto_nul (take (Z.to_nat n) buf)]> (abs db).
Proof.
  intros Hdb Hb Hn idx. unfold fits.
  assert (forall l1 e l2, db = l1 ++ e :: l2 -> idx = Z.of_nat (length l1) ->
    (used e = true -> key e = k) -> k ∉ (omap entry_kv (l1 ++ l2)).*1 ->
    exists e v, idx <> -1 /\ mem_load db idx = Some e /\ copy_value (value e) buf n = Some v /\
    cstr v = Some (upto_nul (take (Z.to_nat n) buf)) /\
    db_ok (db_set db idx (KvEntry k v 1)) /\
    abs (db_set db idx (KvEntry k v 1)) =
      <[k := upto_nul (take (Z.to_nat n) buf)]> (abs db)) as Hslot.
  { intros l1 e l2 -> -> Hu Hk.
    pose proof Hdb as (_ & [_ [[He _] _]%Forall_cons]%Forall_app & _).
    destruct (copy_value_spec (value e) buf n He Hb Hn) as (v & Hv & Hlv & Hs).
    exists e, v. rewrite db_set_middle, db_load_middle.
    destruct (write_slot l1 e l2 k v _ Hdb Hu Hk Hlv Hs). split_and!; auto; lia. }
  subst idx.
  destruct (find_entry_spec db k Hdb) as [(Ef & Hk & Hin)|(l1 & e & l2 & s & E & Ef & Hu & Hke & _ & Hk & Hin)].
  - rewrite Ef in *. cbn [Z.eqb Pos.eqb] in *. rewrite Hk.
    rewrite (bool_decide_false (is_Some None)) by (by intros []).
    destruct (decide (empty_slot db = -1)) as [E|E].
    { left. split; [done|]. rewrite (no_slot_full db Hdb E). done. }
    right. destruct (slot_free db Hdb E) as (l1 & e & l2 & E1 & E2 & Hu & Hsz).
    destruct (Hslot l1 e l2 E1 E2) as (e' & v & ?); [by rewrite Hu| |].
    { rewrite E1, omap_app in Hin. cbn in Hin. unfold entry_kv at 2 in Hin.
      rewrite Hu in Hin. by rewrite omap_app. }
    exists e', v. apply Nat.ltb_lt in Hsz. rewrite Hsz. tauto.
  - right. rewrite Ef in *. destruct (Z.eqb_spec (Z.of_nat (length l1)) (-1)); [lia|].
    destruct (Hslot l1 e l2 E eq_refl) as (e' & v & ?); [done|done|].
    exists e', v. rewrite Hk, bool_decide_true by eauto. tauto.
Qed.

(** ** The wire format *)
Lemma request_of_bytes o k n :
  word k -> word n -> request_of (request_bytes (Request o k n)) = Request o k n.
Proof.
  unfold word. intros Hk Hn. unfold request_of, request_bytes.
  cbn [op rq_key rq_val_len nth drop]. rewrite drop_0.
  rewrite take_app_le, (take_ge (le_bytes 4 k)), of_le_bytes
    by (rewrite ?le_bytes_length, ?pow256_4; lia).
  rewrite (drop_app_ge _ _ 4), le_bytes_length, Nat.sub_diag, drop_0, take_ge, of_le_bytes
    by (rewrite ?le_bytes_length, ?pow256_4; lia).
  done.
Qed.

Lemma htonl_word z : word (htonl z).
Proof. apply htonl_bound. Qed.

Lemma ntohl_htonl z : word z -> ntohl (htonl z) = z.
Proof. apply ntohl_htonl_word. Qed.

Lemma header_length q : length (header q) = Z.to_nat REQUEST_SIZE.
Proof. destruct q; simpl; rewrite ?length_app, ?le_bytes_length; done. Qed.

Lemma nz_word n : (n < VALUE_SIZE)%nat -> word (Z.of_nat n).
Proof. unfold word, VALUE_SIZE. change (2 ^ 32) with 4294967296. lia. Qed.

Lemma clip_length v :
  Z.of_nat (length (clip v)) =
    if Z.of_nat VALUE_SIZE <=? Z.of_nat (length v) then Z.of_nat VALUE_SIZE - 1
    else Z.of_nat (length v).
Proof.
  unfold clip. rewrite length_take. unfold VALUE_SIZE.
  destruct (Z.leb_spec (Z.of_nat 256) (Z.of_nat (length v))); lia.
Qed.

Lemma clip_short v : (length v < VALUE_SIZE)%nat -> clip v = v.
Proof. intros H. unfold clip. apply take_ge. unfold VALUE_SIZE in *. lia. Qed.

Definition decoded (q : request) : request_hdr :=
  match q with
  | Write k v => Request OP_WRITE (htonl k) (htonl (Z.of_nat (length v)))
  | Read k => Request OP_READ (htonl k) (htonl 0)
  | Delete k => Request OP_DELETE (htonl k) (htonl 0)
  | Fire => Request OP_FIRE (htonl 0) (htonl 0)
  | Unknown o => Request o (htonl 0) (htonl 0)
  end.

Lemma request_of_header q : request_of (header q) = decoded q.
Proof. destruct q; simpl; apply request_of_bytes; apply htonl_word. Qed.

(** *** The handlers implement the abstract store *)
Definition implements (fd : Z) (db : list kv_entry) (q : request) (env : list reply)
    (ot : outcome (list kv_entry) * list event) : Prop :=
  exists db', ot.1 = Done db' env /\ db_ok db' /\ abs db' = apply (abs db) q /\
    sends ot.2 = pair fd <$> answers (abs db) q.

(** One survived send at the head of the replies. *)
Ltac send_step Hs :=
  let r := fresh "r" in let H := fresh "H" in
  destruct Hs as [|r ? H Hs]; [done|];
  rewrite <- ?app_comm_cons; cbn [pbind]; rewrite (send_pipe_run _ _ _ _ _ H).

Lemma handle_write_run fd k v db r env :
  db_ok db -> survives r = true ->
  implements fd db (Write k v) env
    (run (handle_write fd k (Z.of_nat (length v)) db) (full (clip v) :: r :: env)).
Proof.
  intros Hdb Hr. unfold handle_write, implements, respond. cbn [answers apply].
  rewrite <- clip_length. assert (length (clip v) < VALUE_SIZE)%nat as Hv
    by (unfold clip; rewrite length_take; unfold VALUE_SIZE; lia).
  set (c := clip v) in *. clearbody c. clear v. rename c into v.
  cbn [sys pbind run full rdata].
  rewrite mem_store_is_Some by (rewrite ?length_replicate; lia).
  cbn [defined pbind Z.to_nat take]. rewrite drop_replicate, app_nil_l, Nat.add_0_l.
  set (buf := v ++ replicate (VALUE_SIZE - length v) 0).
  assert (take (Z.to_nat (Z.of_nat (length v))) buf = v) as Htk
    by (by rewrite Nat2Z.id; apply take_app_length).
  destruct (write_spec db k buf (Z.of_nat (length v)) Hdb) as [[-> Hf]|(e & w & Hi & -> & Hc & Hs & Hf & Hok & Ha)].
  { unfold buf. rewrite length_app. lia. }
  { lia. }
  - cbn [Z.eqb Pos.eqb negb]. rewrite send_pipe_run by done. exists db. cbn. rewrite Hf. auto.
  - rewrite (proj2 (Z.eqb_neq _ _) Hi). cbn [negb defined pbind]. rewrite Hc.
    cbn [defined pbind]. rewrite Hs, Htk in *. cbn [defined pbind printf run].
    rewrite send_pipe_run by done. eexists. cbn. rewrite Hf. repeat split; try apply Hok.
    by rewrite Ha.
Qed.

Lemma handle_read_run fd k db acks env :
  db_ok db -> length acks = calls_left (abs db) (Read k) ->
  Forall (fun r => survives r = true) acks ->
  implements fd db (Read k) env (run (handle_read fd k db) (acks ++ env)).
Proof.
  intros Hdb Hl Hs. unfold handle_read, implements, respond. cbn [calls_left answers apply] in *.
  destruct (find_entry_spec db k Hdb) as [(-> & Hk & Hin)|(l1 & e & l2 & s & -> & -> & Hu & Hke & Hv & Hk & Hin)];
    rewrite Hk in *.
  - cbn [Z.eqb Pos.eqb negb]. send_step Hs. destruct Hs; [|done]. exists db. cbn. done.
  - destruct (Z.eqb_spec (Z.of_nat (length l1)) (-1)); [lia|]. cbn [negb].
    rewrite db_load_middle. cbn [defined pbind]. rewrite Hv. cbn [defined pbind].
    send_step Hs. send_step Hs. destruct Hs; [|done]. eexists. cbn. eauto.
Qed.

Lemma handle_delete_run fd k db r env :
  db_ok db -> survives r = true ->
  implements fd db (Delete k) env (run (handle_delete fd k db) (r :: env)).
Proof.
  intros Hdb Hr. unfold handle_delete, implements, respond. cbn [answers apply] in *.
  destruct (find_entry_spec db k Hdb) as [(-> & Hk & Hin)|(l1 & e & l2 & s & -> & -> & Hu & Hke & Hv & Hk & Hin)];
    rewrite Hk.
  - cbn [Z.eqb Pos.eqb negb]. rewrite send_pipe_run by done. exists db. cbn.
    rewrite delete_id by done. auto.
  - destruct (Z.eqb_spec (Z.of_nat (length l1)) (-1)); [lia|]. cbn [negb].
    rewrite db_load_middle. cbn [defined pbind printf run]. rewrite send_pipe_run by done.
    rewrite db_set_middle. subst k. destruct (delete_slot l1 e l2 Hdb Hu Hin) as [? ?].
    eexists. cbn. auto.
Qed.

Lemma handle_fire_run fd acks env :
  length acks = 4%nat -> Forall (fun r => survives r = true) acks ->
  exists t, run (handle_fire fd) (acks ++ env) = (Done tt env, t) /\
    sends t = [(fd, response_bytes (Response STATUS_OK 0)); (fd, str "Fire!")].
Proof.
  intros Hl Hs. destruct acks as [|r1 [|r2 [|r3 [|r4 [|? ?]]]]]; try done.
  inversion_clear Hs as [|? ? _ Hs']. inversion_clear Hs' as [|? ? H2 Hs].
  inversion_clear Hs as [|? ? _ Hs']. inversion_clear Hs' as [|? ? H4 _].
  unfold handle_fire, respond. cbn [app printf pbind sys run].
  rewrite send_pipe_run by done.
  destruct (rv r2 <? 0); cbn [perror printf pbind run]; rewrite send_pipe_run by done;
    destruct (rv r4 <? 0); cbn; eauto.
Qed.

Lemma handle_request_run fd q db acks env :
  db_ok db -> request_ok q -> length acks = calls_left (abs db) q ->
  Forall (fun r => survives r = true) acks ->
  implements fd db q env
    (run (handle_request fd (decoded q) db) ((full <$> payload q) ++ acks ++ env)).
Proof.
  intros Hdb Hq Hl Hs. unfold handle_request.
  destruct q as [k v|k|k| |o]; cbn [decoded op rq_key rq_val_len payload fmap list_fmap];
    rewrite ?ntohl_htonl by apply Hq; cbn [app].
  - destruct acks as [|r [|? ?]]; try done. inversion_clear Hs.
    by apply handle_write_run.
  - by apply handle_read_run.
  - destruct acks as [|r [|? ?]]; try done. inversion_clear Hs. by apply handle_delete_run.
  - destruct (handle_fire_run fd acks env Hl Hs) as (t & Ht & Hst).
    cbn [Z.eqb Pos.eqb OP_FIRE OP_WRITE OP_READ OP_DELETE]. exists db.
    rewrite run_bind, Ht. cbn [run fst snd]. rewrite app_nil_r. split_and!; try apply Hdb; done.
  - destruct Hq as [_ Ho]. rewrite !not_elem_of_cons in Ho. destruct Ho as (H1 & H2 & H3 & H4 & _).
    rewrite !(proj2 (Z.eqb_neq _ _)) by done.
    destruct acks; [|done]. exists db. done.
Qed.

(** One turn of the inner loop on a request that arrives whole. *)
Lemma serve_iter_run fd junk i q db acks env :
  db_ok db -> request_ok q -> length (junk i) = Z.to_nat REQUEST_SIZE ->
  length acks = calls_left (abs db) q -> Forall (fun r => survives r = true) acks ->
  exists db' t,
    run (serve_iter fd junk (i, db)) (full (header q) :: (full <$> payload q) ++ acks ++ env)
      = (Done (inl (S i, db')) env, t) /\
    db_ok db' /\ abs db' = apply (abs db) q /\ sends t = pair fd <$> answers (abs db) q.
Proof.
  intros Hdb Hq Hj Hl Hs. unfold serve_iter. cbn [sys pbind run full rv rdata].
  pose proof (header_length q) as Hh. rewrite Hh.
  change (Z.of_nat (Z.to_nat REQUEST_SIZE) <=? 0) with false. cbv iota.
  rewrite mem_store_whole by congruence. cbn [defined pbind].
  rewrite request_of_header, run_bind.
  destruct (handle_request_run fd q db acks env Hdb Hq Hl Hs) as (db' & Ho & Hok & Ha & Hst).
  destruct (run (handle_request fd (decoded q) db) _) as [o t]. simpl in Ho, Hst. subst o.
  eexists db', _. split; [done|]. simpl. rewrite app_nil_r, Hst. done.
Qed.

(** C13. Refinement: for every sequence of requests that arrive whole, with
    values of any length, on a connection whose sends do not fail with [EPIPE]
    (the signal would end the server), the server's inner loop ends when the client
    disconnects, sends exactly the messages the abstract store answers, in
    order, and leaves a well-formed table that represents the abstract store
    after the requests.  A value is cut to its first 255 bytes ([clip]) and at
    its first NUL, and a new key is refused when 100 keys are in use.  The
    sequence is the one the server reads: of a longer value it reads 255 bytes,
    and takes what follows them for the next request
    ([oversized_payload_desync]). *)
Theorem kv_store_refines fd junk db qs env bye i n :
  db_ok db -> Forall request_ok qs -> (forall i, length (junk i) = Z.to_nat REQUEST_SIZE) ->
  session (abs db) qs env -> rv bye <= 0 -> (length qs < n)%nat ->
  exists db' t,
    run (loop n (serve_iter fd junk) (i, db)) (env ++ [bye]) = (Done db' [], t) /\
    db_ok db' /\ abs db' = (serve_all (abs db) qs).1 /\
    sends t = pair fd <$> (serve_all (abs db) qs).2.
Proof.
  intros Hdb Hq Hj Hs Hb. revert db env i n Hdb Hs.
  induction Hq as [|q qs Hq Hqs IH]; intros db env i n Hdb Hs Hn;
    (destruct n as [|n]; [simpl in Hn; lia|]); inversion Hs as [|m q' qs' acks e Hl Ha Hs']; subst;
    rewrite loop_S.
  - unfold serve_iter. cbn [app sys pbind run]. rewrite (proj2 (Z.leb_le _ _) Hb).
    exists db. destruct (rv bye <? 0); cbn; eauto.
  - destruct (serve_iter_run fd junk i q db acks (e ++ [bye]) Hdb Hq (Hj i) Hl Ha)
      as (db1 & t1 & H1 & Hok1 & Ha1 & Hs1).
    rewrite <- Ha1 in Hs'.
    destruct (IH db1 e (S i) n Hok1 Hs') as (db2 & t2 & H2 & Hok2 & Ha2 & Hs2); [simpl in Hn; lia|].
    rewrite <- app_comm_cons, <- !app_assoc, run_bind, H1. simpl. rewrite H2.
    exists db2, (t1 ++ t2). rewrite Ha1 in *.
    destruct (serve_all (apply (abs db) q) qs) as [m out]. simpl in *.
    rewrite sends_app, Hs1, Hs2, fmap_app. done.
Qed.

(** ** Any bytes at all

    A client may send anything: lengths beyond the buffer, payloads with NULs
    or cut short, headers in part, operations that do not exist. *)
Section Safety.
Context (G : kern -> call -> Prop).
Hypothesis G_local : forall κ c, (forall l, c <> Accept l) -> G κ c.

Lemma wp_respond fd d κ (Q : reply -> kern -> Prop) :
  fd ∈ k_open κ -> (forall r, Q r κ) -> wp any_reply no_ub G (send_pipe fd d) κ Q.
Proof.
  intros Hfd HQ. unfold send_pipe. wp_sys r ? _.
  destruct ((rv r <? 0) && (rerr r =? EPIPE)); simpl; auto.
Qed.

Lemma wp_handle_write fd k n db κ :
  db_ok db -> word n -> fd ∈ k_open κ ->
  wp any_reply no_ub G (handle_write fd k n db) κ (fun db' κ' => db_ok db' /\ κ' = κ).
Proof.
  intros Hdb Hn Hfd. unfold handle_write, respond, word in *.
  set (m := if Z.of_nat VALUE_SIZE <=? n then _ else n).
  assert (0 <= m < Z.of_nat VALUE_SIZE) as Hm.
  { unfold m. destruct (Z.leb_spec (Z.of_nat VALUE_SIZE) n); unfold VALUE_SIZE in *; lia. }
  clearbody m. wp_sys r Hr _.
  assert (Z.of_nat (length (rdata r)) <= m) as Hd.
  { destruct Hr as [[_ ->]|(? & ? & _)]; simpl; lia. }
  apply wp_bind, wp_defined. eexists. split.
  { apply mem_store_is_Some; rewrite ?length_replicate; lia. }
  set (buf := _ ++ _ ++ _).
  assert (length buf = VALUE_SIZE) as Hb.
  { unfold buf. rewrite !length_app, length_take, length_drop, length_replicate. simpl. lia. }
  clearbody buf.
  destruct (write_spec db k buf m Hdb) as [[-> _]|(e & v & Hi & -> & Hc & Hs & _ & Hok & _)];
    [lia|done| |].
  - apply wp_bind, wp_respond; simpl; auto.
  - rewrite (proj2 (Z.eqb_neq _ _) Hi). cbn [negb defined pbind]. rewrite Hc.
    cbn [defined pbind]. rewrite Hs. cbn [defined pbind printf wp].
    apply wp_bind, wp_respond; simpl; auto.
Qed.

Lemma wp_handle_read fd k db κ :
  db_ok db -> fd ∈ k_open κ ->
  wp any_reply no_ub G (handle_read fd k db) κ (fun db' κ' => db_ok db' /\ κ' = κ).
Proof.
  intros Hdb Hfd. unfold handle_read, respond.
  destruct (find_entry_spec db k Hdb) as [(-> & _)|(l1 & e & l2 & s & E & -> & _ & _ & Hv & _)].
  - apply wp_bind, wp_respond; simpl; auto.
  - destruct (Z.eqb_spec (Z.of_nat (length l1)) (-1)); [lia|]. subst db. cbn [negb].
    rewrite db_load_middle. cbn [defined pbind]. rewrite Hv. cbn [defined pbind].
    apply wp_bind, wp_respond; [done|]. intros r. apply wp_bind, wp_respond; simpl; auto.
Qed.

Lemma wp_handle_delete fd k db κ :
  db_ok db -> fd ∈ k_open κ ->
  wp any_reply no_ub G (handle_delete fd k db) κ (fun db' κ' => db_ok db' /\ κ' = κ).
Proof.
  intros Hdb Hfd. unfold handle_delete, respond.
  destruct (find_entry_spec db k Hdb) as [(-> & _)|(l1 & e & l2 & s & E & -> & Hu & Hk & _ & _ & Hin)].
  - apply wp_bind, wp_respond; simpl; auto.
  - destruct (Z.eqb_spec (Z.of_nat (length l1)) (-1)); [lia|]. subst db k. cbn [negb].
    rewrite db_load_middle. cbn [defined pbind printf wp]. rewrite db_set_middle.
    apply wp_bind, wp_respond; [done|]. intros r. split; [|done]. by apply delete_slot.
Qed.

Lemma wp_handle_fire fd κ :
  fd ∈ k_open κ -> wp any_reply no_ub G (handle_fire fd) κ (fun _ κ' => κ' = κ).
Proof.
  intros Hfd. unfold handle_fire, respond. cbn [printf pbind wp].
  wp_sys.
  apply wp_bind, wp_respond; [done|]. intros r1. cbn beta.
  apply wp_bind. apply wp_mono with (Q := fun _ κ' => κ' = κ); [|by destruct (rv r1 <? 0)].
  intros _ κ' ->. cbn [printf pbind wp]. wp_sys. cbn [printf pbind wp].
  apply wp_bind, wp_respond; [done|]. intros r2. by destruct (rv r2 <? 0).
Qed.

Lemma wp_serve_iter fd junk i db κ :
  db_ok db -> fd ∈ k_open κ -> length (junk i) = Z.to_nat REQUEST_SIZE ->
  wp any_reply no_ub G (serve_iter fd junk (i, db)) κ
    (fun x κ' => match x with inl s => db_ok s.2 | inr db' => db_ok db' end /\ κ' = κ).
Proof.
  intros Hdb Hfd Hj. unfold serve_iter, REQUEST_SIZE in *. wp_sys r Hr _.
  destruct (Z.leb_spec (rv r) 0).
  { destruct (rv r <? 0); done. }
  destruct Hr as [[? _]|(? & ? & _)]; [lia|].
  apply wp_bind, wp_defined. eexists. split; [apply mem_store_is_Some; lia|].
  set (req := request_of _). clearbody req. apply wp_bind.
  apply wp_mono with (Q := fun db' κ' => db_ok db' /\ κ' = κ); [done|].
  unfold handle_request.
  destruct (op req =? OP_WRITE); [apply wp_handle_write; auto; apply htonl_word|].
  destruct (op req =? OP_READ); [by apply wp_handle_read|].
  destruct (op req =? OP_DELETE); [by apply wp_handle_delete|].
  destruct (op req =? OP_FIRE); [|done].
  apply wp_bind. eapply wp_mono; [|by apply wp_handle_fire]. simpl. auto.
Qed.

Lemma wp_session fd junk n db κ :
  db_ok db -> fd ∈ k_open κ -> (forall i, length (junk i) = Z.to_nat REQUEST_SIZE) ->
  wp any_reply no_ub G (loop n (serve_iter fd junk) (0%nat, db)) κ
    (fun db' κ' => db_ok db' /\ κ' = κ).
Proof.
  intros Hdb Hfd Hj.
  apply wp_loop with (I := fun s κ' => db_ok s.2 /\ κ' = κ); [|done].
  intros [i db'] κ' [Hdb' ->]. eapply wp_mono; [|by apply wp_serve_iter].
  intros [s|d] κ' [? ->]; done.
Qed.
End Safety.

(** When the server waits for a client, no connection is open. *)
Definition no_client (κ0 κ : kern) (c : call) : Prop :=
  match c with Accept l => k_open κ = {[l]} ∪ k_open κ0 | _ => True end.

Lemma zero_db_ok : db_ok zero_db.
Proof.
  split; [done|]. split.
  - apply Forall_replicate. split; [done|]. vm_compute. eauto.
  - replace (omap entry_kv zero_db) with (@nil (Z * list Z)) by (vm_compute; done). constructor.
Qed.

(** C14. Whatever a client sends (any operation, any length, payloads with
    NULs, a header or payload cut short), the server reaches no undefined
    behaviour, every entry of the table keeps its key unique and its value
    terminated inside its 256 bytes, and the connection is closed before the
    next one is accepted. *)
Theorem kv_table_wellformed n F junk κ env :
  (forall i, length (junk i) = Z.to_nat REQUEST_SIZE) ->
  safe_run any_reply no_ub (no_client κ) κ (fun _ _ => True) (run (main n F junk) env) /\
  forall fd db m κ' env', db_ok db -> fd ∈ k_open κ' ->
    safe_run any_reply no_ub any_call κ' (fun db' κ'' => db_ok db' /\ κ'' = κ')
      (run (loop m (serve_iter fd junk) (0%nat, db)) env').
Proof.
  intros Hj. split; [|intros; apply wp_sound, wp_session; done].
  apply wp_sound. unfold main.
  wp_sys s Hs _. destruct (Z.ltb_spec (rv s) 0); [done|].
  destruct Hs as [?|[_ Hs]]; [lia|]. rewrite (proj2 (Z.leb_le 0 (rv s))) by done.
  wp_sys o ? _. destruct (rv o <? 0); [done|].
  wp_sys b ? _. destruct (rv b <? 0); [done|].
  wp_sys l ? _. destruct (rv l <? 0); [done|].
  cbn [printf pbind wp]. apply wp_bind.
  apply wp_loop with (I := fun db κ' => db_ok db /\ k_open κ' = {[rv s]} ∪ k_open κ);
    [|split; [apply zero_db_ok|done]].
  intros db κ' [Hdb Hκ]. unfold accept_iter. cbn [printf pbind wp].
  assert (rv s ∈ k_open κ') as Hin by (rewrite Hκ; apply open_new).
  wp_sys a Ha _. destruct (Z.ltb_spec (rv a) 0).
  { destruct (Z.leb_spec 0 (rv a)); [lia|done]. }
  destruct Ha as [?|[_ Ha]]; [lia|]. rewrite (proj2 (Z.leb_le 0 (rv a))) by done.
  cbn [printf pbind wp]. apply wp_bind.
  eapply wp_mono; [|apply wp_session; [by intros ? [] Hc; try done; exfalso; eapply Hc|done|apply open_new|done]].
  intros db' κ'' [Hdb' ->]. wp_sys. simpl. split; [done|].
  rewrite <- Hκ, union_close. rewrite difference_disjoint_L; [done|]. set_solver +Ha.
Qed.

(** ** Witnesses and examples *)
Definition ack (n : Z) : reply := rint n.

(** A short value is written, read and deleted; of one of 300 bytes, 255 are
    kept. *)
Definition kv_env : list reply :=
  [full (header (Write 7 (str "abc"))); full (str "abc"); ack 5;
   full (header (Read 7)); ack 5; ack 3; full (header (Delete 7)); ack 5;
   full (header (Read 7)); ack 5;
   full (header (Write 8 (replicate 300 65))); full (replicate 255 65); ack 5;
   full (header Fire); ack 0; ack 5; ack 0; ack 5; full (header (Unknown 9))].

Lemma kv_store_refines_witness :
  exists db' t,
    run (loop 8 (serve_iter 4 (fun _ => replicate 9 0)) (0%nat, zero_db))
      (kv_env ++ [ack 0]) = (Done db' [], t) /\
    db_ok db' /\ abs db' = {[8 := replicate 255 65]} /\
    sends t = pair 4 <$> [[0; 0; 0; 0; 0]; [0; 0; 0; 0; 3]; str "abc"; [0; 0; 0; 0; 0];
                          [1; 0; 0; 0; 0]; [0; 0; 0; 0; 0]; [0; 0; 0; 0; 0]; str "Fire!"].
Proof.
  set (qs := [Write 7 (str "abc"); Read 7; Delete 7; Read 7; Write 8 (replicate 300 65);
    Fire; Unknown 9]).
  assert (serve_all (abs zero_db) qs =
    ({[8 := replicate 255 65]}, [[0; 0; 0; 0; 0]; [0; 0; 0; 0; 3]; str "abc"; [0; 0; 0; 0; 0];
         [1; 0; 0; 0; 0]; [0; 0; 0; 0; 0]; [0; 0; 0; 0; 0]; str "Fire!"])) as E
    by (vm_compute; reflexivity).
  destruct (kv_store_refines 4 (fun _ => replicate 9 0) zero_db qs kv_env (ack 0) 0%nat 8%nat)
    as (db' & t & H1 & H2 & H3 & H4).
  - apply zero_db_ok.
  - repeat constructor; vm_decide.
  - intros i. reflexivity.
  - apply (session_cons _ (Write 7 (str "abc")) _ [_]); [vm_compute; done|repeat constructor|].
    apply (session_cons _ (Read 7) _ [_; _]); [vm_compute; done|repeat constructor|].
    apply (session_cons _ (Delete 7) _ [_]); [vm_compute; done|repeat constructor|].
    apply (session_cons _ (Read 7) _ [_]); [vm_compute; done|repeat constructor|].
    apply (session_cons _ (Write 8 (replicate 300 65)) _ [_]); [vm_compute; done|repeat constructor|].
    apply (session_cons _ Fire _ [_; _; _; _]); [vm_compute; done|repeat constructor|].
    apply (session_cons _ (Unknown 9) _ []); [vm_compute; done|repeat constructor|].
    constructor.
  - vm_decide.
  - simpl. lia.
  - exists db', t. rewrite E in H3, H4. auto.
Defined.

(** A payload longer than 255 bytes is read in part: its rest is taken for
    the next request, here a DELETE of another key. *)
Definition long_payload : list Z := replicate 255 65 ++ header (Delete 1).
Example oversized_payload_desync :
  let db := zero_db in
  let hdr := request_bytes (Request OP_WRITE (htonl 2) (htonl (Z.of_nat (length long_payload)))) in
  exists db' t,
    run (loop 9 (serve_iter 4 (fun _ => replicate 9 0)) (0%nat, db))
      [full (header (Write 1 (str "x"))); full (str "x"); ack 5;
       full hdr; full (take 255 long_payload); ack 5; full (drop 255 long_payload); ack 5; ack 0]
      = (Done db' [], t) /\
    abs db' = {[ 2 := replicate 255 65 ]}.
Proof. eexists _, _. split; [vm_compute; reflexivity|vm_compute; reflexivity]. Qed.

Lemma kv_table_wellformed_witness :
  exists o t,
    run (main 1 3 (fun _ => replicate 9 0))
      [ack 3; ack 0; ack 0; ack 0; ack 4; Reply 2 0 [2; 7] []; Reply (-1) 104 [] []; ack 5; ack 0; ack 0]
      = (o, t) /\
    safe_run any_reply no_ub (no_client kern0) kern0 (fun _ _ => True) (o, t).
Proof.
  eexists _, _. split; [apply surjective_pairing|]. rewrite <- surjective_pairing.
  apply kv_table_wellformed. intros i. reflexivity.
Defined.
