(* ===== verification/KvClient.v ===== *)
(** * sockets/code/kv_client.c

    The interactive client: a line of input becomes a request, the response
    becomes a line of output.  [kv_roundtrip] composes it with the server. *)

From S2P Require Import Prelude CLib Os Kernel Net KvStore.

Local Open Scope Z_scope.

Definition LINE_SIZE : Z := 512.
Definition VAL_SIZE : Z := 256.

(** [sscanf(line, "write %u %s", &key, val)]: the count of conversions, [key]
    after it, and the word stored in [val] if any. *)
Definition sscanf_write (line : list Z) (key : Z) : Z * Z * option (list Z) :=
  match strip_prefix (str "write") line ≫= scan_unsigned with
  | None => (0, key, None)
  | Some (k, rest) =>
      match scan_word rest with
      | None => (1, k, None)
      | Some w => (2, k, Some w)
      end
  end.

(** [sscanf(line, "<lit> %u", &key) == 1]. *)
Definition sscanf_key (lit : string) (line : list Z) : option Z :=
  fst <$> (strip_prefix (str lit) line ≫= scan_unsigned).

(** [sscanf(line, "fire")]: no directive converts anything, so the result is
    0 whether the line matches or not, and EOF only when the line ends before
    a mismatch. *)
Fixpoint ends_inside (lit line : list Z) : bool :=
  match lit, line with
  | [], _ => false
  | _ :: _, [] => true
  | c :: lit', x :: line' => if c =? x then ends_inside lit' line' else false
  end.
Definition sscanf_fire (line : list Z) : Z := if ends_inside (str "fire") line then -1 else 0.

(** The choice of the operation; 0 is "Invalid command.".  [None] when [%s]
    overruns [val]. *)
Definition choose (line : list Z) (key : Z) : option (Z * Z * list Z) :=
  let '(n, key, w) := sscanf_write line key in
  match w with
  | Some v => if Z.of_nat (length v) <? VAL_SIZE then Some (OP_WRITE, key, v) else None
  | None =>
      match sscanf_key "read" line with
      | Some k => Some (OP_READ, k, [])
      | None =>
          match sscanf_key "delete" line with
          | Some k => Some (OP_DELETE, k, [])
          | None => if sscanf_fire line =? 0 then Some (OP_FIRE, key, []) else Some (0, key, [])
          end
      end
  end.

Definition print_help : prog unit :=
  printf "Commands:" [] ;;;
  printf "  write <key> <value>" [] ;;;
  printf "  read <key>" [] ;;;
  printf "  delete <key>" [] ;;;
  printf "  quit" [].

(** The response: [junk] is what the stack holds at [&res]. *)
Definition read_response (sockfd op : Z) (junk : list Z) : prog bool :=
  let! r := sys (RecvAll sockfd RESPONSE_SIZE) in
  if rv r <=? 0 then printf "Server closed connection." [] ;;; Ret false else
  let! m := defined "res: overrun" (mem_store junk 0 (rdata r)) in
  let res := response_of m in
  (if status res =? STATUS_OK then
     if op =? OP_READ then
       let! r := sys (RecvAll sockfd (ntohl (rs_val_len res))) in
       let! v := defined "res_val: overrun" (mem_store (replicate VALUE_SIZE 0) 0 (rdata r)) in
       let! s := defined "res_val: unterminated" (cstr v) in
       printf "SUCCESS: Value = '%s'" [PS s]
     else printf "SUCCESS." []
   else if status res =? STATUS_NOT_FOUND then printf "ERROR: Key not found." []
   else printf "ERROR: Internal server error." []) ;;;
  Ret true.

(** One turn of the shell; the state is the turn and [key]. *)
Definition client_iter (sockfd : Z) (junk : nat -> list Z) (s : nat * Z)
    : prog (nat * Z + unit) :=
  let '(i, key) := s in
  printf "kv> " [] ;;;
  let! r := sys (Fgets LINE_SIZE) in
  if rv r =? 0 then Ret (inr tt) else
  let line := upto_nul (rdata r) in
  if strncmp line (str "quit") 4 =? 0 then Ret (inr tt) else
  let! '(op, key, val) := defined "val: overrun" (choose line key) in
  if op =? 0 then printf "Invalid command." [] ;;; Ret (inl (S i, key)) else
  let payload_len := Z.of_nat (length val) in
  let! r := send_pipe sockfd (request_bytes (Request op (htonl key) (htonl payload_len))) in
  if rv r <? 0 then perror "send() failed" ;;; Ret (inr tt) else
  if op =? OP_FIRE then Exit EXIT_SUCCESS else
  (if op =? OP_WRITE then send_pipe sockfd val ;;; Ret tt else Ret tt) ;;;
  let! ok := read_response sockfd op (junk i) in
  if ok : bool then Ret (inl (S i, key)) else Ret (inr tt).

(** [key0] is the indeterminate initial value of [key]. *)
Definition main (n : nat) (junk : nat -> list Z) (key0 : Z) (args : list (list Z)) : prog Z :=
  match args with
  | [ip; port] =>
      let! s := sys Socket in
      let sockfd := rv s in
      if sockfd <? 0 then perror "socket() failed" ;;; Exit EXIT_FAILURE else
      let! a := sys (Libc "inet_pton" ip) in
      if rv a <=? 0 then perror "inet_pton() failed" ;;; Exit EXIT_FAILURE else
      printf "Connecting to KV store at %s:%d... " [PS ip; PZ (atoi port)] ;;;
      let! c := sys (Connect sockfd (ntohs (htons (atoi port)))) in
      if rv c <? 0 then perror "connect() failed" ;;; sys (Close sockfd) ;;; Exit EXIT_FAILURE else
      printf "Connected!" [] ;;;
      print_help ;;;
      loop n (client_iter sockfd junk) (0%nat, key0) ;;;
      sys (Close sockfd) ;;;
      Ret EXIT_SUCCESS
  | _ => printf "Usage: %s <IP> <PORT>" [] ;;; Exit EXIT_FAILURE
  end.

(** ** Parsing what a user types *)
Definition plain (c : Z) : Prop := 33 <= c < 127.

Lemma plain_word v rest :
  v <> [] -> Forall plain v -> span_word (v ++ NL :: rest) = v.
Proof.
  intros _. induction 1 as [|c v Hc _ IH]; [done|]. simpl. unfold plain in Hc.
  unfold isspace. rewrite (proj2 (Z.eqb_neq c 32)) by lia.
  destruct (Z.leb_spec c 13); [lia|]. rewrite andb_false_r. simpl. by rewrite IH.
Qed.

Lemma scan_word_plain v rest :
  v <> [] -> Forall plain v -> scan_word (32 :: v ++ NL :: rest) = Some v.
Proof.
  intros Hv Hp. unfold scan_word.
  assert (skip_spaces (32 :: v ++ NL :: rest) = v ++ NL :: rest) as ->.
  { destruct Hp as [|c v Hc Hp]; [done|]. unfold plain in Hc. simpl.
    unfold isspace. rewrite (proj2 (Z.eqb_neq c 32)) by lia.
    destruct (Z.leb_spec c 13); [lia|]. by rewrite andb_false_r. }
  rewrite plain_word by done. by destruct v.
Qed.

Lemma skip_digits_app ds rest :
  Forall (fun c => isdigit c = true) ds -> starts_digit rest = false ->
  skip_digits (ds ++ rest) = rest.
Proof.
  intros Hd Hr. induction Hd as [|c ds Hc _ IH]; simpl.
  - destruct rest as [|x rest]; [done|]. simpl in *. by rewrite Hr.
  - by rewrite Hc.
Qed.

Lemma digits_value_stop acc ds rest :
  Forall (fun c => isdigit c = true) ds -> starts_digit rest = false ->
  digits_value acc (ds ++ rest) = digits_value acc ds.
Proof.
  intros Hd Hr. rewrite digits_value_app by done.
  destruct rest as [|x rest]; [done|]. simpl in *. by rewrite Hr.
Qed.

(** A key printed in decimal is read back, with what follows left over. *)
Lemma scan_unsigned_dec k rest :
  word k -> starts_digit rest = false ->
  scan_unsigned (32 :: dec k ++ rest) = Some (k, rest).
Proof.
  unfold word. intros Hk Hr.
  destruct (dec_nonneg_spec k) as (ds & -> & Hne & _ & Hd & Hv).
  { change (2 ^ 32) with 4294967296 in Hk. change (2 ^ 64) with 18446744073709551616. lia. }
  unfold scan_unsigned. cbn [skip_spaces]. change (isspace 32) with true. cbv iota.
  pose proof (skip_digits_app ds rest Hd Hr) as Hs.
  pose proof (digits_value_stop 0 ds rest Hd Hr) as Hdv.
  destruct Hd as [|c ds Hc Hd]; [done|].
  cbn [app skip_spaces]. rewrite (isdigit_not_space c Hc).
  pose proof (isdigit_range c Hc).
  rewrite (proj2 (Z.eqb_neq c 45)), (proj2 (Z.eqb_neq c 43)) by lia.
  cbn [starts_digit]. rewrite Hc. cbn [app] in Hs, Hdv. rewrite Hs, Hdv, Hv.
  change (2 ^ 32) with 4294967296 in Hk.
  destruct (Z.ltb_spec ULONG_MAX k); [unfold ULONG_MAX in *; lia|].
  by rewrite wrap_u_small by (change (2 ^ 32) with 4294967296; lia).
Qed.

Definition write_line (k : Z) (v : list Z) : list Z :=
  str "write" ++ 32 :: dec k ++ 32 :: v ++ [NL].
Definition read_line (k : Z) : list Z := str "read" ++ 32 :: dec k ++ [NL].

Lemma choose_write k v key :
  word k -> v <> [] -> Forall plain v -> Z.of_nat (length v) < VAL_SIZE ->
  choose (write_line k v) key = Some (OP_WRITE, k, v).
Proof.
  intros Hk Hv Hp Hl. unfold choose, sscanf_write, write_line.
  rewrite strip_prefix_app. cbn [mbind option_bind].
  rewrite scan_unsigned_dec, (scan_word_plain v []) by done.
  by rewrite (proj2 (Z.ltb_lt _ _)).
Qed.

Lemma choose_read k key : word k -> choose (read_line k) key = Some (OP_READ, k, []).
Proof.
  intros Hk. unfold choose, sscanf_write, sscanf_key, read_line.
  assert (strip_prefix (str "write") (str "read" ++ 32 :: dec k ++ [NL]) = None) as -> by done.
  rewrite strip_prefix_app. cbn [mbind option_bind]. by rewrite scan_unsigned_dec.
Qed.

Lemma ends_inside_line lit line :
  NL ∉ lit -> (NL ∈ line \/ (length lit < length line)%nat) -> ends_inside lit line = false.
Proof.
  revert line. induction lit as [|c lit IH]; intros line Hn Hl; [done|].
  destruct line as [|x line]; [destruct Hl; [set_solver|simpl in *; lia]|].
  simpl. destruct (Z.eqb_spec c x) as [->|]; [|done].
  apply IH; [set_solver|]. destruct Hl; [left; set_solver|right; simpl in *; lia].
Qed.

(** A line that is no command and does not end inside the word [fire] is sent
    as FIRE: "Invalid command." is printed for no complete line. *)
Lemma unknown_command_fires line key :
  (sscanf_write line key).2 = None -> sscanf_key "read" line = None ->
  sscanf_key "delete" line = None ->
  (NL ∈ line \/ (4 < length line)%nat) ->
  exists k, choose line key = Some (OP_FIRE, k, []).
Proof.
  intros Hw Hr Hd Hl. unfold choose. destruct (sscanf_write line key) as [[n k] w].
  simpl in Hw. subst w. rewrite Hr, Hd. exists k.
  unfold sscanf_fire. rewrite ends_inside_line; [done|vm_decide|exact Hl].
Qed.

(** ** Client and server together *)
Lemma plain_no_nul v : Forall plain v -> 0 ∉ v.
Proof. intros Hp H%(proj1 (Forall_forall _ _) Hp). unfold plain in H. lia. Qed.

Lemma word_dec_no_nul k : word k -> 0 ∉ dec k.
Proof.
  unfold word. change (2 ^ 32) with 4294967296. intros Hk. apply dec_no_nul.
  change (2 ^ 64) with 18446744073709551616. lia.
Qed.

Lemma line_no_nul k v : word k -> 0 ∉ v -> 0 ∉ write_line k v.
Proof.
  intros Hk Hv. pose proof (word_dec_no_nul k Hk) as Hd. unfold write_line.
  change (str "write") with [119; 114; 105; 116; 101]. unfold NL. set_solver +Hd Hv.
Qed.

Lemma read_line_no_nul k : word k -> 0 ∉ read_line k.
Proof.
  intros Hk. pose proof (word_dec_no_nul k Hk) as Hd. unfold read_line.
  change (str "read") with [114; 101; 97; 100]. unfold NL. set_solver +Hd.
Qed.

Definition ends_well {A} (x : A) (ot : outcome A * list event) (msgs : list (Z * list Z)) : Prop :=
  ot.1 = Done x [] /\ sends ot.2 = msgs.

Lemma length_full d : rv (full d) = Z.of_nat (length d).
Proof. done. Qed.

Lemma response_of_bytes s n : word n -> response_of (response_bytes (Response s n)) = Response s n.
Proof.
  intros Hn. unfold response_of, response_bytes. cbn [status rs_val_len nth drop].
  rewrite drop_0, take_ge, of_le_bytes; rewrite ?le_bytes_length, ?pow256_4; done || lia.
Qed.

Lemma response_length s : length (response_bytes s) = Z.to_nat RESPONSE_SIZE.
Proof. unfold response_bytes. cbn [length]. by rewrite le_bytes_length. Qed.

Lemma survives_length {A} (v : list A) : survives (rint (Z.of_nat (length v))) = true.
Proof. unfold survives. simpl. by rewrite (proj2 (Z.leb_le _ _)) by lia. Qed.

Section Turn.
Context (fd : Z) (junk : nat -> list Z) (i : nat) (key0 : Z).
Hypothesis junk_size : length (junk i) = Z.to_nat RESPONSE_SIZE.

(** The client stores the response and reads its fields. *)
Lemma read_response_run op s n env :
  word n ->
  run (read_response fd op (junk i)) (full (response_bytes (Response s n)) :: env) =
  let '(o, t) := run (
    (if s =? STATUS_OK then
     if op =? OP_READ then
       let! r := sys (RecvAll fd (ntohl n)) in
       let! v := defined "res_val: overrun" (mem_store (replicate VALUE_SIZE 0) 0 (rdata r)) in
       let! s := defined "res_val: unterminated" (cstr v) in
       printf "SUCCESS: Value = '%s'" [PS s]
     else printf "SUCCESS." []
     else if s =? STATUS_NOT_FOUND then printf "ERROR: Key not found." []
     else printf "ERROR: Internal server error." []) ;;; Ret true) env in
  (o, ECall (RecvAll fd RESPONSE_SIZE) (full (response_bytes (Response s n))) :: t).
Proof.
  intros Hn. unfold read_response. cbn [sys pbind run]. rewrite length_full, response_length.
  change (Z.of_nat (Z.to_nat RESPONSE_SIZE) <=? 0) with false. cbv iota. cbn [full rdata].
  rewrite mem_store_whole by (rewrite response_length; congruence). cbn [defined pbind].
  rewrite response_of_bytes by done. done.
Qed.

Definition typed (line : list Z) : reply := Reply 1 0 line [].

Lemma client_write k v status :
  word k -> v <> [] -> Forall plain v -> (length v < VALUE_SIZE)%nat ->
  ends_well (inl (S i, k))
    (run (client_iter fd junk (i, key0))
       [typed (write_line k v); rint 9; rint (Z.of_nat (length v)); full (response_bytes (Response status 0))])
    [(fd, header (Write k v)); (fd, v)].
Proof.
  intros Hk Hv Hp Hl. unfold client_iter, ends_well. cbn [printf pbind sys run typed rv rdata Z.eqb].
  rewrite (upto_nul_no_nul (write_line k v)) by (apply line_no_nul; [done|]; by apply plain_no_nul).
  change (strncmp (write_line k v) (str "quit") 4 =? 0) with false. cbv iota.
  rewrite choose_write by (done || unfold VAL_SIZE; unfold VALUE_SIZE in *; lia).
  cbn [defined pbind]. change (OP_WRITE =? 0) with false. cbv iota.
  rewrite send_pipe_run by done. cbn [rv rint Z.ltb Z.compare].
  change (OP_WRITE =? OP_FIRE) with false. change (OP_WRITE =? OP_WRITE) with true. cbv iota.
  rewrite run_bind, send_pipe_run by apply survives_length. cbn [run].
  rewrite run_bind, read_response_run by done.
  destruct (status =? STATUS_OK), (status =? STATUS_NOT_FOUND); cbn; done.
Qed.

Lemma client_read k v :
  word k -> 0 ∉ v -> (length v < VALUE_SIZE)%nat ->
  let ot := run (client_iter fd junk (i, key0))
       [typed (read_line k); rint 9;
        full (response_bytes (Response STATUS_OK (htonl (Z.of_nat (length v))))); full v] in
  ends_well (inl (S i, k)) ot [(fd, header (Read k))] /\
  last ot.2 = Some (ESay (Printf "SUCCESS: Value = '%s'" [PS v])).
Proof.
  intros Hk Hz Hl ot. subst ot. unfold client_iter, ends_well.
  cbn [printf pbind sys run typed rv rdata Z.eqb].
  rewrite (upto_nul_no_nul (read_line k)) by by apply read_line_no_nul.
  change (strncmp (read_line k) (str "quit") 4 =? 0) with false. cbv iota.
  rewrite choose_read by done.
  cbn [defined pbind length Z.of_nat]. change (OP_READ =? 0) with false. cbv iota.
  rewrite send_pipe_run by done. cbn [rv rint Z.ltb Z.compare].
  change (OP_READ =? OP_FIRE) with false. change (OP_READ =? OP_WRITE) with false. cbv iota.
  cbn [pbind]. rewrite run_bind, read_response_run by apply htonl_word.
  cbn [Z.eqb STATUS_OK OP_READ Pos.eqb]. rewrite ntohl_htonl by by apply nz_word.
  cbn [sys pbind run full rdata].
  rewrite mem_store_is_Some by (rewrite ?length_replicate; lia).
  change (Z.to_nat 0) with 0%nat. cbn [defined pbind].
  rewrite drop_replicate, take_0, app_nil_l, Nat.add_0_l.
  destruct (VALUE_SIZE - length v)%nat eqn:E; [lia|]. cbn [replicate].
  rewrite cstr_app by done. done.
Qed.
End Turn.

(** C15. Round trip through the client, the network format and the server: a
    user who types [write K V] and then [read K] is shown [V].  The server
    answers exactly the bytes the client sends, the client consumes exactly
    the bytes the server sends, both turns of both programs end, and the
    client's last line is "SUCCESS: Value = 'V'".  [V] is a word of printable
    characters of at most 255 bytes; the table must have room for the key. *)
Theorem kv_roundtrip cfd sfd cjunk sjunk ci si key0 db k v :
  (forall i, length (cjunk i) = Z.to_nat RESPONSE_SIZE) ->
  (forall i, length (sjunk i) = Z.to_nat REQUEST_SIZE) ->
  db_ok db -> fits (abs db) k = true -> word k ->
  v <> [] -> Forall plain v -> (length v < VALUE_SIZE)%nat ->
  exists resp1 resp2 db1 db2 ts1 ts2 tc1 tc2,
    run (serve_iter sfd sjunk (si, db)) [full (header (Write k v)); full v; rint 5]
      = (Done (inl (S si, db1)) [], ts1) /\
    sends ts1 = [(sfd, resp1)] /\
    run (client_iter cfd cjunk (ci, key0))
      [typed (write_line k v); rint 9; rint (Z.of_nat (length v)); full resp1]
      = (Done (inl (S ci, k)) [], tc1) /\
    sends tc1 = [(cfd, header (Write k v)); (cfd, v)] /\
    run (serve_iter sfd sjunk (S si, db1)) [full (header (Read k)); rint 5; rint (Z.of_nat (length v))]
      = (Done (inl (S (S si), db2)) [], ts2) /\
    sends ts2 = [(sfd, resp2); (sfd, v)] /\
    run (client_iter cfd cjunk (S ci, k)) [typed (read_line k); rint 9; full resp2; full v]
      = (Done (inl (S (S ci), k)) [], tc2) /\
    sends tc2 = [(cfd, header (Read k))] /\
    last tc2 = Some (ESay (Printf "SUCCESS: Value = '%s'" [PS v])).
Proof.
  intros Hcj Hsj Hdb Hf Hk Hv Hp Hl.
  pose proof (plain_no_nul v Hp) as Hz.
  assert (Forall byte v) as Hb.
  { eapply Forall_impl; [done|]. unfold plain, byte. intros. lia. }
  destruct (serve_iter_run sfd sjunk si (Write k v) db [rint 5] [] Hdb) as (db1 & ts1 & H1 & Hok1 & Ha1 & Hs1);
    [split; [done|split; [by apply nz_word|done]]|
     done|done|by repeat constructor|].
  cbn [apply answers payload fmap list_fmap] in Ha1, Hs1, H1. rewrite Hf in *.
  rewrite clip_short in H1, Ha1 by done. rewrite upto_nul_no_nul in Ha1 by done.
  destruct (serve_iter_run sfd sjunk (S si) (Read k) db1 [rint 5; rint (Z.of_nat (length v))] [] Hok1)
    as (db2 & ts2 & H2 & _ & _ & Hs2);
    [done|done|by cbn; rewrite Ha1, lookup_insert_eq| |].
  { repeat constructor. apply survives_length. }
  cbn [answers] in Hs2. rewrite Ha1, lookup_insert_eq in Hs2.
  pose proof (client_write cfd cjunk ci key0 (Hcj ci) k v STATUS_OK Hk Hv Hp Hl) as [C1 C2].
  pose proof (client_read cfd cjunk (S ci) k (Hcj (S ci)) k v Hk Hz Hl) as [[C3 C4] C5].
  eexists _, _, db1, db2, ts1, ts2, _, _.
  split_and!; [exact H1|exact Hs1| |exact C2|exact H2|exact Hs2| |exact C4|exact C5];
    apply injective_projections; [exact C1| |exact C3|]; reflexivity.
Qed.

Lemma kv_roundtrip_witness :
  exists resp1 resp2 db1 db2 ts1 ts2 tc1 tc2,
    let k := 42 in let v := str "sop" in
    run (serve_iter 4 (fun _ => replicate 9 0) (0%nat, zero_db)) [full (header (Write k v)); full v; rint 5]
      = (Done (inl (1%nat, db1)) [], ts1) /\
    sends ts1 = [(4, resp1)] /\
    run (client_iter 3 (fun _ => replicate 5 0) (0%nat, 0))
      [typed (write_line k v); rint 9; rint 3; full resp1] = (Done (inl (1%nat, k)) [], tc1) /\
    sends tc1 = [(3, header (Write k v)); (3, v)] /\
    run (serve_iter 4 (fun _ => replicate 9 0) (1%nat, db1)) [full (header (Read k)); rint 5; rint 3]
      = (Done (inl (2%nat, db2)) [], ts2) /\
    sends ts2 = [(4, resp2); (4, v)] /\
    run (client_iter 3 (fun _ => replicate 5 0) (1%nat, k)) [typed (read_line k); rint 9; full resp2; full v]
      = (Done (inl (2%nat, k)) [], tc2) /\
    sends tc2 = [(3, header (Read k))] /\
    last tc2 = Some (ESay (Printf "SUCCESS: Value = '%s'" [PS v])).
Proof.
  apply (kv_roundtrip 3 4 (fun _ => replicate 5 0) (fun _ => replicate 9 0) 0%nat 0%nat 0 zero_db 42 (str "sop")).
  - intros i. reflexivity.
  - intros i. reflexivity.
  - apply zero_db_ok.
  - vm_compute. reflexivity.
  - split; vm_compute; [discriminate|reflexivity].
  - discriminate.
  - repeat constructor; vm_compute; discriminate.
  - vm_compute. lia.
Defined.

(** ** What the client does not check *)

(** "help" is no command of the client: it makes the server busy for six
    seconds and ends the client. *)
Example help_fires :
  (run (client_iter 3 (fun _ => replicate 5 0) (0%nat, 0)) [typed (str "help" ++ [NL]); rint 9]).1
    = Exited EXIT_SUCCESS.
Proof. vm_compute. reflexivity. Qed.

(** A word of 256 characters overruns [val]. *)
Example long_word_overruns :
  choose (write_line 1 (replicate 256 65)) 0 = None.
Proof. vm_compute. reflexivity. Qed.

(** A response that announces more than 256 bytes overruns [res_val]. *)
Example long_response_overruns :
  (run (client_iter 3 (fun _ => replicate 5 0) (0%nat, 0))
    [typed (read_line 1); rint 9; full (response_bytes (Response STATUS_OK (htonl 300)));
     full (replicate 300 65)]).1 = Undefined "res_val: overrun".
Proof. vm_compute. reflexivity. Qed.
