(* ===== verification/Threads.v ===== *)
(** * Threads that share memory

    A thread is a small-step function: from its identifier, its local state
    (where it is in the code, its registers) and the shared memory it gives
    the possible next local states and memories.  Each step is one atomic
    action of the code: one load, one store, one atomic instruction or one
    system call.  An empty list means the thread is blocked or has ended.
    A system is a list of local states and a memory; one move is one step of
    one thread, so runs are all the interleavings. *)

From S2P Require Import Prelude Os.
From stdpp Require Export relations.

Local Open Scope Z_scope.

(** ** Interleaving *)
Section Interleaving.
Context {L M : Type} (step : nat -> L -> M -> list (L * M)).

Inductive move : list L * M -> list L * M -> Prop :=
| move_thread i l l' ls s s' :
    ls !! i = Some l -> (l', s') ∈ step i l s -> move (ls, s) (<[i := l']> ls, s').

Definition reachable : list L * M -> list L * M -> Prop := rtc move.

Definition can_move (c : list L * M) : Prop :=
  exists i l, c.1 !! i = Some l /\ step i l c.2 <> [].

Lemma can_move_move c : can_move c -> exists c', move c c'.
Proof.
  destruct c as [ls s]. intros (i & l & Hl & Hne). simpl in *.
  destruct (step i l s) as [|[l' s'] k] eqn:E; [done|].
  exists (<[i := l']> ls, s'). econstructor; [done|]. rewrite E. left.
Qed.

Lemma moves_or_stuck c :
  can_move c \/ forall i l, c.1 !! i = Some l -> step i l c.2 = [].
Proof.
  destruct c as [ls s]. unfold can_move. simpl.
  destruct (existsb (fun i => match ls !! i with
    | Some l => match step i l s with [] => false | _ => true end | None => false end)
    (seq 0 (length ls))) eqn:E.
  - left. apply existsb_exists in E as (i & _ & Hi).
    destruct (ls !! i) as [l|] eqn:El; [|done]. exists i, l. split; [done|].
    by destruct (step i l s).
  - right. intros i l Hl. destruct (step i l s) eqn:Es; [done|]. exfalso.
    apply Bool.not_true_iff_false in E. apply E, existsb_exists. exists i. split.
    + apply in_seq. apply lookup_lt_Some in Hl. lia.
    + by rewrite Hl, Es.
Qed.

Lemma reachable_invariant (I : list L * M -> Prop) c0 c :
  I c0 -> (forall c c', I c -> move c c' -> I c') -> reachable c0 c -> I c.
Proof. intros H0 Hs. induction 1; eauto. Qed.

(** A schedule names the thread of each step and the outcome it takes. *)
Fixpoint schedule (sch : list (nat * nat)) (c : list L * M) : option (list L * M) :=
  match sch with
  | [] => Some c
  | (i, k) :: sch' =>
      l ← c.1 !! i;
      '(l', s') ← step i l c.2 !! k;
      schedule sch' (<[i := l']> c.1, s')
  end.

Lemma schedule_reachable sch c c' : schedule sch c = Some c' -> reachable c c'.
Proof.
  revert c. induction sch as [|[i k] sch IH]; intros [ls s]; simpl.
  - intros [= <-]. apply rtc_refl.
  - destruct (ls !! i) as [l|] eqn:El; [|done]. simpl.
    destruct (step i l s !! k) as [[l' s']|] eqn:Ek; [|done]. simpl. intros H.
    eapply rtc_l; [|by apply IH]. econstructor; [done|]. by eapply list_elem_of_lookup_2.
Qed.
End Interleaving.

(** ** Counting the threads in a given part of the code *)
Section Count.
Context {A : Type}.
Implicit Types (P : A -> bool) (l : list A).

Fixpoint count P l : Z :=
  match l with
  | [] => 0
  | x :: l' => Z.b2z (P x) + count P l'
  end.

Lemma count_nonneg P l : 0 <= count P l.
Proof. induction l as [|x l IH]; simpl; [lia|]. destruct (P x); simpl; lia. Qed.

Lemma count_length P l : count P l <= Z.of_nat (length l).
Proof. induction l as [|x l IH]; cbn [count length]; [lia|]. destruct (P x); simpl Z.b2z; lia. Qed.

Lemma count_insert P l i x y :
  l !! i = Some x -> count P (<[i := y]> l) = count P l - Z.b2z (P x) + Z.b2z (P y).
Proof.
  revert i. induction l as [|z l IH]; intros [|i] H; simplify_eq/=; [lia|].
  rewrite (IH i H). lia.
Qed.

Lemma count_pos P l i x : l !! i = Some x -> P x = true -> 1 <= count P l.
Proof.
  revert i. induction l as [|z l IH]; intros [|i] H Hx; simplify_eq/=.
  - rewrite Hx. pose proof (count_nonneg P l). simpl. lia.
  - specialize (IH i H Hx). destruct (P z); simpl; lia.
Qed.

Lemma count_two P l i j x y :
  l !! i = Some x -> l !! j = Some y -> P x = true -> P y = true -> count P l <= 1 -> i = j.
Proof.
  revert i j. induction l as [|z l IH]; intros [|i] [|j] Hi Hj Hx Hy Hc; simplify_eq/=; try done.
  - rewrite Hx in Hc. pose proof (count_pos P l j y Hj Hy). simpl in *. lia.
  - rewrite Hy in Hc. pose proof (count_pos P l i x Hi Hx). simpl in *. lia.
  - f_equal. apply (IH i j); auto. destruct (P z); simpl in *; lia.
Qed.

Lemma count_missing P l i x : l !! i = Some x -> P x = false -> count P l < Z.of_nat (length l).
Proof.
  revert i. induction l as [|z l IH]; intros [|i] H Hx; simplify_eq/=.
  - rewrite Hx. pose proof (count_length P l). simpl. lia.
  - specialize (IH i H Hx). destruct (P z); simpl; lia.
Qed.

Lemma count_exists P l : 1 <= count P l -> exists i x, l !! i = Some x /\ P x = true.
Proof.
  induction l as [|z l IH]; simpl; [lia|]. destruct (P z) eqn:E; simpl; intros H.
  - by exists 0%nat, z.
  - destruct IH as (i & x & ? & ?); [lia|]. by exists (S i), x.
Qed.

Lemma count_replicate P n x : P x = false -> count P (replicate n x) = 0.
Proof. intros H. induction n; simpl; [done|]. by rewrite H. Qed.
Lemma count_none P l : (forall i x, l !! i = Some x -> P x = false) -> count P l = 0.
Proof.
  induction l as [|x l IH]; intros H; [done|]. cbn [count]. rewrite (H 0%nat x eq_refl), IH; [done|].
  intros i y Hi. by apply (H (S i)).
Qed.

Lemma count_ext_at P Q l : (forall i x, l !! i = Some x -> P x = Q x) -> count P l = count Q l.
Proof.
  induction l as [|x l IH]; intros H; [done|]. cbn [count]. rewrite (H 0%nat x eq_refl), IH; [done|].
  intros i y Hi. by apply (H (S i)).
Qed.

Lemma count_either P Q R l :
  (forall x, Z.b2z (P x) + Z.b2z (Q x) = Z.b2z (R x)) -> count P l + count Q l = count R l.
Proof. intros H. induction l as [|x l IH]; [done|]. cbn [count]. specialize (H x). lia. Qed.
End Count.

Lemma count_mono {A B} (P : A -> bool) (Q : B -> bool) l m :
  (length l <= length m)%nat -> (forall i x y, l !! i = Some x -> m !! i = Some y -> P x = true -> Q y = true) ->
  count P l <= count Q m.
Proof.
  revert m. induction l as [|x l IH]; intros m Hl H; [apply count_nonneg|].
  destruct m as [|y m]; [simpl in Hl; lia|]. simpl in Hl. cbn [count].
  pose proof (IH m ltac:(lia) (fun i => H (S i))). pose proof (H 0%nat x y eq_refl eq_refl).
  destruct (P x); [rewrite H1 by done; simpl; lia|]. destruct (Q y); simpl; lia.
Qed.

(** ** Totals over the threads *)
Section Total.
Context {A : Type}.
Implicit Types (f : A -> Z) (l : list A).

Fixpoint total f l : Z := match l with [] => 0 | x :: l' => f x + total f l' end.

Lemma sum_over_insert f l i x y :
  l !! i = Some x -> total f (<[i := y]> l) = total f l - f x + f y.
Proof.
  revert i. induction l as [|z l IH]; intros [|i] H; simplify_eq/=; [lia|]. rewrite (IH i H). lia.
Qed.

Lemma total_nonneg f l : (forall x, 0 <= f x) -> 0 <= total f l.
Proof. intros Hf. induction l as [|x l IH]; simpl; [lia|]. specialize (Hf x). lia. Qed.

Lemma total_ge f l i x : (forall x, 0 <= f x) -> l !! i = Some x -> f x <= total f l.
Proof.
  intros Hf. revert i. induction l as [|z l IH]; intros [|i] H; simplify_eq/=.
  - pose proof (total_nonneg f l Hf). lia.
  - specialize (IH i H). specialize (Hf z). lia.
Qed.

Lemma total_two f l i j x y :
  (forall x, 0 <= f x) -> l !! i = Some x -> l !! j = Some y -> i <> j -> f x + f y <= total f l.
Proof.
  intros Hf. revert i j. induction l as [|z l IH]; intros [|i] [|j] Hi Hj Hne; simplify_eq/=.
  - pose proof (total_ge f l j y Hf Hj). lia.
  - pose proof (total_ge f l i x Hf Hi). lia.
  - assert (i <> j) as Hij by congruence. specialize (IH i j Hi Hj Hij). specialize (Hf z). lia.
Qed.

Lemma total_zero f l : (forall i x, l !! i = Some x -> f x = 0) -> total f l = 0.
Proof.
  induction l as [|z l IH]; intros H; [done|]. simpl. rewrite (H 0%nat z eq_refl), IH; [done|].
  intros i x Hx. exact (H (S i) x Hx).
Qed.
End Total.

(** Lookups in an updated list: the updated place or an old one. *)
Ltac insert_cases H :=
  apply list_lookup_insert_Some in H as [(? & ? & ?)|[? H]]; simplify_eq.

(** ** Shared arrays and mutexes

    One element of a shared array, and a mutex as a flag that is [true] while
    it is held; [None] blocks. *)
Lemma mem_store_one {A} (m : list A) (i : Z) (v w : A) :
  m !! Z.to_nat i = Some v -> 0 <= i -> mem_store m i [w] = Some (<[Z.to_nat i := w]> m).
Proof.
  intros Hv Hi. pose proof (lookup_lt_Some _ _ _ Hv). rewrite mem_store_is_Some by (simpl; lia).
  rewrite insert_take_drop by lia. simpl. by rewrite Nat.add_1_r.
Qed.

Lemma mem_load_in {A} (m : list A) i :
  0 <= i < Z.of_nat (length m) -> exists v, mem_load m i = Some v /\ m !! Z.to_nat i = Some v.
Proof.
  intros Hi. destruct (lookup_lt_is_Some_2 m (Z.to_nat i)) as [v Hv]; [lia|]. exists v.
  unfold mem_load. by rewrite (proj2 (Z.leb_le 0 i)) by lia.
Qed.

Lemma mem_load_Some {A} (m : list A) (i : Z) (v : A) : mem_load m i = Some v -> 0 <= i /\ m !! Z.to_nat i = Some v.
Proof. unfold mem_load. by destruct (Z.leb_spec 0 i). Qed.

Definition lock (held : bool) : option bool := if held then None else Some true.

Lemma lock_Some h h' : lock h = Some h' -> h = false /\ h' = true.
Proof. by destruct h; intros [= <-]. Qed.

(** ** Locks

    What a lock is to its users: a memory, and a program counter inside
    [lock()] and [unlock()] with the atomic steps from it; [None] is the
    return of the function. *)
Class Lock := {
  lk_mem : Type;
  lk_pc : Type;
  lk_init : lk_mem;
  lock_pc : nat -> lk_pc;        (* entry of lock() in thread i *)
  unlock_pc : nat -> lk_pc;
  lk_step : nat -> lk_pc -> lk_mem -> list (option lk_pc * lk_mem);
}.

(** Where a thread is with respect to the lock. *)
Inductive mode (P : Type) := Out | Locking (p : P) | In | Unlocking (p : P).
Arguments Out {P}.
Arguments Locking {P} p.
Arguments In {P}.
Arguments Unlocking {P} p.

Definition mode_pc {P} (m : mode P) : option P :=
  match m with Locking p | Unlocking p => Some p | _ => None end.
Definition mode_next {P} (m : mode P) (o : option P) : mode P :=
  match m, o with
  | Locking _, Some p => Locking p
  | Locking _, None => In
  | Unlocking _, Some p => Unlocking p
  | Unlocking _, None => Out
  | _, _ => m
  end.
Definition is_in {P} (m : mode P) : bool := match m with In => true | _ => false end.

Lemma is_in_true {P} (m : mode P) : is_in m = true -> m = In.
Proof. by destruct m. Qed.

(** What a lock promises to [n] threads that call [lock] and [unlock] in
    turn: at most one is between the two calls, and the threads are never all
    blocked inside the lock. *)
Class LockOk (K : Lock) (n : nat) := {
  lk_inv : list (mode lk_pc) -> lk_mem -> Prop;
  lk_inv_init : lk_inv (replicate n Out) lk_init;
  lk_inv_lock ms s i :
    lk_inv ms s -> ms !! i = Some Out -> lk_inv (<[i := Locking (lock_pc i)]> ms) s;
  lk_inv_unlock ms s i :
    lk_inv ms s -> ms !! i = Some In -> lk_inv (<[i := Unlocking (unlock_pc i)]> ms) s;
  lk_inv_step ms s i m p o s' :
    lk_inv ms s -> ms !! i = Some m -> mode_pc m = Some p -> (o, s') ∈ lk_step i p s ->
    lk_inv (<[i := mode_next m o]> ms) s';
  lk_exclusive ms s i j :
    lk_inv ms s -> ms !! i = Some In -> ms !! j = Some In -> i = j;
  lk_progress ms s i m p :
    lk_inv ms s -> ms !! i = Some m -> mode_pc m = Some p ->
    exists j m', ms !! j = Some m' /\
      match mode_pc m' with Some q => lk_step j q s <> [] | None => m' = In end;
}.

(** ** Programs that use a lock *)

(** What a thread does outside and inside the critical section. *)
Inductive out_action (C : Type) := OLocal (c : C) | OLock (c : C) | OStop.
Inductive in_action (C D : Type) := ICont (c : C) (d : D) | IUnlock (c : C) | IUndef.
Arguments OLocal {C} c.
Arguments OLock {C} c.
Arguments OStop {C}.
Arguments ICont {C D} c d.
Arguments IUnlock {C D} c.
Arguments IUndef {C D}.

Class Client := {
  cl_local : Type;
  cl_data : Type;
  cl_out : nat -> cl_local -> out_action cl_local;
  cl_in : nat -> cl_local -> cl_data -> in_action cl_local cl_data;
}.

Section System.
Context (K : Lock) (P : Client).

Notation local := (mode lk_pc * cl_local)%type.
Notation memory := (lk_mem * cl_data)%type.

Implicit Types (ls : list local) (i j : nat).

Definition thread_step (i : nat) (l : local) (s : memory) : list (local * memory) :=
  let '(m, c) := l in
  let '(k, d) := s in
  match m with
  | Out =>
      match cl_out i c with
      | OLocal c' => [((Out, c'), s)]
      | OLock c' => [((Locking (lock_pc i), c'), s)]
      | OStop => []
      end
  | In =>
      match cl_in i c d with
      | ICont c' d' => [((In, c'), (k, d'))]
      | IUnlock c' => [((Unlocking (unlock_pc i), c'), s)]
      | IUndef => []
      end
  | Locking p | Unlocking p => (fun '(o, k') => ((mode_next m o, c), (k', d))) <$> lk_step i p k
  end.

Definition start (cs : list cl_local) (d : cl_data) : list local * memory :=
  (pair Out <$> cs, (lk_init, d)).

Definition modes (ls : list local) : list (mode lk_pc) := ls.*1.
Definition locals (ls : list local) : list cl_local := ls.*2.

(** A thread stands before an operation whose behaviour is undefined. *)
Definition undefined (c : list local * memory) : Prop :=
  exists i l, c.1 !! i = Some (In, l) /\ cl_in i l c.2.2 = IUndef.

(** Every thread has returned. *)
Definition finished (c : list local * memory) : Prop :=
  forall i l, c.1 !! i = Some l -> l.1 = Out /\ cl_out i l.2 = OStop.

(** *** The critical-section rule

    [R] holds of the data whenever nobody is inside, [CS i] while thread [i]
    is; both may mention every thread's local state. *)
Section Rule.
Context (R : list cl_local -> cl_data -> Prop).
Context (CS : nat -> list cl_local -> cl_data -> Prop).
Context (ready : cl_local -> Prop).

Class Rule := {
  rule_local i cs d c c' :
    R cs d -> cs !! i = Some c -> cl_out i c = OLocal c' -> R (<[i := c']> cs) d;
  rule_lock i cs d c c' :
    R cs d -> cs !! i = Some c -> cl_out i c = OLock c' -> R (<[i := c']> cs) d /\ ready c';
  rule_other_local i j cs d c c' :
    CS i cs d -> i <> j -> cs !! j = Some c -> cl_out j c = OLocal c' -> CS i (<[j := c']> cs) d;
  rule_other_lock i j cs d c c' :
    CS i cs d -> i <> j -> cs !! j = Some c -> cl_out j c = OLock c' ->
    CS i (<[j := c']> cs) d /\ ready c';
  rule_enter i cs d c :
    R cs d -> cs !! i = Some c -> ready c -> CS i cs d;
  rule_in i cs d c c' d' :
    CS i cs d -> cs !! i = Some c -> cl_in i c d = ICont c' d' -> CS i (<[i := c']> cs) d';
  rule_unlock i cs d c c' :
    CS i cs d -> cs !! i = Some c -> cl_in i c d = IUnlock c' -> R (<[i := c']> cs) d;
  rule_defined i cs d c :
    CS i cs d -> cs !! i = Some c -> cl_in i c d <> IUndef;
}.

Context {Hr : Rule} {n : nat} {Hk : LockOk K n}.

Definition system_inv (c : list local * memory) : Prop :=
  let '(ls, (k, d)) := c in
  lk_inv (modes ls) k /\
  (forall i p c, ls !! i = Some (Locking p, c) -> ready c) /\
  (((forall i, modes ls !! i <> Some In) /\ R (locals ls) d) \/
   exists i, modes ls !! i = Some In /\ CS i (locals ls) d).

Lemma modes_insert ls i m c : modes (<[i := (m, c)]> ls) = <[i := m]> (modes ls).
Proof. apply list_fmap_insert. Qed.
Lemma locals_insert ls i m c : locals (<[i := (m, c)]> ls) = <[i := c]> (locals ls).
Proof. apply list_fmap_insert. Qed.
Lemma modes_lookup ls i m c : ls !! i = Some (m, c) -> modes ls !! i = Some m.
Proof. intros H. unfold modes. by rewrite list_lookup_fmap, H. Qed.
Lemma locals_lookup ls i m c : ls !! i = Some (m, c) -> locals ls !! i = Some c.
Proof. intros H. unfold locals. by rewrite list_lookup_fmap, H. Qed.

Lemma ready_insert ls i m c :
  (forall j p c, ls !! j = Some (Locking p, c) -> ready c) ->
  (forall p, m = Locking p -> ready c) ->
  forall j p c', <[i := (m, c)]> ls !! j = Some (Locking p, c') -> ready c'.
Proof. intros H Hm j p c' Hj. insert_cases Hj; eauto. Qed.

Lemma no_in_insert (ms : list (mode lk_pc)) i m :
  (forall j, ms !! j <> Some In) -> m <> In -> forall j, <[i := m]> ms !! j <> Some In.
Proof. intros H Hm j Hj. insert_cases Hj. by eapply H. Qed.

(** Steps inside the lock do not touch the data. *)
Lemma inv_lock_step ls k d i m c p o k' :
  system_inv (ls, (k, d)) -> ls !! i = Some (m, c) -> mode_pc m = Some p ->
  (o, k') ∈ lk_step i p k -> system_inv (<[i := (mode_next m o, c)]> ls, (k', d)).
Proof.
  intros (Hi & Hrd & Hd) Hl Hp Ho.
  pose proof (modes_lookup _ _ _ _ Hl) as Hm. pose proof (locals_lookup _ _ _ _ Hl) as Hc.
  assert (<[i := c]> (locals ls) = locals ls) as Hid by by apply list_insert_id.
  assert (ready c \/ forall q, mode_next m o <> Locking q) as Hready.
  { destruct m; try done; [left; eauto|right; by destruct o]. }
  unfold system_inv. rewrite modes_insert, locals_insert, Hid.
  split; [by eapply lk_inv_step|]. split.
  { apply ready_insert; [done|]. intros q Hq. destruct Hready; [done|naive_solver]. }
  destruct Hd as [[Hno HR]|(j & Hj & HC)].
  - destruct (is_in (mode_next m o)) eqn:E; [apply is_in_true in E|].
    + right. exists i. rewrite E, list_lookup_insert_eq by by eapply lookup_lt_Some.
      split; [done|]. destruct m; try done; [|by destruct o]. eapply rule_enter; eauto.
    + left. split; [apply no_in_insert; [done|by intros H; rewrite H in E]|done].
  - right. exists j. split; [|done]. destruct (decide (i = j)) as [->|Hne].
    + rewrite Hm in Hj. by simplify_eq.
    + by rewrite list_lookup_insert_ne.
Qed.

Lemma inv_out_step ls k d i c m' c' :
  system_inv (ls, (k, d)) -> ls !! i = Some (Out, c) ->
  (m' = Out /\ cl_out i c = OLocal c') \/ (m' = Locking (lock_pc i) /\ cl_out i c = OLock c') ->
  system_inv (<[i := (m', c')]> ls, (k, d)).
Proof.
  intros (Hi & Hrd & Hd) Hl Ha.
  pose proof (modes_lookup _ _ _ _ Hl) as Hm. pose proof (locals_lookup _ _ _ _ Hl) as Hc.
  unfold system_inv. rewrite modes_insert, locals_insert.
  assert (m' <> In) as Hne by (destruct Ha as [[-> _]|[-> _]]; done).
  split.
  { destruct Ha as [[-> _]|[-> _]]; [by rewrite list_insert_id|by apply lk_inv_lock]. }
  destruct Hd as [[Hno HR]|(j & Hj & HC)].
  - destruct Ha as [[-> Ho]|[-> Ho]].
    + split; [by apply ready_insert|]. left. split; [by apply no_in_insert|]. by eapply rule_local.
    + destruct (rule_lock _ _ _ _ _ HR Hc Ho) as [HR' Hrd'].
      split; [by apply ready_insert|]. left. split; [by apply no_in_insert|done].
  - assert (j <> i) as Hji by (intros ->; rewrite Hm in Hj; done).
    assert (<[i := m']> (modes ls) !! j = Some In) as Hj' by by rewrite list_lookup_insert_ne.
    destruct Ha as [[-> Ho]|[-> Ho]].
    + split; [by apply ready_insert|]. right. exists j. split; [done|]. by eapply rule_other_local.
    + destruct (rule_other_lock _ _ _ _ _ _ HC Hji Hc Ho) as [HC' Hrd'].
      split; [by apply ready_insert|]. right. eauto.
Qed.

(** The thread inside is the one [CS] speaks of. *)
Lemma inv_inside ls k d i c :
  system_inv (ls, (k, d)) -> ls !! i = Some (In, c) -> CS i (locals ls) d.
Proof.
  intros (Hi & _ & [[Hno _]|(j & Hj & HC)]) Hl.
  - exfalso. eapply Hno. by eapply modes_lookup.
  - by rewrite (lk_exclusive _ _ i j Hi (modes_lookup _ _ _ _ Hl) Hj).
Qed.

Lemma system_inv_move c c' : system_inv c -> move thread_step c c' -> system_inv c'.
Proof.
  intros HI Hm. destruct Hm as [i [m c0] l' ls [k d] s' Hl Hs]. simpl in Hs.
  destruct m as [|p| |p].
  - destruct (cl_out i c0) eqn:Eo; rewrite ?list_elem_of_singleton in Hs; [| |set_solver];
      injection Hs as -> ->; eapply inv_out_step; eauto.
  - apply list_elem_of_fmap in Hs as ([o k'] & [= -> ->] & Ho). eapply (inv_lock_step _ _ _ _ (Locking p)); eauto.
  - pose proof (inv_inside _ _ _ _ _ HI Hl) as HC.
    pose proof (modes_lookup _ _ _ _ Hl) as Hmi. pose proof (locals_lookup _ _ _ _ Hl) as Hc.
    destruct HI as (Hi & Hrd & _).
    destruct (cl_in i c0 d) eqn:Ei; rewrite ?list_elem_of_singleton in Hs; [| |set_solver];
      injection Hs as -> ->; unfold system_inv; rewrite modes_insert, locals_insert.
    + rewrite list_insert_id by done. split; [done|]. split; [by apply ready_insert|].
      right. exists i. split; [done|]. by eapply rule_in.
    + split; [by apply lk_inv_unlock|]. split; [by apply ready_insert|]. left. split.
      * intros j Hj. insert_cases Hj. by pose proof (lk_exclusive _ _ i j Hi Hmi Hj).
      * by eapply rule_unlock.
  - apply list_elem_of_fmap in Hs as ([o k'] & [= -> ->] & Ho). eapply (inv_lock_step _ _ _ _ (Unlocking p)); eauto.
Qed.

Theorem system_invariant cs d c :
  length cs = n -> R cs d -> reachable thread_step (start cs d) c -> system_inv c.
Proof.
  intros Hn HR. apply reachable_invariant; [|apply system_inv_move].
  unfold start, system_inv, modes, locals. rewrite <- !list_fmap_compose.
  replace (fst ∘ pair Out <$> cs) with (replicate n (@Out lk_pc)).
  2:{ rewrite <- Hn. clear. induction cs; simpl; [done|by f_equal]. }
  replace (snd ∘ pair (@Out lk_pc) <$> cs) with cs
    by (clear; induction cs; simpl; [done|by f_equal]).
  split; [apply lk_inv_init|]. split.
  - intros i p c0 H. rewrite list_lookup_fmap in H. by destruct (cs !! i).
  - left. split; [|done]. intros i. rewrite lookup_replicate. naive_solver.
Qed.

Corollary never_undefined cs d c :
  length cs = n -> R cs d -> reachable thread_step (start cs d) c -> ~ undefined c.
Proof.
  intros Hn HR Hc (i & l & Hl & Hu).
  pose proof (system_invariant cs d c Hn HR Hc) as HI. destruct c as [ls [k d']]. simpl in *.
  eapply rule_defined; [by eapply inv_inside|by eapply locals_lookup|done].
Qed.

(** The system never deadlocks: unless every thread has returned, one can
    move. *)
Corollary deadlock_free cs d c :
  length cs = n -> R cs d -> reachable thread_step (start cs d) c ->
  finished c \/ can_move thread_step c.
Proof.
  intros Hn HR Hc.
  pose proof (system_invariant cs d c Hn HR Hc) as HI.
  pose proof (never_undefined cs d c Hn HR Hc) as Hu.
  destruct (moves_or_stuck thread_step c) as [|Hstuck]; [by right|left].
  destruct c as [ls [k d']]. destruct HI as (Hk' & _). unfold undefined in Hu. simpl in *.
  assert (forall i c0, ls !! i <> Some (In, c0)) as Hin.
  { intros i c0 Hl. specialize (Hstuck i _ Hl). simpl in Hstuck.
    destruct (cl_in i c0 d') eqn:E; try done. apply Hu. eauto. }
  assert (forall i m c0, ls !! i = Some (m, c0) -> mode_pc m = None) as Hout.
  { intros i m c0 Hl. destruct (mode_pc m) as [p|] eqn:Ep; [|done]. exfalso.
    destruct (lk_progress _ _ _ _ _ Hk' (modes_lookup _ _ _ _ Hl) Ep) as (j & m' & Hj & Hq).
    apply list_lookup_fmap_Some in Hj as ([m2 c2] & E & Hl2). simpl in E. subst m'.
    specialize (Hstuck j _ Hl2).
    destruct m2 as [|q| |q]; simpl in *; try done; [|by eapply Hin|];
      by apply fmap_nil_inv in Hstuck. }
  intros i [m c0] Hl. simpl. pose proof (Hout _ _ _ Hl).
  destruct m; try done; [|by apply Hin in Hl].
  split; [done|]. specialize (Hstuck i _ Hl). simpl in Hstuck. by destruct (cl_out i c0).
Qed.
End Rule.
End System.

(** ** Creating and joining threads *)

(** [pthread_create] for each argument; the first failure is reported and ends
    the program. *)
Fixpoint create_threads (entry : string) (args : list Z) : prog bool :=
  match args with
  | [] => Ret true
  | a :: args' =>
      let! r := sys (Spawn entry a) in
      if negb (rv r =? 0) then printf "pthread_create(): %s" [PZ (rv r)] ;;; Ret false
      else create_threads entry args'
  end.

Definition join_threads (args : list Z) : prog unit :=
  for_each (fun i _ => sys (Libc "pthread_join" [i]) ;;; Ret tt) args tt.
