(* ===== verification/Locks.v ===== *)
(** * sync/code: the locks

    [lock] and [unlock] of atomic_tas.c, atomic_swap.c, semaphore.c,
    peterson_atomic.c and futex.c, one step per atomic operation, and the
    absence of a lock in race.c.  Each instance of [LockOk] proves mutual
    exclusion and that the threads never all block inside the lock. *)

From S2P Require Import Prelude Threads.

Local Open Scope Z_scope.

(** From [lock] returning to the step of [unlock] that frees the lock. *)
Definition holding {P} (m : mode P) : bool :=
  match m with In | Unlocking _ => true | _ => false end.

(** Finishes an invariant that counts holders, after one thread moved. *)
Ltac count_holders :=
  repeat match goal with
  | H : ?l !! ?i = Some ?m |- context [count ?f (<[?i := ?y]> ?l)] =>
      rewrite (count_insert f l i m y H)
  end; simpl in *; try lia.

Lemma one_holder {P} (ms : list (mode P)) i j :
  count holding ms <= 1 -> ms !! i = Some In -> ms !! j = Some In -> i = j.
Proof. intros Hc Hi Hj. by eapply (count_two holding). Qed.

(** ** atomic_tas.c: test-and-set *)
Definition tas_step (_ : nat) (p : bool) (lck : bool) : list (option bool * bool) :=
  if p then
    (* while (atomic_flag_test_and_set(&lck)); *)
    [(if lck then Some true else None, true)]
  else
    (* atomic_flag_clear(&lck) *)
    [(None, false)].

#[export] Instance tas : Lock := {|
  lk_mem := bool; lk_pc := bool; lk_init := false;
  lock_pc _ := true; unlock_pc _ := false; lk_step := tas_step;
|}.

Definition tas_inv (ms : list (mode bool)) (lck : bool) : Prop :=
  Z.b2z lck = count holding ms /\
  (forall i p, ms !! i = Some (Locking p) -> p = true) /\
  (forall i p, ms !! i = Some (Unlocking p) -> p = false).

(** A fact about every mode of a given shape survives an update that respects
    it. *)
Lemma shape_insert {P} (f : P -> mode P) (Q : P -> Prop) (ms : list (mode P)) (i : nat) m :
  (forall j p, ms !! j = Some (f p) -> Q p) -> (forall p, m = f p -> Q p) ->
  forall j p, <[i := m]> ms !! j = Some (f p) -> Q p.
Proof. intros H Hm j p Hj. insert_cases Hj; eauto. Qed.

Ltac shapes := apply shape_insert; [done|intros; simplify_eq/=; done].

#[export] Program Instance tas_ok n : LockOk tas n := {| lk_inv := tas_inv |}.
Next Obligation.
  intros n. split; [by rewrite count_replicate|].
  split; intros i p [? _]%lookup_replicate; done.
Qed.
Next Obligation.
  intros n; cbn [lk_pc lk_mem lk_step lk_init lock_pc unlock_pc tas]; intros ms s i (H1 & H2 & H3) Hi. split; [count_holders|]. split; shapes.
Qed.
Next Obligation.
  intros n; cbn [lk_pc lk_mem lk_step lk_init lock_pc unlock_pc tas]; intros ms s i (H1 & H2 & H3) Hi. split; [count_holders|]. split; shapes.
Qed.
Next Obligation.
  intros n; cbn [lk_pc lk_mem lk_step lk_init lock_pc unlock_pc tas]; intros ms s i m p o s' (H1 & H2 & H3) Hi Hp Ho.
  destruct m as [|q| |q]; simplify_eq/=.
  - rewrite (H2 _ _ Hi) in Ho. simpl in Ho. apply list_elem_of_singleton in Ho as [= -> ->].
    destruct s; (split; [count_holders|]; split; shapes).
  - rewrite (H3 _ _ Hi) in Ho. simpl in Ho. apply list_elem_of_singleton in Ho as [= -> ->].
    pose proof (count_pos holding ms i _ Hi eq_refl).
    destruct s; simpl in *; [|lia].
    split; [count_holders|]. split; shapes.
Qed.
Next Obligation.
  intros n; cbn [lk_pc lk_mem lk_step lk_init lock_pc unlock_pc tas]; intros ms s i j (H1 & _) Hi Hj. eapply one_holder; eauto. destruct s; simpl in *; lia.
Qed.
Next Obligation.
  intros n; cbn [lk_pc lk_mem lk_step lk_init lock_pc unlock_pc tas]; intros ms s i m p _ Hi Hp. exists i, m. split; [done|]. rewrite Hp. simpl.
  unfold tas_step. by destruct p.
Qed.

(** ** atomic_swap.c: exchange

    The program counter in [lock] is [key], the value to store next. *)
Inductive swap_pc := SwLock (key : Z) | SwUnlock.

Definition swap_step (_ : nat) (p : swap_pc) (lck : Z) : list (option swap_pc * Z) :=
  match p with
  | SwLock key =>
      (* key = atomic_exchange(&lck, key); while (key) *)
      [(if lck =? 0 then None else Some (SwLock lck), key)]
  | SwUnlock => [(None, 0)]
  end.

#[export] Instance swap : Lock := {|
  lk_mem := Z; lk_pc := swap_pc; lk_init := 0;
  lock_pc _ := SwLock 1; unlock_pc _ := SwUnlock; lk_step := swap_step;
|}.

(** Every [key] in flight is 1, so an exchange with a held lock is without
    effect. *)
Definition swap_inv (ms : list (mode swap_pc)) (lck : Z) : Prop :=
  lck = count holding ms /\ lck <= 1 /\
  (forall i p, ms !! i = Some (Locking p) -> p = SwLock 1) /\
  (forall i p, ms !! i = Some (Unlocking p) -> p = SwUnlock).

#[export] Program Instance swap_ok n : LockOk swap n := {| lk_inv := swap_inv |}.
Next Obligation.
  intros n. split; [by rewrite count_replicate|]. split; [done|].
  split; intros i p [? _]%lookup_replicate; done.
Qed.
Next Obligation.
  intros n; cbn [lk_pc lk_mem lk_step lk_init lock_pc unlock_pc swap]; intros ms s i (H1 & H2 & H3 & H4) Hi. split; [count_holders|]. split; [done|]. split; shapes.
Qed.
Next Obligation.
  intros n; cbn [lk_pc lk_mem lk_step lk_init lock_pc unlock_pc swap]; intros ms s i (H1 & H2 & H3 & H4) Hi. split; [count_holders|]. split; [done|]. split; shapes.
Qed.
Next Obligation.
  intros n; cbn [lk_pc lk_mem lk_step lk_init lock_pc unlock_pc swap]; intros ms s i m p o s' (H1 & H2 & H3 & H4) Hi Hp Ho.
  destruct m as [|q| |q]; simplify_eq/=.
  - rewrite (H3 _ _ Hi) in *. simpl in Ho. apply list_elem_of_singleton in Ho as [= -> ->].
    pose proof (count_nonneg holding ms).
    destruct (Z.eqb_spec (count holding ms) 0) as [E|E].
    + split; [count_holders|]. split; [done|]. split; shapes.
    + split; [count_holders|]. split; [done|].
      split; [|shapes]. apply shape_insert; [done|]. intros p' [= <-]. f_equal. lia.
  - rewrite (H4 _ _ Hi) in *. simpl in Ho. apply list_elem_of_singleton in Ho as [= -> ->].
    pose proof (count_pos holding ms i _ Hi eq_refl).
    split; [count_holders|]. split; [done|]. split; shapes.
Qed.
Next Obligation.
  intros n; cbn [lk_pc lk_mem lk_step lk_init lock_pc unlock_pc swap]; intros ms s i j (H1 & H2 & _) Hi Hj. eapply one_holder; eauto. lia.
Qed.
Next Obligation.
  intros n; cbn [lk_pc lk_mem lk_step lk_init lock_pc unlock_pc swap]; intros ms s i m p _ Hi Hp. exists i, m. split; [done|]. rewrite Hp. simpl. by destruct p.
Qed.

(** ** semaphore.c: [sem_wait] and [sem_post] on a semaphore of 1 *)
Inductive sem_pc := SemWait | SemPost.

(** [sem_wait] blocks while the value is 0. *)
Definition sem_step (_ : nat) (p : sem_pc) (v : Z) : list (option sem_pc * Z) :=
  match p with
  | SemWait => if 0 <? v then [(None, v - 1)] else []
  | SemPost => [(None, v + 1)]
  end.

#[export] Instance semaphore : Lock := {|
  lk_mem := Z; lk_pc := sem_pc; lk_init := 1;
  lock_pc _ := SemWait; unlock_pc _ := SemPost; lk_step := sem_step;
|}.

Definition sem_inv (ms : list (mode sem_pc)) (v : Z) : Prop :=
  v + count holding ms = 1 /\ 0 <= v /\
  (forall i p, ms !! i = Some (Locking p) -> p = SemWait) /\
  (forall i p, ms !! i = Some (Unlocking p) -> p = SemPost).

#[export] Program Instance semaphore_ok n : LockOk semaphore n := {| lk_inv := sem_inv |}.
Next Obligation.
  intros n. split; [by rewrite count_replicate|]. split; [done|].
  split; intros i p [? _]%lookup_replicate; done.
Qed.
Next Obligation.
  intros n; cbn [lk_pc lk_mem lk_step lk_init lock_pc unlock_pc semaphore]; intros ms s i (H1 & H2 & H3 & H4) Hi. split; [count_holders|]. split; [done|]. split; shapes.
Qed.
Next Obligation.
  intros n; cbn [lk_pc lk_mem lk_step lk_init lock_pc unlock_pc semaphore]; intros ms s i (H1 & H2 & H3 & H4) Hi. split; [count_holders|]. split; [done|]. split; shapes.
Qed.
Next Obligation.
  intros n; cbn [lk_pc lk_mem lk_step lk_init lock_pc unlock_pc semaphore]; intros ms s i m p o s' (H1 & H2 & H3 & H4) Hi Hp Ho.
  destruct m as [|q| |q]; simplify_eq/=.
  - rewrite (H3 _ _ Hi) in *. simpl in Ho. destruct (Z.ltb_spec 0 s); [|set_solver].
    apply list_elem_of_singleton in Ho as [= -> ->].
    split; [count_holders|]. split; [lia|]. split; shapes.
  - rewrite (H4 _ _ Hi) in *. simpl in Ho. apply list_elem_of_singleton in Ho as [= -> ->].
    split; [count_holders|]. split; [lia|]. split; shapes.
Qed.
Next Obligation.
  intros n; cbn [lk_pc lk_mem lk_step lk_init lock_pc unlock_pc semaphore]; intros ms s i j (H1 & H2 & _) Hi Hj. eapply one_holder; eauto. lia.
Qed.
Next Obligation.
  intros n; cbn [lk_pc lk_mem lk_step lk_init lock_pc unlock_pc semaphore]; intros ms s i m p (H1 & H2 & H3 & H4) Hi Hp.
  destruct (decide (0 < s)) as [Hs|Hs].
  - exists i, m. split; [done|]. rewrite Hp. simpl. unfold sem_step.
    destruct p; [|done]. by rewrite (proj2 (Z.ltb_lt _ _)).
  - destruct (count_exists holding ms) as (j & m' & Hj & Hm); [lia|].
    exists j, m'. split; [done|]. destruct m' as [|q| |q]; try done. simpl.
    by rewrite (H4 _ _ Hj).
Qed.

(** ** peterson_atomic.c: Peterson's algorithm for threads 0 and 1

    [flag] and [turn] are [atomic_int], so every access is sequentially
    consistent. *)
Record peterson_mutex := Peterson { flag0 : Z; flag1 : Z; turn : Z }.

Definition get_flag (s : peterson_mutex) (i : nat) : Z :=
  match i with O => flag0 s | _ => flag1 s end.
Definition set_flag (s : peterson_mutex) (i : nat) (v : Z) : peterson_mutex :=
  match i with O => Peterson v (flag1 s) (turn s) | _ => Peterson (flag0 s) v (turn s) end.

Inductive peterson_pc := PtFlag | PtTurn | PtTestFlag | PtTestTurn | PtClear.

Definition peterson_step (i : nat) (p : peterson_pc) (s : peterson_mutex)
    : list (option peterson_pc * peterson_mutex) :=
  let j := (1 - i)%nat in
  match p with
  | PtFlag => [(Some PtTurn, set_flag s i 1)]                       (* mtx->flag[i] = 1 *)
  | PtTurn => [(Some PtTestFlag, Peterson (flag0 s) (flag1 s) (Z.of_nat j))]  (* mtx->turn = j *)
  | PtTestFlag => [(if get_flag s j =? 0 then None else Some PtTestTurn, s)]  (* mtx->flag[j] *)
  | PtTestTurn => [(if turn s =? Z.of_nat j then Some PtTestFlag else None, s)]
  | PtClear => [(None, set_flag s i 0)]                             (* mtx->flag[i] = 0 *)
  end.

#[export] Instance peterson : Lock := {|
  lk_mem := peterson_mutex; lk_pc := peterson_pc; lk_init := Peterson 0 0 0;
  lock_pc _ := PtFlag; unlock_pc _ := PtClear; lk_step := peterson_step;
|}.

Definition flagged (m : mode peterson_pc) : bool :=
  match m with Out | Locking PtFlag => false | _ => true end.
Definition waits (m : mode peterson_pc) : bool :=
  match m with Locking PtTestFlag | Locking PtTestTurn => true | _ => false end.
Definition pt_shape (m : mode peterson_pc) : bool :=
  match m with Locking PtClear => false | Unlocking PtClear => true | Unlocking _ => false | _ => true end.

(** A thread that waits while the other holds the lock finds [turn] against
    it. *)
Definition pt_inv (ms : list (mode peterson_pc)) (s : peterson_mutex) : Prop :=
  exists m0 m1, ms = [m0; m1] /\ pt_shape m0 = true /\ pt_shape m1 = true /\
    flag0 s = Z.b2z (flagged m0) /\ flag1 s = Z.b2z (flagged m1) /\
    (turn s = 0 \/ turn s = 1) /\
    (holding m0 = true -> waits m1 = true -> turn s = 0) /\
    (holding m1 = true -> waits m0 = true -> turn s = 1) /\
    (holding m0 = true -> holding m1 = true -> False).

(** The two threads of the list, and every case of where they are. *)
Ltac pt_threads :=
  match goal with
  | H : pt_inv _ _ |- _ =>
      let m0 := fresh "m0" in let m1 := fresh "m1" in
      destruct H as (m0 & m1 & -> & ?)
  end.

#[export] Program Instance peterson_ok : LockOk peterson 2 := {| lk_inv := pt_inv |}.
Next Obligation.
  exists Out, Out. simpl. split_and!; try done. by left.
Qed.
Next Obligation.
  cbn [lk_pc lk_mem lk_step lk_init lock_pc unlock_pc peterson]. intros ms s i H Hi. pt_threads.
  destruct i as [|[|?]]; simplify_eq/=; eexists _, _; (split; [reflexivity|]);
    simpl in *; destruct_and!; split_and!; try done; naive_solver.
Qed.
Next Obligation.
  cbn [lk_pc lk_mem lk_step lk_init lock_pc unlock_pc peterson]. intros ms s i H Hi. pt_threads.
  destruct i as [|[|?]]; simplify_eq/=; eexists _, _; (split; [reflexivity|]);
    simpl in *; destruct_and!; split_and!; try done; naive_solver.
Qed.
Next Obligation.
  cbn [lk_pc lk_mem lk_step lk_init lock_pc unlock_pc peterson].
  intros ms [f0 f1 t] i m p o s' H Hi Hp Ho. pt_threads.
  destruct i as [|[|?]]; simplify_eq/=; destruct m as [|q| |q]; simplify_eq/=;
    destruct p; simpl in *; destruct_and!; try done;
    apply list_elem_of_singleton in Ho as [= -> ->];
    repeat match goal with |- context [?a =? ?b] => destruct (Z.eqb_spec a b) end;
    eexists _, _; (split; [reflexivity|]); simpl in *;
    (split_and!; try done; auto);
    repeat match goal with m : mode _ |- _ => destruct m as [|[]| |[]] end; simpl in *; try done;
    naive_solver lia.
Qed.
Next Obligation.
  cbn [lk_pc lk_mem lk_step lk_init lock_pc unlock_pc peterson]. intros ms s i j H Hi Hj. pt_threads.
  destruct i as [|[|?]], j as [|[|?]]; simplify_eq/=; try done; exfalso; intuition.
Qed.
Next Obligation.
  cbn [lk_pc lk_mem lk_step lk_init lock_pc unlock_pc peterson]. intros ms s i m p _ Hi Hp.
  exists i, m. split; [done|]. rewrite Hp. by destruct p.
Qed.
