(* ===== verification/Futex.v ===== *)
(** * sync/code/futex.c: the futex mutex

    [state] is 0 (free), 1 (held, nobody waits) or 2 (held, somebody may
    wait).  The kernel keeps the queue of the threads asleep in FUTEX_WAIT;
    FUTEX_WAIT compares the word and enqueues in one step, FUTEX_WAKE takes
    any one thread out of the queue.  [spurious] says whether a sleeping
    thread may also return on its own; the lock is correct either way, and
    without it the absence of a lost wake-up is the content of the progress
    law. *)

From S2P Require Import Prelude Threads Locks.

Local Open Scope Z_scope.

Record futex_mutex := FutexMutex { f_state : Z; waiters : list nat }.

Inductive futex_pc := FxCas | FxXchg | FxWait | FxSleep | FxSub | FxStore | FxWake.

#[export] Instance futex_pc_eq_dec : EqDecision futex_pc.
Proof. solve_decision. Defined.

Definition dequeue (i : nat) (q : list nat) : list nat := filter (fun j => j <> i) q.

Definition futex_step (spurious : bool) (i : nat) (p : futex_pc) (m : futex_mutex)
    : list (option futex_pc * futex_mutex) :=
  let '(FutexMutex st q) := m in
  match p with
  | FxCas =>    (* atomic_compare_exchange_strong(&m->state, &expected, 1) *)
      [if st =? 0 then (None, FutexMutex 1 q) else (Some FxXchg, m)]
  | FxXchg =>   (* if (atomic_exchange(&m->state, 2) != 0) *)
      [(if negb (st =? 0) then Some FxWait else None, FutexMutex 2 q)]
  | FxWait =>   (* futex_call(&m->state, FUTEX_WAIT, 2): compare and enqueue *)
      [if st =? 2 then (Some FxSleep, FutexMutex st (q ++ [i])) else (Some FxXchg, m)]
  | FxSleep =>  (* asleep until dequeued *)
      if decide (i ∈ q) then
        if spurious then [(Some FxXchg, FutexMutex st (dequeue i q))] else []
      else [(Some FxXchg, m)]
  | FxSub =>    (* if (atomic_fetch_sub(&m->state, 1) != 1) *)
      [(if negb (st =? 1) then Some FxStore else None, FutexMutex (st - 1) q)]
  | FxStore =>  (* atomic_store(&m->state, 0) *)
      [(Some FxWake, FutexMutex 0 q)]
  | FxWake =>   (* futex_call(&m->state, FUTEX_WAKE, 1) *)
      match q with
      | [] => [(None, m)]
      | _ => (fun w => (None, FutexMutex st (dequeue w q))) <$> q
      end
  end.

#[export] Instance futex (spurious : bool) : Lock := {|
  lk_mem := futex_mutex; lk_pc := futex_pc; lk_init := FutexMutex 0 [];
  lock_pc _ := FxCas; unlock_pc _ := FxSub; lk_step := futex_step spurious;
|}.

(** ** Invariant *)
Definition owns (m : mode futex_pc) : bool :=
  match m with In | Unlocking FxSub | Unlocking FxStore => true | _ => false end.
Definition in_lock (p : futex_pc) : Prop := p ∈ [FxCas; FxXchg; FxWait; FxSleep].
Definition in_unlock (p : futex_pc) : Prop := p ∈ [FxSub; FxStore; FxWake].

(** A thread that will set [state] to 2 again or wake somebody. *)
Definition rescuer (q : list nat) (i : nat) (m : mode futex_pc) : Prop :=
  match m with
  | Locking FxXchg | Locking FxWait | Unlocking FxStore | Unlocking FxWake => True
  | Locking FxSleep => i ∉ q
  | _ => False
  end.

Definition rescued (ms : list (mode futex_pc)) (q : list nat) : Prop :=
  exists i m, ms !! i = Some m /\ rescuer q i m.

Definition futex_inv (ms : list (mode futex_pc)) (s : futex_mutex) : Prop :=
  (f_state s = 0 /\ count owns ms = 0 \/ (f_state s = 1 \/ f_state s = 2) /\ count owns ms = 1) /\
  (forall i p, ms !! i = Some (Locking p) -> in_lock p) /\
  (forall i p, ms !! i = Some (Unlocking p) -> in_unlock p) /\
  NoDup (waiters s) /\ (forall w, w ∈ waiters s -> ms !! w = Some (Locking FxSleep)) /\
  (* no lost wake-up *)
  (waiters s <> [] -> f_state s = 2 \/ rescued ms (waiters s)).

Implicit Types (ms : list (mode futex_pc)) (q : list nat) (i : nat).

Lemma dequeue_in w x q : x ∈ dequeue w q <-> x <> w /\ x ∈ q.
Proof. unfold dequeue. by rewrite list_elem_of_filter. Qed.

Lemma rescued_here ms q i m m' :
  ms !! i = Some m -> rescuer q i m' -> rescued (<[i := m']> ms) q.
Proof.
  intros Hi Hr. exists i, m'. split; [|done].
  rewrite list_lookup_insert_eq; [done|by eapply lookup_lt_Some].
Qed.

(** A move of a thread that is no rescuer keeps the rescuers there are. *)
Lemma rescued_keep ms q i m m' :
  ms !! i = Some m -> ~ rescuer q i m -> rescued ms q -> rescued (<[i := m']> ms) q.
Proof.
  intros Hi Hn (j & x & Hj & Hx). exists j, x. split; [|done].
  rewrite list_lookup_insert_ne; [done|]. intros ->. rewrite Hi in Hj. by simplify_eq.
Qed.

Lemma sleepers_keep ms q i m m' :
  ms !! i = Some m -> i ∉ q -> (forall w, w ∈ q -> ms !! w = Some (Locking FxSleep)) ->
  forall w, w ∈ q -> <[i := m']> ms !! w = Some (Locking FxSleep).
Proof.
  intros Hi Hn H w Hw. rewrite list_lookup_insert_ne; [by apply H|]. by intros ->.
Qed.

(** Threads outside FxSleep are not in the queue. *)
Lemma not_queued ms q i m :
  (forall w, w ∈ q -> ms !! w = Some (Locking FxSleep)) -> ms !! i = Some m ->
  m <> Locking FxSleep -> i ∉ q.
Proof. intros H Hi Hm Hin. specialize (H i Hin). rewrite H in Hi. congruence. Qed.

Ltac fx_count :=
  count_holders; repeat match goal with H : _ \/ _ |- _ => destruct H end; lia.
Ltac fx_shapes := apply shape_insert; [done|intros; simplify_eq/=; unfold in_lock, in_unlock; set_solver].

Section Futex.
Context (spurious : bool) (n : nat).

Lemma futex_inv_call ms s i m m' :
  futex_inv ms s -> ms !! i = Some m ->
  (m = Out /\ m' = Locking FxCas) \/ (m = In /\ m' = Unlocking FxSub) ->
  futex_inv (<[i := m']> ms) s.
Proof.
  intros (H1 & H2 & H3 & H4 & H5 & H6) Hi Hm.
  assert (owns m = owns m' /\ m <> Locking FxSleep /\ ~ rescuer (waiters s) i m) as (Ho & Hs & Hn)
    by (destruct Hm as [[-> ->]|[-> ->]]; auto).
  assert (i ∉ waiters s) as Hq by by eapply not_queued.
  split_and!.
  - rewrite (count_insert _ _ _ _ _ Hi), Ho. rewrite Z.sub_add. done.
  - destruct Hm as [[-> ->]|[-> ->]]; fx_shapes.
  - destruct Hm as [[-> ->]|[-> ->]]; fx_shapes.
  - done.
  - by eapply sleepers_keep.
  - intros Hw. destruct (H6 Hw) as [?|Hr]; [by left|right]. by eapply rescued_keep.
Qed.

(** Steps of [lock()]. *)
Lemma futex_inv_lock ms s i p o s' :
  futex_inv ms s -> ms !! i = Some (Locking p) -> (o, s') ∈ futex_step spurious i p s ->
  futex_inv (<[i := mode_next (Locking p) o]> ms) s'.
Proof.
  intros (H1 & H2 & H3 & H4 & H5 & H6) Hi Ho. pose proof (H2 _ _ Hi) as Hp.
  destruct s as [st q]. simpl in *.
  assert (p <> FxSleep -> i ∉ q) as Hq by (intros; eapply not_queued; eauto; congruence).
  destruct p; try (exfalso; unfold in_lock in Hp; set_solver).
  - (* cas *)
    apply list_elem_of_singleton in Ho. destruct (Z.eqb_spec st 0) as [->|]; simplify_eq/=.
    + split_and!; simpl; [fx_count|fx_shapes|fx_shapes|done|eapply sleepers_keep; eauto|].
      intros Hw. destruct (H6 Hw) as [?|Hr]; [lia|right]. by eapply rescued_keep; eauto.
    + split_and!; simpl; [fx_count|fx_shapes|fx_shapes|done|eapply sleepers_keep; eauto|].
      intros _. right. by eapply rescued_here.
  - (* xchg *)
    apply list_elem_of_singleton in Ho. destruct (Z.eqb_spec st 0) as [->|]; simplify_eq/=;
      (split_and!; simpl; [fx_count|fx_shapes|fx_shapes|done|eapply sleepers_keep; eauto|by left]).
  - (* futex wait *)
    apply list_elem_of_singleton in Ho. destruct (Z.eqb_spec st 2) as [->|]; simplify_eq/=.
    + split_and!; simpl; [fx_count|fx_shapes|fx_shapes| | |by left].
      * apply NoDup_app. split_and!; [done| |apply NoDup_singleton]. set_solver.
      * intros w [Hw| ->%list_elem_of_singleton]%elem_of_app; [eapply sleepers_keep; eauto|].
        apply list_lookup_insert_eq. by eapply lookup_lt_Some.
    + split_and!; simpl; [fx_count|fx_shapes|fx_shapes|done|eapply sleepers_keep; eauto|].
      intros _. right. by eapply rescued_here.
  - (* asleep *)
    destruct (decide (i ∈ q)) as [Hin|Hin]; [destruct spurious; [|set_solver]|];
      apply list_elem_of_singleton in Ho; simplify_eq/=.
    + split_and!; simpl; [fx_count|fx_shapes|fx_shapes|by apply NoDup_filter| |].
      * eapply sleepers_keep; [done| |]; [rewrite dequeue_in; tauto|].
        intros w [_ Hw]%dequeue_in. auto.
      * intros _. right. by eapply rescued_here.
    + split_and!; simpl; [fx_count|fx_shapes|fx_shapes|done|eapply sleepers_keep; eauto|].
      intros _. right. by eapply rescued_here.
Qed.

(** Steps of [unlock()]. *)
Lemma futex_inv_unlocking ms s i p o s' :
  futex_inv ms s -> ms !! i = Some (Unlocking p) -> (o, s') ∈ futex_step spurious i p s ->
  futex_inv (<[i := mode_next (Unlocking p) o]> ms) s'.
Proof.
  intros (H1 & H2 & H3 & H4 & H5 & H6) Hi Ho. pose proof (H3 _ _ Hi) as Hp.
  destruct s as [st q]. simpl in *.
  assert (i ∉ q) as Hq by by eapply not_queued.
  destruct p; try (exfalso; unfold in_unlock in Hp; set_solver).
  - (* fetch_sub *)
    pose proof (count_pos owns ms i _ Hi eq_refl).
    apply list_elem_of_singleton in Ho. destruct (Z.eqb_spec st 1) as [->|]; simplify_eq/=.
    + split_and!; simpl; [fx_count|fx_shapes|fx_shapes|done|eapply sleepers_keep; eauto|].
      intros Hw. destruct (H6 Hw) as [?|Hr]; [lia|right]. by eapply rescued_keep; eauto.
    + split_and!; simpl; [fx_count|fx_shapes|fx_shapes|done|eapply sleepers_keep; eauto|].
      intros _. right. by eapply rescued_here.
  - (* store *)
    pose proof (count_pos owns ms i _ Hi eq_refl).
    apply list_elem_of_singleton in Ho. simplify_eq/=.
    split_and!; simpl; [fx_count|fx_shapes|fx_shapes|done|eapply sleepers_keep; eauto|].
    intros _. right. by eapply rescued_here.
  - (* futex wake *)
    destruct q as [|w0 q0] eqn:Eq.
    + apply list_elem_of_singleton in Ho. simplify_eq/=.
      split_and!; simpl; [fx_count|fx_shapes|fx_shapes|done|set_solver|done].
    + rewrite <- Eq in *. clear Eq.
      apply list_elem_of_fmap in Ho as (w & [= -> ->] & Hw).
      split_and!; simpl; [fx_count|fx_shapes|fx_shapes|by apply NoDup_filter| |].
      * eapply sleepers_keep; [done| |]; [rewrite dequeue_in; tauto|].
        intros x [_ Hx]%dequeue_in. auto.
      * intros _. right. exists w, (Locking FxSleep).
        split; [eapply sleepers_keep; eauto|]. simpl. rewrite dequeue_in. tauto.
Qed.

#[export] Program Instance futex_ok : LockOk (futex spurious) n := {| lk_inv := futex_inv |}.
Next Obligation.
  split_and!; simpl; [left; by rewrite count_replicate| | |constructor|set_solver|done];
    intros i p [? _]%lookup_replicate; done.
Qed.
Next Obligation. intros. eapply futex_inv_call; eauto. Qed.
Next Obligation. intros. eapply futex_inv_call; eauto. Qed.
Next Obligation.
  intros ms s i m p o s' H Hi Hp Ho. destruct m as [|q| |q]; try done;
    injection Hp as ->; [by apply (futex_inv_lock ms s)|by apply (futex_inv_unlocking ms s)].
Qed.
Next Obligation.
  intros ms s i j (H1 & _) Hi Hj. eapply (count_two owns); eauto. lia.
Qed.
Next Obligation.
  cbn [lk_pc lk_mem lk_step futex]. intros ms s i m p (H1 & H2 & H3 & H4 & H5 & H6) Hi Hp.
  assert (forall j (m' : mode futex_pc) (r : futex_pc), ms !! j = Some m' -> mode_pc m' = Some r ->
    (r <> FxSleep \/ j ∉ waiters s) -> futex_step spurious j r s <> []) as Hgo.
  { intros j m' r Hj Hq Hc. destruct s as [st w]. destruct r; simpl; try done.
    - rewrite decide_False by (destruct Hc; done). done.
    - destruct w; done. }
  destruct (decide (p = FxSleep /\ i ∈ waiters s)) as [[-> Hin]|Hc].
  2:{ exists i, m. split; [done|]. rewrite Hp. eapply Hgo; eauto.
      destruct (decide (p = FxSleep)); [right|left]; tauto. }
  destruct H6 as [Hs|(j & m' & Hj & Hr)].
  { intros E. rewrite E in Hin. by apply not_elem_of_nil in Hin. }
  - destruct (count_exists owns ms) as (j & m' & Hj & Hm); [lia|].
    exists j, m'. split; [done|]. destruct m' as [|q| |q]; try done. simpl.
    eapply Hgo; [done|done|]. left. by destruct q.
  - exists j, m'. split; [done|]. destruct m' as [|q| |q]; try done; simpl in *;
      (eapply Hgo; [done|done|]); destruct q; auto.
Qed.
End Futex.
