(* ===== verification/Counter.v ===== *)
(** * sync/code: the shared counter of atomic_tas.c, semaphore.c and futex.c

    Incrementers and decrementers change one [int] under a lock, [iters]
    times each (ITERATIONS in the sources).  The increment is a load and a
    store.  The theorems are proved against the interface [LockOk] and hold
    for every lock that discharges it. *)

From S2P Require Import Prelude CLib Os Threads Locks Futex.

Local Open Scope Z_scope.

Definition ITERATIONS : Z := 10000000.

Inductive counter_pc := CtLoop | CtLoad | CtStore (tmp : Z) | CtUnlock.

(** [ct_step] is 1 in [incrementer] and -1 in [decrementer]; [ct_i] is the
    loop variable. *)
Record worker := Worker { ct_step : Z; ct_i : Z; ct_pc : counter_pc }.

Definition at_pc (c : worker) (p : counter_pc) : worker := Worker (ct_step c) (ct_i c) p.

Fixpoint balance (cs : list worker) : Z :=
  match cs with [] => 0 | c :: cs' => ct_step c + balance cs' end.

(** Threads never change role. *)
Definition same_roles (cs0 cs : list worker) : Prop := ct_step <$> cs = ct_step <$> cs0.

Lemma balance_roles cs0 cs : same_roles cs0 cs -> balance cs = balance cs0.
Proof.
  unfold same_roles. revert cs0.
  induction cs as [|c cs IH]; intros [|c0 cs0]; simpl; intros H; simplify_eq; [done|].
  rewrite (IH cs0) by done. lia.
Qed.

Section Client.
Context (iters : Z).

Definition counter_out (_ : nat) (c : worker) : out_action worker :=
  if ct_i c <? iters then OLock (at_pc c CtLoad) else OStop.

Definition counter_in (_ : nat) (c : worker) (counter : Z) : in_action worker Z :=
  match ct_pc c with
  | CtLoad => ICont (at_pc c (CtStore counter)) counter
  | CtStore tmp =>
      match checked_int (tmp + ct_step c) with
      | Some v => ICont (at_pc c CtUnlock) v
      | None => IUndef
      end
  | CtUnlock => IUnlock (Worker (ct_step c) (ct_i c + 1) CtLoop)
  | CtLoop => IUndef
  end.

Definition counter_client : Client := {|
  cl_local := worker; cl_data := Z; cl_out := counter_out; cl_in := counter_in;
|}.

Definition incrementer : worker := Worker 1 0 CtLoop.
Definition decrementer : worker := Worker (-1) 0 CtLoop.

(** ** Why the counter is right *)

(** What a thread has added so far. *)
Definition contribution (c : worker) : Z :=
  ct_step c * (ct_i c + match ct_pc c with CtUnlock => 1 | _ => 0 end).

Fixpoint total (cs : list worker) : Z :=
  match cs with [] => 0 | c :: cs' => contribution c + total cs' end.

Lemma total_insert cs i c c' :
  cs !! i = Some c -> total (<[i := c']> cs) = total cs - contribution c + contribution c'.
Proof.
  revert i. induction cs as [|x cs IH]; intros [|i] H; simplify_eq/=; [lia|].
  rewrite (IH i H). lia.
Qed.

(** A worker's state makes sense; outside the critical section it is at one of
    the first two points. *)
Definition worker_ok (c : worker) : Prop :=
  (ct_step c = 1 \/ ct_step c = -1) /\ 0 <= ct_i c <= iters /\
  match ct_pc c with CtLoop => True | _ => ct_i c < iters end.
Definition before_cs (c : worker) : Prop := ct_pc c = CtLoop \/ ct_pc c = CtLoad.

Definition counter_R (cs : list worker) (d : Z) : Prop :=
  Forall worker_ok cs /\ Forall before_cs cs /\ d = total cs.

Definition counter_CS (i : nat) (cs : list worker) (d : Z) : Prop :=
  Forall worker_ok cs /\ d = total cs /\
  (forall j c, cs !! j = Some c -> j <> i -> before_cs c) /\
  forall c, cs !! i = Some c ->
    match ct_pc c with CtLoop => False | CtStore tmp => tmp = d | _ => True end.

Definition counter_ready (c : worker) : Prop := ct_pc c = CtLoad.

Lemma contribution_bound c : worker_ok c -> Z.abs (contribution c) <= iters.
Proof.
  unfold worker_ok, contribution. destruct c as [s i p]. simpl.
  intros ([-> | ->] & Hi & Hp); destruct p; lia.
Qed.

Lemma total_bound cs : Forall worker_ok cs -> Z.abs (total cs) <= Z.of_nat (length cs) * iters.
Proof.
  induction 1 as [|c cs Hc _ IH]; [simpl; lia|].
  pose proof (contribution_bound c Hc). cbn [total length]. lia.
Qed.

Lemma total_bound_but cs i c :
  Forall worker_ok cs -> cs !! i = Some c ->
  Z.abs (total cs - contribution c) <= (Z.of_nat (length cs) - 1) * iters.
Proof.
  intros H. revert i. induction H as [|x cs Hx Hcs IH]; intros [|i] Hi; simplify_eq/=.
  - pose proof (total_bound cs Hcs). lia.
  - pose proof (contribution_bound x Hx). specialize (IH i Hi). lia.
Qed.

Context (n : nat).
Hypothesis no_overflow : 0 <= iters /\ Z.of_nat n * iters <= INT_MAX.

(** The facts each step of a worker needs. *)
Lemma step_contribution c p :
  contribution (at_pc c p) = contribution c \/ ct_pc c = CtUnlock \/ p = CtUnlock.
Proof. unfold contribution. destruct c as [s i q]. simpl. destruct q, p; auto. Qed.

Lemma counter_lock cs i c c' d :
  cs !! i = Some c -> counter_out i c = OLock c' -> before_cs c -> worker_ok c -> d = total cs ->
  worker_ok c' /\ before_cs c' /\ d = total (<[i := c']> cs) /\ ct_pc c' = CtLoad.
Proof.
  unfold counter_out. destruct (Z.ltb_spec (ct_i c) iters) as [Hlt|]; [|done].
  intros Hi [= <-] Hb (H1 & H2 & H3) ->. unfold before_cs, worker_ok. simpl. split_and!; auto; [lia|lia|].
  rewrite (total_insert _ _ _ _ Hi). unfold contribution. simpl.
  destruct Hb as [-> | ->]; lia.
Qed.

(** The thread inside moves on: the counter changes as its contribution. *)
Lemma cs_update cs i c c' d d' :
  counter_CS i cs d -> cs !! i = Some c -> worker_ok c' ->
  d' - d = contribution c' - contribution c ->
  match ct_pc c' with CtLoop => False | CtStore tmp => tmp = d' | _ => True end ->
  counter_CS i (<[i := c']> cs) d'.
Proof.
  intros (Hw & Hd & Hb & Hc) Hi Hw' Hd' Hp. split_and!.
  - by apply Forall_insert.
  - rewrite (total_insert _ _ _ _ Hi). lia.
  - intros j x Hj Hji. insert_cases Hj. eauto.
  - intros x Hx. rewrite list_lookup_insert_eq in Hx by by eapply lookup_lt_Some. by simplify_eq.
Qed.

Lemma counter_in_step cs i c c' d d' :
  counter_CS i cs d -> cs !! i = Some c -> counter_in i c d = ICont c' d' ->
  counter_CS i (<[i := c']> cs) d'.
Proof.
  intros HC Hi Ha. pose proof HC as (Hw & Hd & Hb & Hc). specialize (Hc c Hi).
  assert (worker_ok c) as Hwc by (by eapply Forall_lookup_1).
  unfold counter_in in Ha. destruct (ct_pc c) eqn:Ep; try done.
  - injection Ha as <- <-. eapply cs_update; eauto; unfold worker_ok, contribution in *;
      rewrite Ep in *; simpl; try tauto; lia.
  - destruct (checked_int (tmp + ct_step c)) as [v|] eqn:Ev; [|done].
    apply checked_int_Some in Ev as [-> _]. injection Ha as <- <-.
    eapply cs_update; eauto; unfold worker_ok, contribution in *; rewrite Ep in *; simpl;
      try tauto; lia.
Qed.

#[local] Instance counter_rule :
  Rule counter_client (fun cs d => length cs = n /\ counter_R cs d)
    (fun i cs d => length cs = n /\ counter_CS i cs d) counter_ready.
Proof.
  limits. constructor; simpl.
  - intros i cs d c c' _ _. unfold counter_out. by destruct (ct_i c <? iters).
  - intros i cs d c c' (Hn & Hw & Hb & Hd) Hi Ho.
    rewrite Forall_lookup in Hb. rewrite Forall_lookup in Hw.
    destruct (counter_lock _ _ _ _ _ Hi Ho (Hb _ _ Hi) (Hw _ _ Hi) Hd) as (? & ? & ? & ?).
    split; [|done]. split; [by rewrite length_insert|].
    split_and!; [| |done]; apply Forall_insert; try done; by apply Forall_lookup.
  - intros i j cs d c c' _ _ _. unfold counter_out. by destruct (ct_i c <? iters).
  - intros i j cs d c c' (Hn & Hw & Hd & Hb & Hc) Hij Hj Ho.
    assert (worker_ok c) as Hwc by (by eapply Forall_lookup_1).
    assert (before_cs c) as Hbc by (by eapply Hb).
    destruct (counter_lock _ _ _ _ _ Hj Ho Hbc Hwc Hd) as (? & ? & ? & ?).
    split; [|done]. split; [by rewrite length_insert|]. split_and!; [by apply Forall_insert|done| |].
    + intros k x Hk Hki. insert_cases Hk; eauto.
    + intros x Hx. rewrite list_lookup_insert_ne in Hx by done. exact (Hc x Hx).
  - intros i cs d c (Hn & Hw & Hb & Hd) Hi Hr. split; [done|]. split_and!; try done.
    + intros j x Hj _. by eapply Forall_lookup_1.
    + intros x Hx. simplify_eq. by rewrite Hr.
  - intros i cs d c c' d' [Hn HC] Hi Ha. split; [by rewrite length_insert|].
    eapply counter_in_step; eauto.
  - intros i cs d c c' (Hn & Hw & Hd & Hb & Hc) Hi.
    assert (worker_ok c) as Hwc by (by eapply Forall_lookup_1).
    unfold counter_in. destruct (ct_pc c) eqn:Ep; try done; [by destruct (checked_int _)|].
    intros [= <-]. split; [by rewrite length_insert|]. split_and!.
    + apply Forall_insert; [done|]. unfold worker_ok in *. simpl. rewrite Ep in Hwc. split_and!; try tauto; lia.
    + apply Forall_lookup. intros j x Hj. insert_cases Hj; [by left|]. eauto.
    + rewrite (total_insert _ _ _ _ Hi). unfold contribution. simpl. rewrite Ep. lia.
  - intros i cs d c (Hn & Hw & Hd & Hb & Hc) Hi. specialize (Hc c Hi).
    assert (worker_ok c) as Hwc by (by eapply Forall_lookup_1).
    unfold counter_in. destruct (ct_pc c) eqn:Ep; try done. subst tmp d.
    pose proof (total_bound_but cs i c Hw Hi) as Hb2. rewrite Hn in Hb2.
    assert (Z.abs (contribution c + ct_step c) <= iters).
    { unfold contribution, worker_ok in *. rewrite Ep in *. destruct Hwc as ([-> | ->] & ? & ?); lia. }
    destruct (checked_int (total cs + ct_step c)) eqn:Ev; [done|].
    exfalso. assert (INT_MIN <= total cs + ct_step c <= INT_MAX) as Hr by lia.
    assert (checked_int (total cs + ct_step c) = Some (total cs + ct_step c)) as Hs
      by by apply checked_int_Some.
    congruence.
Qed.

(** ** The system *)
Context (K : Lock) {Hk : LockOk K n}.

Notation system := (thread_step K counter_client).
Definition counter_start (cs : list worker) := start K counter_client cs 0.

Definition workers (cs : list worker) : Prop :=
  length cs = n /\ Forall (fun c => c = incrementer \/ c = decrementer) cs.

Lemma workers_R cs : workers cs -> length cs = n /\ counter_R cs 0.
Proof.
  intros [Hn Hw]. split; [done|]. clear Hn.
  induction Hw as [|c cs Hc _ (H1 & H2 & H3)]; [by repeat constructor|].
  split_and!; [constructor|constructor|]; try done.
  - destruct Hc as [-> | ->]; (split_and!; simpl; [auto|lia|lia|done]).
  - destruct Hc as [-> | ->]; by left.
  - cbn [total]. rewrite <- H3. destruct Hc as [-> | ->]; done.
Qed.

(** When every thread has returned the counter is what it should be. *)
Lemma finished_total ls :
  (forall i l, ls !! i = Some l -> l.1 = (Out : mode lk_pc) /\ cl_out (Client := counter_client) i l.2 = OStop) ->
  Forall worker_ok (locals K counter_client ls) ->
  total (locals K counter_client ls) = iters * balance (locals K counter_client ls).
Proof.
  intros Hf Hw. unfold locals in *.
  assert (Forall (fun c => iters <= ct_i c) ls.*2) as Hi.
  { apply Forall_lookup. intros i c Hc. apply list_lookup_fmap_Some in Hc as ([m x] & -> & Hl).
    destruct (Hf _ _ Hl) as [_ Ho]. simpl in Ho. unfold counter_out in Ho. simpl.
    destruct (Z.ltb_spec (ct_i x) iters); [done|lia]. }
  clear Hf. induction Hw as [|c cs (H1 & H2 & H3) _ IH]; [simpl; lia|].
  apply Forall_cons in Hi as [Hi Hcs]. cbn [total balance]. rewrite IH by done.
  unfold contribution. destruct (ct_pc c); lia.
Qed.

Lemma roles_move cs0 c c' :
  same_roles cs0 (locals K counter_client c.1) -> move system c c' ->
  same_roles cs0 (locals K counter_client c'.1).
Proof.
  intros Hs Hm. destruct Hm as [i [m l] [m' l'] ls [k d] s' Hl Hin]. simpl in *.
  unfold same_roles, locals in *. rewrite list_fmap_insert. simpl.
  assert (ct_step l' = ct_step l) as Hrole.
  { destruct m; simpl in Hin.
    - unfold counter_out in Hin. destruct (ct_i l <? iters); set_unfold; naive_solver.
    - apply list_elem_of_fmap in Hin as ([o k'] & [= -> -> ->] & _). done.
    - unfold counter_in in Hin. destruct (ct_pc l); [..|]; try (destruct (checked_int _));
        set_unfold; naive_solver.
    - apply list_elem_of_fmap in Hin as ([o k'] & [= -> -> ->] & _). done. }
  rewrite list_fmap_insert, Hrole. rewrite list_insert_id; [done|].
  by rewrite !list_lookup_fmap, Hl.
Qed.
End Client.

(** Under any lock that keeps the interface, the increments and decrements
    are all counted: no run reaches undefined behaviour (the [int] does not
    overflow), no run deadlocks, and when every thread has returned the counter
    is [iters] times the number of incrementers minus that of decrementers. *)
Lemma counter_sound (K : Lock) (n : nat) (Hk : LockOk K n) iters cs c :
  0 <= iters -> Z.of_nat n * iters <= INT_MAX -> workers n cs ->
  reachable (thread_step K (counter_client iters)) (counter_start iters K cs) c ->
  ~ undefined K (counter_client iters) c /\
  (finished K (counter_client iters) c \/ can_move (thread_step K (counter_client iters)) c) /\
  (finished K (counter_client iters) c -> c.2.2 = iters * balance cs).
Proof.
  intros H0 Hmax Hw Hc. pose proof (conj H0 Hmax) as Hb.
  destruct (workers_R iters n Hb cs Hw) as [Hn HR].
  pose proof (counter_rule iters n Hb) as Hrule.
  pose proof (system_invariant K (counter_client iters) _ _ _ cs 0 c Hn (conj Hn HR) Hc) as HI.
  split; [|split].
  - by eapply (never_undefined K (counter_client iters)).
  - by eapply (deadlock_free K (counter_client iters)).
  - intros Hf. assert (same_roles cs (locals K (counter_client iters) c.1)) as Hs.
    { revert Hc.
      apply (reachable_invariant _ (fun c => same_roles cs (locals K (counter_client iters) c.1)));
        [|intros; by eapply roles_move].
      unfold counter_start, start, locals, same_roles. simpl. f_equal.
      clear. induction cs; simpl; [done|by f_equal]. }
    destruct c as [ls [k d]]. simpl in *.
    rewrite <- (balance_roles _ _ Hs).
    destruct HI as (_ & _ & [(_ & _ & Hok & _ & ->)|(i & Hi & _)]).
    + by apply finished_total.
    + exfalso. apply list_lookup_fmap_Some in Hi as ([m x] & E & Hl). simpl in E. subst m.
      by destruct (Hf _ _ Hl).
Qed.

(** ** The three programs *)
(** [main] of the programs with one incrementer and one decrementer; [joined]
    is the counter after the joins. *)
Definition two_threads_main (joined : Z) : prog Z :=
  ignored "srand(getpid())" [] ;;;
  printf "Creating incrementer" [] ;;;
  let! r := sys (Spawn "incrementer" 0) in
  if negb (rv r =? 0) then printf "pthread_create(): %s" [PZ (rv r)] ;;; Ret 1 else
  printf "Creating decrementer" [] ;;;
  let! r := sys (Spawn "decrementer" 0) in
  if negb (rv r =? 0) then printf "pthread_create(): %s" [PZ (rv r)] ;;; Ret 1 else
  printf "Created both threads" [] ;;;
  join_threads [0; 1] ;;;
  printf "counter = %d" [PZ joined] ;;;
  Ret 0.

Module AtomicTas.
Definition client : Client := counter_client ITERATIONS.
Definition step := thread_step tas client.
Definition threads := counter_start ITERATIONS tas [incrementer; decrementer].
Definition main := two_threads_main.
End AtomicTas.

Module Semaphore.
Definition client : Client := counter_client ITERATIONS.
Definition step := thread_step semaphore client.
Definition threads := counter_start ITERATIONS semaphore [incrementer; decrementer].
Definition main (joined : Z) : prog Z := ignored "sem_init" [0; 1] ;;; two_threads_main joined.
End Semaphore.

Module FutexMutex.
Definition NUM_THREADS : nat := 4%nat.
Definition client : Client := counter_client ITERATIONS.
Definition step (spurious : bool) := thread_step (futex spurious) client.
Definition threads (spurious : bool) :=
  counter_start ITERATIONS (futex spurious)
    (concat (replicate NUM_THREADS [incrementer; decrementer])).
Definition create_pair (i : Z) (ok : bool) : prog bool :=
  if ok then
    let! r := sys (Spawn "incrementer" i) in
    if negb (rv r =? 0) then printf "pthread_create failed" [] ;;; Ret false else
    let! r := sys (Spawn "decrementer" i) in
    if negb (rv r =? 0) then printf "pthread_create failed" [] ;;; Ret false else
    Ret true
  else Ret false.
Definition main (joined : Z) : prog Z :=
  ignored "srand(getpid())" [] ;;;
  printf "Creating %d incrementers and %d decrementers"
    [PZ (Z.of_nat NUM_THREADS); PZ (Z.of_nat NUM_THREADS)] ;;;
  let! ok := for_each create_pair [0; 1; 2; 3] true in
  if negb ok then Ret 1 else
  printf "Created all threads" [] ;;;
  join_threads [0; 1; 2; 3; 4; 5; 6; 7] ;;;
  printf "counter = %d" [PZ joined] ;;;
  Ret 0.
End FutexMutex.

(** What [main] promises: nothing undefined, no deadlock, and [counter = 0] is
    printed. *)
Definition correct {L M} (step : nat -> L -> M -> list (L * M)) (undef fin : list L * M -> Prop)
    (counter : list L * M -> Z) (c0 : list L * M) : Prop :=
  forall c, reachable step c0 c ->
    ~ undef c /\ (fin c \/ can_move step c) /\ (fin c -> counter c = 0).

Ltac worker_roles :=
  cbn; repeat (apply Forall_cons_2; [first [by left|by right]|]); apply Forall_nil_2.

(** C16. The programs that protect the counter by test-and-set, by a semaphore
    and by the futex mutex (with or without spurious wake-ups) are correct in
    every interleaving: the [int] never overflows, the threads never deadlock,
    and once all threads have returned the counter is 0. *)
Theorem counter_programs :
  correct AtomicTas.step (undefined tas AtomicTas.client) (finished tas AtomicTas.client)
    (fun c => c.2.2) AtomicTas.threads /\
  correct Semaphore.step (undefined semaphore Semaphore.client)
    (finished semaphore Semaphore.client) (fun c => c.2.2) Semaphore.threads /\
  forall b, correct (FutexMutex.step b) (undefined (futex b) FutexMutex.client)
    (finished (futex b) FutexMutex.client) (fun c => c.2.2) (FutexMutex.threads b).
Proof.
  assert (forall K n (Hk : LockOk K n) cs, Z.of_nat n * ITERATIONS <= INT_MAX ->
    workers n cs -> balance cs = 0 ->
    correct (thread_step K (counter_client ITERATIONS)) (undefined K (counter_client ITERATIONS))
      (finished K (counter_client ITERATIONS)) (fun c => c.2.2)
      (counter_start ITERATIONS K cs)) as H.
  { intros K n Hk cs Hn Hw Hb c Hc.
    destruct (counter_sound K n Hk ITERATIONS cs c) as (? & ? & Hf); try done.
    split_and!; try done. intros Hfin. rewrite (Hf Hfin), Hb. lia. }
  split_and!; [apply (H tas 2%nat)|apply (H semaphore 2%nat)|intros b; apply (H (futex b) 8%nat)];
    try (apply _ || done); split; try done; worker_roles.
Qed.

(** C17. No lost wake-up: in every state the counter program reaches under the
    futex mutex without spurious wake-ups, for any number of threads and
    iterations, if a thread is asleep in the queue of FUTEX_WAIT then some
    other thread can take a step. *)
Theorem futex_no_lost_wakeup n iters cs ls s d i c :
  0 <= iters -> Z.of_nat n * iters <= INT_MAX -> workers n cs ->
  reachable (thread_step (futex false) (counter_client iters))
    (counter_start iters (futex false) cs) (ls, (s, d)) ->
  ls !! i = Some (Locking FxSleep, c) -> i ∈ waiters s ->
  exists j l, j <> i /\ ls !! j = Some l /\
    thread_step (futex false) (counter_client iters) j l (s, d) <> [].
Proof.
  intros H0 Hmax Hw Hr Hi Hin.
  destruct (counter_sound (futex false) n _ iters cs _ H0 Hmax Hw Hr) as (_ & [Hf|(j & l & Hj & Hne)] & _).
  - by destruct (Hf i _ Hi).
  - exists j, l. split_and!; try done. intros ->.
    pose proof (eq_trans (eq_sym Hi) Hj) as E. injection E as <-. destruct s as [st q]. simpl in *. by rewrite decide_True in Hne.
Qed.

(** Two incrementers: the second finds the lock taken and falls asleep. *)
Lemma futex_no_lost_wakeup_witness :
  exists ls s d,
    reachable (thread_step (futex false) (counter_client 1))
      (counter_start 1 (futex false) [incrementer; decrementer]) (ls, (s, d)) /\
    1%nat ∈ waiters s /\
    exists j l, j <> 1%nat /\ ls !! j = Some l /\
      thread_step (futex false) (counter_client 1) j l (s, d) <> [].
Proof.
  pose (c := schedule (thread_step (futex false) (counter_client 1))
    [(0, 0); (0, 0); (1, 0); (1, 0); (1, 0); (1, 0)]%nat
    (counter_start 1 (futex false) [incrementer; decrementer])).
  destruct c as [[ls [s d]]|] eqn:E; [|vm_compute in E; discriminate].
  exists ls, s, d.
  assert (reachable (thread_step (futex false) (counter_client 1))
      (counter_start 1 (futex false) [incrementer; decrementer]) (ls, (s, d))) as Hr
    by (eapply schedule_reachable; exact E).
  assert (exists c1, ls !! 1%nat = Some (Locking FxSleep, c1) /\ 1%nat ∈ waiters s) as (c1 & Hl & Hq).
  { vm_compute in E. injection E as <- <- <-. eexists. split; [reflexivity|]. simpl. set_solver. }
  split; [exact Hr|]. split; [exact Hq|].
  apply (futex_no_lost_wakeup 2 1 [incrementer; decrementer] ls s d 1 c1).
  - lia.
  - vm_compute. discriminate.
  - split; [done|]. worker_roles.
  - exact Hr.
  - exact Hl.
  - exact Hq.
Defined.
