(* ===== verification/Bank.v ===== *)
(** * sync/code: the bank of race.c, peterson_*.c and atomic_swap.c

    Threads transfer random amounts between ten accounts.  [transfer] is a
    test, two loads and two stores; the sources differ only in the lock
    around it.  [rand_r] of the C library is a parameter: from a seed it gives
    a value and the next seed. *)

From S2P Require Import Prelude CLib Os Threads Locks.

Local Open Scope Z_scope.

Definition NUM_ACCOUNTS : Z := 10.
Definition ITERATIONS : Z := 10000000.
Definition INITIAL_BALANCE : Z := 1000.

(** Where a thread is, with its local variables [src], [dst], [amount] and the
    register [r] of a read-modify-write. *)
Inductive bank_pc :=
| BkSrc
| BkDst (src : Z)
| BkAmount (src dst : Z)
| BkCall (src dst amount : Z)
| BkTest (src dst amount : Z)
| BkLoadSrc (src dst amount : Z)
| BkStoreSrc (src dst amount r : Z)
| BkLoadDst (src dst amount : Z)
| BkStoreDst (src dst amount r : Z)
| BkReturn.

Record simulator := Simulator { bk_i : Z; seed : Z; bk_pc : bank_pc }.

Definition goto (c : simulator) (p : bank_pc) : simulator := Simulator (bk_i c) (seed c) p.

(** [rand_r] returns an [int] between 0 and RAND_MAX. *)
Definition rand_ok (rand_r : Z -> Z * Z) : Prop := forall s, 0 <= (rand_r s).1 < 2 ^ 31.

Section Client.
Context (rand_r : Z -> Z * Z) (iters : Z).

(** The choice of the accounts and the amount. *)
Definition client_simulator (_ : nat) (c : simulator) : out_action simulator :=
  let '(v, seed') := rand_r (seed c) in
  match bk_pc c with
  | BkSrc =>
      if bk_i c <? iters then
        OLocal (Simulator (bk_i c) seed' (BkDst (Z.rem v NUM_ACCOUNTS)))
      else OStop
  | BkDst src =>
      (* dst = rand_r(&seed) % NUM_ACCOUNTS; while (src == dst) again *)
      let dst := Z.rem v NUM_ACCOUNTS in
      OLocal (Simulator (bk_i c) seed'
        (if src =? dst then BkDst src else BkAmount src dst))
  | BkAmount src dst =>
      OLocal (Simulator (bk_i c) seed' (BkCall src dst (Z.rem v 100 + 1)))
  | BkCall src dst amount => OLock (goto c (BkTest src dst amount))
  | _ => OStop
  end.

(** [transfer], one access of [balances] at a time. *)
Definition transfer (_ : nat) (c : simulator) (balances : list Z)
    : in_action simulator (list Z) :=
  match bk_pc c with
  | BkTest src dst amount =>
      match mem_load balances src with
      | Some b => ICont (goto c (if b <? amount then BkReturn else BkLoadSrc src dst amount)) balances
      | None => IUndef
      end
  | BkLoadSrc src dst amount =>
      match mem_load balances src with
      | Some r => ICont (goto c (BkStoreSrc src dst amount r)) balances
      | None => IUndef
      end
  | BkStoreSrc src dst amount r =>
      match checked_int (r - amount) ≫= (fun v => mem_store balances src [v]) with
      | Some b => ICont (goto c (BkLoadDst src dst amount)) b
      | None => IUndef
      end
  | BkLoadDst src dst amount =>
      match mem_load balances dst with
      | Some r => ICont (goto c (BkStoreDst src dst amount r)) balances
      | None => IUndef
      end
  | BkStoreDst src dst amount r =>
      match checked_int (r + amount) ≫= (fun v => mem_store balances dst [v]) with
      | Some b => ICont (goto c BkReturn) b
      | None => IUndef
      end
  | BkReturn => IUnlock (Simulator (bk_i c + 1) (seed c) BkSrc)
  | _ => IUndef
  end.

Definition bank_client : Client := {|
  cl_local := simulator; cl_data := list Z; cl_out := client_simulator; cl_in := transfer;
|}.
End Client.

(** [total_balance]; [None] is an overflow of [total]. *)
Fixpoint total_from (total : Z) (balances : list Z) : option Z :=
  match balances with
  | [] => Some total
  | b :: bs => t ← checked_int (total + b); total_from t bs
  end.
Definition total_balance (balances : list Z) : option Z := total_from 0 balances.

Definition initial_balances : list Z := replicate (Z.to_nat NUM_ACCOUNTS) INITIAL_BALANCE.

Definition thread (s : Z) : simulator := Simulator 0 s BkSrc.

(** ** Sums of balances *)
Fixpoint sum (l : list Z) : Z := match l with [] => 0 | x :: l' => x + sum l' end.

Lemma sum_insert l i x y : l !! i = Some x -> sum (<[i := y]> l) = sum l - x + y.
Proof.
  revert i. induction l as [|z l IH]; intros [|i] H; simplify_eq/=; [lia|].
  rewrite (IH i H). lia.
Qed.

Lemma sum_nonneg l : Forall (fun b => 0 <= b) l -> 0 <= sum l.
Proof. induction 1; simpl; lia. Qed.

Lemma sum_elem l i x : Forall (fun b => 0 <= b) l -> l !! i = Some x -> x <= sum l.
Proof.
  intros H. revert i. induction H as [|z l Hz Hl IH]; intros [|i] Hi; simplify_eq/=.
  - pose proof (sum_nonneg l Hl). lia.
  - specialize (IH i Hi). lia.
Qed.

Lemma total_from_sum t l :
  0 <= t -> Forall (fun b => 0 <= b) l -> t + sum l <= INT_MAX ->
  total_from t l = Some (t + sum l).
Proof.
  intros Ht H. revert t Ht. induction H as [|b l Hb Hl IH]; intros t Ht Hm; simpl in *;
    [f_equal; lia|].
  pose proof (sum_nonneg l Hl). limits.
  assert (checked_int (t + b) = Some (t + b)) as -> by (apply checked_int_Some; lia).
  simpl. rewrite IH by lia. f_equal. lia.
Qed.

Lemma mem_load_lookup {A} (l : list A) i x :
  mem_load l i = Some x <-> 0 <= i /\ l !! Z.to_nat i = Some x.
Proof. unfold mem_load. destruct (Z.leb_spec 0 i); split; intros; try tauto; try lia; done. Qed.

Lemma mem_store_insert {A} (l : list A) i x :
  0 <= i < Z.of_nat (length l) -> mem_store l i [x] = Some (<[Z.to_nat i := x]> l).
Proof.
  intros Hi. rewrite mem_store_is_Some by (simpl; lia). f_equal.
  rewrite insert_take_drop by lia. simpl. do 3 f_equal. lia.
Qed.

Lemma account_exists (l : list Z) i :
  length l = Z.to_nat NUM_ACCOUNTS -> 0 <= i < NUM_ACCOUNTS ->
  exists x, l !! Z.to_nat i = Some x /\ mem_load l i = Some x.
Proof.
  intros Hl Hi. destruct (lookup_lt_is_Some_2 l (Z.to_nat i)) as [x Hx]; [lia|].
  exists x. split; [done|]. apply mem_load_lookup. split; [lia|done].
Qed.

(** ** The invariant *)
Section Invariant.
Context (rand_r : Z -> Z * Z) (iters T : Z).
Hypothesis rand_range : rand_ok rand_r.
Hypothesis T_int : T <= INT_MAX.

Definition account (i : Z) : Prop := 0 <= i < NUM_ACCOUNTS.
Definition args_ok (s d a : Z) : Prop := account s /\ account d /\ s <> d /\ 1 <= a <= 100.

Definition simulator_ok (c : simulator) : Prop :=
  match bk_pc c with
  | BkSrc | BkReturn => True
  | BkDst s => account s
  | BkAmount s d => account s /\ account d /\ s <> d
  | BkCall s d a | BkTest s d a | BkLoadSrc s d a | BkStoreSrc s d a _
  | BkLoadDst s d a | BkStoreDst s d a _ => args_ok s d a
  end.

(** Ten accounts, none overdrawn, [t] in total. *)
Definition accounts (l : list Z) (t : Z) : Prop :=
  length l = Z.to_nat NUM_ACCOUNTS /\ Forall (fun b => 0 <= b) l /\ sum l = t.

Definition bank_R (cs : list simulator) (l : list Z) : Prop :=
  Forall simulator_ok cs /\ accounts l T.

(** Inside [transfer] the amount is missing between the two stores, and a
    register holds the balance it was loaded from. *)
Definition in_transfer (c : simulator) (l : list Z) : Prop :=
  match bk_pc c with
  | BkTest _ _ _ | BkReturn => accounts l T
  | BkLoadSrc s d a => accounts l T /\ forall x, l !! Z.to_nat s = Some x -> a <= x
  | BkStoreSrc s d a r => accounts l T /\ l !! Z.to_nat s = Some r /\ a <= r
  | BkLoadDst s d a => accounts l (T - a)
  | BkStoreDst s d a r => accounts l (T - a) /\ l !! Z.to_nat d = Some r
  | _ => False
  end.

Definition bank_CS (i : nat) (cs : list simulator) (l : list Z) : Prop :=
  Forall simulator_ok cs /\ forall c, cs !! i = Some c -> in_transfer c l.

Definition bank_ready (c : simulator) : Prop := exists s d a, bk_pc c = BkTest s d a.

Lemma rem_account v : 0 <= v < 2 ^ 31 -> account (Z.rem v NUM_ACCOUNTS).
Proof. intros Hv. unfold account, NUM_ACCOUNTS. apply Z.rem_bound_pos; lia. Qed.

Lemma local_ok i c c' :
  simulator_ok c -> client_simulator rand_r iters i c = OLocal c' \/
    client_simulator rand_r iters i c = OLock c' -> simulator_ok c'.
Proof.
  unfold client_simulator. pose proof (rand_range (seed c)) as Hv.
  destruct (rand_r (seed c)) as [v s']. simpl in Hv. unfold simulator_ok. intros Hc Ha.
  pose proof (rem_account v Hv) as Hr.
  pose proof (Z.rem_bound_pos v 100 ltac:(lia) ltac:(lia)).
  destruct (bk_pc c) eqn:Ep; try (destruct Ha; done).
  - destruct (bk_i c <? iters); destruct Ha; simplify_eq/=; done.
  - destruct Ha as [[= <-]|?]; [|done]. cbn [bk_pc].
    destruct (Z.eqb_spec src (Z.rem v NUM_ACCOUNTS)); auto.
  - destruct Ha as [[= <-]|?]; [|done]. cbn [bk_pc]. unfold args_ok. tauto || (destruct_and!; split_and!; auto; lia).
  - destruct Ha as [?|[= <-]]; done.
Qed.

Lemma lock_ready i c c' : client_simulator rand_r iters i c = OLock c' -> bank_ready c'.
Proof.
  unfold client_simulator, bank_ready. destruct (rand_r (seed c)) as [v s'].
  destruct (bk_pc c); try done; [by destruct (bk_i c <? iters)|]. intros [= <-]. simpl. eauto.
Qed.

Lemma accounts_store l t i x y :
  accounts l t -> l !! Z.to_nat i = Some x -> 0 <= y ->
  accounts (<[Z.to_nat i := y]> l) (t - x + y).
Proof.
  intros (Hl & Hp & Hs) Hi Hy. split_and!.
  - by rewrite length_insert.
  - by apply Forall_insert.
  - rewrite (sum_insert _ _ _ _ Hi). lia.
Qed.

(** A store of a sum that fits: the checks of [transfer] pass. *)
Lemma transfer_store l t i x v :
  accounts l t -> account i -> l !! Z.to_nat i = Some x -> 0 <= v <= INT_MAX ->
  (checked_int v ≫= fun v => mem_store l i [v]) = Some (<[Z.to_nat i := v]> l).
Proof.
  intros (Hl & _) Hi Hx Hv. limits.
  assert (checked_int v = Some v) as -> by (apply checked_int_Some; lia). simpl.
  apply mem_store_insert. unfold account, NUM_ACCOUNTS in *. lia.
Qed.

(** One step of [transfer] is defined, and keeps what it should. *)
Lemma transfer_step i c l :
  simulator_ok c -> in_transfer c l ->
  match transfer i c l with
  | ICont c' l' => simulator_ok c' /\ in_transfer c' l'
  | IUnlock c' => simulator_ok c' /\ accounts l T
  | IUndef => False
  end.
Proof.
  unfold simulator_ok, in_transfer, transfer. destruct (bk_pc c) as [| | | |s d a|s d a|s d a r|s d a|s d a r|] eqn:Ep;
    try done; unfold args_ok in *.
  - intros (Hs & Hd & Hne & Ha) Hl. destruct (account_exists l s) as (x & Hx & ->); [apply Hl|done|].
    simpl. destruct (Z.ltb_spec x a); simpl; [done|]. split_and!; try done; try apply Ha.
    intros y Hy. simplify_eq. lia.
  - intros (Hs & Hd & Hne & Ha) [Hl Hax]. destruct (account_exists l s) as (x & Hx & ->); [apply Hl|done|].
    simpl. split_and!; try done; try apply Ha. by apply Hax.
  - intros (Hs & Hd & Hne & Ha) (Hl & Hr & Har).
    assert (0 <= r <= T) as Hrb.
    { destruct Hl as (_ & Hp & <-). split; [by eapply Forall_lookup_1 in Hr|by eapply sum_elem]. }
    rewrite (transfer_store l T s r (r - a)) by (done || lia).
    simpl. split_and!; try done; try apply Ha.
    replace (T - a) with (T - r + (r - a)) by lia. apply accounts_store; [done|done|lia].
  - intros (Hs & Hd & Hne & Ha) Hl. destruct (account_exists l d) as (x & Hx & ->); [apply Hl|done|].
    simpl. split_and!; try done; apply Ha.
  - intros (Hs & Hd & Hne & Ha) (Hl & Hr).
    assert (0 <= r <= T - a) as Hrb.
    { destruct Hl as (_ & Hp & <-). split; [by eapply Forall_lookup_1 in Hr|by eapply sum_elem]. }
    rewrite (transfer_store l (T - a) d r (r + a)) by (done || lia).
    simpl. split; [done|]. replace T with (T - a - r + (r + a)) by lia.
    apply accounts_store; [done|done|lia].
Qed.

#[export] Instance bank_rule : Rule (bank_client rand_r iters) bank_R bank_CS bank_ready.
Proof.
  constructor; simpl.
  - intros i cs l c c' [Hcs Hl] Hi Ho. split; [|done]. apply Forall_insert; [done|].
    eapply local_ok; [by eapply Forall_lookup_1|eauto].
  - intros i cs l c c' [Hcs Hl] Hi Ho. split; [split; [|done]|].
    + apply Forall_insert; [done|]. eapply local_ok; [by eapply Forall_lookup_1|eauto].
    + by eapply lock_ready.
  - intros i j cs l c c' [Hcs Hl] Hij Hj Ho. split.
    + apply Forall_insert; [done|]. eapply local_ok; [by eapply Forall_lookup_1|eauto].
    + intros x Hx. rewrite list_lookup_insert_ne in Hx by done. auto.
  - intros i j cs l c c' [Hcs Hl] Hij Hj Ho. split; [split|].
    + apply Forall_insert; [done|]. eapply local_ok; [by eapply Forall_lookup_1|eauto].
    + intros x Hx. rewrite list_lookup_insert_ne in Hx by done. auto.
    + by eapply lock_ready.
  - intros i cs l c [Hcs Hl] Hi (s & d & a & Hp). split; [done|]. intros x Hx. simplify_eq.
    unfold in_transfer. by rewrite Hp.
  - intros i cs l c c' l' [Hcs Hl] Hi Ha.
    pose proof (transfer_step i c l (Forall_lookup_1 _ _ _ _ Hcs Hi) (Hl c Hi)) as Ht.
    rewrite Ha in Ht. destruct Ht as [Ho Hin]. split; [by apply Forall_insert|].
    intros x Hx. rewrite list_lookup_insert_eq in Hx by by eapply lookup_lt_Some. by simplify_eq.
  - intros i cs l c c' [Hcs Hl] Hi Ha.
    pose proof (transfer_step i c l (Forall_lookup_1 _ _ _ _ Hcs Hi) (Hl c Hi)) as Ht.
    rewrite Ha in Ht. destruct Ht as [Ho Hin]. split; [by apply Forall_insert|done].
  - intros i cs l c [Hcs Hl] Hi Ha.
    pose proof (transfer_step i c l (Forall_lookup_1 _ _ _ _ Hcs Hi) (Hl c Hi)) as Ht.
    by rewrite Ha in Ht.
Qed.
End Invariant.

(** ** The programs *)
Definition bank_start (K : Lock) rand_r iters (seeds : list Z) :=
  start K (bank_client rand_r iters) (thread <$> seeds) initial_balances.

Lemma initial_accounts : accounts initial_balances (NUM_ACCOUNTS * INITIAL_BALANCE).
Proof. split_and!; [done|by apply Forall_replicate|done]. Qed.

(** Nobody is inside [transfer]. *)
Definition quiet {K : Lock} {A M} (c : list (mode lk_pc * A) * M) : Prop :=
  forall i l, c.1 !! i = Some l -> l.1 <> In.

(** What the bank promises of every state it reaches. *)
Definition bank_correct (K : Lock) rand_r iters (c0 : list (mode lk_pc * simulator) * (lk_mem * list Z))
    : Prop :=
  let P := bank_client rand_r iters in
  forall c, reachable (thread_step K P) c0 c ->
    ~ undefined K P c /\ (finished K P c \/ can_move (thread_step K P) c) /\
    (quiet c ->
      total_balance c.2.2 = Some (NUM_ACCOUNTS * INITIAL_BALANCE) /\ Forall (fun b => 0 <= b) c.2.2).

Lemma bank_sound (K : Lock) n (Hk : LockOk K n) rand_r iters seeds :
  rand_ok rand_r -> length seeds = n -> bank_correct K rand_r iters (bank_start K rand_r iters seeds).
Proof.
  intros Hrand Hn. set (T := NUM_ACCOUNTS * INITIAL_BALANCE).
  assert (T <= INT_MAX) as HT by (vm_compute; discriminate).
  pose proof (bank_rule rand_r iters T Hrand HT) as Hrule.
  assert (length (thread <$> seeds) = n) as Hln by by rewrite length_fmap.
  assert (bank_R T (thread <$> seeds) initial_balances) as HR.
  { split; [|apply initial_accounts]. apply Forall_fmap, Forall_true. done. }
  unfold bank_correct. intros c Hc. set (P := bank_client rand_r iters) in *. split_and!.
  - by eapply (never_undefined K P).
  - by eapply (deadlock_free K P).
  - intros Hq.
    pose proof (system_invariant K P _ _ _ _ _ c Hln HR Hc) as HI. destruct c as [ls [k l]].
    destruct HI as (_ & _ & [(_ & _ & Hl & Hp & Hs)|(i & Hi & _)]).
    + simpl. split; [|done]. unfold total_balance.
      rewrite total_from_sum by (done || lia). simpl. by rewrite Hs.
    + exfalso. apply list_lookup_fmap_Some in Hi as ([m x] & E & Hl). simpl in E. subst m.
      by eapply Hq in Hl.
Qed.

(** [main]: the threads run between their creation and the joins, which leave
    [joined] in [balances]. *)
Definition bank_main (joined : list Z) : prog Z :=
  let! initial_total := defined "total: overflow" (total_balance initial_balances) in
  printf "Initial total balance: %d" [PZ initial_total] ;;;
  let! ok := create_threads "client_simulator" [0; 1] in
  if negb ok then Ret 1 else
  join_threads [0; 1] ;;;
  let! final_total := defined "total: overflow" (total_balance joined) in
  printf "Final total balance: %d" [PZ final_total] ;;;
  Ret 0.

Module AtomicSwap.
Definition client rand_r := bank_client rand_r ITERATIONS.
Definition step rand_r := thread_step swap (client rand_r).
Definition threads rand_r (seed0 seed1 : Z) := bank_start swap rand_r ITERATIONS [seed0; seed1].
Definition main := bank_main.
End AtomicSwap.

Module PetersonAtomic.
Definition client rand_r := bank_client rand_r ITERATIONS.
Definition step rand_r := thread_step peterson (client rand_r).
Definition threads rand_r (seed0 seed1 : Z) := bank_start peterson rand_r ITERATIONS [seed0; seed1].
Definition main := bank_main.
End PetersonAtomic.

(** race.c calls [transfer] with no lock at all: the threads are inside or
    outside it, nothing else. *)
Module Race.
Definition no_lock : Lock := {|
  lk_mem := unit; lk_pc := unit; lk_init := tt;
  lock_pc _ := tt; unlock_pc _ := tt; lk_step _ _ s := [(None, s)];
|}.
Definition client rand_r := bank_client rand_r ITERATIONS.
Definition step rand_r := thread_step no_lock (client rand_r).
Definition threads rand_r (seed0 seed1 : Z) := bank_start no_lock rand_r ITERATIONS [seed0; seed1].
Definition main := bank_main.
End Race.

(** C18. The transfers of atomic_swap.c and peterson_atomic.c conserve money:
    whatever [rand_r] returns and however the two threads interleave, no
    access leaves the array, no balance overflows, the threads never deadlock,
    and in every state where no thread is inside [transfer], in particular
    when [main] prints it, [total_balance] is 10000 and no account is
    overdrawn. *)
Theorem bank_programs rand_r seed0 seed1 :
  rand_ok rand_r ->
  bank_correct swap rand_r ITERATIONS (AtomicSwap.threads rand_r seed0 seed1) /\
  bank_correct peterson rand_r ITERATIONS (PetersonAtomic.threads rand_r seed0 seed1).
Proof. intros Hr. split; by eapply bank_sound; [apply _|..]. Qed.

(** A generator for concrete runs: 0, 1, 2, ... *)
Definition counting (s : Z) : Z * Z := (s mod 2 ^ 31, s + 1).

Lemma counting_ok : rand_ok counting.
Proof. intros s. apply Z.mod_pos_bound. lia. Qed.

Lemma bank_programs_witness :
  rand_ok counting /\
  bank_correct swap counting ITERATIONS (AtomicSwap.threads counting 3 5) /\
  bank_correct peterson counting ITERATIONS (PetersonAtomic.threads counting 3 5).
Proof. split; [exact counting_ok|]. apply (bank_programs counting 3 5). exact counting_ok. Defined.

(** Without a lock the same client loses money: race.c reaches a state
    where both threads are between two transfers and the total is not the
    initial one. *)
Theorem race_loses_money :
  exists rand_r seed0 seed1 c t,
    rand_ok rand_r /\ reachable (Race.step rand_r) (Race.threads rand_r seed0 seed1) c /\
    (forall i l, c.1 !! i = Some l -> l.1 = (Out : mode (@lk_pc Race.no_lock))) /\
    total_balance c.2.2 = Some t /\ t <> NUM_ACCOUNTS * INITIAL_BALANCE.
Proof.
  pose (sch := ([(0, 0); (0, 0); (0, 0); (0, 0); (0, 0); (0, 0); (0, 0);
                 (1, 0); (1, 0); (1, 0); (1, 0); (1, 0); (1, 0); (1, 0);
                 (0, 0); (0, 0); (0, 0); (0, 0); (0, 0);
                 (1, 0); (1, 0); (1, 0); (1, 0); (1, 0)])%nat).
  destruct (schedule (Race.step counting) sch (Race.threads counting 0 0)) as [c|] eqn:E;
    [|vm_compute in E; discriminate].
  exists counting, 0, 0, c, 10003.
  split; [exact counting_ok|]. split; [by eapply schedule_reachable|].
  vm_compute in E. injection E as <-.
  split; [|split; [vm_compute; reflexivity|vm_compute; discriminate]].
  intros [|[|i]] l Hl; by simplify_eq/=.
Qed.
