(* ===== verification/Tso.v ===== *)
(** * x86-TSO: store_buffer_test.c and peterson_naive.c

    On x86 a store waits in the store buffer of its processor before it
    reaches memory; the processor's own loads see it, the others do not.  The
    memory here has one buffer per thread, and draining the oldest store of
    thread [i] is one of the steps of thread [i], possible at any moment.  The
    state spaces are finite and are explored exhaustively by [explore]. *)

From S2P Require Import Prelude Threads.

Local Open Scope Z_scope.

(** ** Exhaustive exploration

    Visited states are kept in buckets by a hash of the state; nothing is
    assumed of the hash. *)
Section Explore.
Context {C : Type} `{EqDecision C} (hash : C -> positive) (next : C -> list C).

Notation visited := (gmap positive (list C)).

Definition seen_in (s : visited) (c : C) : bool :=
  existsb (fun x => bool_decide (x = c)) (default [] (s !! hash c)).
Definition visit (c : C) (s : visited) : visited :=
  <[hash c := c :: default [] (s !! hash c)]> s.

Fixpoint explore (fuel : nat) (todo : list C) (s : visited) : visited :=
  match fuel, todo with
  | O, _ | _, [] => s
  | S f, c :: todo' =>
      if seen_in s c then explore f todo' s else explore f (next c ++ todo') (visit c s)
  end.

Definition explored (s : visited) : list C := concat (snd <$> map_to_list s).

(** [s] is closed under steps and satisfies [P]. *)
Definition closed_and (P : C -> bool) (s : visited) : bool :=
  forallb (fun c => P c && forallb (seen_in s) (next c)) (explored s).

Lemma seen_explored s c : seen_in s c = true -> c ∈ explored s.
Proof.
  unfold seen_in, explored. destruct (s !! hash c) as [b|] eqn:E; [|done]. simpl.
  intros (x & Hx & ->%bool_decide_eq_true)%existsb_exists.
  apply list_elem_of_In, in_concat. exists b. split; [|done].
  apply list_elem_of_In, list_elem_of_fmap. exists (hash c, b). split; [done|].
  by apply elem_of_map_to_list.
Qed.

Lemma explored_invariant (R : C -> C -> Prop) P s c0 c :
  (forall a b, R a b -> b ∈ next a) -> seen_in s c0 = true -> closed_and P s = true ->
  rtc R c0 c -> P c = true.
Proof.
  intros HR H0 Hc Hr. unfold closed_and in Hc. rewrite forallb_forall in Hc.
  assert (forall x, seen_in s x = true -> P x = true /\ forall y, y ∈ next x -> seen_in s y = true) as Hs.
  { intros x Hx%seen_explored%list_elem_of_In. apply Hc in Hx. apply andb_prop in Hx as [HP Hn].
    split; [done|]. intros y Hy. rewrite forallb_forall in Hn. by apply Hn, list_elem_of_In. }
  apply Hs. induction Hr; [done|]. apply IHHr. eapply Hs; eauto.
Qed.

(** Everything visited is reachable. *)
Lemma explore_reachable (R : C -> C -> Prop) c0 fuel todo s :
  (forall a b, b ∈ next a -> R a b) ->
  Forall (rtc R c0) todo -> (forall k b, s !! k = Some b -> Forall (rtc R c0) b) ->
  Forall (rtc R c0) (explored (explore fuel todo s)).
Proof.
  intros HR. revert todo s. induction fuel as [|f IH]; intros todo s Ht Hs.
  - apply Forall_forall. intros x Hx. unfold explored in Hx.
    apply list_elem_of_In, in_concat in Hx as (b & Hb%list_elem_of_In & Hx%list_elem_of_In).
    apply list_elem_of_fmap in Hb as ([k b'] & -> & Hk%elem_of_map_to_list).
    specialize (Hs _ _ Hk). rewrite Forall_forall in Hs. auto.
  - destruct todo as [|c todo].
    { specialize (IH [] s Ht Hs). by destruct f. }
    simpl.
    apply Forall_cons in Ht as [Hc Ht].
    destruct (seen_in s c); [by apply IH|]. apply IH.
    + apply Forall_app. split; [|done]. apply Forall_forall. intros x Hx.
      eapply rtc_r; [done|]. auto.
    + intros k b. unfold visit. rewrite lookup_insert_Some. intros [[_ <-]|[_ Hb]]; [|eauto].
      constructor; [done|]. destruct (s !! hash c) eqn:E; simpl; eauto.
Qed.
End Explore.

(** The successors of a state of a system of threads. *)
Definition successors {L M} (step : nat -> L -> M -> list (L * M)) (c : list L * M)
    : list (list L * M) :=
  concat (imap (fun i l => (fun '(l', s') => (<[i := l']> c.1, s')) <$> step i l c.2) c.1).

Lemma move_successors {L M} (step : nat -> L -> M -> list (L * M)) a b :
  move step a b -> b ∈ successors step a.
Proof.
  intros [i l l' ls s s' Hl Hs]. unfold successors. apply list_elem_of_In, in_concat. simpl.
  exists ((fun '(l', s') => (<[i := l']> ls, s')) <$> step i l s). split.
  - apply list_elem_of_In, list_elem_of_lookup. exists i. by rewrite list_lookup_imap, Hl.
  - apply list_elem_of_In, list_elem_of_fmap. by exists (l', s').
Qed.

Lemma successors_move {L M} (step : nat -> L -> M -> list (L * M)) a b :
  b ∈ successors step a -> move step a b.
Proof.
  destruct a as [ls s]. unfold successors. intros H%list_elem_of_In. simpl in H.
  apply in_concat in H as (x & Hx%list_elem_of_In & Hb%list_elem_of_In).
  apply list_elem_of_lookup in Hx as [i Hi]. apply list_lookup_imap_Some in Hi as (l & Hl & ->).
  apply list_elem_of_fmap in Hb as ([l' s'] & -> & Hin). by econstructor.
Qed.

Section System.
Context {L M : Type} `{EqDecision L} `{EqDecision M} (hash : list L * M -> positive).
Context (step : nat -> L -> M -> list (L * M)) (c0 : list L * M) (fuel : nat).

Definition states : gmap positive (list (list L * M)) :=
  explore hash (successors step) fuel [c0] ∅.

Lemma states_invariant P c :
  seen_in hash states c0 && closed_and hash (successors step) P states = true ->
  reachable step c0 c -> P c = true.
Proof.
  intros [H0 Hc]%andb_prop. eapply explored_invariant; [|done|done]. apply move_successors.
Qed.

Lemma states_reachable P :
  existsb P (explored states) = true -> exists c, reachable step c0 c /\ P c = true.
Proof.
  intros (c & Hc%list_elem_of_In & HP)%existsb_exists. exists c. split; [|done].
  assert (Forall (rtc (move step) c0) (explored states)) as H.
  { apply explore_reachable; [apply successors_move|by repeat constructor|done]. }
  rewrite Forall_forall in H. by apply H.
Qed.
End System.

(** ** The memory *)
Record tso := Tso { t_mem : list Z; t_buf : list (list (nat * Z)) }.

#[export] Instance tso_eq_dec : EqDecision tso.
Proof. solve_decision. Defined.
(** A load sees the youngest store of the thread's own buffer, or memory. *)
Definition tso_load (i l : nat) (m : tso) : Z :=
  foldl (fun v e => if decide (e.1 = l) then e.2 else v) (nth l (t_mem m) 0)
    (default [] (t_buf m !! i)).
Definition tso_store (i l : nat) (v : Z) (m : tso) : tso :=
  Tso (t_mem m) (alter (fun b => b ++ [(l, v)]) i (t_buf m)).
(** A fence, and every locked instruction, waits for the buffer to drain. *)
Definition drained (i : nat) (m : tso) : bool :=
  match t_buf m !! i with Some (_ :: _) => false | _ => true end.
Definition tso_drain (i : nat) (m : tso) : list tso :=
  match t_buf m !! i with
  | Some ((l, v) :: b) => [Tso (<[l := v]> (t_mem m)) (<[i := b]> (t_buf m))]
  | _ => []
  end.

(** ** store_buffer_test.c *)
Module StoreBufferTest.
Definition store1 : nat := 0.
Definition store2 : nat := 1.
Definition load1 : nat := 2.
Definition load2 : nat := 3.

(** The threads [th1], [th2] and [main] meet at one barrier; [phase] changes
    when the third arrives, and a thread passes when its phase is over. *)
Record shared := Shared { memory : tso; arrived : nat; phase : bool }.

Inductive pc :=
| Arrive (next_store : bool)       (* pthread_barrier_wait, first or second *)
| Waiting (next_store ph : bool)   (* blocked in the barrier *)
| DoStore | DoFence | DoLoad | DoSave (r : Z)
| Reset2 | Reset1 | Check1 | Check2 | Reorder.

#[export] Instance shared_eq_dec : EqDecision shared.
Proof. solve_decision. Defined.
#[export] Instance pc_eq_dec : EqDecision pc.
Proof. solve_decision. Defined.
Definition pc_code (p : pc) : Z :=
  match p with
  | Arrive b => Z.b2z b | Waiting b c => 2 + Z.b2z b + 2 * Z.b2z c
  | DoStore => 6 | DoFence => 7 | DoLoad => 8 | DoSave r => 9 + r
  | Reset2 => 11 | Reset1 => 12 | Check1 => 13 | Check2 => 14 | Reorder => 15
  end.
Definition code (c : list pc * shared) : positive :=
  let buf b := foldl (fun h (e : nat * Z) => 8 * h + 2 * Z.of_nat e.1 + e.2) 1 b in
  let h := foldl (fun h p => 16 * h + pc_code p) 1 c.1 in
  let h := foldl (fun h v => 2 * h + v) h (t_mem (memory c.2)) in
  let h := foldl (fun h b => 64 * h + buf b) h (t_buf (memory c.2)) in
  Z.to_pos (8 * h + Z.of_nat (arrived c.2) * 2 + Z.b2z (phase c.2)).

Definition with_mem (s : shared) (m : tso) : shared := Shared m (arrived s) (phase s).

(** [pthread_barrier_wait]: the third thread opens the barrier. *)
Definition arrive (i : nat) (first : bool) (after : pc) (s : shared) : list (pc * shared) :=
  if drained i (memory s) then
    if decide (arrived s = 2%nat) then [(after, Shared (memory s) 0 (negb (phase s)))]
    else [(Waiting first (phase s), Shared (memory s) (S (arrived s)) (phase s))]
  else [].

(** Body of [th1] (i = 0) and [th2] (i = 1); [fenced] enables the
    commented-out [atomic_thread_fence]. *)
Definition th_step (fenced : bool) (i : nat) (p : pc) (s : shared) : list (pc * shared) :=
  let mine := if decide (i = 0%nat) then store1 else store2 in
  let other := if decide (i = 0%nat) then store2 else store1 in
  let result := if decide (i = 0%nat) then load1 else load2 in
  let after (first : bool) := if first then DoStore else Arrive true in
  match p with
  | Arrive first => arrive i first (after first) s
  | Waiting first ph =>
      if decide (phase s = ph) then [] else [(after first, s)]
  | DoStore => [(if fenced then DoFence else DoLoad, with_mem s (tso_store i mine 1 (memory s)))]
  | DoFence => if drained i (memory s) then [(DoLoad, s)] else []
  | DoLoad => [(DoSave (tso_load i other (memory s)), s)]
  | DoSave r => [(Arrive false, with_mem s (tso_store i result r (memory s)))]
  | _ => []
  end.

(** The loop of [main]; [Reorder] is where it reports. *)
Definition main_step (i : nat) (p : pc) (s : shared) : list (pc * shared) :=
  let after (first : bool) := if first then Arrive false else Check1 in
  match p with
  | Reset2 => [(Reset1, with_mem s (tso_store i store2 0 (memory s)))]
  | Reset1 => [(Arrive true, with_mem s (tso_store i store1 0 (memory s)))]
  | Arrive first => arrive i first (after first) s
  | Waiting first ph => if decide (phase s = ph) then [] else [(after first, s)]
  | Check1 => [(if tso_load i load1 (memory s) =? 0 then Check2 else Reset2, s)]
  | Check2 => [(if tso_load i load2 (memory s) =? 0 then Reorder else Reset2, s)]
  | Reorder => [(Reset2, s)]
  | _ => []
  end.

Definition step (fenced : bool) (i : nat) (p : pc) (s : shared) : list (pc * shared) :=
  (if decide (i = 2%nat) then main_step i p s else th_step fenced i p s)
    ++ ((fun m => (p, with_mem s m)) <$> tso_drain i (memory s)).

Definition init : list pc * shared :=
  ([Arrive true; Arrive true; Reset2], Shared (Tso [0; 0; 0; 0] [[]; []; []]) 0 false).

Definition reports (c : list pc * shared) : bool := bool_decide (c.1 !! 2%nat = Some Reorder).

(** Without the fence, the relaxed stores of [th1] and [th2] are
    reordered after the loads: [main] reaches its report that both threads
    read 0.  With [atomic_thread_fence(memory_order_seq_cst)] between store
    and load, no run of the endless test, of any length, reports a
    reordering. *)
Theorem store_buffer_reorders :
  (exists c, reachable (step false) init c /\ reports c = true) /\
  forall c, reachable (step true) init c -> reports c = false.
Proof.
  split.
  - apply (states_reachable code (step false) init (Z.to_nat 30000)). vm_compute. reflexivity.
  - intros c Hc. apply negb_true_iff.
    apply (states_invariant code (step true) init (Z.to_nat 30000) (fun c => negb (reports c))); [|done].
    vm_compute. reflexivity.
Qed.
End StoreBufferTest.

(** ** peterson_naive.c

    [flag] and [turn] are plain [int]s: the compiler emits plain stores.  In
    peterson_atomic.c they are [atomic_int]s, and each store is an [xchg],
    which drains the buffer ([fenced]). *)
Module PetersonNaive.
Definition turn : nat := 2%nat.

Inductive pc := SetFlag | SetTurn | TestFlag | TestTurn | Critical | ClearFlag | Fence (k : nat).
#[export] Instance pc_eq_dec : EqDecision pc.
Proof. solve_decision. Defined.

(** What follows a store: a fence when stores are [xchg]s. *)
Definition after_fence (k : nat) : pc :=
  match k with 0 => SetTurn | 1 => TestFlag | _ => SetFlag end%nat.

Definition step (fenced : bool) (i : nat) (p : pc) (m : tso) : list (pc * tso) :=
  let j := (1 - i)%nat in
  let stored k m := [(if fenced then Fence k else after_fence k, m)] in
  match p with
  | SetFlag => stored 0%nat (tso_store i i 1 m)                      (* mtx->flag[i] = 1 *)
  | SetTurn => stored 1%nat (tso_store i turn (Z.of_nat j) m)        (* mtx->turn = j *)
  | TestFlag => [(if tso_load i j m =? 0 then Critical else TestTurn, m)]
  | TestTurn => [(if tso_load i turn m =? Z.of_nat j then TestFlag else Critical, m)]
  | Critical => [(ClearFlag, m)]
  | ClearFlag => stored 2%nat (tso_store i i 0 m)                    (* mtx->flag[i] = 0 *)
  | Fence k => if drained i m then [(after_fence k, m)] else []
  end ++ ((fun m => (p, m)) <$> tso_drain i m).

Definition init : list pc * tso := ([SetFlag; SetFlag], Tso [0; 0; 0] [[]; []]).

Definition both_critical (c : list pc * tso) : bool :=
  bool_decide (c.1 = [Critical; Critical]).

Definition pc_code (p : pc) : Z :=
  match p with
  | SetFlag => 0 | SetTurn => 1 | TestFlag => 2 | TestTurn => 3 | Critical => 4 | ClearFlag => 5
  | Fence k => 6 + Z.of_nat k
  end.
Definition code (c : list pc * tso) : positive :=
  let buf b := foldl (fun h (e : nat * Z) => 8 * h + 2 * Z.of_nat e.1 + e.2) 1 b in
  let h := foldl (fun h p => 16 * h + pc_code p) 1 c.1 in
  let h := foldl (fun h v => 2 * h + v) h (t_mem c.2) in
  Z.to_pos (foldl (fun h b => 4096 * h + buf b) h (t_buf c.2)).

(** Peterson's algorithm with plain variables does not exclude: on
    x86-TSO both threads of peterson_naive.c reach the critical section
    together.  With atomic variables (peterson_atomic.c), whose stores drain
    the store buffer, they never do, in any run of any length. *)
Theorem peterson_needs_atomics :
  (exists c, reachable (step false) init c /\ both_critical c = true) /\
  forall c, reachable (step true) init c -> both_critical c = false.
Proof.
  split.
  - exists ([Critical; Critical], Tso [0; 0; 0] [[(0%nat, 1); (turn, 1)]; [(1%nat, 1); (turn, 0)]]).
    split; [|done].
    apply (schedule_reachable _ [(0, 0); (0, 0); (0, 0); (1, 0); (1, 0); (1, 0)]%nat).
    vm_compute. reflexivity.
  - intros c Hc. apply negb_true_iff.
    apply (states_invariant code (step true) init (Z.to_nat 30000) (fun c => negb (both_critical c)));
      [|done].
    vm_compute. reflexivity.
Qed.
End PetersonNaive.
