(* ===== verification/LabCommon.v ===== *)
(** * sop2/lab: l7_common.h and l8_common.h

    The helpers of the socket labs: the ERR and TEMP_FAILURE_RETRY macros,
    the construction of local and TCP sockets, and [bulk_read] and
    [bulk_write], which transfer a whole buffer.  [F] bounds the model's loops;
    a bound above the number of the kernel's replies is never exhausted. *)

From S2P Require Import Prelude CLib Os Kernel Net.

Local Open Scope Z_scope.

(** [ERR(source)]: report and exit. *)
Definition ERR {A} (source : string) : prog A :=
  perror source ;;; printf "%s:%d" [] ;;; Exit EXIT_FAILURE.

(** The [ERR(source)] that kills the whole process group. *)
Definition ERR_kill {A} (source : string) : prog A :=
  printf "%s:%d" [] ;;; perror source ;;; ignored "kill" [0; 9] ;;; Exit EXIT_FAILURE.

(** [TEMP_FAILURE_RETRY(call)]. *)
Definition interrupted (r : reply) : bool := (rv r =? -1) && (rerr r =? EINTR).
Definition retry_iter (c : call) (_ : unit) : prog (unit + reply) :=
  let! r := sys c in
  if interrupted r then Ret (inl tt) else Ret (inr r).
Definition retry (F : nat) (c : call) : prog reply := loop F (retry_iter c) tt.

Definition sethandler (sigNo : Z) : prog Z :=
  let! r := sys (Libc "sigaction" [sigNo]) in
  if rv r =? -1 then Ret (-1) else Ret 0.

(** Paths and host names are byte strings; [sun_path] holds 107 bytes of the
    name and the terminator. *)
Definition SUN_PATH_SIZE : Z := 108.
Definition sun_path (name : list Z) : list Z := take (Z.to_nat (SUN_PATH_SIZE - 1)) name.

Definition make_local_socket (name : list Z) : prog (Z * list Z) :=
  let! s := sys Socket in
  if rv s <? 0 then ERR "socket" else Ret (rv s, sun_path name).

Definition connect_local_socket (name : list Z) : prog Z :=
  let! '(socketfd, addr) := make_local_socket name in
  let! r := sys (Libc "connect" (socketfd :: addr)) in
  if rv r <? 0 then ERR "connect" else Ret socketfd.

Definition bind_local_socket (name : list Z) (backlog_size : Z) : prog Z :=
  let! u := sys (Libc "unlink" name) in
  if (rv u <? 0) && negb (rerr u =? ENOENT) then ERR "unlink" else
  let! '(socketfd, addr) := make_local_socket name in
  let! b := sys (Libc "bind" (socketfd :: addr)) in
  if rv b <? 0 then ERR "bind" else
  let! l := sys (Listen socketfd backlog_size) in
  if rv l <? 0 then ERR "listen" else
  Ret socketfd.

Definition make_tcp_socket : prog Z :=
  let! s := sys Socket in
  if rv s <? 0 then ERR "socket" else Ret (rv s).

(** [getaddrinfo] resolves host and port; the address is its first result. *)
Definition make_address (address port : list Z) : prog (list Z) :=
  let! r := sys (Libc "getaddrinfo" (address ++ 0 :: port)) in
  if negb (rv r =? 0) then printf "getaddrinfo: %s" [PZ (rv r)] ;;; Exit EXIT_FAILURE else
  ignored "freeaddrinfo" [] ;;;
  Ret (rdata r).

Definition connect_tcp_socket (name port : list Z) : prog Z :=
  let! socketfd := make_tcp_socket in
  let! addr := make_address name port in
  let! r := sys (Libc "connect" (socketfd :: addr)) in
  if rv r <? 0 then ERR "connect" else Ret socketfd.

Definition bind_tcp_socket (port backlog_size : Z) : prog Z :=
  let! socketfd := make_tcp_socket in
  let! o := sys (Setsockopt socketfd) in
  if negb (rv o =? 0) then ERR "setsockopt" else
  let! b := sys (Bind socketfd port) in
  if rv b <? 0 then ERR "bind" else
  let! l := sys (Listen socketfd backlog_size) in
  if rv l <? 0 then ERR "listen" else
  Ret socketfd.

(** The new descriptor, or -1 when no connection waits. *)
Definition add_new_client (F : nat) (sfd : Z) : prog Z :=
  let! r := retry F (Accept sfd) in
  if rv r <? 0 then
    if (rerr r =? EAGAIN) || (rerr r =? EWOULDBLOCK) then Ret (-1) else ERR "accept"
  else Ret (rv r).

(** ** Whole transfers

    The loop state is [len] and the buffer; [buf += c; count -= c] is the
    position [len] and the rest [count - len]. *)
Definition bulk_read_iter (F : nat) (fd count : Z) (s : Z * list Z)
    : prog (Z * list Z + Z * list Z) :=
  let '(len, buf) := s in
  let! r := retry F (Read fd (count - len)) in
  let c := rv r in
  if c <? 0 then Ret (inr (c, buf)) else
  if c =? 0 then Ret (inr (len, buf)) else
  let! buf := defined "buf: overrun" (mem_store buf len (rdata r)) in
  let len := len + c in
  if 0 <? count - len then Ret (inl (len, buf)) else Ret (inr (len, buf)).

Definition bulk_read (F : nat) (fd : Z) (buf : list Z) (count : Z) : prog (Z * list Z) :=
  loop F (bulk_read_iter F fd count) (0, buf).

Definition bulk_write_iter (F : nat) (fd : Z) (buf : list Z) (count len : Z) : prog (Z + (Z * Z)) :=
  let! data := defined "buf: overread" (mem_slice buf len (count - len)) in
  let! r := retry F (Write fd data) in
  let c := rv r in
  if c <? 0 then Ret (inr (c, rerr r)) else
  let len := len + c in
  if 0 <? count - len then Ret (inl len) else Ret (inr (len, rerr r)).

(** The result with [errno]. *)
Definition bulk_write (F : nat) (fd : Z) (buf : list Z) (count : Z) : prog (Z * Z) :=
  loop F (bulk_write_iter F fd buf count) 0.

(** ** What they transfer *)

(** The kernel delivers [data] in pieces, with interruptions in between. *)
Inductive chunks : list Z -> list reply -> Prop :=
| chunks_nil : chunks [] []
| chunks_more c d env :
    c <> [] -> chunks d env -> chunks (c ++ d) (Reply (Z.of_nat (length c)) 0 c [] :: env)
| chunks_interrupted d env :
    d <> [] -> chunks d env -> chunks d (Reply (-1) EINTR [] [] :: env).

(** The kernel accepts [n] bytes in pieces, with interruptions in between. *)
Inductive accepts : Z -> list reply -> Prop :=
| accepts_nil : accepts 0 []
| accepts_more k n env :
    0 < k -> 0 <= n -> accepts n env -> accepts (k + n) (Reply k 0 [] [] :: env)
| accepts_interrupted n env :
    0 < n -> accepts n env -> accepts n (Reply (-1) EINTR [] [] :: env).

Lemma chunks_end env : chunks [] env -> env = [].
Proof.
  intros H. inversion H as [|c d e Hc Hd E|]; try done.
  apply app_eq_nil in E as [-> ->]. done.
Qed.

Lemma accepts_end env : accepts 0 env -> env = [].
Proof. intros H. inversion H; [done|lia|lia]. Qed.

Lemma retry_interrupted F c env :
  run (retry (S F) c) (Reply (-1) EINTR [] [] :: env) =
    let '(o, t) := run (retry F c) env in (o, ECall c (Reply (-1) EINTR [] []) :: t).
Proof.
  unfold retry. rewrite loop_S. cbn -[loop].
  by destruct (run (loop F (retry_iter c) tt) env).
Qed.

Lemma retry_done F c r env :
  interrupted r = false -> run (retry (S F) c) (r :: env) = (Done r env, [ECall c r]).
Proof. intros Hr. unfold retry. rewrite loop_S. cbn -[loop]. by rewrite Hr. Qed.

Lemma retry_once F c r env :
  (0 < F)%nat -> interrupted r = false -> run (retry F c) (r :: env) = (Done r env, [ECall c r]).
Proof. intros. destruct F; [lia|]. by apply retry_done. Qed.

Lemma not_interrupted v e d l : v <> -1 -> interrupted (Reply v e d l) = false.
Proof. intros. unfold interrupted. simpl. by destruct (Z.eqb_spec v (-1)). Qed.

(** The interruptions at the head of the replies do not matter. *)
Lemma chunks_first d env :
  chunks d env -> d <> [] ->
  exists c d' ints env', d = c ++ d' /\ c <> [] /\ chunks d' env' /\
    env = replicate ints (Reply (-1) EINTR [] []) ++ Reply (Z.of_nat (length c)) 0 c [] :: env' /\
    (length env = ints + S (length env'))%nat.
Proof.
  induction 1 as [|c d env Hc H _|d env Hd H IH]; intros Hne; [done| |].
  - exists c, d, 0%nat, env. done.
  - destruct (IH Hd) as (c & d' & ints & env' & -> & ? & ? & -> & Hl).
    exists c, d', (S ints), env'. split_and!; try done. simpl in *. lia.
Qed.

Lemma accepts_first n env :
  accepts n env -> 0 < n ->
  exists k n' ints env', n = k + n' /\ 0 < k /\ 0 <= n' /\ accepts n' env' /\
    env = replicate ints (Reply (-1) EINTR [] []) ++ Reply k 0 [] [] :: env' /\
    (length env = ints + S (length env'))%nat.
Proof.
  induction 1 as [|k n env Hk Hn0 H _|n env Hn H IH]; intros Hne; [done| |].
  - exists k, n, 0%nat, env. done.
  - destruct (IH Hn) as (k & n' & ints & env' & -> & ? & ? & ? & -> & Hl).
    exists k, n', (S ints), env'. split_and!; try done. simpl in *. lia.
Qed.

Lemma retry_ints ints F c r env :
  interrupted r = false -> (ints < F)%nat ->
  exists t, run (retry F c) (replicate ints (Reply (-1) EINTR [] []) ++ r :: env) = (Done r env, t) /\
    t = replicate ints (ECall c (Reply (-1) EINTR [] [])) ++ [ECall c r].
Proof.
  intros Hr. revert F. induction ints as [|n IH]; intros F HF; (destruct F as [|F]; [lia|]); cbn [replicate app].
  - eexists. by rewrite retry_done.
  - rewrite retry_interrupted. destruct (IH F) as (t & -> & ->); [lia|]. eauto.
Qed.

Lemma sent_ints fd ints d : sent fd (replicate ints (ECall (Write fd d) (Reply (-1) EINTR [] []))) = [].
Proof.
  induction ints as [|n IH]; [done|]. simpl. rewrite IH. by destruct (fd =? fd).
Qed.

(** One piece [c] goes after [pre]; the loop goes on when room is left. *)
Lemma bulk_read_step F fd count n ints c env pre tail :
  c <> [] -> (ints < F)%nat -> (length c <= length tail)%nat ->
  count = Z.of_nat (length pre) + Z.of_nat (length tail) ->
  exists t,
    run (loop (S n) (bulk_read_iter F fd count) (Z.of_nat (length pre), pre ++ tail))
      (replicate ints (Reply (-1) EINTR [] []) ++ Reply (Z.of_nat (length c)) 0 c [] :: env) =
    let '(o, t') :=
      if (length c <? length tail)%nat then
        run (loop n (bulk_read_iter F fd count)
          (Z.of_nat (length (pre ++ c)), (pre ++ c) ++ drop (length c) tail)) env
      else (Done (count, pre ++ c) env, []) in
    (o, t ++ t').
Proof.
  intros Hc Hi Hl Hcount. assert (0 < length c)%nat as Hcl by (destruct c; [done|simpl; lia]).
  rewrite loop_S. unfold bulk_read_iter at 1. rewrite run_bind, run_bind.
  destruct (retry_ints ints F (Read fd (count - Z.of_nat (length pre)))
    (Reply (Z.of_nat (length c)) 0 c []) env) as (t1 & -> & _); [apply not_interrupted; lia|done|].
  cbn [rv rdata].
  destruct (Z.ltb_spec (Z.of_nat (length c)) 0); [lia|].
  destruct (Z.eqb_spec (Z.of_nat (length c)) 0); [lia|].
  rewrite mem_store_is_Some by (rewrite ?length_app; lia).
  rewrite Nat2Z.id, take_app_length, drop_app_add. cbn [defined pbind].
  rewrite length_app, Nat2Z.inj_add, <- app_assoc. exists t1.
  destruct (Nat.ltb_spec (length c) (length tail)),
    (Z.ltb_spec 0 (count - (Z.of_nat (length pre) + Z.of_nat (length c)))); try lia; cbn [run].
  - rewrite app_nil_r. done.
  - rewrite !app_nil_r, drop_ge, app_nil_r by lia. repeat f_equal. lia.
Qed.

(** A read of [data], however it is cut, fills the buffer. *)
Lemma bulk_read_run F fd count n data env rest pre tail :
  chunks data env -> data <> [] -> (length env < n)%nat -> (length env < F)%nat ->
  count = Z.of_nat (length pre) + Z.of_nat (length data) ->
  length data = length tail ->
  exists t, run (loop n (bulk_read_iter F fd count) (Z.of_nat (length pre), pre ++ tail)) (env ++ rest)
    = (Done (count, pre ++ data) rest, t).
Proof.
  revert n data env pre tail.
  induction n as [|n IH]; intros data env pre tail Hc Hne Hn HF Hcount Hl; [lia|].
  destruct (chunks_first _ _ Hc Hne) as (c & d' & ints & env' & -> & Hcn & Hc' & -> & Hle).
  rewrite length_app in *. rewrite <- app_assoc, <- app_comm_cons.
  destruct (bulk_read_step F fd count n ints c (env' ++ rest) pre tail) as (t1 & ->); try done; try lia.
  destruct d' as [|x d'].
  - apply chunks_end in Hc' as ->. destruct (Nat.ltb_spec (length c) (length tail)); [simpl in Hl; lia|].
    rewrite !app_nil_r. eauto.
  - destruct (Nat.ltb_spec (length c) (length tail)); [|simpl in Hl; lia].
    destruct (IH (x :: d') env' (pre ++ c) (drop (length c) tail)) as (t2 & ->);
      rewrite ?length_app, ?length_drop; try done; try lia. rewrite <- app_assoc. eauto.
Qed.

(** At the end of the file the rest of the buffer stays as it was. *)
Lemma bulk_read_short F fd count n data env rest pre tail :
  chunks data env -> (length env < n)%nat -> (length env < F)%nat ->
  count = Z.of_nat (length pre) + Z.of_nat (length tail) ->
  (length data < length tail)%nat ->
  exists t, run (loop n (bulk_read_iter F fd count) (Z.of_nat (length pre), pre ++ tail)) (env ++ rint 0 :: rest)
    = (Done (Z.of_nat (length (pre ++ data)), pre ++ data ++ drop (length data) tail) rest, t).
Proof.
  revert n data env pre tail.
  induction n as [|n IH]; intros data env pre tail Hc Hn HF Hcount Hl; [lia|].
  destruct (decide (data = [])) as [->|Hne].
  { apply chunks_end in Hc as ->. rewrite loop_S. unfold bulk_read_iter at 1. rewrite run_bind, run_bind.
    cbn [app]. rewrite retry_once by (done || lia). cbn. rewrite app_nil_r. eauto. }
  destruct (chunks_first _ _ Hc Hne) as (c & d' & ints & env' & -> & Hcn & Hc' & -> & Hle).
  rewrite length_app in *. rewrite <- app_assoc, <- app_comm_cons.
  destruct (bulk_read_step F fd count n ints c (env' ++ rint 0 :: rest) pre tail) as (t1 & ->); try done; try lia.
  destruct (Nat.ltb_spec (length c) (length tail)); [|lia].
  destruct (IH d' env' (pre ++ c) (drop (length c) tail)) as (t2 & ->);
    rewrite ?length_app, ?length_drop; try done; try lia.
  rewrite drop_drop, <- !app_assoc, ?length_app, ?Nat2Z.inj_add, ?Z.add_assoc. eauto.
Qed.

Lemma bulk_write_run F fd buf count n len env rest :
  accepts (count - len) env -> 0 <= len -> len < count -> count <= Z.of_nat (length buf) ->
  (length env < n)%nat -> (length env < F)%nat ->
  exists t, run (loop n (bulk_write_iter F fd buf count) len) (env ++ rest) = (Done (count, 0) rest, t) /\
    sent fd t = take (Z.to_nat (count - len)) (drop (Z.to_nat len) buf).
Proof.
  revert len env. induction n as [|n IH]; intros len env Ha H0 Hlt Hb Hn HF; [lia|].
  destruct (accepts_first _ _ Ha) as (k & m & ints & env' & Hk & Hk0 & Hm & Ha' & -> & Hle); [lia|].
  rewrite loop_S. unfold bulk_write_iter at 1.
  assert (mem_slice buf len (count - len) = Some (take (Z.to_nat (count - len)) (drop (Z.to_nat len) buf))) as ->.
  { unfold mem_slice. rewrite !(proj2 (Z.leb_le _ _)) by lia. done. }
  cbn [defined pbind]. set (d := take _ _). rewrite run_bind, <- app_assoc, <- app_comm_cons, run_bind.
  destruct (retry_ints ints F (Write fd d) (Reply k 0 [] []) (env' ++ rest)) as (t1 & -> & ->).
  { unfold interrupted. simpl. destruct (Z.eqb_spec k (-1)); [lia|done]. }
  { lia. }
  cbn [rv rerr]. destruct (Z.ltb_spec k 0); [lia|].
  assert (length d = Z.to_nat (count - len)) as Hd.
  { unfold d. rewrite length_take, length_drop. lia. }
  destruct (Z.ltb_spec 0 (count - (len + k))).
  - cbn [run].
    destruct (IH (len + k) env') as (t2 & -> & H2); [by replace (count - (len + k)) with m by lia|lia|lia|lia|lia|lia|].
    eexists. split; [done|]. rewrite !sent_app, H2, sent_ints. cbn [sent app rv].
    rewrite Z.eqb_refl, ?app_nil_r.
    unfold d. rewrite take_take, Nat.min_l by lia.
    replace (Z.to_nat (len + k)) with (Z.to_nat len + Z.to_nat k)%nat by lia.
    rewrite <- drop_drop, take_take_drop. f_equal. lia.
  - cbn [run]. assert (m = 0) as -> by lia. apply accepts_end in Ha' as ->. eexists. cbn [app].
    replace (len + k) with count by lia. split; [done|].
    rewrite ?app_nil_r, sent_app, sent_ints. cbn [sent app rv]. rewrite Z.eqb_refl, ?app_nil_r.
    apply take_ge. lia.
Qed.

(** Reading sends nothing. *)
Definition is_read (e : event) : Prop :=
  match e with ECall (Read _ _) _ | EPend (Read _ _) => True | _ => False end.

Lemma retry_events (P : event -> Prop) F c env o t :
  (forall r, P (ECall c r)) -> P (EPend c) -> run (retry F c) env = (o, t) -> Forall P t.
Proof.
  intros Hc Hp. unfold retry. revert env o t. induction F as [|F IH]; intros env o t; [by intros [= <- <-]|].
  rewrite loop_S. destruct env as [|r env]; [intros [= <- <-]; by repeat constructor|].
  cbn -[loop]. destruct (interrupted r); cbn -[loop].
  - destruct (run (loop F (retry_iter c) tt) env) as [o' t'] eqn:E. intros [= <- <-]. constructor; eauto.
  - intros [= <- <-]. by repeat constructor.
Qed.

Lemma bulk_read_events n F fd count s env o t :
  run (loop n (bulk_read_iter F fd count) s) env = (o, t) -> Forall is_read t.
Proof.
  revert s env o t. induction n as [|n IH]; intros [len buf] env o t; [by intros [= <- <-]|].
  rewrite loop_S. unfold bulk_read_iter at 1. rewrite run_bind, run_bind.
  destruct (run (retry F (Read fd (count - len))) env) as [o1 t1] eqn:E.
  apply (retry_events is_read) in E; [|done|done].
  destruct o1 as [r env1| | | |]; try (by intros [= <- <-]).
  destruct (rv r <? 0); [intros [= <- <-]; by rewrite !app_nil_r|].
  destruct (rv r =? 0); [intros [= <- <-]; by rewrite !app_nil_r|].
  destruct (mem_store buf len (rdata r)) as [b|]; cbn [defined pbind]; [|intros [= <- <-]; by rewrite app_nil_r].
  destruct (0 <? count - (len + rv r)); cbn [run].
  - destruct (run (loop n _ _) env1) as [o2 t2] eqn:E2. intros [= <- <-].
    rewrite app_nil_r. apply Forall_app. eauto.
  - intros [= <- <-]. by rewrite !app_nil_r.
Qed.

Lemma bulk_read_silent F fd fd' buf count env o t :
  run (bulk_read F fd buf count) env = (o, t) -> sent fd' t = [].
Proof.
  intros H%bulk_read_events. induction H as [|e t He _ IH]; [done|].
  by destruct e as [[] r|[]|].
Qed.

Lemma mem_store_segment (l1 old l2 new : list Z) i :
  i = Z.of_nat (length l1) -> length new = length old ->
  mem_store (l1 ++ old ++ l2) i new = Some (l1 ++ new ++ l2).
Proof.
  intros -> Hn. rewrite mem_store_is_Some by (llen; lia).
  by rewrite Nat2Z.id, take_app_length, drop_app_add, Hn, drop_app_length.
Qed.

Definition full_read (d : list Z) : reply := Reply (Z.of_nat (length d)) 0 d [].

Lemma chunks_cut n d env :
  take n d <> [] -> chunks (drop n d) env -> chunks d (full_read (take n d) :: env).
Proof. intros Hn Hd. rewrite <- (take_drop n d) at 1. by constructor. Qed.

Lemma chunks_last d : d <> [] -> chunks d [full_read d].
Proof. intros Hd. rewrite <- (app_nil_r d) at 1. by repeat constructor. Qed.
