(* ===== verification/Calculator.v ===== *)
(** * sop2/lab/l7: the calculator

    l7-1_server.c accepts on a local and a TCP socket, reads a request of
    five 32-bit words in network order, computes and answers;
    l7-1_client_local.c and l7-1_client_tcp.c send one request. *)

From S2P Require Import Prelude CLib Os Kernel Net LabCommon.

Local Open Scope Z_scope.

(** [int32_t data[5]] as the five words it holds, and its 20 bytes. *)
Definition DATA_SIZE : Z := 20.
Definition data_bytes (data : list Z) : list Z := concat (le_bytes 4 <$> data).
Definition data_words (m : list Z) : list Z :=
  (fun i => of_le (take 4 (drop (4 * i) m))) <$> seq 0 5.

Definition word_at (data : list Z) (i : nat) : Z := nth i data 0.

(** [htonl] and [ntohl] of an [int32_t]. *)
Definition to_net (z : Z) : Z := htonl (wrap_u 32 z).
Definition of_net (w : Z) : Z := wrap_s 32 (ntohl w).

(** ** l7-1_server.c *)

(** [None] is a signed overflow. *)
Definition calculate (data : list Z) : option (list Z) :=
  let op1 := of_net (word_at data 0) in
  let op2 := of_net (word_at data 1) in
  let c := wrap_s 8 (ntohl (word_at data 3)) in
  '(result, status) ←
    (if c =? 43 then (fun r => (r, 1)) <$> checked_int (op1 + op2)
     else if c =? 45 then (fun r => (r, 1)) <$> checked_int (op1 - op2)
     else if c =? 42 then (fun r => (r, 1)) <$> checked_int (op1 * op2)
     else if c =? 47 then
       if op2 =? 0 then Some (-1, 0) else (fun r => (r, 1)) <$> checked_int (Z.quot op1 op2)
     else Some (-1, 0));
  Some [word_at data 0; word_at data 1; to_net result; word_at data 3; to_net status].

Definition BACKLOG : Z := 3.
Definition MAX_EVENTS : Z := 16.

(** One ready listening socket; the buffer [data] lives across clients. *)
Definition serve_ready (F : nat) (ev : Z * Z) (data : list Z) : prog (list Z) :=
  let! client_socket := add_new_client F ev.1 in
  let! '(size, data) := bulk_read F client_socket data DATA_SIZE in
  if size <? 0 then ERR "read:" else
  let! data :=
    if size =? DATA_SIZE then
      let! words := defined "calculate: signed overflow" (calculate (data_words data)) in
      let! '(w, err) := bulk_write F client_socket (data_bytes words) DATA_SIZE in
      if (w <? 0) && negb (err =? EPIPE) then ERR "write:" else Ret (data_bytes words)
    else Ret data in
  let! c := retry F (Close client_socket) in
  if rv c <? 0 then ERR "close" else Ret data.

Definition server_iter (F : nat) (epoll_descriptor : Z) (data : list Z)
    : prog (list Z + unit) :=
  let! w := sys (AtomicLoad "do_work" 0) in
  if rv w =? 0 then Ret (inr tt) else
  let! e := sys (EpollWait epoll_descriptor MAX_EVENTS) in
  if 0 <? rv e then
    let! data := for_each (serve_ready F) (revs e) data in
    Ret (inl data)
  else if rerr e =? EINTR then Ret (inl data)
  else ERR "epoll_pwait".

Definition doServer (n F : nat) (junk : list Z) (local_listen_socket tcp_listen_socket : Z)
    : prog unit :=
  let! e := sys EpollCreate in
  let ep := rv e in
  if ep <? 0 then ERR "epoll_create:" else
  let! a := sys (EpollCtl ep EPOLL_CTL_ADD local_listen_socket EPOLLIN) in
  if rv a =? -1 then perror "epoll_ctl: listen_sock" ;;; Exit EXIT_FAILURE else
  let! a := sys (EpollCtl ep EPOLL_CTL_ADD tcp_listen_socket EPOLLIN) in
  if rv a =? -1 then perror "epoll_ctl: listen_sock" ;;; Exit EXIT_FAILURE else
  ignored "sigprocmask(SIG_BLOCK)" [2] ;;;
  loop n (server_iter F ep) junk ;;;
  let! c := retry F (Close ep) in
  if rv c <? 0 then ERR "close" else
  ignored "sigprocmask(SIG_UNBLOCK)" [2].

Definition O_NONBLOCK : Z := 2048.
Definition set_nonblocking (fd : Z) : prog unit :=
  let! g := sys (FcntlGetfl fd) in
  sys (FcntlSetfl fd (Z.lor (rv g) O_NONBLOCK)) ;;; Ret tt.

Definition main (n F : nat) (junk : list Z) (args : list (list Z)) : prog Z :=
  match args with
  | [path; port] =>
      let! h := sethandler 13 in
      if negb (h =? 0) then ERR "Seting SIGPIPE:" else
      let! h := sethandler 2 in
      if negb (h =? 0) then ERR "Seting SIGINT:" else
      let! local_listen_socket := bind_local_socket path BACKLOG in
      set_nonblocking local_listen_socket ;;;
      let! tcp_listen_socket := bind_tcp_socket (wrap_u 16 (atoi port)) BACKLOG in
      set_nonblocking tcp_listen_socket ;;;
      doServer n F junk local_listen_socket tcp_listen_socket ;;;
      let! c := retry F (Close local_listen_socket) in
      if rv c <? 0 then ERR "close" else
      let! u := sys (Libc "unlink" path) in
      if rv u <? 0 then ERR "unlink" else
      let! c := retry F (Close tcp_listen_socket) in
      if rv c <? 0 then ERR "close" else
      printf "Server has terminated." [] ;;;
      Ret EXIT_SUCCESS
  | _ => printf "USAGE: %s socket port" [] ;;; Ret EXIT_FAILURE
  end.

(** ** The clients *)
Definition print_answer (data : list Z) : prog unit :=
  if negb (ntohl (word_at data 4) =? 0) then
    printf "%d %c %d = %d"
      [PZ (of_net (word_at data 0)); PZ (wrap_s 8 (ntohl (word_at data 3)));
       PZ (of_net (word_at data 1)); PZ (of_net (word_at data 2))]
  else printf "Operation impossible" [].

(** The request: operands and the first character of the operation. *)
Definition prepare_request (operand1 operand2 operation : list Z) : list Z :=
  [to_net (atoi operand1); to_net (atoi operand2); to_net 0;
   to_net (wrap_s 8 (hd 0 operation)); to_net 1].

(** What both clients do once connected. *)
Definition talk (F : nat) (fd : Z) (data : list Z) : prog Z :=
  let! '(w, _) := bulk_write F fd (data_bytes data) DATA_SIZE in
  if w <? 0 then ERR "write:" else
  let! '(r, m) := bulk_read F fd (data_bytes data) DATA_SIZE in
  if r <? DATA_SIZE then ERR "read:" else
  print_answer (data_words m) ;;;
  let! c := retry F (Close fd) in
  if rv c <? 0 then ERR "close" else Ret EXIT_SUCCESS.

Module ClientLocal.
Definition make_socket := make_local_socket.
Definition connect_socket := connect_local_socket.
Definition main (F : nat) (args : list (list Z)) : prog Z :=
  match args with
  | [path; operand1; operand2; operation] =>
      let! fd := connect_socket path in
      talk F fd (prepare_request operand1 operand2 operation)
  | _ => printf "USAGE: %s socket operand1 operand2 operation " [] ;;; Ret EXIT_FAILURE
  end.
End ClientLocal.

Module ClientTcp.
Definition main (F : nat) (args : list (list Z)) : prog Z :=
  match args with
  | [domain; port; operand1; operand2; operation] =>
      let! fd := connect_tcp_socket domain port in
      talk F fd (prepare_request operand1 operand2 operation)
  | _ => printf "USAGE: %s domain port  operand1 operand2 operation " [] ;;; Ret EXIT_FAILURE
  end.
End ClientTcp.

(** ** What they compute *)

(** The arithmetic the user asks for; [None] where it has no result. *)
Definition calc (op a b : Z) : option Z :=
  if op =? 43 then Some (a + b)
  else if op =? 45 then Some (a - b)
  else if op =? 42 then Some (a * b)
  else if op =? 47 then if b =? 0 then None else Some (Z.quot a b)
  else None.

Definition int (z : Z) : Prop := INT_MIN <= z <= INT_MAX.

Lemma wrap_s_of_u w z : 0 < w -> wrap_s w (wrap_u w z) = wrap_s w z.
Proof. intros Hw. unfold wrap_s, wrap_u. by rewrite Z.mod_mod by lia. Qed.

Lemma of_to_net z : int z -> of_net (to_net z) = z.
Proof.
  unfold int. intros Hz. limits. unfold of_net, to_net.
  rewrite ntohl_htonl_word by (apply wrap_u_range; lia).
  rewrite wrap_s_of_u by lia. apply wrap_s_small; lia.
Qed.

(** A character survives its trip as a 32-bit word. *)
Lemma char_to_net c : -128 <= c < 128 -> wrap_s 8 (ntohl (to_net c)) = c.
Proof.
  intros Hc. unfold to_net. rewrite ntohl_htonl_word by (apply wrap_u_range; lia).
  unfold wrap_u, wrap_s.
  assert (forall z, z mod 2 ^ 32 mod 2 ^ 8 = z mod 2 ^ 8) as ->.
  { intros z. symmetry. apply Znumtheory.Zmod_div_mod; [lia|lia|]. by exists (2 ^ 24). }
  apply (wrap_s_small 8 c); lia.
Qed.

Lemma data_bytes_length data : length data = 5%nat -> length (data_bytes data) = 20%nat.
Proof. destruct data as [|a [|b [|c [|d [|e [|? ?]]]]]]; done. Qed.

Definition words_ok (data : list Z) : Prop :=
  length data = 5%nat /\ Forall (fun w => 0 <= w < 2 ^ 32) data.

Lemma data_words_bytes data : words_ok data -> data_words (data_bytes data) = data.
Proof.
  intros [Hl Hw]. destruct data as [|a [|b [|c [|d [|e [|? ?]]]]]]; try done.
  rewrite !Forall_cons in Hw. destruct Hw as (Ha & Hb & Hc & Hd & He & _).
  unfold data_words, data_bytes.
  assert (forall w, 0 <= w < 2 ^ 32 -> of_le (le_bytes 4 w) = w) as H4
    by (intros; apply of_le_bytes; by rewrite pow256_4).
  exact (f_equal2 cons (H4 a Ha) (f_equal2 cons (H4 b Hb) (f_equal2 cons (H4 c Hc)
    (f_equal2 cons (H4 d Hd) (f_equal2 cons (H4 e He) eq_refl))))).
Qed.

Lemma to_net_word z : 0 <= to_net z < 2 ^ 32.
Proof. apply htonl_bound. Qed.

(** The request of a client for [a c b]. *)
Definition request (a c b : Z) : list Z := [to_net a; to_net b; to_net 0; to_net c; to_net 1].

(** The answer it gets. *)
Definition response (a c b : Z) : list Z :=
  let '(result, status) := match calc c a b with Some r => (r, 1) | None => (-1, 0) end in
  [to_net a; to_net b; to_net result; to_net c; to_net status].

Lemma request_ok a c b : words_ok (request a c b).
Proof. split; [done|]. repeat constructor; apply to_net_word. Qed.
Lemma response_ok a c b : words_ok (response a c b).
Proof.
  unfold response. destruct (calc c a b); (split; [done|]); repeat constructor; apply to_net_word.
Qed.

Definition in_range (a c b : Z) : Prop := match calc c a b with Some r => int r | None => True end.

(** [calculate] is [calc] within the range of an [int]. *)
Lemma calculate_calc data :
  let a := of_net (word_at data 0) in
  let b := of_net (word_at data 1) in
  calculate data =
    '(result, status) ←
      (match calc (wrap_s 8 (ntohl (word_at data 3))) a b with
       | Some r => (fun r => (r, 1)) <$> checked_int r
       | None => Some (-1, 0)
       end);
    Some [word_at data 0; word_at data 1; to_net result; word_at data 3; to_net status].
Proof. unfold calculate, calc. by repeat case_match. Qed.

Lemma calculate_request a c b :
  int a -> int b -> -128 <= c < 128 -> in_range a c b ->
  calculate (request a c b) = Some (response a c b).
Proof.
  intros Ha Hb Hc Hr. rewrite calculate_calc. unfold response, in_range in *.
  cbn [word_at request nth]. rewrite !of_to_net, char_to_net by done.
  destruct (calc c a b) as [r|]; [|done]. by rewrite (proj2 (checked_int_Some r r)).
Qed.

(** What the client shows. *)
Definition shown (a c b : Z) : obs :=
  match calc c a b with
  | Some r => Printf "%d %c %d = %d" [PZ a; PZ c; PZ b; PZ r]
  | None => Printf "Operation impossible" []
  end.

Lemma print_response a c b :
  int a -> int b -> -128 <= c < 128 -> in_range a c b ->
  print_answer (response a c b) = Say (shown a c b) (Ret tt).
Proof.
  intros Ha Hb Hc Hr. unfold print_answer, response, shown, in_range in *.
  destruct (calc c a b) as [r|]; cbn [word_at nth].
  - change (negb (ntohl (to_net 1) =? 0)) with true. cbv iota.
    rewrite !of_to_net, char_to_net by done. done.
  - done.
Qed.

Lemma prepare_request_dec a b c :
  int a -> int b -> 0 <= c < 128 -> prepare_request (dec a) (dec b) [c] = request a c b.
Proof.
  unfold int. intros Ha Hb Hc. limits. unfold prepare_request, request, atoi.
  rewrite !atoll_dec by lia. cbn [hd].
  rewrite (wrap_s_small 32 a), (wrap_s_small 32 b), (wrap_s_small 8 c) by lia. done.
Qed.

(** ** A whole exchange *)
Section Exchange.
Context (F : nat) (a c b : Z).
Hypothesis operands : int a /\ int b /\ 0 <= c < 128 /\ in_range a c b.

(** [bulk_write] of five words, and [bulk_read] into a buffer of their size. *)
Lemma write_words fd data env rest :
  length data = 5%nat -> accepts DATA_SIZE env -> (length env < F)%nat ->
  exists t, run (bulk_write F fd (data_bytes data) DATA_SIZE) (env ++ rest) = (Done (DATA_SIZE, 0) rest, t) /\
    sent fd t = data_bytes data.
Proof.
  intros Hl Ha HF. pose proof (data_bytes_length data Hl) as Hb.
  destruct (bulk_write_run F fd (data_bytes data) DATA_SIZE F 0 env rest) as (t & H1 & H2);
    try done; try (rewrite Hb; done).
  exists t. split; [done|]. rewrite H2. apply take_ge. rewrite Hb. done.
Qed.

Lemma read_words fd junk data env rest :
  length junk = 20%nat -> length data = 5%nat -> chunks (data_bytes data) env -> (length env < F)%nat ->
  exists t, run (bulk_read F fd junk DATA_SIZE) (env ++ rest) = (Done (DATA_SIZE, data_bytes data) rest, t) /\
    sent fd t = [].
Proof.
  intros Hj Hl Hc HF. pose proof (data_bytes_length data Hl) as Hb.
  destruct (bulk_read_run F fd DATA_SIZE F (data_bytes data) env rest [] junk) as (t & H1); try done.
  - by destruct data.
  - by rewrite Hb.
  - by rewrite Hb.
  - exists t. split; [exact H1|]. by eapply bulk_read_silent.
Qed.

Lemma serve_ready_run lfd ev cfd junk renv wenv :
  0 <= cfd -> length junk = 20%nat -> (0 < F)%nat ->
  chunks (data_bytes (request a c b)) renv -> (length renv < F)%nat ->
  accepts DATA_SIZE wenv -> (length wenv < F)%nat ->
  exists t, run (serve_ready F (lfd, ev) junk) (rint cfd :: renv ++ wenv ++ [rint 0]) =
      (Done (data_bytes (response a c b)) [], t) /\
    sent cfd t = data_bytes (response a c b).
Proof.
  intros Hfd Hj HF Hr HrF Hw HwF. destruct operands as (Ha & Hb & Hc & Hres).
  unfold serve_ready, add_new_client. rewrite run_bind, run_bind.
  rewrite retry_once by (done || apply not_interrupted; lia).
  cbn [rv rint rerr]. destruct (Z.ltb_spec cfd 0); [lia|]. cbn [run app].
  destruct (read_words cfd junk (request a c b) renv (wenv ++ [rint 0])) as (t1 & H1 & Hs1); try done.
  rewrite run_bind, H1. change (DATA_SIZE <? 0) with false. change (DATA_SIZE =? DATA_SIZE) with true.
  cbv iota. rewrite data_words_bytes by apply request_ok.
  rewrite calculate_request by (done || lia). cbn [defined pbind].
  destruct (write_words cfd (response a c b) wenv [rint 0]) as (t2 & H2 & Hs2);
    [apply response_ok|done|done|].
  rewrite run_bind, run_bind, H2. change (DATA_SIZE <? 0) with false. cbn [andb run].
  rewrite run_bind, retry_once by done. cbn. eexists. split; [done|].
  cbn [sent]. rewrite !sent_app, Hs1, Hs2. simpl. by rewrite !app_nil_r.
Qed.

Lemma talk_run fd renv wenv :
  (0 < F)%nat ->
  chunks (data_bytes (response a c b)) renv -> (length renv < F)%nat ->
  accepts DATA_SIZE wenv -> (length wenv < F)%nat ->
  exists t, run (talk F fd (request a c b)) (wenv ++ renv ++ [rint 0]) = (Done EXIT_SUCCESS [], t) /\
    sent fd t = data_bytes (request a c b) /\ ESay (shown a c b) ∈ t.
Proof.
  intros HF Hr HrF Hw HwF. destruct operands as (Ha & Hb & Hc & Hres).
  unfold talk.
  destruct (write_words fd (request a c b) wenv (renv ++ [rint 0])) as (t1 & H1 & Hs1); try done.
  rewrite run_bind, H1. change (DATA_SIZE <? 0) with false. cbv iota.
  destruct (read_words fd (data_bytes (request a c b)) (response a c b) renv [rint 0])
    as (t2 & H2 & Hs2); [by apply data_bytes_length|apply response_ok|done|done|].
  rewrite run_bind, H2. change (DATA_SIZE <? DATA_SIZE) with false. cbv iota.
  rewrite data_words_bytes by apply response_ok.
  rewrite print_response by (done || lia). cbn [pbind run].
  rewrite run_bind, retry_once by done. cbn -[sent]. eexists. split; [done|].
  split; [by rewrite sent_app, Hs1, !sent_app, Hs2, ?app_nil_r|].
  rewrite !elem_of_app, elem_of_cons. auto.
Qed.
End Exchange.

(** C19. End to end: for operands [a], [b] and an operation character [c]
    whose result fits an [int], the client started with them in decimal sends
    its request, the server computes and answers, and the client shows
    [a c b = result], or "Operation impossible" when [b] is 0 in a division or
    the operation is unknown; both end normally, however the kernel cuts the
    20 bytes in either direction and wherever signals interrupt the calls. *)
Theorem calculator_end_to_end F a c b lfd ev cfd fd junk renv wenv renv' wenv' :
  int a -> int b -> 0 <= c < 128 -> in_range a c b ->
  0 <= cfd -> length junk = 20%nat -> (0 < F)%nat ->
  (length renv < F)%nat -> (length wenv < F)%nat -> (length renv' < F)%nat -> (length wenv' < F)%nat ->
  chunks (data_bytes (prepare_request (dec a) (dec b) [c])) renv -> accepts DATA_SIZE wenv ->
  chunks (data_bytes (response a c b)) renv' -> accepts DATA_SIZE wenv' ->
  exists m ts tc,
    run (serve_ready F (lfd, ev) junk) (rint cfd :: renv ++ wenv ++ [rint 0]) = (Done m [], ts) /\
    sent cfd ts = data_bytes (response a c b) /\
    run (talk F fd (prepare_request (dec a) (dec b) [c])) (wenv' ++ renv' ++ [rint 0])
      = (Done EXIT_SUCCESS [], tc) /\
    sent fd tc = data_bytes (prepare_request (dec a) (dec b) [c]) /\
    ESay (shown a c b) ∈ tc.
Proof.
  intros Ha Hb Hc Hr Hfd Hj HF H1 H2 H3 H4. rewrite prepare_request_dec by done. intros C1 A1 C2 A2.
  pose proof (conj Ha (conj Hb (conj Hc Hr))) as Ho.
  destruct (serve_ready_run F a c b Ho lfd ev cfd junk renv wenv) as (ts & ? & ?); try done.
  destruct (talk_run F a c b Ho fd renv' wenv') as (tc & ? & ? & ?); try done.
  eauto 10.
Qed.

Lemma calculator_end_to_end_witness :
  exists m ts tc,
    let q := data_bytes (prepare_request (dec (-7)) (dec 6) [42]) in
    let r := data_bytes (response (-7) 42 6) in
    run (serve_ready 9 (3, 1) (replicate 20 0))
      (rint 5 :: [full_read (take 3 q); Reply (-1) EINTR [] []; full_read (drop 3 q)]
        ++ [Reply 20 0 [] []] ++ [rint 0]) = (Done m [], ts) /\
    sent 5 ts = r /\
    run (talk 9 4 (prepare_request (dec (-7)) (dec 6) [42]))
      ([Reply 12 0 [] []; Reply 8 0 [] []] ++ [full_read r] ++ [rint 0]) = (Done EXIT_SUCCESS [], tc) /\
    sent 4 tc = q /\
    ESay (Printf "%d %c %d = %d" [PZ (-7); PZ 42; PZ 6; PZ (-42)]) ∈ tc.
Proof.
  apply (calculator_end_to_end 9 (-7) 42 6 3 1 5 4 (replicate 20 0)).
  - split; vm_compute; discriminate.
  - split; vm_compute; discriminate.
  - lia.
  - split; vm_compute; discriminate.
  - lia.
  - reflexivity.
  - lia.
  - simpl. lia.
  - simpl. lia.
  - simpl. lia.
  - simpl. lia.
  - apply chunks_cut; [discriminate|]. apply chunks_interrupted; [discriminate|].
    apply chunks_last. discriminate.
  - apply (accepts_more 20 0); [lia|lia|constructor].
  - apply chunks_last. discriminate.
  - apply (accepts_more 12 8); [lia|lia|]. apply (accepts_more 8 0); [lia|lia|constructor].
Defined.

(** C20. What the server answers to any request of five words: it is stuck
    exactly on the operations whose result does not fit an [int] (including
    INT_MIN / -1); otherwise the operands and the operation come back
    unchanged, with the exact result and status 1, or, for an unknown
    operation and for a division by zero, with result -1 and status 0. *)
Theorem calculate_errors data :
  words_ok data ->
  let a := of_net (word_at data 0) in
  let b := of_net (word_at data 1) in
  let c := wrap_s 8 (ntohl (word_at data 3)) in
  match calculate data with
  | None => exists r, calc c a b = Some r /\ ~ int r
  | Some answer =>
      words_ok answer /\ word_at answer 0 = word_at data 0 /\ word_at answer 1 = word_at data 1 /\
      word_at answer 3 = word_at data 3 /\
      match calc c a b with
      | Some r => int r /\ of_net (word_at answer 2) = r /\ of_net (word_at answer 4) = 1
      | None => of_net (word_at answer 2) = -1 /\ of_net (word_at answer 4) = 0
      end
  end.
Proof.
  intros [Hl Hw]. destruct data as [|d0 [|d1 [|d2 [|d3 [|d4 [|? ?]]]]]]; try done.
  rewrite !Forall_cons in Hw. destruct Hw as (? & ? & ? & ? & ? & _).
  intros a b c. rewrite calculate_calc. fold a b c. cbn [word_at nth].
  assert (forall x y, words_ok [d0; d1; to_net x; d3; to_net y]) as Hok.
  { intros x y. split; [done|]. pose proof (to_net_word x). pose proof (to_net_word y).
    repeat (apply Forall_cons; split; [done|]). constructor. }
  assert (int (-1) /\ int 0 /\ int 1) as (? & ? & ?) by (repeat split; vm_compute; discriminate).
  destruct (calc c a b) as [r|]; cbn [word_at nth mbind option_bind fmap option_fmap option_map]; [|by rewrite !of_to_net].
  destruct (checked_int r) as [y|] eqn:E; cbn [fmap option_fmap option_map mbind option_bind].
  - apply checked_int_Some in E as [-> ?]. cbn [word_at nth]. by rewrite !of_to_net.
  - exists r. split; [done|]. intros Hr. by rewrite (proj2 (checked_int_Some r r)) in E.
Qed.

Lemma calculate_errors_witness :
  let data := [to_net 7; to_net 0; 0; to_net 47; 0] in
  let answer := [to_net 7; to_net 0; to_net (-1); to_net 47; to_net 0] in
  words_ok answer /\ word_at answer 0 = word_at data 0 /\ word_at answer 1 = word_at data 1 /\
  word_at answer 3 = word_at data 3 /\
  of_net (word_at answer 2) = -1 /\ of_net (word_at answer 4) = 0.
Proof.
  apply (calculate_errors [to_net 7; to_net 0; 0; to_net 47; 0]).
  split; [reflexivity|]. repeat constructor; vm_compute; (discriminate || reflexivity).
Defined.

(** Both listening sockets are non-blocking, and [add_new_client] reports a
    connection that is gone by returning -1; [doServer] reads from that -1. *)
Example vanished_client_stops_the_server F lfd ev junk env :
  (0 < F)%nat -> 
  (run (serve_ready F (lfd, ev) junk)
    (Reply (-1) EAGAIN [] [] :: Reply (-1) 9 [] [] :: env)).1 = Exited EXIT_FAILURE.
Proof.
  intros HF. unfold serve_ready, add_new_client, bulk_read. rewrite run_bind, run_bind.
  rewrite retry_once by done. cbn -[retry loop]. rewrite run_bind. destruct F as [|F']; [lia|].
  rewrite loop_S. unfold bulk_read_iter at 1. rewrite run_bind, run_bind. by rewrite retry_once.
Qed.
