(* ===== verification/Transfer.v ===== *)
(** * sop2/lab/l8: a file over UDP

    l8-1_client.c sends a file in numbered parts of 568 bytes, one at a time,
    repeating each until it is confirmed or given up; l8-1_server.c prints the
    parts of up to five clients in order.  A [struct sockaddr_in] is the
    number of its 16 bytes, so [memcmp] is equality. *)

From S2P Require Import Prelude CLib Os Kernel Net LabCommon.

Local Open Scope Z_scope.

Definition BACKLOG : Z := 3.
Definition MAXBUF : Z := 576.
Definition MAXADDR : nat := 5.

(** The header of a part: two 32-bit words in network order. *)
Definition word32 (buf : list Z) (i : nat) : Z := of_le (take 4 (drop (4 * i) buf)).
Definition OFFSET : Z := 8.

(** ** l8-1_server.c *)
Record connections := Con { free : bool; chunkNo : Z; addr : Z }.

#[export] Instance connections_eq_dec : EqDecision connections.
Proof. solve_decision. Defined.

Definition SOCK_STREAM : Z := 1.
Definition SOCK_DGRAM : Z := 2.

Definition make_socket (domain type : Z) : prog Z :=
  let! s := sys Socket in
  if rv s <? 0 then ERR "socket" else Ret (rv s).

Definition bind_inet_socket (port type : Z) : prog Z :=
  let! socketfd := make_socket 2 type in
  let! o := sys (Setsockopt socketfd) in
  if negb (rv o =? 0) then ERR "setsockopt" else
  let! b := sys (Bind socketfd port) in
  if rv b <? 0 then ERR "bind" else
  if type =? SOCK_STREAM then
    let! l := sys (Listen socketfd BACKLOG) in
    if rv l <? 0 then ERR "listen" else Ret socketfd
  else Ret socketfd.

(** The loop over [con] from index [i]: the last free entry met, and the
    entry of the address. *)
Fixpoint find_from (a : Z) (con : list connections) (i empty : Z) : Z * Z :=
  match con with
  | [] => (empty, -1)
  | c :: con' =>
      if free c then find_from a con' (i + 1) i
      else if addr c =? a then (empty, i)
      else find_from a con' (i + 1) empty
  end.

Definition findIndex (a : Z) (con : list connections) : Z * list connections :=
  let '(empty, pos) := find_from a con 0 (-1) in
  if (pos =? -1) && negb (empty =? -1) then
    (empty, <[Z.to_nat empty := Con false 0 a]> con)
  else (pos, con).

(** [con[index].free = 1]. *)
Definition set_free (index : Z) (con : list connections) : list connections :=
  alter (fun c => Con true (chunkNo c) (addr c)) (Z.to_nat index) con.

(** [con[index].chunkNo++]; [None] past INT32_MAX. *)
Definition next_chunk (index : Z) (con : list connections) : option (list connections) :=
  c ← con !! Z.to_nat index;
  n ← checked_int (chunkNo c + 1);
  Some (<[Z.to_nat index := Con (free c) n (addr c)]> con).

Definition sender (r : reply) : Z := match revs r with (a, _) :: _ => a | [] => 0 end.

(** The text of the part: up to the first NUL of [buf + 8]. *)
Definition part_text (buf : list Z) : prog (list Z) :=
  defined "printf: unterminated part" (cstr (drop 8 buf)).

(** The tail of the loop: the part comes back to its sender. *)
Definition confirm (F : nat) (fd a index : Z) (buf : list Z) (con : list connections)
    : prog (list connections) :=
  let! data := defined "sendto: overread" (mem_slice buf 0 MAXBUF) in
  let! s := retry F (Sendto fd data a) in
  if rv s <? 0 then
    if EPIPE =? rerr s then Ret (set_free index con) else ERR "send:"
  else Ret con.

Definition serve_datagram (F : nat) (fd : Z) (s : list connections * list Z)
    : prog (list connections * list Z) :=
  let '(con, buf) := s in
  let! r := retry F (Recvfrom fd MAXBUF) in
  if rv r <? 0 then ERR "read:" else
  let! buf := defined "buf: overrun" (mem_store buf 0 (rdata r)) in
  let! buf := defined "buf: overrun" (mem_store buf (rv r) [0]) in
  let '(index, con) := findIndex (sender r) con in
  if index <? 0 then Ret (con, buf) else
  let chunk := wrap_s 32 (ntohl (word32 buf 0)) in
  let! c := defined "con: index" (con !! Z.to_nat index) in
  let! next := defined "chunkNo + 1: overflow" (checked_int (chunkNo c + 1)) in
  if next <? chunk then Ret (con, buf) else
  let! con :=
    if chunk =? next then
      let! text := part_text buf in
      let! con :=
        if negb (ntohl (word32 buf 1) =? 0) then
          printf "Last Part %d %s" [PZ chunk; PS text] ;;; Ret (set_free index con)
        else printf "Part %d %s" [PZ chunk; PS text] ;;; Ret con in
      defined "chunkNo++: overflow" (next_chunk index con)
    else Ret con in
  let! con := confirm F fd (sender r) index buf con in
  Ret (con, buf).

(** [doServer] never returns; [junk] is the buffer before the first datagram
    and [jcon] what the two other fields of the entries hold. *)
Definition doServer (n F : nat) (fd : Z) (jcon : list connections) (junk : list Z) : prog unit :=
  let con := (fun c => Con true (chunkNo c) (addr c)) <$> jcon in
  loop n (fun s => let! s := serve_datagram F fd s in Ret (inl s)) (con, junk).

Definition server_main (n F : nat) (jcon : list connections) (junk : list Z) (args : list (list Z))
    : prog Z :=
  match args with
  | [port] =>
      let! h := sethandler 13 in
      if negb (h =? 0) then ERR "Seting SIGPIPE:" else
      let! fd := bind_inet_socket (wrap_u 16 (atoi port)) SOCK_DGRAM in
      doServer n F fd jcon junk ;;;
      let! c := retry F (Close fd) in
      if rv c <? 0 then ERR "close" else
      printf "Server has terminated." [] ;;;
      Ret EXIT_SUCCESS
  | _ => printf "USAGE: %s port" [] ;;; Ret EXIT_FAILURE
  end.

(** ** l8-1_client.c *)
Module Client.

Definition make_socket : prog Z :=
  let! s := sys Socket in
  if rv s <? 0 then ERR "socket" else Ret (rv s).

(** One turn of the wait: the confirmation, or [SIGALRM]. *)
Definition recv_iter (fd size : Z) (recvbuf : list Z) : prog (list Z + list Z) :=
  let! r := sys (Recv fd size) in
  if rv r <? 0 then
    if negb (EINTR =? rerr r) then ERR "recv:" else
    let! s := sys (AtomicLoad "last_signal" 0) in
    if 14 =? rv s then Ret (inr recvbuf) else Ret (inl recvbuf)
  else
    let! recvbuf := defined "recvbuf: overrun" (mem_store recvbuf 0 (rdata r)) in
    Ret (inr recvbuf).

Definition sendAndConfirm (F : nat) (fd a : Z) (sendbuf recvbuf : list Z) (size : Z) : prog (list Z) :=
  let! data := defined "sendto: overread" (mem_slice sendbuf 0 size) in
  let! s := retry F (Sendto fd data a) in
  if rv s <? 0 then ERR "sendto:" else
  ignored "setitimer" [500000] ;;;
  ignored "last_signal = 0" [] ;;;
  loop F (recv_iter fd size) recvbuf.

(** The first word of [recvbuf] against [htonl(chunkNo)], as [int32_t]. *)
Definition confirmed (recvbuf : list Z) (chunkNo : Z) : bool :=
  wrap_s 32 (word32 recvbuf 0) =? wrap_s 32 (htonl (wrap_u 32 chunkNo)).

Definition attempt_iter (F : nat) (fd a : Z) (sendbuf : list Z) (chunkNo : Z) (s : Z * list Z)
    : prog (Z * list Z + Z * list Z) :=
  let '(counter, recvbuf) := s in
  let counter := counter + 1 in
  let! recvbuf := sendAndConfirm F fd a sendbuf recvbuf MAXBUF in
  if negb (confirmed recvbuf chunkNo) && (counter <=? 5) then Ret (inl (counter, recvbuf))
  else Ret (inr (counter, recvbuf)).

(** The part in [sendbuf]: number, end mark, data padded with zeros. *)
Definition fill_part (chunkNo size : Z) (sendbuf : list Z) : option (list Z) :=
  sendbuf ← mem_store sendbuf 0 (le_bytes 4 (htonl (wrap_u 32 chunkNo)));
  if size <? MAXBUF - OFFSET then
    sendbuf ← mem_store sendbuf (OFFSET + size) (replicate (Z.to_nat (MAXBUF - OFFSET - size)) 0);
    mem_store sendbuf 4 (le_bytes 4 (htonl 1))
  else Some sendbuf.

Definition chunk_iter (F : nat) (fd a file : Z) (chunkNo : Z) : prog (Z + unit) :=
  let sendbuf := replicate (Z.to_nat MAXBUF) 0 in
  let recvbuf := replicate (Z.to_nat MAXBUF) 0 in
  let! '(size, data) := bulk_read F file (drop (Z.to_nat OFFSET) sendbuf) (MAXBUF - OFFSET) in
  if size <? 0 then ERR "read from file:" else
  let sendbuf := take (Z.to_nat OFFSET) sendbuf ++ data in
  let! chunkNo := defined "chunkNo: overflow" (checked_int (chunkNo + 1)) in
  let! sendbuf := defined "sendbuf: overrun" (fill_part chunkNo size sendbuf) in
  let! '(counter, recvbuf) := loop F (attempt_iter F fd a sendbuf chunkNo) (0, recvbuf) in
  if negb (confirmed recvbuf chunkNo) && (5 <? counter) then Ret (inr tt) else
  if size =? MAXBUF - OFFSET then Ret (inl chunkNo) else Ret (inr tt).

Definition doClient (n F : nat) (fd a file : Z) : prog unit := loop n (chunk_iter F fd a file) 0.

Definition O_RDONLY : Z := 0.
Definition main (n F : nat) (args : list (list Z)) : prog Z :=
  match args with
  | [domain; port; path] =>
      let! h := sethandler 13 in
      if negb (h =? 0) then ERR "Seting SIGPIPE:" else
      let! h := sethandler 14 in
      if negb (h =? 0) then ERR "Seting SIGALRM:" else
      let! file := retry F (Open path) in
      if rv file <? 0 then ERR "open:" else
      let! fd := make_socket in
      let! a := make_address domain port in
      doClient n F fd (of_le a) (rv file) ;;;
      let! c := retry F (Close fd) in
      if rv c <? 0 then ERR "close" else
      let! c := retry F (Close (rv file)) in
      if rv c <? 0 then ERR "close" else
      Ret EXIT_SUCCESS
  | _ => printf "USAGE: %s domain port file " [] ;;; Ret EXIT_FAILURE
  end.

End Client.

(** ** The table of clients as a map *)

(** The sessions of the busy entries: address and last part confirmed. *)
Definition busy (con : list connections) : list (Z * Z) :=
  omap (fun c => if free c then None else Some (addr c, chunkNo c)) con.

Definition represents (con : list connections) (m : gmap Z Z) : Prop :=
  NoDup (busy con).*1 /\ m = list_to_map (busy con).

Lemma busy_app l1 l2 : busy (l1 ++ l2) = busy l1 ++ busy l2.
Proof. apply omap_app. Qed.

Lemma busy_length con : (length (busy con) <= length con)%nat.
Proof. induction con as [|[[] n a] con IH]; simpl; lia. Qed.

Lemma session_slot_free l1 n a l2 m : represents (l1 ++ Con true n a :: l2) m <-> represents (l1 ++ l2) m.
Proof. unfold represents. by rewrite !busy_app. Qed.

Lemma session_slot_busy l1 n a l2 m :
  represents (l1 ++ Con false n a :: l2) m <->
  exists m0, m0 !! a = None /\ m = <[a := n]> m0 /\ represents (l1 ++ l2) m0.
Proof.
  unfold represents. rewrite !busy_app. simpl.
  assert (busy l1 ++ (a, n) :: busy l2 ≡ₚ (a, n) :: busy l1 ++ busy l2) as HP by (symmetry; apply Permutation_middle).
  split.
  - intros [Hd ->].
    assert (NoDup ((a, n) :: busy l1 ++ busy l2).*1) as Hd' by (by rewrite <- HP).
    exists (list_to_map (busy l1 ++ busy l2)). rewrite fmap_cons, NoDup_cons in Hd'.
    destruct Hd' as [Hf Hd']. split; [by apply not_elem_of_list_to_map_1|].
    split; [by rewrite (list_to_map_proper _ _ Hd HP)|done].
  - intros (m0 & Hf & -> & Hd & ->). apply not_elem_of_list_to_map_2 in Hf.
    assert (NoDup ((a, n) :: busy l1 ++ busy l2).*1) as Hd' by (rewrite fmap_cons; by apply NoDup_cons).
    assert (NoDup (busy l1 ++ (a, n) :: busy l2).*1) as Hd'' by (by rewrite HP).
    split; [done|]. by rewrite (list_to_map_proper _ _ Hd'' HP).
Qed.

Lemma represents_size con m : represents con m -> size m = length (busy con).
Proof. intros [Hd ->]. by rewrite map_size_list_to_map. Qed.

Lemma find_from_spec a con i e e' p :
  find_from a con i e = (e', p) -> 0 <= i ->
  (exists l1 n l2, con = l1 ++ Con false n a :: l2 /\ p = i + Z.of_nat (length l1)) \/
  (p = -1 /\ a ∉ (busy con).*1 /\
    ((e' = e /\ length (busy con) = length con) \/
     (exists l1 n b l2, con = l1 ++ Con true n b :: l2 /\ e' = i + Z.of_nat (length l1)))).
Proof.
  revert i e. induction con as [|[f n b] con IH]; intros i e; simpl.
  - intros [= <- <-] _. right. split; [done|]. split; [apply not_elem_of_nil|]. by left.
  - intros H Hi. destruct f.
    + destruct (IH (i + 1) i H) as [(l1 & n' & l2 & -> & ->)|(-> & Hn & [[-> Hl]|(l1 & n' & b' & l2 & -> & ->)])];
        [lia|left; exists (Con true n b :: l1), n', l2; split; [done|simpl; lia]| |].
      * right. split; [done|]. split; [done|]. right. exists [], n, b, con. split; [done|simpl; lia].
      * right. split; [done|]. split; [done|]. right. exists (Con true n b :: l1), n', b', l2. split; [done|simpl; lia].
    + destruct (Z.eqb_spec b a) as [->|Hb].
      * injection H as <- <-. left. exists [], n, con. split; [done|simpl; lia].
      * destruct (IH (i + 1) e H) as [(l1 & n' & l2 & -> & ->)|(-> & Hn & Hc)]; [lia| |].
        { left. exists (Con false n b :: l1), n', l2. split; [done|simpl; lia]. }
        right. split; [done|]. split; [simpl; rewrite not_elem_of_cons; auto|].
        destruct Hc as [[-> Hl]|(l1 & n' & b' & l2 & -> & ->)]; [left; simpl; auto with lia|].
        right. exists (Con false n b :: l1), n', b', l2. split; [done|simpl; lia].
Qed.

(** The session of an address: its own, a new one while an entry is free, or
    none. *)
Definition session (m : gmap Z Z) (a : Z) : option Z :=
  match m !! a with Some n => Some n | None => if (size m <? MAXADDR)%nat then Some 0 else None end.

Lemma findIndex_spec con m a :
  represents con m -> length con = MAXADDR ->
  match session m a with
  | None => findIndex a con = (-1, con)
  | Some n => exists l1 l2 m0,
      findIndex a con = (Z.of_nat (length l1), l1 ++ Con false n a :: l2) /\
      length (l1 ++ Con false n a :: l2) = MAXADDR /\
      m0 !! a = None /\ represents (l1 ++ l2) m0 /\ <[a := n]> m = <[a := n]> m0
  end.
Proof.
  intros Hr Hl. pose proof (represents_size con m Hr) as Hs.
  unfold findIndex. destruct (find_from a con 0 (-1)) as [e p] eqn:E.
  destruct (find_from_spec a con 0 (-1) e p E) as [(l1 & n & l2 & -> & ->)|(-> & Hn & Hc)]; [lia| |].
  - apply session_slot_busy in Hr as (m0 & Hf & -> & Hr). unfold session. rewrite lookup_insert_eq.
    exists l1, l2, m0. destruct (Z.eqb_spec (0 + Z.of_nat (length l1)) (-1)); [lia|].
    rewrite insert_insert_eq. done.
  - assert (m !! a = None) as Hm by (destruct Hr as [_ ->]; by apply not_elem_of_list_to_map_1).
    unfold session. rewrite Hm, Hs. destruct Hc as [[-> Hb]|(l1 & n' & b' & l2 & -> & ->)].
    + rewrite Hb, Hl. done.
    + assert (length (busy (l1 ++ Con true n' b' :: l2)) < MAXADDR)%nat as Hlt.
      { rewrite busy_app, length_app. rewrite length_app in Hl. simpl in *.
        pose proof (busy_length l1). pose proof (busy_length l2). lia. }
      apply Nat.ltb_lt in Hlt as ->. destruct (Z.eqb_spec (0 + Z.of_nat (length l1)) (-1)); [lia|].
      exists l1, l2, m. rewrite Z.add_0_l, Nat2Z.id. simpl. rewrite session_slot_free in Hr.
      split; [f_equal; by rewrite insert_app_r_alt, Nat.sub_diag by lia|].
      rewrite length_app in *. done.
Qed.

(** ** The server as a map of sessions *)

Definition part_no (d : list Z) : Z := wrap_s 32 (ntohl (word32 d 0)).
Definition part_last (d : list Z) : bool := negb (ntohl (word32 d 1) =? 0).

(** What the server shows and sends back. *)
Inductive output :=
| Shown (last : bool) (number : Z) (text : list Z)
| Confirmed (a : Z) (d : list Z).

Definition outputs (t : list event) : list output :=
  omap (fun e => match e with
    | ESay (Printf fmt [PZ n; PS text]) => Some (Shown (bool_decide (fmt = "Last Part %d %s"%string)) n text)
    | ECall (Sendto _ d a) _ => Some (Confirmed a d)
    | _ => None end) t.

Lemma outputs_app t t' : outputs (t ++ t') = outputs t ++ outputs t'.
Proof. apply omap_app. Qed.

(** One datagram: a part out of order is dropped, an old one only confirmed,
    the next one shown and confirmed; the last part ends the session. *)
Definition session_step (m : gmap Z Z) (p : Z * list Z) : gmap Z Z * list output :=
  let '(a, d) := p in
  match session m a with
  | None => (m, [])
  | Some n =>
      if n + 1 <? part_no d then (<[a := n]> m, [])
      else if part_no d =? n + 1 then
        (if part_last d then delete a m else <[a := n + 1]> m,
         [Shown (part_last d) (part_no d) (upto_nul (drop 8 d)); Confirmed a d])
      else (<[a := n]> m, [Confirmed a d])
  end.

Fixpoint session_run (m : gmap Z Z) (ps : list (Z * list Z)) : gmap Z Z * list output :=
  match ps with
  | [] => (m, [])
  | p :: ps' =>
      let '(m', o) := session_step m p in
      let '(m'', o') := session_run m' ps' in (m'', o ++ o')
  end.

(** The kernel's part: a datagram, and a success for its confirmation. *)
Definition deliver (m : gmap Z Z) (p : Z * list Z) : list reply :=
  Reply MAXBUF 0 p.2 [(p.1, 0)] ::
  (if existsb (fun o => match o with Confirmed _ _ => true | _ => false end) (session_step m p).2
   then [rint MAXBUF] else []).

Fixpoint deliveries (m : gmap Z Z) (ps : list (Z * list Z)) : list reply :=
  match ps with
  | [] => []
  | p :: ps' => deliver m p ++ deliveries (session_step m p).1 ps'
  end.

(** Every session has confirmed between 0 and [k] parts. *)
Definition below (k : Z) (m : gmap Z Z) : Prop := forall a n, m !! a = Some n -> 0 <= n <= k.

Lemma session_below k m a n : 0 <= k -> below k m -> session m a = Some n -> 0 <= n <= k.
Proof.
  intros Hk Hm. unfold session. destruct (m !! a) as [n'|] eqn:E.
  - intros [= <-]. by apply (Hm a).
  - destruct (_ <? _)%nat; [|done]. intros [= <-]. lia.
Qed.

Lemma below_insert k m a n : 0 <= n <= k -> below k m -> below k (<[a := n]> m).
Proof. intros Hn Hm b x [[<- <-]|[? ?]]%lookup_insert_Some; [done|by eapply Hm]. Qed.

Lemma below_mono k k' m : k <= k' -> below k m -> below k' m.
Proof. intros Hk Hm a n Hn. specialize (Hm a n Hn). lia. Qed.

Lemma session_step_below k m p : 0 <= k -> below k m -> below (k + 1) (session_step m p).1.
Proof.
  intros Hk Hm. destruct p as [a d]. unfold session_step.
  assert (below (k + 1) m) as Hm' by (apply (below_mono k); [lia|done]).
  destruct (session m a) as [n|] eqn:E; [|done].
  pose proof (session_below k m a n Hk Hm E).
  repeat case_match; simpl; try (apply below_insert; [lia|done]).
  intros b x [_ ?]%lookup_delete_Some. by eapply Hm'.
Qed.

(** The buffer holds the datagram and the terminator. *)
Lemma store_datagram (buf d : list Z) :
  length buf = 577%nat -> length d = 576%nat ->
  exists b', mem_store buf 0 d = Some b' /\ mem_store b' MAXBUF [0] = Some (d ++ [0]).
Proof.
  intros Hb Hd. exists (d ++ drop 576 buf). split.
  - rewrite (mem_store_is_Some buf 0 d) by lia. by rewrite Hd.
  - rewrite (mem_store_is_Some _ MAXBUF [0]) by (llen; unfold MAXBUF; simpl; lia).
    change (Z.to_nat MAXBUF) with 576%nat. rewrite take_app_length' by done.
    rewrite drop_app_ge, drop_drop, Hd by (simpl; lia). by rewrite (drop_ge buf) by (simpl; lia).
Qed.

Lemma word32_stored d i : length d = 576%nat -> (i < 100)%nat -> word32 (d ++ [0]) i = word32 d i.
Proof.
  intros Hd Hi. unfold word32. rewrite drop_app_le by lia. by rewrite take_app_le by (rewrite length_drop; lia).
Qed.

Lemma part_text_stored d :
  length d = 576%nat -> part_text (d ++ [0]) = Ret (upto_nul (drop 8 d)).
Proof.
  intros Hd. unfold part_text. rewrite drop_app_le by lia. by rewrite upto_nul_cstr.
Qed.

Lemma slice_stored (d : list Z) : length d = 576%nat -> mem_slice (d ++ [0]) 0 MAXBUF = Some d.
Proof.
  intros Hd. unfold mem_slice. rewrite length_app, Hd. change (_ && _) with true. cbv iota.
  change (Z.to_nat MAXBUF) with 576%nat. change (Z.to_nat 0) with 0%nat. rewrite skipn_O. by rewrite take_app_length' by done.
Qed.

Lemma confirm_run F fd a index d con env :
  (0 < F)%nat -> length d = 576%nat ->
  run (confirm F fd a index (d ++ [0]) con) (rint MAXBUF :: env)
    = (Done con env, [ECall (Sendto fd d a) (rint MAXBUF)]).
Proof.
  intros HF Hd. unfold confirm. rewrite slice_stored by done. cbn [defined pbind].
  by rewrite run_bind, retry_once.
Qed.

Lemma next_chunk_slot l1 f n a l2 :
  n + 1 <= INT_MAX -> 0 <= n ->
  next_chunk (Z.of_nat (length l1)) (l1 ++ Con f n a :: l2) = Some (l1 ++ Con f (n + 1) a :: l2).
Proof.
  intros Hn H0. unfold next_chunk. rewrite Nat2Z.id, list_lookup_middle by done. simpl.
  rewrite (proj2 (checked_int_Some _ (n + 1))) by (limits; lia). simpl.
  by rewrite insert_app_r_alt, Nat.sub_diag by lia.
Qed.

Lemma set_free_slot l1 f n a l2 :
  set_free (Z.of_nat (length l1)) (l1 ++ Con f n a :: l2) = l1 ++ Con true n a :: l2.
Proof.
  unfold set_free. rewrite Nat2Z.id. rewrite <- (Nat.add_0_r (length l1)) at 1.
  by rewrite alter_app_r.
Qed.

Lemma serve_run F fd con buf m k a d rest :
  (0 < F)%nat -> length buf = 577%nat -> length d = 576%nat ->
  represents con m -> length con = MAXADDR -> below k m -> 0 <= k < INT_MAX ->
  exists con' t,
    run (serve_datagram F fd (con, buf)) (deliver m (a, d) ++ rest) = (Done (con', d ++ [0]) rest, t) /\
    represents con' (session_step m (a, d)).1 /\ length con' = MAXADDR /\
    outputs t = (session_step m (a, d)).2.
Proof.
  intros HF Hb Hd Hr Hl Hk Hk0. unfold serve_datagram, deliver.
  rewrite run_bind, <- app_comm_cons, retry_once by done. cbn [rv rdata]. change (MAXBUF <? 0) with false.
  cbv iota. destruct (store_datagram buf d Hb Hd) as (b0 & Hb0 & Hb1). cbn [fst snd].
  rewrite Hb0. cbn [defined pbind]. rewrite Hb1. cbn [defined pbind]. change (sender _) with a.
  pose proof (findIndex_spec con m a Hr Hl) as Hf. unfold session_step.
  destruct (session m a) as [n|] eqn:En.
  2: { rewrite Hf. change (-1 <? 0) with true. cbn. eexists con, _. split; [done|]. auto. }
  destruct Hf as (l1 & l2 & m0 & -> & Hl' & Hm0 & Hr0 & Hins).
  pose proof (session_below k m a n ltac:(lia) Hk En) as Hn.
  destruct (Z.ltb_spec (Z.of_nat (length l1)) 0); [lia|].
  rewrite Nat2Z.id, list_lookup_middle by done. cbn [defined pbind chunkNo].
  rewrite (proj2 (checked_int_Some _ (n + 1))) by (limits; lia). cbn [defined pbind].
  rewrite (word32_stored d 0), (word32_stored d 1), part_text_stored by (done || lia). fold (part_no d) (part_last d).
  destruct (Z.ltb_spec (n + 1) (part_no d)) as [Hgt|Hgt]; cbn [existsb snd fst app orb].
  - eexists _, _. split; [done|]. split; [|done]. rewrite Hins. apply session_slot_busy. eauto.
  - destruct (Z.eqb_spec (part_no d) (n + 1)) as [->|Hne]; cbn [existsb snd fst app orb].
    + cbn [pbind]. assert (length l1 = length l1 /\ n + 1 <= INT_MAX /\ 0 <= n) as (_ & ? & ?) by lia.
      destruct (part_last d); cbn [pbind printf]; rewrite ?set_free_slot, next_chunk_slot by done;
        cbn [defined pbind run]; rewrite run_bind, confirm_run by done;
        cbn [run app]; eexists _, _; (split; [done|]); (split; [|split; [by rewrite length_app in *|done]]).
      * rewrite session_slot_free, <- (delete_insert_eq m a n), Hins, delete_insert_eq, delete_id by done. done.
      * apply session_slot_busy. exists m0. by rewrite <- (insert_insert_eq m a (n + 1) n), Hins, insert_insert_eq.
    + cbn [pbind run]. rewrite run_bind, confirm_run by done. cbn [run app].
      eexists _, _. split; [done|]. split; [|done]. rewrite Hins. apply session_slot_busy. eauto.
Qed.

(** The loop of [doServer], waiting for more at the end. *)
Lemma server_run F fd ps : forall n con buf m k,
  (0 < F)%nat -> length buf = 577%nat -> Forall (fun p => length p.2 = 576%nat) ps ->
  represents con m -> length con = MAXADDR -> below k m ->
  0 <= k -> k + Z.of_nat (length ps) < INT_MAX -> (length ps < n)%nat ->
  exists t,
    run (loop n (fun s => let! s := serve_datagram F fd s in Ret (@inl _ unit s)) (con, buf)) (deliveries m ps)
      = (Blocked, t) /\
    outputs t = (session_run m ps).2.
Proof.
  induction ps as [|[a d] ps IH]; intros n con buf m k HF Hb Hps Hr Hl Hk Hk0 HM Hn.
  - destruct n as [|n]; [simpl in Hn; lia|]. destruct F as [|F']; [lia|].
    rewrite loop_S, run_bind, run_bind. unfold serve_datagram. rewrite run_bind. eexists. by split.
  - destruct n as [|n]; [simpl in Hn; lia|]. simpl in Hn, HM. apply Forall_cons in Hps as [Hd Hps]. simpl in Hd.
    rewrite loop_S, run_bind, run_bind. cbn [deliveries].
    destruct (serve_run F fd con buf m k a d (deliveries (session_step m (a, d)).1 ps))
      as (con' & t1 & -> & Hr' & Hl' & Ho); try done; [lia|]. cbn [run].
    destruct (IH n con' (d ++ [0]) (session_step m (a, d)).1 (k + 1)) as (t2 & -> & Ho2); try done; try lia.
    + rewrite length_app, Hd. done.
    + by apply session_step_below.
    + eexists. split; [done|]. rewrite app_nil_r, outputs_app, Ho, Ho2. cbn [session_run].
      by destruct (session_step m (a, d)), (session_run _ _).
Qed.

Lemma represents_fresh jcon : represents ((fun c => Con true (chunkNo c) (addr c)) <$> jcon) ∅.
Proof.
  assert (busy ((fun c => Con true (chunkNo c) (addr c)) <$> jcon) = []) as Hb
    by (by induction jcon).
  split; rewrite Hb; [constructor|done].
Qed.

(** C21. The server implements the sessions: for every sequence of datagrams
    of the protocol's size, from any senders, what it shows and confirms is
    what a map from addresses to the number of the last confirmed part
    answers, where a new sender gets a session while fewer than five are
    open, a part is shown exactly when it is the next one of its sender's
    session, an old part is only confirmed, a part too far ahead is dropped,
    and the last part closes the session. *)
Theorem udp_server_refines n F fd jcon junk ps :
  (0 < F)%nat -> length jcon = MAXADDR -> length junk = 577%nat ->
  Forall (fun p => length p.2 = 576%nat) ps ->
  Z.of_nat (length ps) < INT_MAX -> (length ps < n)%nat ->
  exists t, run (doServer n F fd jcon junk) (deliveries ∅ ps) = (Blocked, t) /\
    outputs t = (session_run ∅ ps).2.
Proof.
  intros HF Hj Hb Hps HM Hn. unfold doServer. eapply (server_run F fd ps n _ junk ∅ 0); try done.
  - apply represents_fresh.
  - by rewrite length_fmap.
Qed.

Definition demo_part (n last : Z) (text : string) : list Z :=
  le_bytes 4 (htonl n) ++ le_bytes 4 (htonl last) ++ str text ++ replicate (568 - String.length text) 0.

Lemma udp_server_refines_witness :
  let ps := [(7, demo_part 1 0 "ab"); (9, demo_part 1 1 "x"); (7, demo_part 1 0 "ab");
             (7, demo_part 3 0 "ef"); (7, demo_part 2 1 "cd")] in
  exists t, run (doServer 6 1 3 (replicate 5 (Con false 44 7)) (replicate 577 255)) (deliveries ∅ ps) = (Blocked, t) /\
    outputs t = [Shown false 1 (str "ab"); Confirmed 7 (demo_part 1 0 "ab"); Shown true 1 (str "x");
                 Confirmed 9 (demo_part 1 1 "x"); Confirmed 7 (demo_part 1 0 "ab");
                 Shown true 2 (str "cd"); Confirmed 7 (demo_part 2 1 "cd")].
Proof.
  apply (udp_server_refines 6 1 3 (replicate 5 (Con false 44 7)) (replicate 577 255)
    [(7, demo_part 1 0 "ab"); (9, demo_part 1 1 "x"); (7, demo_part 1 0 "ab");
     (7, demo_part 3 0 "ef"); (7, demo_part 2 1 "cd")]);
    [lia|done|done|repeat constructor|done|simpl; lia].
Defined.
