(* ===== verification/FileTransfer.v ===== *)
(** * sop2/lab/l8: a whole transfer

    The client of Transfer.v against a network that loses datagrams in both
    directions, and the server on what arrives: the printed text is the file,
    each part once and in order.  The exception the code has, a lost
    confirmation of the last part, is shown at the end. *)

From S2P Require Import Prelude CLib Os Kernel Net LabCommon Transfer.
Import Transfer.Client.

Local Open Scope Z_scope.

Definition PART : nat := 568.

(** Part [i] with its data [d]; a short part is the last. *)
Definition packet (i : Z) (d : list Z) : list Z :=
  le_bytes 4 (htonl i) ++ le_bytes 4 (htonl (if (length d <? PART)%nat then 1 else 0)) ++
  d ++ replicate (PART - length d) 0.

(** What goes wrong before a part is confirmed. *)
Inductive loss := DataLost | ConfirmationLost.

(** One part: its data, how the file is read, and the losses. *)
Record step := Step { st_data : list Z; st_reads : list reply; st_losses : list loss }.

Definition is_last (s : step) : bool := (length (st_data s) <? PART)%nat.

(** The replies the client sees: each lost exchange ends with the alarm. *)
Definition timed_out : list reply := [rint MAXBUF; Reply (-1) EINTR [] []; rint 14].
Definition client_env (i : Z) (s : step) : list reply :=
  st_reads s ++ (if is_last s then [rint 0] else []) ++
  concat ((fun _ => timed_out) <$> st_losses s) ++
  [rint MAXBUF; Reply MAXBUF 0 (packet i (st_data s)) []].

Fixpoint client_envs (i : Z) (ss : list step) : list reply :=
  match ss with [] => [] | s :: ss' => client_env i s ++ client_envs (i + 1) ss' end.

(** The datagrams that reach the server. *)
Definition arrived (i : Z) (s : step) : list (list Z) :=
  omap (fun l => match l with ConfirmationLost => Some (packet i (st_data s)) | DataLost => None end) (st_losses s)
  ++ [packet i (st_data s)].
Fixpoint arrivals (i : Z) (ss : list step) : list (list Z) :=
  match ss with [] => [] | s :: ss' => arrived i s ++ arrivals (i + 1) ss' end.

(** The file in parts: all but the last are full. *)
Fixpoint parts_ok (ss : list step) : Prop :=
  match ss with
  | [] => False
  | [s] => (length (st_data s) < PART)%nat
  | s :: ss' => length (st_data s) = PART /\ parts_ok ss'
  end.

Definition step_ok (F : nat) (s : step) : Prop :=
  chunks (st_data s) (st_reads s) /\ (length (st_reads s) < F)%nat /\ (length (st_losses s) <= 5)%nat.

Lemma packet_length i d : (length d <= PART)%nat -> length (packet i d) = 576%nat.
Proof. intros Hd. unfold packet. rewrite !length_app, !le_bytes_length. llen. unfold PART in *. lia. Qed.

Lemma packet_word i d :
  word32 (packet i d) 0 = htonl i /\
  word32 (packet i d) 1 = htonl (if (length d <? PART)%nat then 1 else 0) /\
  drop 8 (packet i d) = d ++ replicate (PART - length d) 0.
Proof.
  assert (forall x, of_le (le_bytes 4 (htonl x)) = htonl x) as H4
    by (intros x; apply of_le_bytes; rewrite pow256_4; apply htonl_bound).
  split; [exact (H4 i)|]. split; [|done]. exact (H4 _).
Qed.

Lemma part_no_packet i d : 0 <= i <= INT_MAX -> part_no (packet i d) = i.
Proof.
  intros Hi. limits. unfold part_no. destruct (packet_word i d) as (-> & _ & _).
  rewrite ntohl_htonl_word by lia. apply wrap_s_small; lia.
Qed.

Lemma part_last_packet i d : part_last (packet i d) = (length d <? PART)%nat.
Proof.
  unfold part_last. destruct (packet_word i d) as (_ & -> & _). by destruct (length d <? PART)%nat.
Qed.

Lemma upto_nul_zeros d n : upto_nul (d ++ replicate n 0) = upto_nul d.
Proof.
  destruct n as [|n]; [by rewrite app_nil_r|]. unfold upto_nul at 1. cbn [replicate].
  rewrite <- app_assoc. cbn [app]. by rewrite upto_nul_cstr.
Qed.

(** What the server shows of a part: it prints it as a string, up to the
    first NUL. *)
Definition shown_part (i : Z) (s : step) : output := Shown (is_last s) i (upto_nul (st_data s)).

(** ** The client *)
Lemma htonl_nonzero i : 0 < i <= INT_MAX -> wrap_s 32 (htonl i) <> 0.
Proof.
  intros Hi Hz. limits. pose proof (htonl_bound i) as Hb.
  assert (wrap_u 32 (htonl i) = 0) as Hm.
  { rewrite <- (wrap_u_of_s 32 (htonl i)) by lia. by rewrite Hz. }
  rewrite wrap_u_small in Hm by done. pose proof (ntohl_htonl_word i) as Hn. rewrite Hm in Hn.
  change (ntohl 0) with 0 in Hn. lia.
Qed.

Lemma confirmed_packet i d : 0 < i <= INT_MAX -> confirmed (packet i d) i = true.
Proof.
  intros Hi. limits. unfold confirmed. destruct (packet_word i d) as (-> & _ & _).
  rewrite wrap_u_small by lia. apply Z.eqb_refl.
Qed.

Lemma confirmed_zeros i : 0 < i <= INT_MAX -> confirmed (replicate (Z.to_nat MAXBUF) 0) i = false.
Proof.
  intros Hi. limits. unfold confirmed. rewrite (wrap_u_small 32 i) by lia.
  change (wrap_s 32 (word32 _ 0)) with 0. apply Z.eqb_neq. intros He. by apply (htonl_nonzero i).
Qed.

Lemma fill_part_packet i d :
  0 < i <= INT_MAX -> (length d <= PART)%nat ->
  fill_part i (Z.of_nat (length d)) (replicate 8 0 ++ d ++ replicate (PART - length d) 0) = Some (packet i d).
Proof.
  intros Hi Hd. limits. unfold fill_part, packet. rewrite (wrap_u_small 32 i) by lia.
  change (replicate 8 0 ++ ?x) with ([] ++ replicate 4 0 ++ (replicate 4 0 ++ x)).
  rewrite mem_store_segment by done. cbn [mbind option_bind]. change (MAXBUF - OFFSET) with 568.
  unfold PART in *. set (w := le_bytes 4 (htonl i)). set (z := replicate (568 - length d) 0).
  destruct (Z.ltb_spec (Z.of_nat (length d)) 568), (Nat.ltb_spec (length d) 568); try lia; [|done].
  replace ([] ++ w ++ replicate 4 0 ++ d ++ z) with ((w ++ replicate 4 0 ++ d) ++ z ++ [])
    by (rewrite app_nil_r, <- !app_assoc; done).
  rewrite mem_store_segment by (unfold z, OFFSET; llen; change (length w) with 4%nat; simpl; lia).
  cbn [mbind option_bind]. rewrite app_nil_r, <- !app_assoc.
  replace (Z.to_nat (568 - Z.of_nat (length d))) with (568 - length d)%nat by lia.
  by apply mem_store_segment.
Qed.

(** One exchange, lost or answered. *)
Lemma exchange_lost F fd a p rb env :
  (1 < F)%nat -> length p = 576%nat ->
  exists t, run (sendAndConfirm F fd a p rb MAXBUF) (timed_out ++ env) = (Done rb env, t) /\
    datagrams t = [(a, p)].
Proof.
  intros HF Hp. unfold sendAndConfirm, mem_slice. rewrite Hp.
  change (_ && _) with true. cbv iota. rewrite skipn_O, take_ge by (rewrite Hp; done).
  cbn [defined pbind timed_out app]. rewrite run_bind, retry_once by (done || lia).
  destruct F as [|F]; [lia|]. cbn -[loop]. rewrite loop_S. cbn. eexists. split; [done|]. done.
Qed.

Lemma exchange_answered F fd a p rb q env :
  (0 < F)%nat -> length p = 576%nat -> length q = 576%nat -> length rb = 576%nat ->
  exists t, run (sendAndConfirm F fd a p rb MAXBUF) (rint MAXBUF :: Reply MAXBUF 0 q [] :: env) = (Done q env, t) /\
    datagrams t = [(a, p)].
Proof.
  intros HF Hp Hq Hr. unfold sendAndConfirm, mem_slice. rewrite Hp.
  change (_ && _) with true. cbv iota. rewrite skipn_O, take_ge by (rewrite Hp; done).
  cbn [defined pbind]. rewrite run_bind, retry_once by (done || lia).
  destruct F as [|F]; [lia|]. cbn -[loop]. rewrite loop_S. unfold recv_iter at 1.
  rewrite run_bind. cbn -[loop mem_store]. rewrite mem_store_whole by lia. cbn. eexists. split; [done|]. done.
Qed.

Lemma attempts_run F fd a i p ls : forall n c rb env,
  (1 < F)%nat -> length p = 576%nat -> length rb = 576%nat ->
  confirmed p i = true -> confirmed rb i = false ->
  0 <= c -> c + Z.of_nat (length ls) <= 5 -> (length ls < n)%nat ->
  exists c' t, run (loop n (attempt_iter F fd a p i) (c, rb))
    (concat ((fun _ : loss => timed_out) <$> ls) ++ rint MAXBUF :: Reply MAXBUF 0 p [] :: env) =
    (Done (c', p) env, t) /\ datagrams t = replicate (S (length ls)) (a, p).
Proof.
  induction ls as [|l ls IH]; intros n c rb env HF Hp Hr Hc Hc0 H0 H5 Hn;
    (destruct n as [|n]; [simpl in Hn; lia|]); rewrite loop_S; unfold attempt_iter at 1;
    rewrite run_bind, run_bind.
  - destruct (exchange_answered F fd a p rb p env) as (t & H1 & Ht); try done; [lia|].
    cbn [fmap list_fmap concat app]. rewrite H1, Hc. cbn [negb andb run]. rewrite !app_nil_r.
    eexists _, _. split; [done|]. done.
  - cbn [fmap list_fmap concat]. rewrite <- app_assoc.
    destruct (exchange_lost F fd a p rb (concat ((fun _ : loss => timed_out) <$> ls) ++
      rint MAXBUF :: Reply MAXBUF 0 p [] :: env)) as (t & -> & Ht); try done.
    simpl in H5. rewrite Hc0, (proj2 (Z.leb_le _ _)) by lia. cbn [negb andb run].
    destruct (IH n (c + 1) rb env) as (c' & t' & -> & Ht'); try done; try lia; [simpl in Hn; lia|].
    eexists _, _. split; [done|]. rewrite app_nil_r, datagrams_app, Ht, Ht'. done.
Qed.

(** A part of the file in the buffer. *)
Lemma read_part F file s rest :
  step_ok F s -> (length (st_data s) <= PART)%nat ->
  exists t, run (bulk_read F file (replicate 568 0) (MAXBUF - OFFSET))
      (st_reads s ++ (if is_last s then [rint 0] else []) ++ rest) =
    (Done (Z.of_nat (length (st_data s)), st_data s ++ replicate (PART - length (st_data s)) 0) rest, t) /\
    Forall is_read t.
Proof.
  intros (Hc & HF & _) Hd. unfold bulk_read, is_last, PART in *.
  destruct (Nat.ltb_spec (length (st_data s)) 568) as [Hl|Hl].
  - cbn [app]. destruct (bulk_read_short F file (MAXBUF - OFFSET) F (st_data s) (st_reads s) rest [] (replicate 568 0))
      as (t & Ht); try done. exists t. pose proof (bulk_read_events _ _ _ _ _ _ _ _ Ht) as He.
    cbn [app length] in Ht. rewrite drop_replicate in Ht. done.
  - destruct (bulk_read_run F file (MAXBUF - OFFSET) F (st_data s) (st_reads s) rest [] (replicate 568 0))
      as (t & Ht); try done.
    + intros He. by rewrite He in Hl; simpl in Hl; lia.
    + simpl. unfold MAXBUF, OFFSET. lia.
    + rewrite length_replicate. lia.
    + exists t. pose proof (bulk_read_events _ _ _ _ _ _ _ _ Ht) as He. cbn [app length] in Ht.
      replace (568 - length (st_data s))%nat with 0%nat by lia. rewrite app_nil_r.
      replace (Z.of_nat (length (st_data s))) with (MAXBUF - OFFSET) by (unfold MAXBUF, OFFSET; lia). done.
Qed.

Lemma reads_no_datagrams t : Forall is_read t -> datagrams t = [].
Proof. induction 1 as [|e t He _ IH]; [done|]. by destruct e as [[] r|[]|]. Qed.

Lemma chunk_run F fd a file i s rest :
  step_ok F s -> (length (st_data s) <= PART)%nat -> (6 < F)%nat -> 0 < i <= INT_MAX ->
  exists t, run (chunk_iter F fd a file (i - 1)) (client_env i s ++ rest) =
    (Done (if is_last s then inr tt else inl i) rest, t) /\
    datagrams t = replicate (S (length (st_losses s))) (a, packet i (st_data s)).
Proof.
  intros Hs Hd HF Hi. pose proof Hs as (_ & _ & Hls). limits. unfold chunk_iter, client_env.
  change (drop (Z.to_nat OFFSET) (replicate (Z.to_nat MAXBUF) 0)) with (replicate 568 0).
  change (take (Z.to_nat OFFSET) (replicate (Z.to_nat MAXBUF) 0)) with (replicate 8 0).
  rewrite run_bind, <- !app_assoc.
  destruct (read_part F file s (concat ((fun _ => timed_out) <$> st_losses s) ++
    [rint MAXBUF; Reply MAXBUF 0 (packet i (st_data s)) []] ++ rest)) as (t1 & -> & Hr); try done.
  destruct (Z.ltb_spec (Z.of_nat (length (st_data s))) 0); [lia|].
  replace (i - 1 + 1) with i by lia.
  rewrite (proj2 (checked_int_Some i i)) by lia. cbn [defined pbind].
  rewrite fill_part_packet by done. cbn [defined pbind]. rewrite run_bind.
  destruct (attempts_run F fd a i (packet i (st_data s)) (st_losses s) F 0 (replicate (Z.to_nat MAXBUF) 0) rest)
    as (c' & t2 & H2 & Ht2); try done; try lia.
  - by apply packet_length.
  - by apply confirmed_packet.
  - by apply confirmed_zeros.
  - cbn [app]. rewrite H2, confirmed_packet by done. cbn [negb andb].
    exists (t1 ++ t2 ++ []). split; [|by rewrite app_nil_r, datagrams_app, (reads_no_datagrams t1), Ht2].
    unfold is_last, PART in *. change (MAXBUF - OFFSET) with 568.
    destruct (Nat.ltb_spec (length (st_data s)) 568), (Z.eqb_spec (Z.of_nat (length (st_data s))) 568); by (lia || done).
Qed.

(** What the client sends over the whole file. *)
Fixpoint transmissions (a i : Z) (ss : list step) : list (Z * list Z) :=
  match ss with
  | [] => []
  | s :: ss' => replicate (S (length (st_losses s))) (a, packet i (st_data s)) ++ transmissions a (i + 1) ss'
  end.

Lemma parts_length ss s : parts_ok ss -> s ∈ ss -> (length (st_data s) <= PART)%nat.
Proof.
  induction ss as [|s1 [|s2 ss] IH]; cbn [parts_ok]; [done| |].
  - intros H ->%list_elem_of_singleton. lia.
  - intros [H1 H] [->|Hs]%elem_of_cons; [lia|auto].
Qed.

Lemma client_run F fd a file ss : forall n i,
  parts_ok ss -> Forall (step_ok F) ss -> (6 < F)%nat -> 0 < i -> i + Z.of_nat (length ss) <= INT_MAX ->
  (length ss <= n)%nat ->
  exists t, run (loop n (chunk_iter F fd a file) (i - 1)) (client_envs i ss) = (Done tt [], t) /\
    datagrams t = transmissions a i ss.
Proof.
  induction ss as [|s ss IH]; intros n i Hp Hs HF Hi HM Hn; [done|].
  destruct n as [|n]; [simpl in Hn; lia|]. simpl in Hn, HM.
  pose proof (parts_length (s :: ss) s Hp ltac:(apply elem_of_cons; auto)) as Hl.
  apply Forall_cons in Hs as [Hs Hss]. rewrite loop_S, run_bind. cbn [client_envs transmissions].
  destruct (chunk_run F fd a file i s (client_envs (i + 1) ss)) as (t1 & -> & Ht1); try done; [lia|].
  destruct ss as [|s2 ss].
  - unfold is_last. rewrite (proj2 (Nat.ltb_lt _ _)) by exact Hp. cbn. exists t1. by rewrite !app_nil_r, Ht1.
  - destruct Hp as [Hl1 Hp]. unfold is_last. rewrite (proj2 (Nat.ltb_ge _ _)) by lia.
    destruct (IH n (i + 1)) as (t2 & H2 & Ht2); try done; [lia|simpl in *; lia|lia|].
    replace (i + 1 - 1) with i in H2 by lia. rewrite H2. eexists. split; [done|].
    by rewrite datagrams_app, Ht1, Ht2.
Qed.

(** ** The server on what arrives *)
Definition shown (o : list output) : list output :=
  omap (fun x => match x with Shown _ _ _ => Some x | _ => None end) o.
Definition confirmations (o : list output) : list (Z * list Z) :=
  omap (fun x => match x with Confirmed a d => Some (a, d) | _ => None end) o.
Fixpoint shown_parts (i : Z) (ss : list step) : list output :=
  match ss with [] => [] | s :: ss' => shown_part i s :: shown_parts (i + 1) ss' end.

Definition answers_lost (s : step) : nat :=
  length (omap (fun l => match l with ConfirmationLost => Some tt | DataLost => None end) (st_losses s)).

Lemma arrived_copies i s : arrived i s = replicate (S (answers_lost s)) (packet i (st_data s)).
Proof.
  unfold arrived, answers_lost. rewrite replicate_S_end. f_equal.
  induction (st_losses s) as [|[] l IH]; simpl; [done|done|by f_equal].
Qed.

Lemma repeats_run m a i p k ps :
  m !! a = Some i -> part_no p = i ->
  session_run m (replicate k (a, p) ++ ps) =
    let '(m', o) := session_run m ps in (m', replicate k (Confirmed a p) ++ o).
Proof.
  intros Hm Hp. induction k as [|k IH]; cbn [replicate app].
  - by destruct (session_run m ps).
  - cbn [session_run]. unfold session_step, session. rewrite Hm, Hp.
    rewrite (proj2 (Z.ltb_ge _ _)), (proj2 (Z.eqb_neq i (i + 1))) by lia.
    rewrite insert_id, IH by done. by destruct (session_run m ps).
Qed.

Lemma part_run m a i p k ps :
  session m a = Some (i - 1) -> part_no p = i -> part_last p = false ->
  session_run m (replicate (S k) (a, p) ++ ps) =
    let '(m', o) := session_run (<[a := i]> m) ps in
    (m', Shown false i (upto_nul (drop 8 p)) :: replicate (S k) (Confirmed a p) ++ o).
Proof.
  intros Hm Hp Hl. cbn [replicate app session_run]. unfold session_step. rewrite Hm, Hp, Hl.
  replace (i - 1 + 1) with i by lia. rewrite Z.ltb_irrefl, Z.eqb_refl.
  rewrite (repeats_run _ a i p k ps) by (done || apply lookup_insert_eq).
  by destruct (session_run (<[a:=i]> m) ps).
Qed.

Lemma last_run m a i p :
  session m a = Some (i - 1) -> part_no p = i -> part_last p = true ->
  session_run m [(a, p)] = (delete a m, [Shown true i (upto_nul (drop 8 p)); Confirmed a p]).
Proof.
  intros Hm Hp Hl. cbn [session_run]. unfold session_step. rewrite Hm, Hp, Hl.
  replace (i - 1 + 1) with i by lia. by rewrite Z.ltb_irrefl, Z.eqb_refl.
Qed.

Lemma confirmations_copies a p k o :
  confirmations (replicate k (Confirmed a p) ++ o) = replicate k (a, p) ++ confirmations o.
Proof. induction k as [|k IH]; [done|]. cbn. f_equal. exact IH. Qed.

Lemma shown_copies a p k o : shown (replicate k (Confirmed a p) ++ o) = shown o.
Proof. induction k as [|k IH]; [done|]. cbn. exact IH. Qed.

(** No confirmation of the last part is lost. *)
Fixpoint last_confirmed (ss : list step) : Prop :=
  match ss with [] => True | [s] => answers_lost s = 0%nat | _ :: ss' => last_confirmed ss' end.

Lemma packet_text i d : upto_nul (drop 8 (packet i d)) = upto_nul d.
Proof. destruct (packet_word i d) as (_ & _ & ->). apply upto_nul_zeros. Qed.

Lemma session_file a ss : forall m i,
  parts_ok ss -> last_confirmed ss ->
  0 < i -> i + Z.of_nat (length ss) <= INT_MAX -> session m a = Some (i - 1) ->
  exists o, session_run m (pair a <$> arrivals i ss) = (delete a m, o) /\
    shown o = shown_parts i ss /\ confirmations o = pair a <$> arrivals i ss.
Proof.
  induction ss as [|s [|s2 ss] IH]; intros m i Hp Hc Hi HM Hm; [done| |].
  - cbn [arrivals shown_parts]. rewrite arrived_copies, fmap_app, fmap_replicate. cbn [last_confirmed] in Hc. rewrite Hc. cbn [arrivals fmap list_fmap app replicate]. simpl in HM.
    rewrite (last_run m a i) by (done || (apply part_no_packet; lia) ||
      (rewrite part_last_packet; apply Nat.ltb_lt; exact Hp)).
    eexists. split; [done|]. rewrite packet_text. split; [|done].
    unfold shown_part, is_last. by rewrite (proj2 (Nat.ltb_lt _ _) Hp).
  - destruct Hp as [Hl Hp]. simpl in HM.
    change (arrivals i (s :: s2 :: ss)) with (arrived i s ++ arrivals (i + 1) (s2 :: ss)).
    change (shown_parts i (s :: s2 :: ss)) with (shown_part i s :: shown_parts (i + 1) (s2 :: ss)).
    rewrite arrived_copies, fmap_app, fmap_replicate.
    rewrite (part_run m a i) by (done || (apply part_no_packet; lia) ||
      (rewrite part_last_packet; apply Nat.ltb_ge; lia)).
    destruct (IH (<[a := i]> m) (i + 1)) as (o & -> & Ho1 & Ho2); try done; [lia|simpl; lia| |].
    { unfold session. rewrite lookup_insert_eq. f_equal. lia. }
    eexists. rewrite delete_insert_eq. split; [done|]. rewrite packet_text. split.
    + change (shown (?x :: ?l)) with (x :: shown l). rewrite shown_copies, Ho1. f_equal.
      unfold shown_part, is_last. by rewrite (proj2 (Nat.ltb_ge _ _)) by lia.
    + change (confirmations (Shown ?x ?y ?z :: ?l)) with (confirmations l).
      by rewrite confirmations_copies, Ho2.
Qed.

Lemma arrivals_sublist a i ss : pair a <$> arrivals i ss `sublist_of` transmissions a i ss.
Proof.
  revert i. induction ss as [|s ss IH]; intros i; [done|]. cbn [arrivals transmissions].
  rewrite fmap_app. apply sublist_app; [|apply IH]. rewrite arrived_copies, fmap_replicate.
  assert (answers_lost s <= length (st_losses s))%nat as Hle.
  { unfold answers_lost. induction (st_losses s) as [|[] l IHl]; [done|exact (Nat.le_le_succ_r _ _ IHl)|exact (le_n_S _ _ IHl)]. }
  replace (S (length (st_losses s))) with (S (answers_lost s) + (length (st_losses s) - answers_lost s))%nat by lia.
  rewrite replicate_add. by apply sublist_inserts_r.
Qed.

Lemma arrivals_sizes a i ss :
  parts_ok ss -> Forall (fun p : Z * list Z => length p.2 = 576%nat) (pair a <$> arrivals i ss).
Proof.
  intros Hp. assert (forall s, s ∈ ss -> length (st_data s) <= PART)%nat as Hl by (by intros s; apply parts_length).
  clear Hp. revert i. induction ss as [|s ss IH]; intros i; [constructor|].
  cbn [arrivals]. rewrite fmap_app. apply Forall_app. split.
  - rewrite arrived_copies, fmap_replicate. apply Forall_replicate. simpl. apply (packet_length i). apply Hl.
    apply elem_of_cons; auto.
  - apply IH. intros s' Hs'. apply Hl. apply elem_of_cons; auto.
Qed.

(** C22. A transfer over a lossy network: when each part of the file gets
    through after at most five lost exchanges (its datagram or its
    confirmation lost) and no confirmation of the last part is lost, the client
    ends normally, the server, fed with exactly the datagrams that were not
    lost, confirms each of them to the client and shows the parts of the file
    in order and each once, although it received some of them several times.
    A part is shown as a string: a part with a NUL byte up to that byte. *)
Theorem file_transfer F n n' fd sfd a file jcon junk ss :
  parts_ok ss -> Forall (step_ok F) ss -> last_confirmed ss ->
  (6 < F)%nat -> (length ss <= n)%nat -> Z.of_nat (length ss) < INT_MAX ->
  length jcon = MAXADDR -> length junk = 577%nat ->
  (length (arrivals 1 ss) < n')%nat -> Z.of_nat (length (arrivals 1 ss)) < INT_MAX ->
  exists tc ts,
    run (doClient n F fd a file) (client_envs 1 ss) = (Done tt [], tc) /\
    datagrams tc = transmissions a 1 ss /\
    pair a <$> arrivals 1 ss `sublist_of` transmissions a 1 ss /\
    run (doServer n' F sfd jcon junk) (deliveries ∅ (pair a <$> arrivals 1 ss)) = (Blocked, ts) /\
    confirmations (outputs ts) = pair a <$> arrivals 1 ss /\
    shown (outputs ts) = shown_parts 1 ss.
Proof.
  intros Hp Hs Hc HF Hn HM Hj Hb Hn' HM'.
  destruct (client_run F fd a file ss n 1) as (tc & H1 & H2); try done; try lia.
  assert (session ∅ a = Some (1 - 1)) as H0 by (unfold session; by rewrite lookup_empty).
  destruct (session_file a ss ∅ 1) as (o & Ho & H3 & H4); try done; try lia.
  destruct (server_run F sfd (pair a <$> arrivals 1 ss) n'
    ((fun c => Con true (chunkNo c) (addr c)) <$> jcon) junk ∅ 0) as (ts & H5 & H6);
    rewrite ?length_fmap; try done; try lia.
  - by apply arrivals_sizes.
  - apply represents_fresh.
  - exists tc, ts. rewrite H6, Ho. repeat (split; [done || apply arrivals_sublist|]). done.
Qed.

Definition demo_steps : list step :=
  [Step (replicate 568 65) [full_read (replicate 500 65); full_read (replicate 68 65)] [DataLost; ConfirmationLost];
   Step (str "the end" ++ [0; 66]) [full_read (str "the end" ++ [0; 66])] [DataLost]].

Lemma file_transfer_witness :
  exists tc ts,
    run (doClient 2 7 4 99 5) (client_envs 1 demo_steps) = (Done tt [], tc) /\
    datagrams tc = transmissions 99 1 demo_steps /\
    pair 99 <$> arrivals 1 demo_steps `sublist_of` transmissions 99 1 demo_steps /\
    run (doServer 4 7 3 (replicate 5 (Con false 0 0)) (replicate 577 1))
      (deliveries ∅ (pair 99 <$> arrivals 1 demo_steps)) = (Blocked, ts) /\
    confirmations (outputs ts) = pair 99 <$> arrivals 1 demo_steps /\
    shown (outputs ts) = [Shown false 1 (replicate 568 65); Shown true 2 (str "the end")].
Proof.
  apply (file_transfer 7 2 4 4 3 99 5 (replicate 5 (Con false 0 0)) (replicate 577 1) demo_steps).
  - split; [reflexivity|]. vm_compute. lia.
  - apply Forall_cons; split; [|apply Forall_cons; split; [|constructor]]; (split; [|split; simpl; lia]).
    + cbn [st_data st_reads]. change (replicate 500 65) with (take 500 (replicate 568 65)).
      change (replicate 68 65) with (drop 500 (replicate 568 65)).
      apply chunks_cut; [discriminate|]. apply chunks_last. discriminate.
    + apply chunks_last. discriminate.
  - reflexivity.
  - lia.
  - vm_compute. lia.
  - vm_compute. reflexivity.
  - reflexivity.
  - reflexivity.
  - vm_compute. lia.
  - vm_compute. reflexivity.
Defined.

(** The confirmation of the last part is lost: the session is closed, and
    the repeated part opens a new one.  A file of one part is shown twice; a
    longer one leaves a session behind that no datagram can close. *)
Example lost_last_confirmation :
  shown (session_run ∅ (replicate 2 (9, packet 1 (str "hi")))).2 = [Shown true 1 (str "hi"); Shown true 1 (str "hi")] /\
  session_run ∅ [(9, packet 1 (replicate 568 65)); (9, packet 2 (str "hi")); (9, packet 2 (str "hi"))] =
    (<[9 := 0]> ∅, [Shown false 1 (replicate 568 65); Confirmed 9 (packet 1 (replicate 568 65));
                    Shown true 2 (str "hi"); Confirmed 9 (packet 2 (str "hi"))]).
Proof. split; vm_compute; reflexivity. Qed.

(** Five such clients, and the server answers nobody else. *)
Example sessions_exhausted m a d :
  size m = MAXADDR -> m !! a = None -> session_step m (a, d) = (m, []).
Proof. intros Hs Hm. unfold session_step, session. by rewrite Hm, Hs. Qed.
