(* ===== verification/CondVar.v ===== *)
(** * Condition variables

    A condition variable is the queue of the threads that wait on it, by their
    place in the system.  [pthread_cond_wait] puts the caller at the end and
    releases the mutex in one step, then sleeps until it has been taken out;
    with spurious wake-ups it may also wake by itself. *)

From S2P Require Import Prelude Os Threads.

Definition dequeue (i : nat) (q : list nat) : list nat := filter (fun j => j <> i) q.
(** [pthread_cond_signal] takes any one waiting process out of the queue. *)
Definition signal (q : list nat) : list (list nat) :=
  match q with [] => [[]] | _ => (fun w => dequeue w q) <$> q end.
(** [pthread_cond_wait] of process [j], asleep: has it been signalled? *)
Definition wake (spurious : bool) (j : nat) (q : list nat) : list (list nat) :=
  if decide (j ∈ q) then if spurious then [dequeue j q] else [] else [q].

(** [pthread_cond_broadcast] empties the queue. *)
Definition broadcast (_ : list nat) : list nat := [].

Lemma dequeue_self j : dequeue j [j] = [].
Proof. unfold dequeue. rewrite filter_cons_False; [done|]. naive_solver. Qed.

Lemma wake_alone sp j q q' : q = [] \/ q = [j] -> q' ∈ wake sp j q -> q' = [].
Proof.
  intros Hq Hw. unfold wake in Hw. case_decide as Hj.
  - destruct Hq as [->| ->]; [by apply not_elem_of_nil in Hj|].
    destruct sp; [|by apply not_elem_of_nil in Hw].
    apply list_elem_of_singleton in Hw as ->. apply dequeue_self.
  - apply list_elem_of_singleton in Hw as ->. destruct Hq as [->| ->]; [done|].
    by rewrite list_elem_of_singleton in Hj.
Qed.

Lemma signal_alone j q q' : q = [] \/ q = [j] -> q' ∈ signal q -> q' = [].
Proof.
  intros [->| ->] Hq; simpl in Hq; apply list_elem_of_singleton in Hq as ->; [done|apply dequeue_self].
Qed.

Lemma wake_asleep sp j q : wake sp j q = [] -> j ∈ q.
Proof. unfold wake. case_decide; [done|]. done. Qed.

Lemma signal_some q : signal q <> [].
Proof. by destruct q. Qed.

Lemma elem_of_dequeue i j q : j ∈ dequeue i q <-> j <> i /\ j ∈ q.
Proof. unfold dequeue. by rewrite list_elem_of_filter. Qed.

(** A wake-up only takes threads out. *)
Lemma wake_sub sp j q q' : q' ∈ wake sp j q -> j ∉ q' /\ forall k, k ∈ q' <-> k <> j /\ k ∈ q.
Proof.
  unfold wake. case_decide as Hj; [destruct sp; [|by intros ?%elem_of_nil]|];
    intros ->%list_elem_of_singleton.
  - split; [rewrite elem_of_dequeue; naive_solver|]. intros k. apply elem_of_dequeue.
  - naive_solver.
Qed.

(** A signal takes one waiting thread out, whichever it is. *)
Lemma signal_takes q q' :
  q' ∈ signal q -> q = [] /\ q' = [] \/ exists w, w ∈ q /\ forall k, k ∈ q' <-> k <> w /\ k ∈ q.
Proof.
  destruct q as [|a q]; simpl; [intros ->%list_elem_of_singleton; by left|].
  intros Hq. right. change (q' ∈ (fun w => dequeue w (a :: q)) <$> a :: q) in Hq.
  apply list_elem_of_fmap in Hq as (w & -> & Hw). exists w. split; [done|]. intros k. apply elem_of_dequeue.
Qed.
