(* ===== verification/BoundedBuffer.v ===== *)
(** * sync2: the bounded buffer

    bounded_buffer_sem.c (two producer and two consumer processes over
    semaphores) and bounded_buffer_cv.c (one of each over a mutex and two
    condition variables) share a ring of cells in shared memory.  A step is
    one access of the shared memory or one call; what is printed is kept in
    the order it is printed, so that the order of items is a property of the
    output. *)

From S2P Require Import Prelude Os Threads CondVar.

Local Open Scope Z_scope.

(** ** The ring

    After [p] items put and [c] taken, the cells hold the items [c] to [p-1]
    of the produced sequence [P], item [k] in cell [k mod N]. *)
Record ring (N : Z) (items P : list Z) (p c : Z) : Prop := {
  ring_size : Z.of_nat (length items) = N;
  ring_taken : 0 <= c <= p;
  ring_room : p <= c + N;
  ring_made : p <= Z.of_nat (length P);
  ring_cells k : c <= k < p -> items !! Z.to_nat (k mod N) = P !! Z.to_nat k;
}.

Section Ring.
Context (N : Z) (HN : 0 < N).
Implicit Types (items P : list Z) (p c : Z).

Lemma ring_index items P p c k :
  ring N items P p c -> 0 <= k mod N < Z.of_nat (length items).
Proof. intros H. rewrite (ring_size _ _ _ _ _ H). by apply Z.mod_pos_bound. Qed.

Lemma ring_get items P p c :
  ring N items P p c -> c < p -> exists x, items !! Z.to_nat (c mod N) = Some x /\ P !! Z.to_nat c = Some x.
Proof.
  intros H Hc. destruct (lookup_lt_is_Some_2 P (Z.to_nat c)) as [x Hx].
  { pose proof (ring_made _ _ _ _ _ H). pose proof (ring_taken _ _ _ _ _ H). lia. }
  exists x. split; [|done]. rewrite (ring_cells _ _ _ _ _ H c); [done|lia].
Qed.

(** Different positions of the window lie in different cells. *)
Lemma window_injective k p c : c <= k < p -> p < c + N -> k mod N <> p mod N.
Proof.
  intros Hk Hp He. pose proof (Z.div_mod k N) as H1. pose proof (Z.div_mod p N) as H2.
  assert (p - k = N * (p / N - k / N)) as Hd by lia.
  assert (0 < p / N - k / N) by nia. nia.
Qed.

Lemma ring_put items P p c x :
  ring N items P p c -> p < c + N -> ring N (<[Z.to_nat (p mod N) := x]> items) P p c.
Proof.
  intros [H1 H2 H3 H4 H5] Hp. split; try done; [by rewrite length_insert|].
  intros k Hk. rewrite list_lookup_insert_ne; [by apply H5|].
  pose proof (window_injective k p c Hk Hp).
  pose proof (Z.mod_pos_bound k N HN). pose proof (Z.mod_pos_bound p N HN). lia.
Qed.

Lemma ring_print items P p c x : ring N items P p c -> ring N items (P ++ [x]) p c.
Proof.
  intros [H1 H2 H3 H4 H5]. split; try done; [rewrite length_app; simpl; lia|].
  intros k Hk. rewrite lookup_app_l by lia. by apply H5.
Qed.

Lemma ring_in items P p c x :
  ring N items P p c -> p < c + N -> items !! Z.to_nat (p mod N) = Some x ->
  P !! Z.to_nat p = Some x -> ring N items P (p + 1) c.
Proof.
  intros [H1 H2 H3 H4 H5] Hp Hi HP. split; try done; try lia.
  - apply lookup_lt_Some in HP. lia.
  - intros k Hk. destruct (decide (k = p)) as [->|]; [congruence|]. apply H5. lia.
Qed.

Lemma ring_out items P p c : ring N items P p c -> c < p -> ring N items P p (c + 1).
Proof. intros [H1 H2 H3 H4 H5] Hc. split; try done; try lia. intros k Hk. apply H5. lia. Qed.

(** A store into the ring stays inside the array. *)
Lemma ring_store items P p c k x :
  ring N items P p c -> mem_store items (k mod N) [x] = Some (<[Z.to_nat (k mod N) := x]> items).
Proof.
  intros H. pose proof (ring_index items P p c k H) as Hk.
  rewrite mem_store_is_Some by (simpl; lia). rewrite insert_take_drop by lia. simpl. by rewrite Nat.add_1_r.
Qed.

Lemma next_mod k : 0 <= k -> (k mod N + 1) mod N = (k + 1) mod N.
Proof. intros Hk. by rewrite Zplus_mod_idemp_l. Qed.
End Ring.

(** What is printed. *)
Inductive line :=
| Produced (id item index : Z)
| Consumed (id item index : Z).

Definition produced (l : list line) : list Z :=
  omap (fun x => match x with Produced _ v _ => Some v | _ => None end) l.
Definition consumed (l : list line) : list Z :=
  omap (fun x => match x with Consumed _ v _ => Some v | _ => None end) l.
(** What producer [j] printed. *)
Definition made (j : Z) (l : list line) : list Z :=
  omap (fun x => match x with Produced id v _ => if id =? j then Some v else None | _ => None end) l.

Lemma seqZ_last (f : Z -> Z) n : 0 <= n -> f <$> seqZ 0 (n + 1) = (f <$> seqZ 0 n) ++ [f n].
Proof. intros Hn. rewrite (seqZ_app 0 n 1), fmap_app by lia. by rewrite Z.add_0_l. Qed.

Lemma produced_app l l' : produced (l ++ l') = produced l ++ produced l'.
Proof. apply omap_app. Qed.
Lemma consumed_app l l' : consumed (l ++ l') = consumed l ++ consumed l'.
Proof. apply omap_app. Qed.
Lemma made_app j l l' : made j (l ++ l') = made j l ++ made j l'.
Proof. apply omap_app. Qed.

(** ** bounded_buffer_sem.c *)
Module Sem.

Definition BUFFER_SIZE : Z := 5.
Definition NUM_PRODUCERS : Z := 2.
Definition NUM_CONSUMERS : Z := 2.
Definition ITEMS_PER_PRODUCER : Z := 10.

Record bounded_buffer := Buffer {
  items : list Z; in_ : Z; out : Z;
  mtx : Z; empty : Z; nonempty : Z;
  stdout : list line }.

Inductive producer_pc := PWaitEmpty | PWaitMtx | PStore | PPrint | PAdvance | PPostMtx | PPostNonempty.
Inductive consumer_pc := CWaitNonempty | CWaitMtx | CLoad | CPrint | CAdvance | CPostMtx | CPostEmpty.

(** A process with its loop counter and, for a consumer, the item it took. *)
Inductive process :=
| Producer (id i : Z) (pc : producer_pc)
| Consumer (id i : Z) (pc : consumer_pc) (item : Z).

Definition item_of (id i : Z) : Z := id * 100 + i.

Definition producer (id i : Z) (pc : producer_pc) (b : bounded_buffer) : list (process * bounded_buffer) :=
  let '(Buffer its n o m e ne so) := b in
  match pc with
  | PWaitEmpty =>       (* i < ITEMS_PER_PRODUCER; sem_wait(&buf->empty) *)
      if (i <? ITEMS_PER_PRODUCER) && (0 <? e)
      then [(Producer id i PWaitMtx, Buffer its n o m (e - 1) ne so)] else []
  | PWaitMtx =>         (* sem_wait(&buf->mtx) *)
      if 0 <? m then [(Producer id i PStore, Buffer its n o (m - 1) e ne so)] else []
  | PStore =>           (* buf->items[buf->in] = item *)
      match mem_store its n [item_of id i] with
      | Some its' => [(Producer id i PPrint, Buffer its' n o m e ne so)]
      | None => []
      end
  | PPrint =>
      [(Producer id i PAdvance, Buffer its n o m e ne (so ++ [Produced id (item_of id i) n]))]
  | PAdvance =>         (* buf->in = (buf->in + 1) % BUFFER_SIZE *)
      [(Producer id i PPostMtx, Buffer its (Z.rem (n + 1) BUFFER_SIZE) o m e ne so)]
  | PPostMtx => [(Producer id i PPostNonempty, Buffer its n o (m + 1) e ne so)]
  | PPostNonempty => [(Producer id (i + 1) PWaitEmpty, Buffer its n o m e (ne + 1) so)]
  end.

Definition items_to_consume : Z := Z.quot (NUM_PRODUCERS * ITEMS_PER_PRODUCER) NUM_CONSUMERS.

Definition consumer (id i : Z) (pc : consumer_pc) (item : Z) (b : bounded_buffer)
    : list (process * bounded_buffer) :=
  let '(Buffer its n o m e ne so) := b in
  match pc with
  | CWaitNonempty =>    (* i < items_to_consume; sem_wait(&buf->nonempty) *)
      if (i <? items_to_consume) && (0 <? ne)
      then [(Consumer id i CWaitMtx item, Buffer its n o m e (ne - 1) so)] else []
  | CWaitMtx => if 0 <? m then [(Consumer id i CLoad item, Buffer its n o (m - 1) e ne so)] else []
  | CLoad =>            (* int item = buf->items[buf->out] *)
      match mem_load its o with
      | Some v => [(Consumer id i CPrint v, b)]
      | None => []
      end
  | CPrint => [(Consumer id i CAdvance item, Buffer its n o m e ne (so ++ [Consumed id item o]))]
  | CAdvance => [(Consumer id i CPostMtx item, Buffer its n (Z.rem (o + 1) BUFFER_SIZE) m e ne so)]
  | CPostMtx => [(Consumer id i CPostEmpty item, Buffer its n o (m + 1) e ne so)]
  | CPostEmpty => [(Consumer id (i + 1) CWaitNonempty item, Buffer its n o m (e + 1) ne so)]
  end.

Definition step (_ : nat) (t : process) (b : bounded_buffer) : list (process * bounded_buffer) :=
  match t with
  | Producer id i pc => producer id i pc b
  | Consumer id i pc item => consumer id i pc item b
  end.

(** The buffer as [main] initialises it; [junk] is what the cells hold. *)
Definition start_buffer (junk : list Z) : bounded_buffer := Buffer junk 0 0 1 BUFFER_SIZE 0 [].
Definition start (junk : list Z) : list process * bounded_buffer :=
  (((fun i => Producer (Z.of_nat i) 0 PWaitEmpty) <$> seq 0 (Z.to_nat NUM_PRODUCERS)) ++
   ((fun i => Consumer (Z.of_nat i) 0 CWaitNonempty 0) <$> seq 0 (Z.to_nat NUM_CONSUMERS)),
   start_buffer junk).

(** [main]: the buffer in shared memory, the four forks and the waits.  Each
    process ends up in one of these roles. *)
Inductive role := ChildProducer (i : Z) | ChildConsumer (i : Z) | Parent (status : Z).

(** [for (i < n) if (fork() == 0) { child(i); exit(...); }] *)
Fixpoint fork_each (child : Z -> role) (ids : list Z) (rest : prog role) : prog role :=
  match ids with
  | [] => rest
  | i :: ids' =>
      let! r := sys (Libc "fork" []) in
      if rv r =? 0 then Ret (child i) else fork_each child ids' rest
  end.

Definition main : prog role :=
  let! buf := sys (Libc "mmap" []) in
  if rv buf =? -1 then perror "mmap failed" ;;; Exit EXIT_FAILURE else
  ignored "sem_init(mtx)" [1] ;;;
  ignored "sem_init(empty)" [BUFFER_SIZE] ;;;
  ignored "sem_init(nonempty)" [0] ;;;
  fork_each ChildProducer (seqZ 0 NUM_PRODUCERS) (
  fork_each ChildConsumer (seqZ 0 NUM_CONSUMERS) (
  for_each (fun _ _ => sys (Libc "wait" []) ;;; Ret tt) (seqZ 0 (NUM_PRODUCERS + NUM_CONSUMERS)) tt ;;;
  ignored "sem_destroy" [] ;;; ignored "sem_destroy" [] ;;; ignored "sem_destroy" [] ;;;
  ignored "munmap" [] ;;;
  printf "[Main] All done. Shared memory cleaned up." [] ;;;
  Ret (Parent 0))).

(** The parent waits for four children and no more. *)
Example main_waits pid : 0 < pid ->
  (run main (rint 4096 :: replicate 4 (rint pid) ++ replicate 4 (rint pid))).1 = Done (Parent 0) [].
Proof.
  intros Hp. unfold main. change (seqZ 0 NUM_PRODUCERS) with [0; 1]. change (seqZ 0 NUM_CONSUMERS) with [0; 1].
  change (seqZ 0 (NUM_PRODUCERS + NUM_CONSUMERS)) with [0; 1; 2; 3].
  assert (pid =? 0 = false) as E by lia. simpl. rewrite E. simpl. rewrite E. simpl. rewrite E. simpl.
  rewrite E. done.
Qed.

(** *** Where the tokens are *)
Definition inside (t : process) : Z :=
  match t with
  | Producer _ _ (PStore | PPrint | PAdvance | PPostMtx) => 1
  | Consumer _ _ (CLoad | CPrint | CAdvance | CPostMtx) _ => 1
  | _ => 0
  end.
Definition token (t : process) : Z :=
  match t with Producer _ _ PWaitEmpty | Consumer _ _ CWaitNonempty _ => 0 | _ => 1 end.
Definition posting (t : process) : Z :=
  match t with Producer _ _ (PPostMtx | PPostNonempty) => 1 | _ => 0 end.
Definition taking (t : process) : Z :=
  match t with Consumer _ _ (CWaitMtx | CLoad | CPrint | CAdvance) _ => 1 | _ => 0 end.
(** Items a process has put into or taken out of the ring. *)
Definition puts (t : process) : Z :=
  match t with Producer _ i (PPostMtx | PPostNonempty) => i + 1 | Producer _ i _ => i | _ => 0 end.
Definition takes (t : process) : Z :=
  match t with Consumer _ i (CPostMtx | CPostEmpty) _ => i + 1 | Consumer _ i _ _ => i | _ => 0 end.
Definition printed_put (t : process) : Z := match t with Producer _ _ PAdvance => 1 | _ => 0 end.
Definition printed_take (t : process) : Z := match t with Consumer _ _ CAdvance _ => 1 | _ => 0 end.

(** What a process at index [j] knows. *)
Definition process_ok (p c : Z) (b : bounded_buffer) (j : nat) (t : process) : Prop :=
  match t with
  | Producer id i pc =>
      id = Z.of_nat j /\ 0 <= i <= ITEMS_PER_PRODUCER /\
      (pc <> PWaitEmpty -> i < ITEMS_PER_PRODUCER) /\
      made id (stdout b) = item_of id <$> seqZ 0 (i + match pc with PAdvance | PPostMtx | PPostNonempty => 1 | _ => 0 end) /\
      match pc with
      | PPrint => items b !! Z.to_nat (p mod BUFFER_SIZE) = Some (item_of id i)
      | PAdvance => items b !! Z.to_nat (p mod BUFFER_SIZE) = Some (item_of id i) /\
                    produced (stdout b) !! Z.to_nat p = Some (item_of id i)
      | _ => True
      end
  | Consumer id i pc item =>
      0 <= i <= items_to_consume /\ (pc <> CWaitNonempty -> i < items_to_consume) /\
      match pc with CPrint => produced (stdout b) !! Z.to_nat c = Some item | _ => True end
  end.

Record inv (ls : list process) (b : bounded_buffer) : Prop := {
  inv_mutex : mtx b + total inside ls = 1 /\ 0 <= mtx b;
  inv_slots : empty b + nonempty b + total token ls = BUFFER_SIZE /\ 0 <= empty b /\ 0 <= nonempty b;
  inv_items : nonempty b + total posting ls + total taking ls = total puts ls - total takes ls;
  inv_in : in_ b = total puts ls mod BUFFER_SIZE;
  inv_out : out b = total takes ls mod BUFFER_SIZE;
  inv_ring : ring BUFFER_SIZE (items b) (produced (stdout b)) (total puts ls) (total takes ls);
  inv_produced : Z.of_nat (length (produced (stdout b))) = total puts ls + total printed_put ls;
  inv_consumed : Z.of_nat (length (consumed (stdout b))) = total takes ls + total printed_take ls;
  inv_fifo : consumed (stdout b) `prefix_of` produced (stdout b);
  inv_process j t : ls !! j = Some t -> process_ok (total puts ls) (total takes ls) b j t;
}.

Lemma inside_bool t : 0 <= inside t.
Proof. by destruct t as [? ? []|? ? [] ?]. Qed.
Lemma token_posting t : 0 <= posting t /\ 0 <= taking t /\ posting t + taking t <= token t.
Proof. by destruct t as [? ? []|? ? [] ?]. Qed.

(** Every total after a step, as a linear fact. *)
Ltac totals :=
  repeat match goal with
  | H : ?ls !! ?j = Some ?x |- context [total ?f (<[?j := ?y]> ?ls)] =>
      rewrite (sum_over_insert f ls j x y H)
  end; cbn [inside token posting taking puts takes printed_put printed_take].

(** [x - a + b] as [x], [x + 1] or [x - 1]. *)
Ltac net :=
  repeat match goal with
  | |- context [?x - ?a + ?b] =>
      first [ replace (x - a + b) with x by lia
            | replace (x - a + b) with (x + 1) by lia
            | replace (x - a + b) with (x - 1) by lia ]
  end.

(** What a process knows survives the steps of another one outside. *)
Lemma process_ok_frame p c b b' k t :
  items b' = items b -> stdout b' = stdout b -> process_ok p c b k t -> process_ok p c b' k t.
Proof. unfold process_ok. by intros -> ->. Qed.

(** Nobody else is inside while [j] is; those facts are all outside. *)
Lemma alone ls b j k t u :
  inv ls b -> ls !! j = Some t -> inside t = 1 -> ls !! k = Some u -> k <> j -> inside u = 0.
Proof.
  intros HI Hj Ht Hk Hne. pose proof (inside_bool u).
  pose proof (total_two inside ls k j u t inside_bool Hk Hj Hne). destruct (inv_mutex _ _ HI). lia.
Qed.

Lemma total_token ls : total token ls = total posting ls + total taking ls + total (fun t => token t - posting t - taking t) ls.
Proof. induction ls as [|t ls IH]; simpl; lia. Qed.

(** A producer inside, its item not counted yet, has a free cell. *)
Lemma room ls b j id i pc :
  inv ls b -> ls !! j = Some (Producer id i pc) -> pc ∈ [PStore; PPrint; PAdvance] ->
  total puts ls < total takes ls + BUFFER_SIZE.
Proof.
  intros HI Hj Hpc. destruct (inv_slots _ _ HI) as (Hs & He & Hn). pose proof (inv_items _ _ HI) as Hi.
  pose proof (total_token ls) as Ht.
  pose proof (total_ge (fun t => token t - posting t - taking t) ls j _
    ltac:(intros t; pose proof (token_posting t); simpl; lia) Hj) as Hg.
  rewrite !elem_of_cons in Hpc. destruct Hpc as [->|[->|[->|[]%elem_of_nil]]]; simpl in Hg; lia.
Qed.

(** A consumer inside, its item not taken yet, has one to take. *)
Lemma available ls b j id i pc v :
  inv ls b -> ls !! j = Some (Consumer id i pc v) -> pc ∈ [CLoad; CPrint; CAdvance] ->
  total takes ls < total puts ls.
Proof.
  intros HI Hj Hpc. destruct (inv_slots _ _ HI) as (_ & _ & Hn). pose proof (inv_items _ _ HI) as Hi.
  pose proof (total_ge taking ls j _ (fun t => proj1 (proj2 (token_posting t))) Hj) as Hg.
  pose proof (total_nonneg posting ls (fun t => proj1 (token_posting t))).
  rewrite !elem_of_cons in Hpc. destruct Hpc as [->|[->|[->|[]%elem_of_nil]]]; simpl in Hg; lia.
Qed.

(** Only a process inside can be between printing and advancing. *)
Lemma printed_bool t : 0 <= printed_put t <= inside t /\ 0 <= printed_take t <= inside t.
Proof. by destruct t as [? ? []|? ? [] ?]. Qed.

(** At most one process is between printing and advancing, so the output is
    at most a full ring ahead. *)
Lemma produced_ahead ls b :
  inv ls b ->
  Z.of_nat (length (produced (stdout b))) <= Z.of_nat (length (consumed (stdout b))) + BUFFER_SIZE.
Proof.
  intros HI. rewrite (inv_produced _ _ HI), (inv_consumed _ _ HI).
  destruct (inv_slots _ _ HI) as (Hs & He & Hn). pose proof (inv_items _ _ HI) as Hi. rewrite (total_token ls) in Hs.
  assert (total printed_put ls <= total (fun t => token t - posting t - taking t) ls) as Hle.
  { clear. induction ls as [|t ls IH]; simpl; [lia|]. destruct t as [? ? []|? ? [] ?]; simpl; lia. }
  pose proof (total_nonneg printed_take ls (fun t => proj1 (proj2 (printed_bool t)))). lia.
Qed.

Lemma alone_printed ls b j t :
  inv ls b -> ls !! j = Some t -> inside t = 1 ->
  total printed_put ls = printed_put t /\ total printed_take ls = printed_take t.
Proof.
  intros HI Hj Ht.
  assert (forall f, (forall u, inside u = 0 -> f u = 0) -> total f ls = f t) as H0.
  { intros f Hf. pose proof (sum_over_insert f ls j t (Producer 0 0 PWaitEmpty) Hj) as Hi.
    rewrite (total_zero f (<[j := _]> ls)) in Hi.
    - rewrite (Hf (Producer 0 0 PWaitEmpty)) in Hi by done. lia.
    - intros k u Hk. apply Hf. insert_cases Hk; [done|]. by eapply (alone ls b j k t u). }
  split; apply H0; intros u Hu; pose proof (printed_bool u); lia.
Qed.

(** A process outside knows nothing about the ring. *)
Lemma process_ok_outside p c p' c' b b' k u :
  inside u = 0 -> (forall id i pc, u = Producer id i pc -> made id (stdout b') = made id (stdout b)) ->
  process_ok p c b k u -> process_ok p' c' b' k u.
Proof.
  intros Hu Hm. destruct u as [id i pc|id i pc item]; simpl.
  - rewrite (Hm id i pc eq_refl). destruct pc; try done; intuition.
  - destruct pc; try done; intuition.
Qed.

(** A step keeps what the other processes know: nobody else is inside, or it
    changes nothing they know about. *)
Lemma others_ok ls b b' j t t' p' c' :
  inv ls b -> ls !! j = Some t ->
  inside t = 1 \/ (items b' = items b /\ stdout b' = stdout b /\ p' = total puts ls /\ c' = total takes ls) ->
  (forall id, id <> Z.of_nat j -> made id (stdout b') = made id (stdout b)) ->
  process_ok p' c' b' j t' ->
  forall k u, <[j := t']> ls !! k = Some u -> process_ok p' c' b' k u.
Proof.
  intros HI Hj Hc Hm Ht k u Hk. insert_cases Hk; [done|].
  pose proof (inv_process _ _ HI k u Hk) as Hu. destruct Hc as [Hin|(Hi & Hs & -> & ->)].
  - apply (process_ok_outside (total puts ls) (total takes ls) _ _ b); [by apply (alone ls b j k t u HI Hj Hin Hk)| |done].
    intros id i pc ->. apply Hm. destruct Hu as [-> _]. lia.
  - by apply (process_ok_frame _ _ b).
Qed.

Lemma sem_rem_next k : 0 <= k -> Z.rem (k mod BUFFER_SIZE + 1) BUFFER_SIZE = (k + 1) mod BUFFER_SIZE.
Proof.
  intros Hk. pose proof (Z.mod_pos_bound k BUFFER_SIZE eq_refl).
  rewrite Z.rem_mod_nonneg by (done || lia). by apply next_mod.
Qed.

(** The new line in each view of the output. *)
Ltac logged := rewrite ?produced_app, ?consumed_app, ?made_app; simpl; rewrite ?app_nil_r.

Ltac knows := split_and!; auto; try lia; try (intros _; match goal with H : _ -> _ < _ |- _ => apply H; done end).

Lemma sem_producer_inv ls b j id i pc t' b' :
  inv ls b -> ls !! j = Some (Producer id i pc) -> (t', b') ∈ producer id i pc b ->
  inv (<[j := t']> ls) b'.
Proof.
  intros HI Hj Hs. assert (0 < BUFFER_SIZE) as HN by done. pose proof (fun p c => others_ok ls b b' j _ t' p c HI Hj) as Ho.
  pose proof (total_ge inside ls j _ inside_bool Hj) as Hin.
  pose proof (alone_printed ls b j _ HI Hj) as Hal. pose proof (room ls b j id i pc HI Hj) as Hroom.
  pose proof (total_nonneg takes ls) as Hputs.
  pose proof (inv_process _ _ HI j _ Hj) as (-> & Hi & Hlt & Hmade & Hpc).
  destruct b as [its n o m e ne so]. destruct HI as [[Hm Hm0] [Hs1 Hs2] Hit Hn Hout Hr Hp Hc Hf _]. simpl in *.
  destruct pc; simpl in Hs.
  - destruct (Z.ltb_spec i ITEMS_PER_PRODUCER), (Z.ltb_spec 0 e); simpl in Hs; try by apply not_elem_of_nil in Hs.
    apply list_elem_of_singleton in Hs as [= -> ->].
    split; totals; net; simpl; try done; try lia. apply Ho; simpl; auto.
  - destruct (Z.ltb_spec 0 m); simpl in Hs; [|by apply not_elem_of_nil in Hs].
    apply list_elem_of_singleton in Hs as [= -> ->].
    split; totals; net; simpl; try done; try lia. apply Ho; simpl; auto; knows.
  - rewrite Hn in Hs. rewrite (ring_store BUFFER_SIZE eq_refl _ _ _ _ _ _ Hr) in Hs.
    apply list_elem_of_singleton in Hs as [= -> ->].
    assert (total puts ls < total takes ls + BUFFER_SIZE) as Hrm by (apply Hroom; rewrite !elem_of_cons; auto).
    split; totals; net; simpl; try done; try lia; [by apply ring_put|]. apply Ho; simpl; auto. knows. apply list_lookup_insert_eq.
    pose proof (ring_index BUFFER_SIZE eq_refl _ _ _ _ (total puts ls) Hr). lia.
  - apply list_elem_of_singleton in Hs as [= -> ->]. destruct (Hal eq_refl) as [Hp0 Hc0].
    split; totals; net; simpl; try done; try lia; logged.
    + by apply ring_print.
    + rewrite length_app. simpl. lia.
    + done.
    + by apply prefix_app_r.
    + apply Ho; simpl; auto; logged.
      * intros id Hid. logged. destruct (Z.eqb_spec (Z.of_nat j) id); [congruence|]. by rewrite app_nil_r.
      * rewrite Z.eqb_refl, Hmade. knows.
        -- rewrite Z.add_0_r, seqZ_last by lia. done.
        -- rewrite lookup_app_r by lia. by replace (_ - _)%nat with 0%nat by lia.
  - apply list_elem_of_singleton in Hs as [= -> ->]. destruct Hpc as [Hcell HP].
    assert (total puts ls < total takes ls + BUFFER_SIZE) as Hrm by (apply Hroom; rewrite !elem_of_cons; auto).
    pose proof (ring_taken _ _ _ _ _ Hr).
    split; totals; net; simpl; try done; try lia.
    + rewrite Hn. apply sem_rem_next. lia.
    + by eapply ring_in.
    + apply Ho; simpl; auto; knows.
  - apply list_elem_of_singleton in Hs as [= -> ->].
    split; totals; net; simpl; try done; try lia. apply Ho; simpl; auto; knows.
  - apply list_elem_of_singleton in Hs as [= -> ->].
    split; totals; net; simpl; try done; try lia. apply Ho; simpl; auto; knows;
      first [by rewrite Z.add_0_r|congruence|specialize (Hlt ltac:(done)); lia].
Qed.

Lemma sem_consumer_inv ls b j id i pc v t' b' :
  inv ls b -> ls !! j = Some (Consumer id i pc v) -> (t', b') ∈ consumer id i pc v b ->
  inv (<[j := t']> ls) b'.
Proof.
  intros HI Hj Hs. assert (0 < BUFFER_SIZE) as HN by done.
  pose proof (fun p c => others_ok ls b b' j _ t' p c HI Hj) as Ho.
  pose proof (total_ge inside ls j _ inside_bool Hj) as Hin.
  pose proof (alone_printed ls b j _ HI Hj) as Hal. pose proof (available ls b j id i pc v HI Hj) as Havail.
  pose proof (inv_process _ _ HI j _ Hj) as (Hi & Hlt & Hpc).
  destruct b as [its n o m e ne so]. destruct HI as [[Hm Hm0] [Hs1 Hs2] Hit Hn Hout Hr Hp Hc Hf _]. simpl in *.
  destruct pc; simpl in Hs.
  - destruct (Z.ltb_spec i items_to_consume), (Z.ltb_spec 0 ne); simpl in Hs; try by apply not_elem_of_nil in Hs.
    apply list_elem_of_singleton in Hs as [= -> ->].
    split; totals; net; simpl; try done; try lia. apply Ho; simpl; auto; knows.
  - destruct (Z.ltb_spec 0 m); simpl in Hs; [|by apply not_elem_of_nil in Hs].
    apply list_elem_of_singleton in Hs as [= -> ->].
    split; totals; net; simpl; try done; try lia. apply Ho; simpl; auto; knows.
  - assert (total takes ls < total puts ls) as Hav by (apply Havail; rewrite !elem_of_cons; auto).
    destruct (ring_get BUFFER_SIZE _ _ _ _ Hr Hav) as (x & Hx & HPx).
    unfold mem_load in Hs. rewrite Hout, (proj2 (Z.leb_le _ _)), Hx in Hs
      by (apply Z.mod_pos_bound; done).
    apply list_elem_of_singleton in Hs as [= -> ->].
    split; totals; net; simpl; try done; try lia. apply Ho; simpl; auto; knows.
  - apply list_elem_of_singleton in Hs as [= -> ->]. destruct (Hal eq_refl) as [Hp0 Hc0].
    split; totals; net; simpl; try done; try lia; logged; try done.
    + rewrite length_app. simpl. lia.
    + destruct Hf as [l Hl]. rewrite Hl in Hpc |- *. rewrite lookup_app_r in Hpc by lia.
      replace (_ - _)%nat with 0%nat in Hpc by lia. destruct l as [|y l]; [done|]. injection Hpc as ->.
      exists l. by rewrite <- app_assoc.
    + apply Ho; simpl; auto. intros id' _. logged. done.
  - apply list_elem_of_singleton in Hs as [= -> ->].
    assert (total takes ls < total puts ls) as Hav by (apply Havail; rewrite !elem_of_cons; auto).
    pose proof (ring_taken _ _ _ _ _ Hr).
    split; totals; net; simpl; try done; try lia.
    + rewrite Hout. apply sem_rem_next. lia.
    + by apply ring_out.
    + apply Ho; simpl; auto; knows.
  - apply list_elem_of_singleton in Hs as [= -> ->].
    split; totals; net; simpl; try done; try lia. apply Ho; simpl; auto; knows.
  - apply list_elem_of_singleton in Hs as [= -> ->].
    split; totals; net; simpl; try done; try lia. apply Ho; simpl; auto; knows;
      first [congruence|specialize (Hlt ltac:(done)); lia].
Qed.

Lemma sem_inv_move c c' : inv c.1 c.2 -> move step c c' -> inv c'.1 c'.2.
Proof.
  intros HI Hm. destruct Hm as [j t t' ls b b' Hj Hs]. simpl in *.
  destruct t as [id i pc|id i pc v]; [by eapply sem_producer_inv|by eapply sem_consumer_inv].
Qed.

Lemma sem_inv_start junk : length junk = Z.to_nat BUFFER_SIZE -> inv (start junk).1 (start junk).2.
Proof.
  intros Hj. split; try done.
  - split; simpl; [by rewrite Hj|lia|done|lia|lia].
  - intros j t Ht. destruct j as [|[|[|[|j]]]]; simplify_eq/=; by repeat split.
Qed.

Lemma sem_reachable_inv junk c :
  length junk = Z.to_nat BUFFER_SIZE -> reachable step (start junk) c -> inv c.1 c.2.
Proof.
  intros Hj. apply (reachable_invariant _ (fun c => inv c.1 c.2)); [by apply sem_inv_start|].
  intros c1 c2 ?. by apply sem_inv_move.
Qed.

(** *** Who is who stays the same *)
Definition is_producer (t : process) : bool := match t with Producer _ _ _ => true | _ => false end.

Lemma step_kind j t b t' b' : (t', b') ∈ step j t b -> is_producer t' = is_producer t.
Proof.
  intros H. destruct b, t as [id i []|id i [] v]; simpl in H; repeat case_match;
    rewrite ?elem_of_nil, ?list_elem_of_singleton in H; by simplify_eq/=.
Qed.

Lemma four_processes junk c :
  reachable step (start junk) c -> is_producer <$> c.1 = [true; true; false; false].
Proof.
  apply (reachable_invariant step (fun c => is_producer <$> c.1 = [true; true; false; false])); [done|].
  intros c1 c2 H Hm. destruct Hm as [j t t' ls b b' Hj Hs]. simpl in *.
  rewrite list_fmap_insert, (step_kind _ _ _ _ _ Hs), list_insert_id; [done|].
  by rewrite list_lookup_fmap, Hj.
Qed.

Definition ended (t : process) : Prop :=
  match t with
  | Producer _ i PWaitEmpty => i = ITEMS_PER_PRODUCER
  | Consumer _ i CWaitNonempty _ => i = items_to_consume
  | _ => False
  end.

(** A process that cannot move is at one of the waits. *)
Definition waits (t : process) (b : bounded_buffer) : Prop :=
  match t with
  | Producer _ i PWaitEmpty => i < ITEMS_PER_PRODUCER -> empty b = 0
  | Producer _ _ PWaitMtx => mtx b = 0
  | Consumer _ i CWaitNonempty _ => i < items_to_consume -> nonempty b = 0
  | Consumer _ _ CWaitMtx _ => mtx b = 0
  | _ => False
  end.

Lemma stuck_waits ls b j t :
  inv ls b -> ls !! j = Some t -> step j t b = [] -> waits t b.
Proof.
  intros HI Hj Hs. destruct (inv_mutex _ _ HI) as [_ Hm]. destruct (inv_slots _ _ HI) as (_ & He & Hn).
  pose proof (inv_ring _ _ HI) as Hr. pose proof (inv_in _ _ HI) as Hin. pose proof (inv_out _ _ HI) as Hout.
  assert (0 < BUFFER_SIZE) as HN by done.
  destruct b as [its n o m e ne so]. simpl in *.
  destruct t as [id i []|id i [] v]; simpl in *; try done.
  - intros Hi. destruct (Z.ltb_spec i ITEMS_PER_PRODUCER), (Z.ltb_spec 0 e); try done; lia.
  - destruct (Z.ltb_spec 0 m); [done|lia].
  - rewrite Hin, (ring_store BUFFER_SIZE HN _ _ _ _ _ _ Hr) in Hs. done.
  - intros Hi. destruct (Z.ltb_spec i items_to_consume), (Z.ltb_spec 0 ne); try done; lia.
  - destruct (Z.ltb_spec 0 m); [done|lia].
  - pose proof (ring_index BUFFER_SIZE HN _ _ _ _ (total takes ls) Hr) as Hk.
    unfold mem_load in Hs. rewrite Hout, (proj2 (Z.leb_le _ _)) in Hs by lia.
    destruct (lookup_lt_is_Some_2 its (Z.to_nat (total takes ls mod BUFFER_SIZE))) as [x Hx]; [lia|].
    by rewrite Hx in Hs.
Qed.

Lemma waits_outside t b : waits t b -> inside t = 0.
Proof. by destruct t as [? ? []|? ? [] ?]. Qed.

(** When all four wait, all four have ended. *)
Lemma sem_no_deadlock ls b :
  inv ls b -> is_producer <$> ls = [true; true; false; false] ->
  (forall j t, ls !! j = Some t -> waits t b) -> Forall ended ls.
Proof.
  intros HI Hk Hw.
  assert (mtx b = 1) as Hm.
  { destruct (inv_mutex _ _ HI) as [Hm _]. rewrite total_zero in Hm; [lia|].
    intros j t Hj. eapply waits_outside, Hw, Hj. }
  assert (forall j t, ls !! j = Some t -> token t = 0 /\ posting t = 0 /\ taking t = 0 /\
    0 <= puts t <= (if is_producer t then ITEMS_PER_PRODUCER else 0) /\
    0 <= takes t <= (if is_producer t then 0 else items_to_consume) /\
    (ended t /\ puts t + takes t = (if is_producer t then ITEMS_PER_PRODUCER else items_to_consume) \/
     (if is_producer t then empty b = 0 else takes t < items_to_consume /\ nonempty b = 0))) as Ht.
  { intros j t Hj. pose proof (Hw j t Hj) as H. pose proof (inv_process _ _ HI j t Hj) as Hok.
    destruct t as [id i []|id i [] v]; simpl in *; lia. }
  destruct (inv_slots _ _ HI) as (Hs & He & Hn). pose proof (inv_items _ _ HI) as Hi.
  rewrite (total_zero token) in Hs by (intros; by eapply Ht).
  rewrite (total_zero posting), (total_zero taking) in Hi by (intros; by eapply Ht).
  destruct ls as [|t0 [|t1 [|t2 [|t3 [|? ?]]]]]; try done. simpl in Hk, Hi.
  injection Hk as Hk0 Hk1 Hk2 Hk3.
  assert (ITEMS_PER_PRODUCER = 10 /\ items_to_consume = 10 /\ BUFFER_SIZE = 5) as (E1 & E2 & E3) by done.
  pose proof (Ht 0%nat t0 eq_refl) as (_ & _ & _ & Hp0 & Hc0 & H0).
  pose proof (Ht 1%nat t1 eq_refl) as (_ & _ & _ & Hp1 & Hc1 & H1).
  pose proof (Ht 2%nat t2 eq_refl) as (_ & _ & _ & Hp2 & Hc2 & H2).
  pose proof (Ht 3%nat t3 eq_refl) as (_ & _ & _ & Hp3 & Hc3 & H3).
  rewrite Hk0 in *. rewrite Hk1 in *. rewrite Hk2 in *. rewrite Hk3 in *. rewrite E1, E2, E3 in *.
  clear HI Hw Ht E1 E2 E3.
  destruct H0 as [[? ?]|?], H1 as [[? ?]|?], H2 as [[? ?]|[? ?]], H3 as [[? ?]|[? ?]];
    first [lia|repeat constructor; assumption].
Qed.

Lemma ended_totals ls b :
  inv ls b -> is_producer <$> ls = [true; true; false; false] -> Forall ended ls ->
  total puts ls = 20 /\ total takes ls = 20 /\ total printed_put ls = 0 /\ total printed_take ls = 0.
Proof.
  intros HI Hk He. destruct ls as [|t0 [|t1 [|t2 [|t3 [|? ?]]]]]; try done.
  rewrite !Forall_cons in He. destruct He as (H0 & H1 & H2 & H3 & _). injection Hk as ? ? ? ?.
  destruct t0 as [? ? []|]; try done. destruct t1 as [? ? []|]; try done.
  destruct t2 as [|? ? [] ?]; try done. destruct t3 as [|? ? [] ?]; try done.
  simpl in *. subst. done.
Qed.

Lemma made_all ls b j :
  inv ls b -> is_producer <$> ls = [true; true; false; false] -> (j < 2)%nat ->
  exists n, 0 <= n <= ITEMS_PER_PRODUCER /\ made (Z.of_nat j) (stdout b) = item_of (Z.of_nat j) <$> seqZ 0 n.
Proof.
  intros HI Hk Hj. destruct (ls !! j) as [t|] eqn:Et.
  - pose proof (inv_process _ _ HI j t Et) as Hok.
    assert (is_producer t = true) as Hp.
    { assert ((is_producer <$> ls) !! j = Some (is_producer t)) as H by (by rewrite list_lookup_fmap, Et).
      rewrite Hk in H. destruct j as [|[|?]]; simplify_eq/=; done || lia. }
    destruct t as [id i pc|]; [|done]. destruct Hok as (-> & Hi & Hlt & Hm & _).
    exists (i + match pc with PAdvance | PPostMtx | PPostNonempty => 1 | _ => 0 end). split; [|done].
    destruct pc; try (specialize (Hlt ltac:(done))); lia.
  - apply lookup_ge_None in Et. apply (f_equal length) in Hk. rewrite length_fmap in Hk. simpl in Hk. lia.
Qed.

(** C23. The bounded buffer over semaphores, in every interleaving of two
    producers and two consumers: items come out in the order they went in (what
    the consumers printed is a prefix of what the producers printed), never
    more than BUFFER_SIZE are in between, each producer's items are its own in
    order, every access stays inside the array, and the program never
    deadlocks: unless all four processes have ended some process can move, and
    then all 20 items have been consumed. *)
Theorem sem_buffer_fifo junk c :
  length junk = Z.to_nat BUFFER_SIZE -> reachable step (start junk) c ->
  let so := stdout c.2 in
  consumed so `prefix_of` produced so /\
  Z.of_nat (length (produced so)) <= Z.of_nat (length (consumed so)) + BUFFER_SIZE /\
  (forall j, (j < 2)%nat -> exists n, 0 <= n <= ITEMS_PER_PRODUCER /\
     made (Z.of_nat j) so = item_of (Z.of_nat j) <$> seqZ 0 n) /\
  (can_move step c \/ Forall ended c.1) /\
  (Forall ended c.1 -> consumed so = produced so /\ length (consumed so) = 20%nat).
Proof.
  intros Hj Hc so. pose proof (sem_reachable_inv junk c Hj Hc) as HI.
  pose proof (four_processes junk c Hc) as Hk.
  pose proof (inv_fifo _ _ HI) as Hf. pose proof (inv_produced _ _ HI) as Hp. pose proof (inv_consumed _ _ HI) as Hcs.
  split; [done|]. split; [by apply (produced_ahead c.1)|]. split; [by intros j ?; apply (made_all c.1)|]. split.
  - destruct (moves_or_stuck step c) as [|Hs]; [by left|right]. apply (sem_no_deadlock c.1 c.2 HI Hk).
    intros j t Ht. by eapply stuck_waits, Hs.
  - intros He. destruct (ended_totals _ _ HI Hk He) as (E1 & E2 & E3 & E4). rewrite E1, E3 in Hp. rewrite E2, E4 in Hcs.
    subst so. split; [|lia]. apply prefix_length_eq; [done|lia].
Qed.

Lemma sem_buffer_fifo_witness :
  exists c, reachable step (start (replicate 5 77)) c /\
    stdout c.2 = [Produced 1 100 0; Produced 0 0 1; Consumed 1 100 0] /\
    consumed (stdout c.2) `prefix_of` produced (stdout c.2).
Proof.
  destruct (schedule step ((fun i => (i, 0%nat)) <$>
    [1; 0; 1; 1; 1; 1; 1; 0; 0; 1; 0; 0; 3; 0; 3; 3; 3]%nat) (start (replicate 5 77))) as [c|] eqn:E; [|by vm_compute in E].
  apply schedule_reachable in E as Hr. exists c. split; [done|]. split.
  - vm_compute in E. by injection E as <-.
  - apply (sem_buffer_fifo (replicate 5 77) c); [reflexivity|done].
Defined.

End Sem.

(** ** bounded_buffer_cv.c

    [pthread_cond_wait] releases the mutex and joins the queue of the
    condition in one step; it returns once its process is no longer queued
    (or, when [spurious], at any time) and the mutex is free again. *)
Module Cv.

Definition BUFFER_SIZE : Z := 10.
Definition ITERATIONS : Z := 20.

Record context := Ctx {
  locked : bool; empty : list nat; nonempty : list nat;
  items : list Z; in_ : Z; out : Z; size : Z;
  stdout : list line }.

Inductive producer_pc :=
| PLock | PTest | PWait | PSleep | PRelock | PStore | PAdvance | PSize | PPrint | PSignal | PUnlock.
Inductive consumer_pc :=
| CLock | CTest | CWait | CSleep | CRelock | CLoad | CAdvance | CSize | CPrint | CSignal | CUnlock.

Inductive process :=
| Producer (i : Z) (pc : producer_pc)
| Consumer (i : Z) (pc : consumer_pc) (item : Z).

Definition producer (spurious : bool) (j : nat) (i : Z) (pc : producer_pc) (x : context)
    : list (process * context) :=
  let '(Ctx m e ne its n o sz so) := x in
  match pc with
  | PLock => if (i <? ITERATIONS) && negb m then [(Producer i PTest, Ctx true e ne its n o sz so)] else []
  | PTest => [(Producer i (if BUFFER_SIZE <=? sz then PWait else PStore), x)]
  | PWait => [(Producer i PSleep, Ctx false (e ++ [j]) ne its n o sz so)]
  | PSleep => (fun e' => (Producer i PRelock, Ctx m e' ne its n o sz so)) <$> wake spurious j e
  | PRelock => if negb m then [(Producer i PTest, Ctx true e ne its n o sz so)] else []
  | PStore =>
      match mem_store its n [i] with
      | Some its' => [(Producer i PAdvance, Ctx m e ne its' n o sz so)]
      | None => []
      end
  | PAdvance => [(Producer i PSize, Ctx m e ne its (Z.rem (n + 1) BUFFER_SIZE) o sz so)]
  | PSize => [(Producer i PPrint, Ctx m e ne its n o (sz + 1) so)]
  | PPrint => [(Producer i PSignal, Ctx m e ne its n o sz (so ++ [Produced 0 i 0]))]
  | PSignal => (fun ne' => (Producer i PUnlock, Ctx m e ne' its n o sz so)) <$> signal ne
  | PUnlock => [(Producer (i + 1) PLock, Ctx false e ne its n o sz so)]
  end.

Definition consumer (spurious : bool) (j : nat) (i : Z) (pc : consumer_pc) (item : Z) (x : context)
    : list (process * context) :=
  let '(Ctx m e ne its n o sz so) := x in
  match pc with
  | CLock => if (i <? ITERATIONS) && negb m then [(Consumer i CTest item, Ctx true e ne its n o sz so)] else []
  | CTest => [(Consumer i (if sz =? 0 then CWait else CLoad) item, x)]
  | CWait => [(Consumer i CSleep item, Ctx false e (ne ++ [j]) its n o sz so)]
  | CSleep => (fun ne' => (Consumer i CRelock item, Ctx m e ne' its n o sz so)) <$> wake spurious j ne
  | CRelock => if negb m then [(Consumer i CTest item, Ctx true e ne its n o sz so)] else []
  | CLoad =>
      match mem_load its o with
      | Some v => [(Consumer i CAdvance v, x)]
      | None => []
      end
  | CAdvance => [(Consumer i CSize item, Ctx m e ne its n (Z.rem (o + 1) BUFFER_SIZE) sz so)]
  | CSize => [(Consumer i CPrint item, Ctx m e ne its n o (sz - 1) so)]
  | CPrint => [(Consumer i CSignal item, Ctx m e ne its n o sz (so ++ [Consumed 0 item 0]))]
  | CSignal => (fun e' => (Consumer i CUnlock item, Ctx m e' ne its n o sz so)) <$> signal e
  | CUnlock => [(Consumer (i + 1) CLock item, Ctx false e ne its n o sz so)]
  end.

Definition step (spurious : bool) (j : nat) (t : process) (x : context) : list (process * context) :=
  match t with
  | Producer i pc => producer spurious j i pc x
  | Consumer i pc item => consumer spurious j i pc item x
  end.

(** After [memset]: the parent produces, the child consumes. *)
Definition start : list process * context :=
  ([Producer 0 PLock; Consumer 0 CLock 0],
   Ctx false [] [] (replicate (Z.to_nat BUFFER_SIZE) 0) 0 0 0 []).

(** [while (wait(NULL) > 0);] *)
Definition wait_iter (_ : unit) : prog (unit + unit) :=
  let! r := sys (Libc "wait" []) in
  if 0 <? rv r then Ret (inl tt) else Ret (inr tt).

(** [main] up to the fork, and what the parent does after its loop.  [n]
    bounds the turns of the wait loop, one per child. *)
Definition shm_setup : prog (Z + Z) :=
  ignored "srand" [] ;;; ignored "shm_unlink" [] ;;;
  let! fd := sys (Libc "shm_open" []) in
  if rv fd <? 0 then perror "shm_open()" ;;; Ret (inr 1) else
  let! t := sys (Libc "ftruncate" [rv fd]) in
  if rv t <? 0 then perror "ftruncate()" ;;; Ret (inr 1) else
  let! p := sys (Libc "mmap" [rv fd]) in
  if rv p =? -1 then perror "mmap()" ;;; Ret (inr 1) else
  sys (Close (rv fd)) ;;;
  printf "Creating mutex and CVs..." [] ;;;
  Ret (inl (rv p)).

Fixpoint init_each (calls : list string) : prog (option Z) :=
  match calls with
  | [] => Ret None
  | c :: calls' =>
      let! e := sys (Libc c []) in
      if negb (rv e =? 0) then printf "pthread_mutex_init(): %s" [PZ (rv e)] ;;; Ret (Some 1)
      else init_each calls'
  end.

Definition main (produce consume : prog unit) (n : nat) : prog Z :=
  let! s := shm_setup in
  match s with
  | inr status => Ret status
  | inl ptr =>
      let! f := init_each ["pthread_mutex_init"; "pthread_cond_init"; "pthread_cond_init"] in
      match f with
      | Some status => Ret status
      | None =>
          let! pid := sys (Libc "fork" []) in
          if rv pid =? -1 then perror "fork()" ;;; Ret 1 else
          (if rv pid =? 0 then consume
           else
             produce ;;;
             loop n wait_iter tt ;;;
             ignored "pthread_mutex_destroy" [] ;;; ignored "pthread_cond_destroy" [] ;;;
             ignored "pthread_cond_destroy" []) ;;;
          printf "Unmapping shm" [] ;;;
          ignored "munmap" [ptr] ;;;
          Ret 0
      end
  end.

(** *** Where the processes are *)
Definition p_in (pc : producer_pc) : Z := match pc with PLock | PSleep | PRelock => 0 | _ => 1 end.
Definition p_put (pc : producer_pc) : Z := match pc with PSize | PPrint | PSignal | PUnlock => 1 | _ => 0 end.
Definition p_sized (pc : producer_pc) : Z := match pc with PPrint | PSignal | PUnlock => 1 | _ => 0 end.
Definition p_printed (pc : producer_pc) : Z := match pc with PSignal | PUnlock => 1 | _ => 0 end.
Definition c_in (pc : consumer_pc) : Z := match pc with CLock | CSleep | CRelock => 0 | _ => 1 end.
Definition c_taken (pc : consumer_pc) : Z := match pc with CSize | CPrint | CSignal | CUnlock => 1 | _ => 0 end.
Definition c_sized (pc : consumer_pc) : Z := match pc with CPrint | CSignal | CUnlock => 1 | _ => 0 end.
Definition c_printed (pc : consumer_pc) : Z := match pc with CSignal | CUnlock => 1 | _ => 0 end.

Lemma p_order pc : 0 <= p_printed pc <= p_sized pc /\ p_sized pc <= p_put pc <= p_in pc /\ p_in pc <= 1.
Proof. destruct pc; simpl; lia. Qed.
Lemma c_order pc : 0 <= c_printed pc <= c_sized pc /\ c_sized pc <= c_taken pc <= c_in pc /\ c_in pc <= 1.
Proof. destruct pc; simpl; lia. Qed.

(** The items of the whole run. *)
Definition all_items : list Z := seqZ 0 ITERATIONS.

Record inv (i : Z) (pc : producer_pc) (k : Z) (qc : consumer_pc) (v : Z) (x : context) : Prop := {
  inv_locked : Z.b2z (locked x) = p_in pc + c_in qc;
  inv_i : 0 <= i <= ITERATIONS /\ (pc <> PLock -> i < ITERATIONS);
  inv_k : 0 <= k <= ITERATIONS /\ (qc <> CLock -> k < ITERATIONS);
  inv_in : in_ x = (i + p_put pc) mod BUFFER_SIZE;
  inv_out : out x = (k + c_taken qc) mod BUFFER_SIZE;
  inv_size : size x = (i + p_sized pc) - (k + c_sized qc);
  inv_ring : ring BUFFER_SIZE (items x) all_items (i + p_put pc) (k + c_taken qc);
  inv_ahead : k + c_taken qc <= i + p_printed pc /\ i + p_put pc <= k + c_printed qc + BUFFER_SIZE;
  inv_produced : produced (stdout x) = seqZ 0 (i + p_printed pc);
  inv_consumed : consumed (stdout x) = seqZ 0 (k + c_printed qc);
  inv_room : pc = PStore \/ pc = PAdvance -> size x < BUFFER_SIZE;
  inv_full : pc = PWait -> BUFFER_SIZE <= size x;
  inv_cell : pc = PAdvance -> items x !! Z.to_nat (i mod BUFFER_SIZE) = Some i;
  inv_some : qc = CLoad \/ qc = CAdvance \/ qc = CSize -> 0 < size x;
  inv_none : qc = CWait -> size x = 0;
  inv_item : qc = CAdvance \/ qc = CSize \/ qc = CPrint -> v = k;
  inv_empty : empty x = [] \/ empty x = [0%nat] /\ pc = PSleep /\ (BUFFER_SIZE <= size x \/ qc = CPrint \/ qc = CSignal);
  inv_nonempty : nonempty x = [] \/ nonempty x = [1%nat] /\ qc = CSleep /\ (size x = 0 \/ pc = PPrint \/ pc = PSignal);
}.

Lemma rem_next k : 0 <= k -> Z.rem (k mod BUFFER_SIZE + 1) BUFFER_SIZE = (k + 1) mod BUFFER_SIZE.
Proof.
  intros Hk. pose proof (Z.mod_pos_bound k BUFFER_SIZE eq_refl).
  rewrite Z.rem_mod_nonneg by (done || lia). by apply next_mod.
Qed.

Lemma seqZ_next n : 0 <= n -> seqZ 0 (n + 1) = seqZ 0 n ++ [n].
Proof. intros Hn. by rewrite (seqZ_app 0 n 1) by lia. Qed.

Lemma all_items_lookup k : 0 <= k < ITERATIONS -> all_items !! Z.to_nat k = Some k.
Proof. intros Hk. unfold all_items. apply lookup_seqZ. lia. Qed.

(** The arithmetic facts of [inv] alone. *)
Ltac arith :=
  repeat match goal with
  | H : _ \/ _ -> _ |- _ => clear H
  | H : _ = _ -> _ |- _ => clear H
  | H : _ \/ _ |- _ => clear H
  end; lia.

(** The facts about the queues: who sleeps, and why. *)
Ltac pick := first [done | lia | split; pick | left; pick | right; pick].
Ltac queues :=
  match goal with
  | |- _ \/ _ =>
      repeat match goal with
      | H : _ \/ _ -> _ |- _ => clear H
      | H : _ = _ -> _ |- _ => clear H
      | H : _ \/ _ |- _ => destruct H
      | H : _ /\ _ |- _ => destruct H
      end; try discriminate; pick
  end.

(** The bounds of a loop counter. *)
Ltac counters :=
  match goal with
  | |- _ /\ (_ -> _) =>
      split; [arith|intros ?; first [done | match goal with
        | H : _ /\ (_ <> _ -> _) |- _ => destruct H as [_ H]; specialize (H ltac:(done)); lia
        end]]
  end.

(** The remaining facts of [inv] after a step. *)
Ltac settle :=
  constructor; simpl in *; rewrite ?Z.add_0_r in *; try done;
  try (intros; destruct_or?; discriminate); try arith; try queues; try counters;
  try match goal with |- _ -> _ => intuition (congruence || lia) end.

Lemma producer_inv sp i pc k qc v x t' x' :
  inv i pc k qc v x -> (t', x') ∈ producer sp 0 i pc x ->
  exists i' pc', t' = Producer i' pc' /\ inv i' pc' k qc v x'.
Proof.
  intros HI Hs. assert (0 < BUFFER_SIZE) as HN by done. destruct x as [m e ne its n o sz so].
  destruct HI as [Hm Hi Hk Hn Ho Hsz Hr Hah Hp Hc Hroom Hfull Hcell Hsome Hnone Hitem He Hne].
  pose proof (ring_taken _ _ _ _ _ Hr) as Htk. simpl in *.
  destruct pc; simpl in Hs.
  - destruct (Z.ltb_spec i ITERATIONS), m; simpl in *; try by apply not_elem_of_nil in Hs.
    apply list_elem_of_singleton in Hs as [= -> ->]. eexists _, _. split; [done|].
    destruct qc; simpl in *; try arith; settle.
  - apply list_elem_of_singleton in Hs as [= -> ->]. eexists _, _. split; [done|].
    destruct m, qc; simpl in *; try arith; destruct (Z.leb_spec BUFFER_SIZE sz); settle.
  - apply list_elem_of_singleton in Hs as [= -> ->]. eexists _, _. split; [done|].
    destruct m, qc; simpl in *; try arith; destruct He as [->|(_ & ? & _)]; try done; settle;
      right; split_and!; auto.
  - apply list_elem_of_fmap in Hs as (e' & [= -> ->] & Hs). eexists _, _. split; [done|].
    assert (e' = []) as -> by (apply (wake_alone sp 0 e); [naive_solver|done]).
    settle.
  - destruct m; simpl in *; [by apply not_elem_of_nil in Hs|].
    apply list_elem_of_singleton in Hs as [= -> ->]. eexists _, _. split; [done|].
    destruct qc; simpl in *; try arith; settle.
  - rewrite Hn, Z.add_0_r, (ring_store BUFFER_SIZE HN _ _ _ _ _ _ Hr) in Hs.
    apply list_elem_of_singleton in Hs as [= -> ->]. eexists _, _. split; [done|].
    pose proof (ring_index BUFFER_SIZE HN _ _ _ _ i Hr). assert (sz < BUFFER_SIZE) by auto.
    destruct m, qc; simpl in *; try arith; settle.
    all: first [apply ring_put; done || lia | intros _; apply list_lookup_insert_eq; lia].
  - apply list_elem_of_singleton in Hs as [= -> ->]. eexists _, _. split; [done|].
    assert (sz < BUFFER_SIZE) by auto. specialize (Hcell eq_refl). assert (i < ITERATIONS) by (by apply Hi).
    rewrite Hn, Z.add_0_r, rem_next by lia.
    destruct m, qc; simpl in *; try arith; settle.
    all: apply (ring_in BUFFER_SIZE _ _ _ _ i); [done|lia|done|apply all_items_lookup; lia].
  - apply list_elem_of_singleton in Hs as [= -> ->]. eexists _, _. split; [done|].
    destruct m, qc; simpl in *; try arith; settle.
  - apply list_elem_of_singleton in Hs as [= -> ->]. eexists _, _. split; [done|].
    destruct m, qc; simpl in *; try arith; settle; rewrite ?produced_app, ?consumed_app; simpl;
      rewrite ?app_nil_r, ?Hp, ?Hc; try done; by rewrite seqZ_next by lia.
  - apply list_elem_of_fmap in Hs as (e' & [= -> ->] & Hs). eexists _, _. split; [done|].
    assert (e' = []) as -> by (apply (signal_alone 1 ne); [naive_solver|done]).
    destruct m, qc; simpl in *; try arith; settle.
  - apply list_elem_of_singleton in Hs as [= -> ->]. eexists _, _. split; [done|].
    assert (i < ITERATIONS) by (by apply Hi).
    destruct m, qc; simpl in *; try arith; settle.
Qed.

Lemma consumer_inv sp i pc k qc v x t' x' :
  inv i pc k qc v x -> (t', x') ∈ consumer sp 1 k qc v x ->
  exists k' qc' v', t' = Consumer k' qc' v' /\ inv i pc k' qc' v' x'.
Proof.
  intros HI Hs. assert (0 < BUFFER_SIZE) as HN by done. destruct x as [m e ne its n o sz so].
  destruct HI as [Hm Hi Hk Hn Ho Hsz Hr Hah Hp Hc Hroom Hfull Hcell Hsome Hnone Hitem He Hne].
  pose proof (ring_taken _ _ _ _ _ Hr) as Htk. simpl in *.
  destruct qc; simpl in Hs.
  - destruct (Z.ltb_spec k ITERATIONS), m; simpl in *; try by apply not_elem_of_nil in Hs.
    apply list_elem_of_singleton in Hs as [= -> ->]. eexists _, _, _. split; [done|].
    destruct pc; simpl in *; try arith; settle.
  - apply list_elem_of_singleton in Hs as [= -> ->]. eexists _, _, _. split; [done|].
    destruct m, pc; simpl in *; try arith; destruct (Z.eqb_spec sz 0); settle.
  - apply list_elem_of_singleton in Hs as [= -> ->]. eexists _, _, _. split; [done|].
    destruct m, pc; simpl in *; try arith; destruct Hne as [->|(_ & ? & _)]; try done; settle;
      right; split_and!; auto.
  - apply list_elem_of_fmap in Hs as (e' & [= -> ->] & Hs). eexists _, _, _. split; [done|].
    assert (e' = []) as -> by (apply (wake_alone sp 1 ne); [naive_solver|done]).
    settle.
  - destruct m; simpl in *; [by apply not_elem_of_nil in Hs|].
    apply list_elem_of_singleton in Hs as [= -> ->]. eexists _, _, _. split; [done|].
    destruct pc; simpl in *; try arith; settle.
  - assert (0 < sz) by auto. pose proof (p_order pc). assert (k < ITERATIONS) by (by apply Hk).
    simpl in Hsz. rewrite Z.add_0_r in Hr.
    destruct (ring_get BUFFER_SIZE _ _ _ _ Hr) as (y & Hy & HPy); [lia|].
    rewrite all_items_lookup in HPy by lia. injection HPy as <-.
    unfold mem_load in Hs. rewrite Ho, Z.add_0_r, (proj2 (Z.leb_le _ _)), Hy in Hs
      by (apply Z.mod_pos_bound; done).
    apply list_elem_of_singleton in Hs as [= -> ->]. eexists _, _, _. split; [done|].
    destruct m, pc; simpl in *; try arith; settle.
  - apply list_elem_of_singleton in Hs as [= -> ->]. eexists _, _, _. split; [done|].
    assert (0 < sz) by auto. rewrite Ho, Z.add_0_r, rem_next by lia.
    destruct m, pc; simpl in *; try arith; settle.
    all: apply ring_out; [done|lia].
  - apply list_elem_of_singleton in Hs as [= -> ->]. eexists _, _, _. split; [done|].
    assert (0 < sz) by auto.
    destruct m, pc; simpl in *; try arith; settle.
  - apply list_elem_of_singleton in Hs as [= -> ->]. eexists _, _, _. split; [done|].
    assert (v = k) as -> by auto.
    destruct m, pc; simpl in *; try arith; settle; rewrite ?produced_app, ?consumed_app; simpl;
      rewrite ?app_nil_r, ?Hp, ?Hc; try done; by rewrite seqZ_next by lia.
  - apply list_elem_of_fmap in Hs as (e' & [= -> ->] & Hs). eexists _, _, _. split; [done|].
    assert (e' = []) as -> by (apply (signal_alone 0 e); [naive_solver|done]).
    destruct m, pc; simpl in *; try arith; settle.
  - apply list_elem_of_singleton in Hs as [= -> ->]. eexists _, _, _. split; [done|].
    assert (k < ITERATIONS) by (by apply Hk).
    destruct m, pc; simpl in *; try arith; settle.
Qed.

Definition system_inv (c : list process * context) : Prop :=
  exists i pc k qc v, c.1 = [Producer i pc; Consumer k qc v] /\ inv i pc k qc v c.2.

Lemma inv_move sp c c' : system_inv c -> move (step sp) c c' -> system_inv c'.
Proof.
  intros (i & pc & k & qc & v & Hl & HI) Hm. destruct Hm as [j t t' ls x x' Hj Hs]. simpl in *. subst ls.
  destruct j as [|[|?]]; simplify_eq/=.
  - destruct (producer_inv _ _ _ _ _ _ _ _ _ HI Hs) as (i' & pc' & -> & HI').
    exists i', pc', k, qc, v. done.
  - destruct (consumer_inv _ _ _ _ _ _ _ _ _ HI Hs) as (k' & qc' & v' & -> & HI').
    exists i, pc, k', qc', v'. done.
Qed.

Lemma inv_start : system_inv start.
Proof.
  exists 0, PLock, 0, CLock, 0. split; [done|]. settle.
  split; simpl; try done. lia.
Qed.

Definition ended (t : process) : Prop :=
  match t with Producer i PLock | Consumer i CLock _ => i = ITERATIONS | _ => False end.

Lemma producer_stuck sp i pc k qc v x :
  inv i pc k qc v x -> producer sp 0 i pc x = [] ->
  pc = PLock /\ (i = ITERATIONS \/ locked x = true) \/ pc = PRelock /\ locked x = true \/
  pc = PSleep /\ empty x = [0%nat].
Proof.
  intros HI Hs. pose proof (inv_i _ _ _ _ _ _ HI) as [Hi _]. pose proof (inv_in _ _ _ _ _ _ HI) as Hn.
  pose proof (inv_ring _ _ _ _ _ _ HI) as Hr. pose proof (inv_empty _ _ _ _ _ _ HI) as He.
  destruct x as [m e ne its n o sz so]. simpl in *. destruct pc; simpl in Hs; try done.
  - left. split; [done|]. destruct (Z.ltb_spec i ITERATIONS), m; try done; first [by right|left; lia].
  - right; right. split; [done|]. apply fmap_nil_inv, wake_asleep in Hs.
    destruct He as [->|[-> _]]; [by apply not_elem_of_nil in Hs|done].
  - right; left. by destruct m.
  - by rewrite Hn, (ring_store BUFFER_SIZE eq_refl _ _ _ _ _ _ Hr) in Hs.
  - by apply fmap_nil_inv, signal_some in Hs.
Qed.

Lemma consumer_stuck sp i pc k qc v x :
  inv i pc k qc v x -> consumer sp 1 k qc v x = [] ->
  qc = CLock /\ (k = ITERATIONS \/ locked x = true) \/ qc = CRelock /\ locked x = true \/
  qc = CSleep /\ nonempty x = [1%nat].
Proof.
  intros HI Hs. pose proof (inv_k _ _ _ _ _ _ HI) as [Hk _]. pose proof (inv_out _ _ _ _ _ _ HI) as Ho.
  pose proof (inv_ring _ _ _ _ _ _ HI) as Hr. pose proof (inv_nonempty _ _ _ _ _ _ HI) as Hne.
  destruct x as [m e ne its n o sz so]. simpl in *. destruct qc; simpl in Hs; try done.
  - left. split; [done|]. destruct (Z.ltb_spec k ITERATIONS), m; try done; first [by right|left; lia].
  - right; right. split; [done|]. apply fmap_nil_inv, wake_asleep in Hs.
    destruct Hne as [->|[-> _]]; [by apply not_elem_of_nil in Hs|done].
  - right; left. by destruct m.
  - simpl in Ho, Hr. pose proof (ring_index BUFFER_SIZE eq_refl _ _ _ _ (k + 0) Hr).
    unfold mem_load in Hs. rewrite Ho, (proj2 (Z.leb_le _ _)) in Hs by lia.
    destruct (lookup_lt_is_Some_2 its (Z.to_nat ((k + 0) mod BUFFER_SIZE))) as [y Hy]; [lia|].
    by rewrite Hy in Hs.
  - by apply fmap_nil_inv, signal_some in Hs.
Qed.

(** No wake-up is lost: when neither process can move, both have ended. *)
Lemma cv_no_deadlock sp c :
  system_inv c -> (forall j t, c.1 !! j = Some t -> step sp j t c.2 = []) -> Forall ended c.1.
Proof.
  intros (i & pc & k & qc & v & Hl & HI) Hs. rewrite Hl in *.
  pose proof (producer_stuck sp _ _ _ _ _ _ HI (Hs 0%nat _ eq_refl)) as H0.
  pose proof (consumer_stuck sp _ _ _ _ _ _ HI (Hs 1%nat _ eq_refl)) as H1. clear Hs.
  destruct HI as [Hm [Hi Hi'] [Hk Hk'] _ _ Hsz _ _ _ _ _ _ _ _ _ _ He Hne].
  assert (0 < BUFFER_SIZE) as HN by done.
  assert (locked c.2 = false) as Hlk.
  { destruct (locked c.2) eqn:E; [|done]. exfalso.
    destruct H0 as [[-> _]|[[-> _]|[-> _]]], H1 as [[-> _]|[[-> _]|[-> _]]]; simpl in Hm; lia. }
  rewrite Hlk in *.
  destruct H0 as [[-> [->|?]]|[[-> ?]|[-> H0]]], H1 as [[-> [->|?]]|[[-> ?]|[-> H1]]]; try done;
    simpl in *; rewrite ?H0, ?H1 in *; simpl in *.
  - by repeat constructor.
  - destruct Hne as [?|(_ & _ & [?|[?|?]])]; try done. specialize (Hk' ltac:(done)). lia.
  - destruct He as [?|(_ & _ & [?|[?|?]])]; try done. lia.
  - destruct He as [?|(_ & _ & [?|[?|?]])], Hne as [?|(_ & _ & [?|[?|?]])]; try done. lia.
Qed.

(** C24. The bounded buffer over a mutex and two condition variables, in every
    interleaving of the producer and the consumer, with or without spurious
    wake-ups: the consumer takes the items 0, 1, 2, ... in order and never one
    that was not produced, at most BUFFER_SIZE items are in between, both loops
    never touch the buffer out of range, and no wake-up is lost: unless both
    processes have ended one of them can move, and at the end all 20 items have
    been consumed. *)
Theorem cv_buffer_fifo spurious c :
  reachable (step spurious) start c ->
  let so := stdout c.2 in
  exists n m, produced so = seqZ 0 n /\ consumed so = seqZ 0 m /\ 0 <= m <= n /\ n <= m + BUFFER_SIZE /\
    (can_move (step spurious) c \/ Forall ended c.1) /\
    (Forall ended c.1 -> m = ITERATIONS).
Proof.
  intros Hc so.
  assert (system_inv c) as HI.
  { apply (reachable_invariant (step spurious) system_inv start); [apply inv_start| |done].
    intros c1 c2. apply inv_move. }
  pose proof HI as (i & pc & k & qc & v & Hl & Hinv).
  exists (i + p_printed pc), (k + c_printed qc).
  split; [apply Hinv|]. split; [apply Hinv|].
  pose proof (p_order pc). pose proof (c_order qc). pose proof (ring_taken _ _ _ _ _ (inv_ring _ _ _ _ _ _ Hinv)) as Ht.
  pose proof (ring_room _ _ _ _ _ (inv_ring _ _ _ _ _ _ Hinv)) as Hr.
  pose proof (inv_locked _ _ _ _ _ _ Hinv) as Hm. pose proof (inv_k _ _ _ _ _ _ Hinv) as [Hk _].
  assert (p_in pc = 0 \/ c_in qc = 0) as Hone by (destruct (locked c.2) eqn:E; simpl in Hm; lia).
  pose proof (inv_ahead _ _ _ _ _ _ Hinv).
  split; [lia|]. split; [lia|]. split.
  - destruct (moves_or_stuck (step spurious) c) as [|Hs]; [by left|right]. by eapply cv_no_deadlock.
  - rewrite Hl. intros He. rewrite !Forall_cons in He. destruct He as (_ & Hend & _).
    destruct qc; try done. simpl in *. lia.
Qed.

Lemma cv_buffer_fifo_witness :
  exists c, reachable (step true) start c /\
    stdout c.2 = [Produced 0 0 0; Produced 0 1 0; Consumed 0 0 0] /\
    exists n m, produced (stdout c.2) = seqZ 0 n /\ consumed (stdout c.2) = seqZ 0 m /\ 0 <= m <= n /\
      n <= m + BUFFER_SIZE /\ (can_move (step true) c \/ Forall ended c.1) /\
      (Forall ended c.1 -> m = ITERATIONS).
Proof.
  destruct (schedule (step true) ((fun i => (i, 0%nat)) <$>
    replicate 3 1%nat ++ replicate 16 0%nat ++ replicate 7 1%nat) start) as [c|] eqn:E; [|by vm_compute in E].
  apply schedule_reachable in E as Hr. exists c. split; [done|]. split.
  - vm_compute in E. by injection E as <-.
  - apply (cv_buffer_fifo true c). done.
Defined.

End Cv.
