(* ===== verification/RandomServer.v ===== *)
(** * sockets/code/random_server.c and random_client.c

    The client asks for a number of random bytes and a delay, packed into one
    64-bit word in network order; the server sends as many bytes of
    /dev/urandom, at most 1024 at a time; the client copies them to its
    standard output. *)

From S2P Require Import Prelude CLib Os Kernel Net.

Local Open Scope Z_scope.

Definition PORT : Z := 8089.
Definition BS : Z := 1024.

(** ** random_server.c *)

(** One turn of [while (len > 0)]; the loop state is [len] and [buf]. *)
Definition random_iter (rand_fd client_fd delay total_len : Z) (s : Z * list Z)
    : prog (Z * list Z + unit) :=
  let '(len, buf) := s in
  if 0 <? len then
    let bs := if BS <? len then BS else len in
    let! r := sys (Read rand_fd bs) in
    if rv r <? 0 then perror "read() failed" ;;; Ret (inr tt) else
    let! buf := defined "buf: overrun" (mem_store buf 0 (rdata r)) in
    (if 0 <? delay then sys (Usleep (wrap_u 32 (delay * 1000))) ;;; Ret tt else Ret tt) ;;;
    let! data := defined "buf: overread" (mem_slice buf 0 (rv r)) in
    let! n := send_pipe client_fd data in
    if rv n <? 0 then perror "send() failed" ;;; Ret (inr tt) else
    let len := wrap_u 64 (len - rv n) in
    printf "Sent %ld/%lu random bytes" [PZ (total_len - len); PZ total_len] ;;;
    Ret (inl (len, buf))
  else Ret (inr tt).

(** One turn of the outer loop; [jreq] and [jbuf] are the uninitialised
    [req] and [buf]. *)
Definition serve_client (F : nat) (jreq jbuf : list Z) (rand_fd listen_fd : Z) : prog (unit + unit) :=
  printf "Waiting for client... " [] ;;;
  let! c := sys (Accept listen_fd) in
  let client_fd := rv c in
  if client_fd <? 0 then perror "accept() failed" ;;; Ret (inl tt) else
  printf " connected from %s:%d!" [] ;;;
  let! n := sys (RecvAll client_fd 8) in
  if rv n <=? 0 then
    (if rv n <? 0 then perror "recv() failed" else Ret tt) ;;;
    Ret (inr tt)
  else
  let! req := defined "req: overrun" (mem_store jreq 0 (rdata n)) in
  let req := be64toh (of_le req) in
  let len := Z.shiftr req 16 in
  let delay := Z.land req 65535 in
  printf "Generating %lu random bytes with %lu ms delay" [PZ len; PZ delay] ;;;
  loop F (random_iter rand_fd client_fd delay len) (len, jbuf) ;;;
  printf "Done. Closing socket." [] ;;;
  sys (Close client_fd) ;;;
  Ret (inl tt).

Definition server_main (n F : nat) (jreq jbuf : list Z) : prog Z :=
  let! r := sys (Open (str "/dev/urandom")) in
  let rand_fd := rv r in
  if rand_fd <? 0 then perror "open() failed" ;;; Ret EXIT_FAILURE else
  let! s := sys Socket in
  let listen_fd := rv s in
  if listen_fd <? 0 then perror "socket() failed" ;;; Ret EXIT_FAILURE else
  let! o := sys (Setsockopt listen_fd) in
  if rv o <? 0 then perror "setsockopt() failed" ;;; Ret EXIT_FAILURE else
  let! b := sys (Bind listen_fd PORT) in
  if rv b <? 0 then perror "bind() failed" ;;; Ret EXIT_FAILURE else
  let! l := sys (Listen listen_fd 3) in
  if rv l <? 0 then perror "listen() failed" ;;; Ret EXIT_FAILURE else
  printf "Random server listening on port 8089 (Iterative Mode)" [] ;;;
  loop n (fun _ => serve_client F jreq jbuf rand_fd listen_fd) tt ;;;
  sys (Close listen_fd) ;;;
  Ret EXIT_SUCCESS.

(** ** random_client.c *)
Definition BUF_SIZE : Z := 4096.

(** [strtoull(s, NULL, 10)]. *)
Definition strtoull (s : list Z) : Z :=
  let s := skip_spaces s in
  let '(neg, ds) :=
    match s with
    | c :: s' => if c =? 45 then (true, s') else if c =? 43 then (false, s') else (false, s)
    | [] => (false, [])
    end in
  if starts_digit ds then
    let v := digits_value 0 ds in
    if ULONG_MAX <? v then ULONG_MAX else if neg : bool then wrap_u 64 (- v) else v
  else 0.

(** [(req_len << 16) | req_delay] in 64 bits. *)
Definition pack_request (req_len req_delay : Z) : Z :=
  Z.lor (wrap_u 64 (Z.shiftl req_len 16)) req_delay.

Definition receive_iter (sockfd req_len : Z) (s : Z * list Z) : prog (Z * list Z + Z) :=
  let '(total_received, buf) := s in
  if total_received <? req_len then
    let! r := sys (Recv sockfd BUF_SIZE) in
    let n := rv r in
    if n <? 0 then perror "recv() failed" ;;; Ret (inr total_received) else
    let! buf := defined "buf: overrun" (mem_store buf 0 (rdata r)) in
    let total_received := wrap_u 64 (total_received + n) in
    printf "Received %ld/%lu random bytes" [PZ total_received; PZ req_len] ;;;
    if n =? 0 then printf "Server closed connection prematurely." [] ;;; Ret (inr total_received) else
    let! data := defined "buf: overread" (mem_slice buf 0 n) in
    let! w := sys (Write 1 data) in
    if rv w <? 0 then perror "write() failed" ;;; Ret (inr total_received)
    else Ret (inl (total_received, buf))
  else Ret (inr total_received).

(** [main] once the socket is connected. *)
Definition fetch (F : nat) (jbuf : list Z) (sockfd req_len req_delay : Z) : prog Z :=
  let net_req := htobe64 (pack_request req_len req_delay) in
  let! s := send_pipe sockfd (le_bytes 8 net_req) in
  if rv s <? 0 then
    perror "send() failed" ;;; sys (Close sockfd) ;;; Ret EXIT_FAILURE
  else
  let! total_received := loop F (receive_iter sockfd req_len) (0, jbuf) in
  printf "Finished. Received %lu bytes total." [PZ total_received] ;;;
  sys (Close sockfd) ;;;
  Ret EXIT_SUCCESS.

Definition client_main (F : nat) (jbuf : list Z) (args : list (list Z)) : prog Z :=
  let go (server_ip : list Z) (req_len req_delay : Z) : prog Z :=
    let! s := sys Socket in
    let sockfd := rv s in
    if sockfd <? 0 then perror "socket() failed" ;;; Ret EXIT_FAILURE else
    let! p := sys (Libc "inet_pton" server_ip) in
    if rv p <=? 0 then
      perror "inet_pton() failed" ;;; sys (Close sockfd) ;;; Ret EXIT_FAILURE else
    printf "Connecting to %s:8089... " [PS server_ip] ;;;
    let! c := sys (Connect sockfd PORT) in
    if rv c <? 0 then
      perror "connect() failed" ;;; sys (Close sockfd) ;;; Ret EXIT_FAILURE else
    printf "Connected. Requesting %lu bytes with %lu ms delay..." [PZ req_len; PZ req_delay] ;;;
    fetch F jbuf sockfd req_len req_delay in
  match args with
  | [server_ip; len] => go server_ip (strtoull len) 0
  | [server_ip; len; delay] => go server_ip (strtoull len) (strtoull delay)
  | _ => printf "Usage: %s <IP> <LEN> [DELAY_MS]" [] ;;; printf "Tip" [] ;;; Ret EXIT_FAILURE
  end.

(** ** The request word *)
Definition small (req_len req_delay : Z) : Prop := 0 <= req_len < 2 ^ 48 /\ 0 <= req_delay < 2 ^ 16.

Lemma pack_request_sum l d : small l d -> pack_request l d = l * 2 ^ 16 + d.
Proof.
  intros [Hl Hd]. unfold pack_request.
  rewrite wrap_u_small by (rewrite Z.shiftl_mul_pow2; lia).
  assert (Z.land (Z.shiftl l 16) d = 0) as Hland.
  { apply Z.bits_inj'. intros n Hn. rewrite Z.land_spec, Z.bits_0, Z.shiftl_spec by done.
    destruct (Z.lt_ge_cases n 16).
    - by rewrite Z.testbit_neg_r by lia.
    - rewrite <- (Z.mod_small d (2 ^ 16)) by lia. rewrite Z.mod_pow2_bits_high by lia. apply andb_false_r. }
  rewrite <- Z.lxor_lor by done. rewrite <- Z.add_nocarry_lxor by done.
  by rewrite Z.shiftl_mul_pow2.
Qed.

(** The server takes the word apart into what the client put in. *)
Lemma unpack_request l d :
  small l d ->
  let req := be64toh (of_le (le_bytes 8 (htobe64 (pack_request l d)))) in
  Z.shiftr req 16 = l /\ Z.land req 65535 = d.
Proof.
  intros Hs. pose proof Hs as [Hl Hd].
  assert (0 <= pack_request l d < 2 ^ 64) as Hp by (rewrite pack_request_sum by done; lia).
  rewrite <- pow256_8 in Hp. unfold be64toh, htobe64.
  rewrite of_le_bytes by apply bswap_bound. rewrite bswap_involutive by done.
  rewrite pack_request_sum by done. split.
  - rewrite Z.shiftr_div_pow2 by lia. rewrite Z.div_add_l, Z.div_small by lia. lia.
  - change 65535 with (Z.ones 16). rewrite Z.land_ones, Z.add_comm, Z.mod_add, Z.mod_small by lia. done.
Qed.

(** ** The transfer *)

(** The replies of the server's loop: reads of at most 1024 bytes, sends of
    some of them, until [len] bytes are sent; [d] is what was sent. *)
Inductive serves (delay : Z) : Z -> list Z -> list reply -> Prop :=
| serves_done : serves delay 0 [] []
| serves_more c m len d env :
    (0 < m)%nat -> (m <= length c)%nat -> Z.of_nat (length c) <= Z.min BS (Z.of_nat m + len) -> 0 <= len ->
    serves delay len d env ->
    serves delay (Z.of_nat m + len) (take m c ++ d)
      (Reply (Z.of_nat (length c)) 0 c [] :: (if 0 <? delay then [rint 0] else []) ++ rint (Z.of_nat m) :: env).

Lemma serves_length delay len d env : serves delay len d env -> Z.of_nat (length d) = len.
Proof.
  induction 1 as [|c m len d env Hm Hle _ _ _ IH]; [done|]. rewrite length_app, length_take. lia.
Qed.

Lemma slice_front (buf c : list Z) :
  mem_slice (take (Z.to_nat 0) buf ++ c ++ drop (Z.to_nat 0 + length c) buf) 0 (Z.of_nat (length c)) = Some c.
Proof.
  change (Z.to_nat 0) with 0%nat. rewrite take_0. cbn [app]. unfold mem_slice.
  rewrite !(proj2 (Z.leb_le _ _)) by (rewrite ?length_app; lia).
  change (Z.to_nat 0) with 0%nat. rewrite skipn_O, Nat2Z.id. cbn [andb]. by rewrite take_app_length.
Qed.

(** The pauses (in microseconds) and the sends of a trace, in order. *)
Definition pacing (t : list event) : list (option Z) :=
  omap (fun e => match e with
                 | ECall (Usleep us) _ => Some (Some us)
                 | ECall (Send _ _) _ => Some None
                 | _ => None
                 end) t.

(** [k] sends, each after a pause of [delay] milliseconds, if any. *)
Fixpoint paced (delay : Z) (k : nat) : list (option Z) :=
  match k with
  | O => []
  | S k' => (if 0 <? delay then [Some (delay * 1000)] else []) ++ None :: paced delay k'
  end.

Lemma pacing_app t t' : pacing (t ++ t') = pacing t ++ pacing t'.
Proof. apply omap_app. Qed.

Lemma serves_run rand_fd fd delay total : forall len d env, serves delay len d env ->
  forall n buf rest, fd <> rand_fd -> length buf = Z.to_nat BS -> len < 2 ^ 64 ->
  delay < 2 ^ 16 -> (length d < n)%nat ->
  exists t k, run (loop n (random_iter rand_fd fd delay total) (len, buf)) (env ++ rest) = (Done tt rest, t) /\
    sent fd t = d /\ pacing t = paced delay k.
Proof.
  induction 1 as [|c m len d env Hm Hmc Hc Hlen Hs IH]; intros n buf rest Hfd Hb Hbig Hd Hn;
    (destruct n as [|n]; [simpl in Hn; lia|]); rewrite loop_S.
  - by exists [], 0%nat.
  - unfold random_iter at 1. rewrite (proj2 (Z.ltb_lt _ _)) by lia. cbn [app pbind sys].
    cbn [run rv rdata app].
    destruct (Z.ltb_spec (Z.of_nat (length c)) 0); [lia|].
    unfold BS in *. change (Z.to_nat 1024) with 1024%nat in Hb.
    rewrite (mem_store_is_Some buf 0 c) by lia. cbn [defined pbind].
    set (buf' := take (Z.to_nat 0) buf ++ c ++ _).
    assert (mem_slice buf' 0 (Z.of_nat (length c)) = Some c) as Hsl by apply slice_front.
    assert (length buf' = 1024%nat) as Hb'.
    { unfold buf'. change (Z.to_nat 0) with 0%nat. rewrite take_0, length_app, length_app, length_drop. simpl. lia. }
    destruct (IH n buf' rest Hfd) as (t & k & Ht & Hst & Hp);
      [done|lia|done|rewrite length_app, length_take in Hn; lia|].
    assert (Z.of_nat m <? 0 = false) as Hm0 by lia.
    destruct (Z.ltb_spec 0 delay) as [Hd0|Hd0];
      [rewrite (wrap_u_small 32 (delay * 1000)) by lia|]; cbn [pbind run app]; rewrite Hsl; cbn [defined pbind];
      unfold send_pipe; cbn [pbind sys run rv rint]; rewrite Hm0; cbn [andb pbind run printf];
      cbn [rv rint]; rewrite Hm0; cbn [pbind run printf];
      replace (Z.of_nat m + len - Z.of_nat m) with len by lia;
      rewrite (wrap_u_small 64 len) by lia; rewrite Ht; eexists; exists (S k); (split; [done|]);
      cbn [sent rv rint pacing omap list_omap paced app];
      fold (pacing t); rewrite Z.eqb_refl, Nat2Z.id, Hst, Hp; (split; [done|]);
      destruct (Z.ltb_spec 0 delay); (done || lia).
Qed.

(** What the client's loop receives: the stream [d] in pieces, each written
    to the standard output. *)
Inductive feeds : list Z -> list reply -> Prop :=
| feeds_done : feeds [] []
| feeds_more c d env w :
    c <> [] -> Z.of_nat (length c) <= BUF_SIZE -> w = Z.of_nat (length c) -> feeds d env ->
    feeds (c ++ d) (Reply (Z.of_nat (length c)) 0 c [] :: rint w :: env).

Lemma feeds_run fd : forall d env, feeds d env ->
  forall n buf got req_len rest, fd <> 1 -> 0 <= got -> length buf = Z.to_nat BUF_SIZE ->
  req_len = got + Z.of_nat (length d) -> req_len < 2 ^ 64 -> (length d < n)%nat ->
  exists t, run (loop n (receive_iter fd req_len) (got, buf)) (env ++ rest) = (Done req_len rest, t) /\
    sent 1 t = d /\ sent fd t = [].
Proof.
  induction 1 as [|c d env w Hc Hle -> Hf IH]; intros n buf got req_len rest Hfd Hg Hb Hreq Hbig Hn;
    (destruct n as [|n]; [simpl in Hn; lia|]); rewrite loop_S; unfold receive_iter at 1.
  - rewrite (proj2 (Z.ltb_ge _ _)) by (simpl in Hreq; lia). cbn. exists []. split; [|done].
    repeat f_equal. simpl in Hreq. lia.
  - assert (0 < length c)%nat as Hcl by (destruct c; [done|simpl; lia]). rewrite length_app in Hreq, Hn.
    rewrite (proj2 (Z.ltb_lt _ _)) by lia. cbn [app pbind sys run rv rdata].
    rewrite (proj2 (Z.ltb_ge _ 0)) by lia.
    unfold BUF_SIZE in *. change (Z.to_nat 4096) with 4096%nat in Hb.
    rewrite (mem_store_is_Some buf 0 c) by lia. cbn [defined pbind printf run].
    rewrite (proj2 (Z.eqb_neq _ 0)) by lia.
    set (buf' := take (Z.to_nat 0) buf ++ c ++ _).
    assert (mem_slice buf' 0 (Z.of_nat (length c)) = Some c) as Hsl by apply slice_front.
    assert (length buf' = 4096%nat) as Hb'.
    { unfold buf'. change (Z.to_nat 0) with 0%nat. rewrite take_0, !length_app, length_drop. simpl. lia. }
    rewrite Hsl. cbn [defined pbind sys run rv rint app]. rewrite (proj2 (Z.ltb_ge _ 0)) by lia. cbn [pbind run].
    rewrite (wrap_u_small 64) by lia.
    destruct (IH n buf' (got + Z.of_nat (length c)) req_len rest) as (t & -> & Ht & Ht'); try done; try lia.
    eexists. split; [done|]. cbn [sent rv rint]. rewrite (proj2 (Z.eqb_neq fd 1)) by done.
    cbn [app Z.eqb Pos.eqb]. by rewrite Nat2Z.id, firstn_all, Ht, Ht'.
Qed.

Lemma strtoull_dec n : 0 <= n < 2 ^ 64 -> strtoull (dec n) = n.
Proof.
  intros Hn. destruct (dec_nonneg_spec n Hn) as (ds & -> & Hne & _ & Hd & Hv).
  unfold strtoull. pose proof (starts_digit_all ds Hne Hd) as Hs.
  destruct Hd as [|c ds Hc Hd]; [done|]. cbn [skip_spaces].
  rewrite (isdigit_not_space c Hc). pose proof (isdigit_range c Hc).
  rewrite (proj2 (Z.eqb_neq c 45)), (proj2 (Z.eqb_neq c 43)) by lia.
  rewrite Hs, Hv, (proj2 (Z.ltb_ge ULONG_MAX n)) by (unfold ULONG_MAX; lia). done.
Qed.

Definition request_bytes (req_len req_delay : Z) : list Z :=
  le_bytes 8 (htobe64 (pack_request req_len req_delay)).

Lemma serve_client_run F jreq jbuf rand_fd listen_fd fd l d data env :
  small l d -> 0 <= fd -> fd <> rand_fd -> length jreq = 8%nat -> length jbuf = Z.to_nat BS ->
  (length data < F)%nat -> serves d l data env ->
  exists t, run (serve_client F jreq jbuf rand_fd listen_fd)
      (rint fd :: Reply 8 0 (request_bytes l d) [] :: env ++ [rint 0]) = (Done (inl tt) [], t) /\
    sent fd t = data /\ (exists k, pacing t = paced d k) /\
    ESay (Printf "Generating %lu random bytes with %lu ms delay" [PZ l; PZ d]) ∈ t.
Proof.
  intros Hs H0 Hfd Hj Hb HF Hv. pose proof Hs as [Hl Hd]. unfold serve_client.
  cbn [pbind printf sys run rv rint]. rewrite (proj2 (Z.ltb_ge fd 0)) by lia.
  cbn [pbind printf sys run rv rdata]. change (8 <=? 0) with false. cbv iota.
  rewrite (mem_store_whole jreq) by (rewrite Hj; done). cbn [defined pbind].
  destruct (unpack_request l d Hs) as [H1 H2]. fold (request_bytes l d) in H1, H2. rewrite H1, H2. cbn [pbind printf run]. rewrite run_bind.
  destruct (serves_run rand_fd fd d l l data env Hv F jbuf [rint 0]) as (t & k & -> & Ht & Hp); try done; [lia|lia|].
  cbn -[elem_of]. eexists. split; [done|]. cbn [sent]. rewrite sent_app, Ht.
  split; [cbn; by rewrite app_nil_r|]. split.
  - exists k. cbn [pacing omap list_omap]. fold (pacing (t ++ [ESay (Printf "Done. Closing socket." []); ECall (Close fd) (rint 0)])).
    rewrite pacing_app, Hp. cbn. by rewrite app_nil_r.
  - set_solver +.
Qed.

Lemma fetch_run F jbuf fd l d data env :
  small l d -> fd <> 1 -> length jbuf = Z.to_nat BUF_SIZE -> l = Z.of_nat (length data) ->
  (length data < F)%nat -> feeds data env ->
  exists t, run (fetch F jbuf fd l d) (rint 8 :: env ++ [rint 0]) = (Done EXIT_SUCCESS [], t) /\
    sent fd t = request_bytes l d /\ sent 1 t = data.
Proof.
  intros Hs Hfd Hj Hl HF Hf. pose proof Hs as [Hl' Hd]. unfold fetch. fold (request_bytes l d).
  assert (length (request_bytes l d) = 8%nat) as Hq by apply le_bytes_length.
  revert Hq. generalize (request_bytes l d). intros q Hq. cbv zeta.
  rewrite send_pipe_run by done. cbn [rv rint]. change (8 <? 0) with false. cbv iota. rewrite run_bind.
  destruct (feeds_run fd data env Hf F jbuf 0 l [rint 0]) as (t & -> & H1 & H2); try done; try lia.
  cbn -[take]. eexists. split; [done|]. cbn [sent]. rewrite (proj2 (Z.eqb_neq 1 fd)) by done.
  rewrite Z.eqb_refl, !sent_app, H1, H2. cbn -[take]. rewrite !app_nil_r. split; [|done].
  apply take_ge. rewrite Hq. done.
Qed.

(** C25. End to end: for a length below 2^48 and a delay below 2^16 ([small];
    beyond that the fields of the request word overlap, [delay_spills]) given
    in decimal, the server takes the client's request word apart into that
    length and delay, announces both, and sends exactly as many bytes, however
    short the reads of the random device and the sends are, pausing for the
    delay (in microseconds) before each send and nowhere else, and not at all
    for a delay of 0; the client copies exactly these bytes to its standard
    output, however the stream is cut, and both close their sockets. *)
Theorem random_end_to_end F jreq jbuf cbuf rand_fd listen_fd cfd fd l d data senv cenv :
  small l d -> 0 <= cfd -> cfd <> rand_fd -> fd <> 1 ->
  length jreq = 8%nat -> length jbuf = Z.to_nat BS -> length cbuf = Z.to_nat BUF_SIZE ->
  (length data < F)%nat -> serves d l data senv -> feeds data cenv ->
  exists ts tc,
    run (serve_client F jreq jbuf rand_fd listen_fd)
      (rint cfd :: Reply 8 0 (request_bytes l d) [] :: senv ++ [rint 0]) = (Done (inl tt) [], ts) /\
    sent cfd ts = data /\ Z.of_nat (length data) = l /\
    (exists k, pacing ts = paced d k) /\
    ESay (Printf "Generating %lu random bytes with %lu ms delay" [PZ l; PZ d]) ∈ ts /\
    run (fetch F cbuf fd (strtoull (dec l)) (strtoull (dec d))) (rint 8 :: cenv ++ [rint 0])
      = (Done EXIT_SUCCESS [], tc) /\
    sent fd tc = request_bytes l d /\ sent 1 tc = data.
Proof.
  intros Hs H0 Hr Hfd Hj Hb Hc HF Hsv Hf. pose proof Hs as [Hl Hd].
  rewrite !strtoull_dec by lia.
  destruct (serve_client_run F jreq jbuf rand_fd listen_fd cfd l d data senv) as (ts & ? & ? & ? & ?); try done.
  pose proof (serves_length _ _ _ _ Hsv).
  destruct (fetch_run F cbuf fd l d data cenv) as (tc & ? & ? & ?); try done.
  exists ts, tc. split_and!; done.
Qed.

Lemma random_end_to_end_witness :
  exists ts tc,
    run (serve_client 9 (replicate 8 1) (replicate 1024 0) 3 4)
      (rint 5 :: Reply 8 0 (request_bytes 5 20) [] ::
        [Reply 5 0 [9; 8; 7; 6; 5] []; rint 0; rint 3; Reply 2 0 [4; 3] []; rint 0; rint 2] ++ [rint 0])
      = (Done (inl tt) [], ts) /\
    sent 5 ts = [9; 8; 7; 4; 3] /\ Z.of_nat (length [9; 8; 7; 4; 3]) = 5 /\
    (exists k, pacing ts = paced 20 k) /\
    ESay (Printf "Generating %lu random bytes with %lu ms delay" [PZ 5; PZ 20]) ∈ ts /\
    run (fetch 9 (replicate 4096 0) 6 (strtoull (dec 5)) (strtoull (dec 20)))
      (rint 8 :: [Reply 1 0 [9] []; rint 1; Reply 4 0 [8; 7; 4; 3] []; rint 4] ++ [rint 0])
      = (Done EXIT_SUCCESS [], tc) /\
    sent 6 tc = request_bytes 5 20 /\ sent 1 tc = [9; 8; 7; 4; 3].
Proof.
  apply (random_end_to_end 9 (replicate 8 1) (replicate 1024 0) (replicate 4096 0) 3 4 5 6 5 20 [9; 8; 7; 4; 3]).
  - split; lia.
  - lia.
  - lia.
  - lia.
  - reflexivity.
  - reflexivity.
  - reflexivity.
  - simpl. lia.
  - apply (serves_more 20 [9; 8; 7; 6; 5] 3 2 [4; 3]); [simpl; lia|simpl; lia|unfold BS; simpl; lia|lia|].
    apply (serves_more 20 [4; 3] 2 0 [] []); [simpl; lia|simpl; lia|unfold BS; simpl; lia|lia|constructor].
  - apply (feeds_more [9] [8; 7; 4; 3]); [done|unfold BUF_SIZE; simpl; lia|done|].
    apply (feeds_more [8; 7; 4; 3] [] [] 4); [done|unfold BUF_SIZE; simpl; lia|done|constructor].
Defined.

(** A delay of 2^16 milliseconds spills into the length: two bytes are asked
    for and three announced. *)
Example delay_spills :
  let req := be64toh (of_le (request_bytes 2 65536)) in
  Z.shiftr req 16 = 3 /\ Z.land req 65535 = 0.
Proof. split; reflexivity. Qed.

(** A client that connects and closes ends the server, its descriptor still
    open. *)
Example client_leaves F jreq jbuf rand_fd listen_fd fd :
  0 <= fd ->
  run (serve_client F jreq jbuf rand_fd listen_fd) [rint fd; rint 0] =
    (Done (inr tt) [], [ESay (Printf "Waiting for client... " []); ECall (Accept listen_fd) (rint fd);
      ESay (Printf " connected from %s:%d!" []); ECall (RecvAll fd 8) (rint 0)]).
Proof.
  intros Hfd. unfold serve_client. cbn. by rewrite (proj2 (Z.ltb_ge fd 0)) by lia.
Qed.
