(* ===== verification/TimeService.v ===== *)
(** * sockets/code/time_protocol.h, time_server.c, time_client.c, time_burst_client.c

    A time service over UDP: 13-byte packed messages in network order, a
    server that answers each request with its time, a client that asks once a
    second and one that sends a burst of requests first.  Addresses are
    numbers; [gettimeofday] replies with seconds and microseconds. *)

From S2P Require Import Prelude CLib Os Kernel Net.

Local Open Scope Z_scope.

(** ** time_protocol.h *)
Definition MSG_TYPE_REQ : Z := 1.
Definition MSG_TYPE_RES : Z := 2.

(** The members hold what is in memory: network order on the wire. *)
Record time_msg := TimeMsg { msg_type : Z; seq_id : Z; timestamp_ms : Z }.

Definition MSG_SIZE : Z := 13.
Definition msg_bytes (m : time_msg) : list Z :=
  msg_type m :: le_bytes 4 (seq_id m) ++ le_bytes 8 (timestamp_ms m).
Definition msg_of (b : list Z) : time_msg :=
  TimeMsg (nth 0 b 0) (of_le (take 4 (drop 1 b))) (of_le (take 8 (drop 5 b))).

(** [recvfrom(..., &msg, sizeof(msg), ...)] fills the front of the structure. *)
Definition store_msg (d : list Z) (m : time_msg) : option time_msg := msg_of <$> mem_store (msg_bytes m) 0 d.

Definition get_time_ms : prog Z :=
  let! r := sys (Libc "gettimeofday" []) in
  match revs r with
  | (tv_sec, tv_usec) :: _ => Ret (wrap_u 64 (wrap_u 64 tv_sec * 1000 + wrap_u 64 tv_usec / 1000))
  | [] => Undef "gettimeofday: no time"
  end.

Definition source (r : reply) : Z := match revs r with (a, _) :: _ => a | [] => 0 end.

(** ** time_server.c *)
Definition server_iter (sockfd : Z) (msg : time_msg) : prog (time_msg + unit) :=
  let! n := sys (Recvfrom sockfd MSG_SIZE) in
  if rv n <? 0 then
    perror "recvfrom failed" ;;;
    if rerr n =? EINTR then Ret (inr tt) else Ret (inl msg)
  else
  let! msg := defined "msg: overrun" (store_msg (rdata n) msg) in
  let type := msg_type msg in
  let seq := be32toh (seq_id msg) in
  if type =? MSG_TYPE_REQ then
    printf "[Server] Rx REQ | Seq: %u | From: %s:%d" [PZ seq; PZ (source n)] ;;;
    let msg := TimeMsg MSG_TYPE_RES (seq_id msg) (timestamp_ms msg) in
    let! server_time := get_time_ms in
    let msg := TimeMsg (msg_type msg) (seq_id msg) (htobe64 server_time) in
    sys (Sendto sockfd (msg_bytes msg) (source n)) ;;;
    Ret (inl msg)
  else Ret (inl msg).

Definition server_main (n : nat) (jmsg : time_msg) (args : list (list Z)) : prog Z :=
  match args with
  | [ip_arg; port] =>
      let port_arg := atoi port in
      let! s := sys Socket in
      let sockfd := rv s in
      if sockfd <? 0 then perror "socket creation failed" ;;; Exit EXIT_FAILURE else
      let! p := sys (Libc "inet_pton" ip_arg) in
      if rv p <=? 0 then perror "Invalid address/ Address not supported" ;;; Exit EXIT_FAILURE else
      let! b := sys (Bind sockfd (wrap_u 16 port_arg)) in
      if rv b <? 0 then perror "bind failed" ;;; Exit EXIT_FAILURE else
      printf "[Server] Listening on %s:%d..." [PS ip_arg; PZ port_arg] ;;;
      loop n (server_iter sockfd) jmsg ;;;
      sys (Close sockfd) ;;;
      Ret 0
  | _ => printf "Usage: %s <IP> <PORT>" [] ;;; printf "Example: %s 0.0.0.0 8080" [] ;;; Exit EXIT_FAILURE
  end.

(** [server_addr] of both clients: the address text and the port. *)
Definition server_address (ip : list Z) (port : Z) : Z := of_le (le_bytes 2 (htons port) ++ ip).

Definition open_socket : prog Z :=
  let! s := sys Socket in
  if rv s <? 0 then perror "socket creation failed" ;;; Exit EXIT_FAILURE else Ret (rv s).

(** ** time_client.c *)
Module Client.

(** One turn; the state is [i], [current_seq] and [msg]. *)
Definition exchange (sockfd server_addr count : Z) (s : Z * Z * time_msg) : prog (Z * Z * time_msg + unit) :=
  let '(i, current_seq, msg) := s in
  if i <? count then
    let msg := TimeMsg MSG_TYPE_REQ (htobe32 current_seq) (timestamp_ms msg) in
    let! start_time := get_time_ms in
    let msg := TimeMsg (msg_type msg) (seq_id msg) (htobe64 start_time) in
    printf "[Client] Sending REQ | Seq: %u" [PZ current_seq] ;;;
    sys (Sendto sockfd (msg_bytes msg) server_addr) ;;;
    let! n := sys (Recvfrom sockfd MSG_SIZE) in
    let! msg :=
      if rv n <? 0 then
        (if (rerr n =? EAGAIN) || (rerr n =? EWOULDBLOCK)
         then printf "[Client] Timeout! Packet loss detected for Seq: %u" [PZ current_seq]
         else perror "recvfrom failed") ;;;
        Ret msg
      else
        let! msg := defined "msg: overrun" (store_msg (rdata n) msg) in
        let recv_seq := be32toh (seq_id msg) in
        let server_time := be64toh (timestamp_ms msg) in
        let! end_time := get_time_ms in
        printf "[Client] Rx RES | Seq: %u | Server Time: %llu | RTT: %llu ms"
          [PZ recv_seq; PZ server_time; PZ (wrap_u 64 (end_time - start_time))] ;;;
        Ret msg in
    sys (Sleep 1) ;;;
    Ret (inl (i + 1, wrap_u 32 (current_seq + 1), msg))
  else Ret (inr tt).

Definition main (n : nat) (jmsg : time_msg) (args : list (list Z)) : prog Z :=
  match args with
  | server_ip :: port :: more =>
      let server_port := atoi port in
      let count := match more with c :: _ => atoi c | [] => 5 end in
      let! sockfd := open_socket in
      ignored "inet_pton" [] ;;;
      loop n (exchange sockfd (server_address server_ip server_port) count) (0, 1, jmsg) ;;;
      sys (Close sockfd) ;;;
      Ret 0
  | _ => printf "Usage: %s <Server IP> <Server PORT> [count]" [] ;;; Exit EXIT_FAILURE
  end.

End Client.

(** ** time_burst_client.c *)
Module Burst.

Definition send_iter (sockfd server_addr count delay_usec : Z) (s : Z * Z) : prog (Z * Z + unit) :=
  let '(i, current_seq) := s in
  if i <? count then
    let! now := get_time_ms in
    let msg := TimeMsg MSG_TYPE_REQ (htobe32 current_seq) (htobe64 now) in
    let! n := sys (Sendto sockfd (msg_bytes msg) server_addr) in
    if rv n <? 0 then perror "sendto() failed" ;;; Ret (inr tt) else
    printf "[Client] Tx -> Seq: %u" [PZ current_seq] ;;;
    sys (Usleep (wrap_u 32 delay_usec)) ;;;
    Ret (inl (i + 1, wrap_u 32 (current_seq + 1)))
  else Ret (inr tt).

(** The state is [i], [received_count] and [msg]. *)
Definition receive_iter (sockfd count : Z) (s : Z * Z * time_msg) : prog (Z * Z * time_msg + Z) :=
  let '(i, received_count, msg) := s in
  if i <? count then
    let! n := sys (Recvfrom sockfd MSG_SIZE) in
    if rv n <? 0 then perror "recvfrom() failed" ;;; Ret (inr received_count) else
    let! msg := defined "msg: overrun" (store_msg (rdata n) msg) in
    let recv_seq := be32toh (seq_id msg) in
    let server_time := be64toh (timestamp_ms msg) in
    printf "[Client] Rx <- Seq: %u | Server Time: %llu" [PZ recv_seq; PZ server_time] ;;;
    Ret (inl (i + 1, received_count + 1, msg))
  else Ret (inr received_count).

(** The percentage of the summary is floating point and left out. *)
Definition main (n : nat) (jmsg : time_msg) (args : list (list Z)) : prog Z :=
  match args with
  | server_ip :: port :: more =>
      let server_port := atoi port in
      let count := match more with c :: _ => atoi c | [] => 10 end in
      let delay_usec := match more with _ :: d :: _ => atoi d | _ => 10000 end in
      let! sockfd := open_socket in
      ignored "inet_pton" [] ;;;
      printf "[Client] --- STARTING BURST OF %d PACKETS ---" [PZ count] ;;;
      loop n (send_iter sockfd (server_address server_ip server_port) count delay_usec) (0, 1) ;;;
      printf "[Client] --- BURST SENT. LISTENING FOR RESPONSES ---" [] ;;;
      let! received_count := loop n (receive_iter sockfd count) (0, 0, jmsg) in
      printf "[Client] Summary: Sent %d, Received %d. Lost %d (%.1f%%)"
        [PZ count; PZ received_count; PZ (count - received_count)] ;;;
      sys (Close sockfd) ;;;
      Ret 0
  | _ => printf "Usage: %s <Server IP> <Server PORT> [count] [delay_usec]" [] ;;; Exit EXIT_FAILURE
  end.

End Burst.

(** ** An exchange *)

(** What [gettimeofday] replies at [t] milliseconds. *)
Definition now (t : Z) : reply := Reply 0 0 [] [(t / 1000, t mod 1000 * 1000)].

Definition request (i t : Z) : list Z := msg_bytes (TimeMsg MSG_TYPE_REQ (htobe32 i) (htobe64 t)).
Definition response (i t : Z) : list Z := msg_bytes (TimeMsg MSG_TYPE_RES (htobe32 i) (htobe64 t)).
Definition time (t : Z) : Prop := 0 <= t < 2 ^ 64.

Lemma get_time_ms_run {B} (f : Z -> prog B) t env :
  time t -> run (pbind get_time_ms f) (now t :: env) =
    let '(o, tr) := run (f t) env in (o, ECall (Libc "gettimeofday" []) (now t) :: tr).
Proof.
  unfold time. intros Ht. unfold get_time_ms. cbn [pbind sys run revs now].
  pose proof (Z.div_mod t 1000 ltac:(lia)) as Hd. pose proof (Z.mod_pos_bound t 1000 ltac:(lia)).
  rewrite (wrap_u_small 64 (t / 1000)) by lia. rewrite (wrap_u_small 64 (t mod 1000 * 1000)) by lia.
  rewrite Z.div_mul by lia. rewrite (wrap_u_small 64) by lia.
  replace (t / 1000 * 1000 + t mod 1000) with t by lia. done.
Qed.

(** Thirteen bytes replace the whole message. *)
Lemma store_whole m m' :
  0 <= seq_id m < 2 ^ 32 -> 0 <= timestamp_ms m < 2 ^ 64 -> store_msg (msg_bytes m) m' = Some m.
Proof.
  intros Hs Ht. unfold store_msg. rewrite mem_store_whole by done. cbn [fmap option_fmap option_map]. f_equal.
  unfold msg_of.
  assert (of_le (le_bytes 4 (seq_id m)) = seq_id m) as H4 by (apply of_le_bytes; by rewrite pow256_4).
  assert (of_le (le_bytes 8 (timestamp_ms m)) = timestamp_ms m) as H8 by (apply of_le_bytes; by rewrite pow256_8).
  destruct m as [ty sq ts]. cbn [msg_type seq_id timestamp_ms] in *.
  change (nth 0 (msg_bytes (TimeMsg ty sq ts)) 0) with ty.
  change (take 4 (drop 1 (msg_bytes (TimeMsg ty sq ts)))) with (le_bytes 4 sq).
  change (take 8 (drop 5 (msg_bytes (TimeMsg ty sq ts)))) with (le_bytes 8 ts). by rewrite H4, H8.
Qed.

Lemma htobe32_bound z : 0 <= htobe32 z < 2 ^ 32.
Proof. rewrite <- pow256_4. apply bswap_bound. Qed.
Lemma htobe64_bound z : 0 <= htobe64 z < 2 ^ 64.
Proof. rewrite <- pow256_8. apply bswap_bound. Qed.
Lemma be32toh_htobe32 z : 0 <= z < 2 ^ 32 -> be32toh (htobe32 z) = z.
Proof. intros. apply bswap_involutive. by rewrite pow256_4. Qed.
Lemma be64toh_htobe64 z : 0 <= z < 2 ^ 64 -> be64toh (htobe64 z) = z.
Proof. intros. apply bswap_involutive. by rewrite pow256_8. Qed.

(** The times of an exchange: at the client, at the server, at the client. *)
Record times := Times { t_start : Z; t_server : Z; t_end : Z }.
Definition times_ok (x : times) : Prop := time (t_start x) /\ time (t_server x) /\ time (t_end x).

Section Service.
Context (client server : Z).

Definition client_env (i : Z) (x : times) : list reply :=
  [now (t_start x); rint MSG_SIZE; Reply MSG_SIZE 0 (response i (t_server x)) [(server, 0)]; now (t_end x); rint 0].
Definition server_env (i : Z) (x : times) : list reply :=
  [Reply MSG_SIZE 0 (request i (t_start x)) [(client, 0)]; now (t_server x); rint MSG_SIZE].

(** Both sides over a sequence of exchanges, numbered from [i]. *)
Fixpoint envs (f : Z -> times -> list reply) (i : Z) (xs : list times) : list reply :=
  match xs with [] => [] | x :: xs' => f i x ++ envs f (i + 1) xs' end.
Fixpoint requests (i : Z) (xs : list times) : list (Z * list Z) :=
  match xs with [] => [] | x :: xs' => (server, request i (t_start x)) :: requests (i + 1) xs' end.
Fixpoint responses (i : Z) (xs : list times) : list (Z * list Z) :=
  match xs with [] => [] | x :: xs' => (client, response i (t_server x)) :: responses (i + 1) xs' end.

(** What the client shows: number, server time and round-trip time. *)
Definition results (t : list event) : list (list parg) :=
  omap (fun e => match e with
    | ESay (Printf fmt args) =>
        if bool_decide (fmt = "[Client] Rx RES | Seq: %u | Server Time: %llu | RTT: %llu ms"%string)
        then Some args else None
    | _ => None end) t.
Fixpoint expected (i : Z) (xs : list times) : list (list parg) :=
  match xs with
  | [] => []
  | x :: xs' => [PZ i; PZ (t_server x); PZ (wrap_u 64 (t_end x - t_start x))] :: expected (i + 1) xs'
  end.

Lemma exchange_run fd count i x msg env :
  times_ok x -> 0 <= i -> i < count -> i + 1 + 1 < 2 ^ 32 ->
  exists msg' t, run (Client.exchange fd server count (i, i + 1, msg)) (client_env (i + 1) x ++ env) =
    (Done (inl (i + 1, i + 1 + 1, msg')) env, t) /\
    datagrams t = [(server, request (i + 1) (t_start x))] /\
    results t = [[PZ (i + 1); PZ (t_server x); PZ (wrap_u 64 (t_end x - t_start x))]].
Proof.
  intros (H0 & H1 & H2) Hi Hc Hb. unfold Client.exchange. rewrite (proj2 (Z.ltb_lt i count)) by done.
  unfold client_env. cbn [app]. rewrite get_time_ms_run by done.
  cbn [pbind printf sys run rv rdata msg_type seq_id timestamp_ms]. change (MSG_SIZE <? 0) with false. cbv iota.
  fold (request (i + 1) (t_start x)). unfold response.
  rewrite store_whole by (apply htobe32_bound || apply htobe64_bound). cbn [defined pbind].
  rewrite run_bind, get_time_ms_run by done.
  cbn [run rv rint seq_id timestamp_ms pbind]. rewrite be32toh_htobe32, be64toh_htobe64 by (done || lia).
  rewrite (wrap_u_small 32) by lia. eexists _, _. split; [done|]. split; done.
Qed.

Lemma client_loop_run fd count : forall xs n i msg,
  Forall times_ok xs -> 0 <= i -> count = i + Z.of_nat (length xs) -> count + 1 < 2 ^ 32 -> (length xs < n)%nat ->
  exists t, run (loop n (Client.exchange fd server count) (i, i + 1, msg)) (envs client_env (i + 1) xs) = (Done tt [], t) /\
    datagrams t = requests (i + 1) xs /\ results t = expected (i + 1) xs.
Proof.
  induction xs as [|x xs IH]; intros n i msg Hx Hi Hc Hb Hn; (destruct n as [|n]; [simpl in Hn; lia|]);
    rewrite loop_S, run_bind.
  - unfold Client.exchange. rewrite (proj2 (Z.ltb_ge i count)) by (simpl in Hc; lia). by eexists.
  - apply Forall_cons in Hx as [Hx Hxs]. simpl in Hc, Hn. cbn [envs requests expected].
    destruct (exchange_run fd count i x msg (envs client_env (i + 1 + 1) xs)) as (msg' & t1 & -> & H1 & H2);
      try done; try lia.
    destruct (IH n (i + 1) msg') as (t2 & -> & H3 & H4); try done; try lia.
    eexists. split; [done|]. rewrite datagrams_app, H1, H3. unfold results in *. by rewrite omap_app, H2, H4.
Qed.

Lemma server_loop_run fd : forall xs n i msg,
  Forall times_ok xs -> 0 <= i -> i + Z.of_nat (length xs) < 2 ^ 32 -> (length xs < n)%nat ->
  exists t, run (loop n (server_iter fd) msg) (envs server_env i xs) = (Blocked, t) /\
    datagrams t = responses i xs.
Proof.
  induction xs as [|x xs IH]; intros n i msg Hx Hi Hb Hn; (destruct n as [|n]; [simpl in Hn; lia|]);
    rewrite loop_S, run_bind.
  - by eexists.
  - apply Forall_cons in Hx as [(H0 & H1 & H2) Hxs]. simpl in Hb, Hn. cbn [envs responses].
    unfold server_iter at 1. unfold server_env at 1. cbn [app pbind sys run rv rdata]. change (MSG_SIZE <? 0) with false. cbv iota.
    change (request i (t_start x)) with (msg_bytes (TimeMsg MSG_TYPE_REQ (htobe32 i) (htobe64 (t_start x)))).
    rewrite store_whole by (apply htobe32_bound || apply htobe64_bound).
    cbn [defined pbind msg_type]. change (MSG_TYPE_REQ =? MSG_TYPE_REQ) with true. cbn [pbind printf run].
    rewrite get_time_ms_run by done. cbn [pbind sys run msg_type seq_id timestamp_ms].
    destruct (IH n (i + 1) (TimeMsg MSG_TYPE_RES (htobe32 i) (htobe64 (t_server x)))) as (t & Ht & Hd);
      try done; try lia.
    rewrite Ht. eexists. split; [done|]. rewrite <- Hd. done.
Qed.
End Service.

(** The whole exchange: a client that asks [length xs] times and the
    server compose.  Each request of the client, numbered from 1, is received
    by the server, answered to its sender with the same number and the server's
    time, and shown by the client with that number, that time and the
    round-trip time; the client ends, and the server goes back to waiting. *)
Theorem time_service_exchange client server cfd sfd xs jmsg jmsg' n n' :
  Forall times_ok xs -> Z.of_nat (length xs) + 1 < 2 ^ 32 -> (length xs < n)%nat -> (length xs < n')%nat ->
  exists tc ts,
    run (loop n (Client.exchange cfd server (Z.of_nat (length xs))) (0, 1, jmsg)) (envs (client_env server) 1 xs)
      = (Done tt [], tc) /\
    datagrams tc = requests server 1 xs /\
    run (loop n' (server_iter sfd) jmsg') (envs (server_env client) 1 xs) = (Blocked, ts) /\
    datagrams ts = responses client 1 xs /\
    results tc = expected 1 xs.
Proof.
  intros Hx Hb Hn Hn'.
  destruct (client_loop_run server cfd (Z.of_nat (length xs)) xs n 0 jmsg) as (tc & ? & ? & ?); try done.
  destruct (server_loop_run client sfd xs n' 1 jmsg') as (ts & ? & ?); try done; [lia|].
  eauto 10.
Qed.

Lemma time_service_exchange_witness :
  let xs := [Times 1000 1007 1012; Times 2000 2003 2009] in
  exists tc ts,
    run (loop 3 (Client.exchange 4 77 2) (0, 1, TimeMsg 0 0 0)) (envs (client_env 77) 1 xs) = (Done tt [], tc) /\
    datagrams tc = requests 77 1 xs /\
    run (loop 3 (server_iter 3) (TimeMsg 9 9 9)) (envs (server_env 88) 1 xs) = (Blocked, ts) /\
    datagrams ts = responses 88 1 xs /\
    results tc = [[PZ 1; PZ 1007; PZ 12]; [PZ 2; PZ 2003; PZ 9]].
Proof.
  apply (time_service_exchange 88 77 4 3 [Times 1000 1007 1012; Times 2000 2003 2009]).
  - repeat (apply Forall_cons; split; [split_and!; unfold time; simpl; lia|]). constructor.
  - simpl. lia.
  - simpl. lia.
  - simpl. lia.
Defined.

(** No timeout is set on the client's socket: a lost answer leaves it waiting
    in [recvfrom], and the branch that reports a timeout is not reached. *)
Example lost_answer_blocks :
  run (Client.exchange 4 77 5 (0, 1, TimeMsg 0 0 0)) [now 1000; rint 13] =
    (Blocked, [ECall (Libc "gettimeofday" []) (now 1000); ESay (Printf "[Client] Sending REQ | Seq: %u" [PZ 1]);
      ECall (Sendto 4 (request 1 1000) 77) (rint 13); EPend (Recvfrom 4 13)]).
Proof. reflexivity. Qed.

(** A datagram of one byte is answered: number and time are those of the
    message before it. *)
Example short_datagram_answered :
  datagrams (run (server_iter 3 (TimeMsg 2 (htobe32 41) 0)) [Reply 1 0 [1] [(88, 0)]; now 1000; rint 13]).2 =
    [(88, response 41 1000)].
Proof. reflexivity. Qed.
