(* ===== verification/ReadersWriters.v ===== *)
(** * sync2/code/readers_writers_cv.c

    Readers and writers of one shared value over a mutex, one condition
    variable and two counters.  A step is one access of the shared memory or
    one call; the sleeps have no step.  The number of threads is a parameter
    of the results, NUM_READERS and NUM_WRITERS in the program. *)

From S2P Require Import Prelude CLib Os Threads CondVar.

Local Open Scope Z_scope.

Definition NUM_READERS : Z := 5.
Definition NUM_WRITERS : Z := 2.

(** What is printed. *)
Inductive line := WriterLine (id value : Z) | ReaderLine (id value : Z).

(** The globals, and the output in order. *)
Record shared := Shared {
  locked : bool; cv : list nat;
  readers_count : Z; writers_count : Z; shared_data : Z;
  stdout : list line }.

Inductive writer_pc :=
| WLock | WTest | WWait | WSleep | WRelock | WEnter | WUnlockEntry
| WLoad | WStore (tmp : Z) | WShow | WPrint (v : Z)
| WLockExit | WLeave | WBroadcast | WUnlockExit.
Inductive reader_pc :=
| RLock | RTest | RWait | RSleep | RRelock | REnter | RUnlockEntry
| RShow | RPrint (v : Z)
| RLockExit | RLeave | RSignal | RUnlockExit.

Inductive thread := Writer (id : Z) (pc : writer_pc) | Reader (id : Z) (pc : reader_pc).

Definition writer (spurious : bool) (j : nat) (id : Z) (pc : writer_pc) (x : shared)
    : list (thread * shared) :=
  let '(Shared m q r w d so) := x in
  let lock next := if m then [] else [(Writer id next, Shared true q r w d so)] in
  let unlock next := [(Writer id next, Shared false q r w d so)] in
  match pc with
  | WLock => lock WTest
  | WTest =>            (* while (readers_count > 0 || writers_count > 0) *)
      [(Writer id (if (0 <? r) || (0 <? w) then WWait else WEnter), x)]
  | WWait => [(Writer id WSleep, Shared false (q ++ [j]) r w d so)]
  | WSleep => (fun q' => (Writer id WRelock, Shared m q' r w d so)) <$> wake spurious j q
  | WRelock => lock WTest
  | WEnter => [(Writer id WUnlockEntry, Shared m q r (w + 1) d so)]
  | WUnlockEntry => unlock WLoad
  | WLoad => [(Writer id (WStore d), x)]
  | WStore tmp =>       (* shared_data += 10 *)
      match checked_int (tmp + 10) with
      | Some v => [(Writer id WShow, Shared m q r w v so)]
      | None => []
      end
  | WShow => [(Writer id (WPrint d), x)]
  | WPrint v => [(Writer id WLockExit, Shared m q r w d (so ++ [WriterLine id v]))]
  | WLockExit => lock WLeave
  | WLeave => [(Writer id WBroadcast, Shared m q r (w - 1) d so)]
  | WBroadcast => [(Writer id WUnlockExit, Shared m (broadcast q) r w d so)]
  | WUnlockExit => unlock WLock
  end.

Definition reader (spurious : bool) (j : nat) (id : Z) (pc : reader_pc) (x : shared)
    : list (thread * shared) :=
  let '(Shared m q r w d so) := x in
  let lock next := if m then [] else [(Reader id next, Shared true q r w d so)] in
  let unlock next := [(Reader id next, Shared false q r w d so)] in
  match pc with
  | RLock => lock RTest
  | RTest =>            (* while (writers_count > 0) *)
      [(Reader id (if 0 <? w then RWait else REnter), x)]
  | RWait => [(Reader id RSleep, Shared false (q ++ [j]) r w d so)]
  | RSleep => (fun q' => (Reader id RRelock, Shared m q' r w d so)) <$> wake spurious j q
  | RRelock => lock RTest
  | REnter => [(Reader id RUnlockEntry, Shared m q (r + 1) w d so)]
  | RUnlockEntry => unlock RShow
  | RShow => [(Reader id (RPrint d), x)]
  | RPrint v => [(Reader id RLockExit, Shared m q r w d (so ++ [ReaderLine id v]))]
  | RLockExit => lock RLeave
  | RLeave => [(Reader id RSignal, Shared m q (r - 1) w d so)]
  | RSignal =>          (* if (readers_count == 0) pthread_cond_signal(&cv) *)
      (fun q' => (Reader id RUnlockExit, Shared m q' r w d so)) <$> (if r =? 0 then signal q else [q])
  | RUnlockExit => unlock RLock
  end.

Definition step (spurious : bool) (j : nat) (t : thread) (x : shared) : list (thread * shared) :=
  match t with
  | Writer id pc => writer spurious j id pc x
  | Reader id pc => reader spurious j id pc x
  end.

(** The threads [main] creates, numbered from 1, and the initial globals. *)
Definition threads (num_readers num_writers : Z) : list thread :=
  ((fun i => Reader (i + 1) RLock) <$> seqZ 0 num_readers) ++
  ((fun i => Writer (i + 1) WLock) <$> seqZ 0 num_writers).
Definition start (num_readers num_writers : Z) : list thread * shared :=
  (threads num_readers num_writers, Shared false [] 0 0 0 []).

(** [main]: the results of [pthread_create] and [pthread_join] are ignored. *)
Definition spawn_all (entry : string) (n : Z) : prog unit :=
  for_each (fun i _ => sys (Spawn entry (i + 1)) ;;; Ret tt) (seqZ 0 n) tt.
Definition main : prog Z :=
  printf "Rozpoczynam symulacje (Wcisnij Ctrl+C aby przerwac)..." [] ;;;
  spawn_all "reader" NUM_READERS ;;;
  spawn_all "writer" NUM_WRITERS ;;;
  join_threads (seqZ 0 NUM_READERS) ;;;
  join_threads (seqZ 0 NUM_WRITERS) ;;;
  Ret 0.

(** *** Where the threads are *)

(** Between locking and unlocking the mutex. *)
Definition holds (t : thread) : bool :=
  match t with
  | Writer _ (WTest | WWait | WEnter | WUnlockEntry | WLeave | WBroadcast | WUnlockExit) => true
  | Reader _ (RTest | RWait | REnter | RUnlockEntry | RLeave | RSignal | RUnlockExit) => true
  | _ => false
  end.
(** Counted in [readers_count]. *)
Definition reading (t : thread) : bool :=
  match t with Reader _ (RUnlockEntry | RShow | RPrint _ | RLockExit | RLeave) => true | _ => false end.
(** Counted in [writers_count]. *)
Definition writing (t : thread) : bool :=
  match t with
  | Writer _ (WUnlockEntry | WLoad | WStore _ | WShow | WPrint _ | WLockExit | WLeave) => true
  | _ => false
  end.
(** Its update is made and not printed yet. *)
Definition unprinted (t : thread) : bool :=
  match t with Writer _ (WShow | WPrint _) => true | _ => false end.
Definition broadcasting (t : thread) : bool := match t with Writer _ WBroadcast => true | _ => false end.
Definition signalling (t : thread) : bool := match t with Reader _ RSignal => true | _ => false end.
Definition asleep (t : thread) : bool :=
  match t with Writer _ WSleep | Reader _ RSleep => true | _ => false end.
Definition reader_asleep (t : thread) : bool := match t with Reader _ RSleep => true | _ => false end.
(** A writer that is going to test the counters, or has found them zero. *)
Definition trying (q : list nat) (j : nat) (t : thread) : Prop :=
  match t with
  | Writer _ WSleep => j ∉ q
  | Writer _ (WRelock | WTest | WEnter) => True
  | _ => False
  end.

(** What a thread that holds the mutex knows of the counters. *)
Definition holds_ok (r w : Z) (t : thread) : Prop :=
  match t with
  | Writer _ WWait => 0 < r \/ 0 < w
  | Writer _ WEnter => r = 0 /\ w = 0
  | Reader _ RWait => 0 < w
  | Reader _ (REnter | RSignal) => w = 0
  | _ => True
  end.
(** What a thread inside knows of the value. *)
Definition inside_ok (d : Z) (t : thread) : Prop :=
  match t with
  | Writer _ (WStore v) | Writer _ (WPrint v) | Reader _ (RPrint v) => v = d
  | _ => True
  end.

(** *** The output *)
Definition updates (so : list line) : Z :=
  total (fun l => match l with WriterLine _ _ => 1 | _ => 0 end) so.
Definition shown (l : line) : Z := match l with WriterLine _ v | ReaderLine _ v => v end.
(** Every line shows ten times the number of updates shown so far. *)
Definition consistent (so : list line) : Prop :=
  forall k l, so !! k = Some l -> shown l = 10 * updates (take (S k) so).

(** *** The invariant *)

(** Whoever sleeps will be woken: the queue is empty, somebody is inside or
    about to announce its leaving, or a writer is on its way. *)
Definition wakeup (ls : list thread) (x : shared) : Prop :=
  cv x = [] \/ 0 < readers_count x + writers_count x \/ 0 < count broadcasting ls + count signalling ls \/
  exists k u, ls !! k = Some u /\ trying (cv x) k u.

Record inv (ls : list thread) (x : shared) : Prop := {
  inv_locked : Z.b2z (locked x) = count holds ls;
  inv_readers : readers_count x = count reading ls;
  inv_writers : writers_count x = count writing ls;
  inv_exclusive : writers_count x = 0 \/ writers_count x = 1 /\ readers_count x = 0;
  inv_data : shared_data x = 10 * (updates (stdout x) + count unprinted ls);
  inv_output : consistent (stdout x);
  inv_holds j u : ls !! j = Some u -> holds_ok (readers_count x) (writers_count x) u;
  inv_inside j u : ls !! j = Some u -> inside_ok (shared_data x) u;
  inv_queue j : j ∈ cv x -> exists u, ls !! j = Some u /\ asleep u = true;
  inv_sleeping_reader j u : j ∈ cv x -> ls !! j = Some u -> reader_asleep u = true ->
    0 < writers_count x + count broadcasting ls;
  inv_wakeup : wakeup ls x;
}.

Lemma holds_ok_idle r w t : holds t = false -> holds_ok r w t.
Proof. by destruct t as [? []|? []]. Qed.
Lemma inside_ok_idle d t : reading t = false -> writing t = false -> inside_ok d t.
Proof. by destruct t as [? []|? []]. Qed.
Lemma reader_asleep_asleep t : reader_asleep t = true -> asleep t = true.
Proof. by destruct t as [? []|? []]. Qed.

Lemma updates_app so l : updates (so ++ l) = updates so + updates l.
Proof. unfold updates. induction so as [|y so IH]; simpl; lia. Qed.

Lemma consistent_snoc so l :
  consistent so -> shown l = 10 * updates (so ++ [l]) -> consistent (so ++ [l]).
Proof.
  intros Hc Hl k y Hk. destruct (decide (k < length so)%nat) as [Hlt|Hge].
  - rewrite lookup_app_l in Hk by done. rewrite take_app_le by lia. by apply Hc.
  - apply lookup_app_Some in Hk as [?%lookup_lt_Some|[_ Hk]]; [lia|].
    apply list_lookup_singleton_Some in Hk as [Hk <-].
    rewrite take_ge by (rewrite length_app; simpl; lia). done.
Qed.

Lemma readers_nonneg ls x : inv ls x -> 0 <= readers_count x.
Proof. intros H. rewrite (inv_readers _ _ H). apply count_nonneg. Qed.

Section Frame.
Context (ls : list thread) (x : shared) (i : nat) (t : thread).
Hypothesis Hinv : inv ls x.
Hypothesis Hi : ls !! i = Some t.
Implicit Types (u : thread).

Lemma others_out j u : holds t = true -> ls !! j = Some u -> j <> i -> holds u = false.
Proof.
  intros Ht Hj Hne. destruct (holds u) eqn:Hu; [|done]. exfalso. apply Hne.
  apply (count_two holds ls j i u t Hj Hi Hu Ht). rewrite <- (inv_locked _ _ Hinv). by destruct (locked x).
Qed.

Lemma others_idle j u :
  writing t = true -> ls !! j = Some u -> j <> i -> reading u = false /\ writing u = false.
Proof.
  intros Ht Hj Hne. pose proof (count_pos writing ls i t Hi Ht) as Hp.
  pose proof (inv_writers _ _ Hinv). pose proof (inv_readers _ _ Hinv).
  destruct (inv_exclusive _ _ Hinv) as [|[Hw Hr]]; [lia|]. split.
  - destruct (reading u) eqn:Hu; [|done]. pose proof (count_pos reading ls j u Hj Hu). lia.
  - destruct (writing u) eqn:Hu; [|done]. exfalso. apply Hne.
    apply (count_two writing ls j i u t Hj Hi Hu Ht). lia.
Qed.

(** A thread awake is not in the queue. *)
Lemma awake_out k : asleep t = false -> k ∈ cv x -> k <> i.
Proof. intros Ht Hk ->. destruct (inv_queue _ _ Hinv _ Hk) as (u & Hu & ?). congruence. Qed.

(** With no writer inside or leaving, the threads asleep are writers. *)
Lemma queue_writer k u :
  writers_count x = 0 -> count broadcasting ls = 0 -> k ∈ cv x -> ls !! k = Some u ->
  exists id, u = Writer id WSleep.
Proof.
  intros Hw Hb Hk Hu. destruct (inv_queue _ _ Hinv _ Hk) as (u' & Hu' & Ha). simplify_eq.
  destruct (reader_asleep u) eqn:E.
  - pose proof (inv_sleeping_reader _ _ Hinv _ _ Hk Hu E). lia.
  - destruct u as [? []|? []]; simpl in *; naive_solver.
Qed.

Lemma no_broadcast : holds t = true -> broadcasting t = false -> count broadcasting ls = 0.
Proof.
  intros Ht Hb. pose proof (count_nonneg broadcasting ls).
  destruct (decide (1 <= count broadcasting ls)) as [Hc|]; [|lia].
  apply count_exists in Hc as (j & u & Hj & Hu). destruct (decide (j = i)) as [->|Hne]; [congruence|].
  pose proof (others_out j u Ht Hj Hne). by destruct u as [? []|? []].
Qed.

Lemma wakeup_frame t' x' :
  broadcasting t = false -> signalling t = false -> ~ trying (cv x) i t ->
  readers_count x + writers_count x <= readers_count x' + writers_count x' ->
  (forall k, k <> i -> k ∈ cv x' -> k ∈ cv x) -> (cv x = [] -> cv x' = []) ->
  wakeup (<[i := t']> ls) x'.
Proof.
  intros Hb Hs Ht Hc Hq Hq0. unfold wakeup.
  destruct (inv_wakeup _ _ Hinv) as [|[|[H|(k & u & Hk & Hu)]]]; [auto|right; left; lia| |].
  - right; right; left. rewrite !(count_insert _ _ _ _ _ Hi), Hb, Hs.
    destruct (broadcasting t'), (signalling t'); simpl; lia.
  - right; right; right. exists k, u.
    assert (k <> i) as Hne by (intros ->; by simplify_eq).
    rewrite list_lookup_insert_ne by done. split; [done|].
    destruct u as [? []|]; simpl in *; auto.
Qed.

Lemma wakeup_self t' x' : trying (cv x') i t' -> wakeup (<[i := t']> ls) x'.
Proof.
  intros Ht. right; right; right. exists i, t'. split; [|done].
  apply list_lookup_insert_eq. by eapply lookup_lt_Some.
Qed.

Lemma wakeup_announce t' x' : broadcasting t' || signalling t' = true -> wakeup (<[i := t']> ls) x'.
Proof.
  intros Ht. right; right; left. apply lookup_lt_Some in Hi as Hlt.
  assert (<[i := t']> ls !! i = Some t') as Hl by by apply list_lookup_insert_eq.
  pose proof (count_nonneg broadcasting (<[i := t']> ls)). pose proof (count_nonneg signalling (<[i := t']> ls)).
  apply orb_true_iff in Ht as [Ht|Ht]; pose proof (count_pos _ _ _ _ Hl Ht); lia.
Qed.

Lemma holder_locked : holds t = true -> locked x = true.
Proof.
  intros Ht. pose proof (count_pos holds ls i t Hi Ht). pose proof (inv_locked _ _ Hinv). destruct (locked x); [done|simpl in *; lia].
Qed.
Lemma writer_inside : writing t = true -> writers_count x = 1 /\ readers_count x = 0.
Proof.
  intros Ht. pose proof (count_pos writing ls i t Hi Ht). pose proof (inv_writers _ _ Hinv).
  destruct (inv_exclusive _ _ Hinv); lia.
Qed.
Lemma reader_inside : reading t = true -> writers_count x = 0 /\ 1 <= readers_count x.
Proof.
  intros Ht. pose proof (count_pos reading ls i t Hi Ht). pose proof (inv_readers _ _ Hinv).
  destruct (inv_exclusive _ _ Hinv); lia.
Qed.

(** Seen from inside, no other thread has an unprinted update. *)
Lemma unprinted_alone : reading t || writing t = true -> count unprinted ls = Z.b2z (unprinted t).
Proof.
  intros Ht. assert (unprinted t = true -> writing t = true) as Htw by by destruct t as [? []|? []].
  assert (forall k u, ls !! k = Some u -> unprinted u = true -> k = i) as Hall.
  { intros k u Hk Hu. destruct (decide (k = i)) as [|Hne]; [done|exfalso].
    assert (writing u = true) as Hw by by destruct u as [? []|? []].
    pose proof (count_pos writing ls k u Hk Hw). pose proof (inv_writers _ _ Hinv).
    apply orb_true_iff in Ht as [Ht|Ht]; [destruct (reader_inside Ht); lia|].
    destruct (others_idle k u Ht Hk Hne) as [_ ?]. congruence. }
  pose proof (count_nonneg unprinted (<[i := Writer 0 WLock]> ls)) as Hn.
  destruct (decide (1 <= count unprinted (<[i := Writer 0 WLock]> ls))) as [Hc|Hc].
  - apply count_exists in Hc as (k & u & Hk & Hu). insert_cases Hk. by specialize (Hall k u Hk Hu).
  - rewrite (count_insert _ _ _ _ _ Hi) in Hn, Hc. simpl in *. lia.
Qed.

(** What is printed from inside is right. *)
Lemma consistent_inside l :
  reading t || writing t = true -> shown l = shared_data x ->
  updates [l] = Z.b2z (unprinted t) -> consistent (stdout x ++ [l]).
Proof.
  intros Ht Hl Hu. apply consistent_snoc; [apply Hinv|].
  rewrite Hl, (inv_data _ _ Hinv), updates_app, Hu, (unprinted_alone Ht). done.
Qed.

(** The step of one thread, by what it changes. *)
Lemma rw_inv_frame t' x' :
  Z.b2z (locked x') - Z.b2z (locked x) = Z.b2z (holds t') - Z.b2z (holds t) ->
  readers_count x' - readers_count x = Z.b2z (reading t') - Z.b2z (reading t) ->
  writers_count x' - writers_count x = Z.b2z (writing t') - Z.b2z (writing t) ->
  (writers_count x' = 0 \/ writers_count x' = 1 /\ readers_count x' = 0) ->
  shared_data x' - 10 * (updates (stdout x') + Z.b2z (unprinted t'))
    = shared_data x - 10 * (updates (stdout x) + Z.b2z (unprinted t)) ->
  consistent (stdout x') ->
  readers_count x' = readers_count x /\ writers_count x' = writers_count x \/ holds t = true ->
  holds_ok (readers_count x') (writers_count x') t' ->
  shared_data x' = shared_data x \/ writing t = true ->
  inside_ok (shared_data x') t' ->
  cv x' = cv x /\ asleep t = false \/ cv x' = cv x ++ [i] /\ asleep t' = true /\ asleep t = false \/
    (forall k, k ∈ cv x' -> k <> i /\ k ∈ cv x) ->
  (reader_asleep t' = true -> i ∈ cv x' -> 0 < writers_count x') ->
  cv x' = [] \/ writers_count x + Z.b2z (broadcasting t) <= writers_count x' + Z.b2z (broadcasting t') ->
  wakeup (<[i := t']> ls) x' ->
  inv (<[i := t']> ls) x'.
Proof.
  intros H1 H2 H3 H4 H5 H6 H7 H7' H8 H8' H9' H10 H11 H12.
  assert (forall k, k ∈ cv x' -> k = i /\ asleep t' = true \/ k <> i /\ k ∈ cv x) as H9.
  { intros k Hk. destruct H9' as [[Hq Ha]|[(Hq & Ha & Ha')|H]]; [| |right; by apply H]; rewrite Hq in Hk.
    - right. eauto using awake_out.
    - apply elem_of_app in Hk as [Hk| ->%list_elem_of_singleton]; [right; eauto using awake_out|by left]. }
  constructor; try done;
    rewrite ?(count_insert _ _ _ _ _ Hi).
  - pose proof (inv_locked _ _ Hinv). lia.
  - pose proof (inv_readers _ _ Hinv). lia.
  - pose proof (inv_writers _ _ Hinv). lia.
  - pose proof (inv_data _ _ Hinv). lia.
  - intros j u Hj. insert_cases Hj; [done|]. destruct H7 as [[-> ->]|Ht]; [by eapply inv_holds|].
    by eapply holds_ok_idle, others_out.
  - intros j u Hj. insert_cases Hj; [done|]. destruct H8 as [->|Ht]; [by eapply inv_inside|].
    destruct (others_idle j u) as [??]; try done. by apply inside_ok_idle.
  - intros j Hj. destruct (H9 j Hj) as [[-> Ha]|[Hne Hq]].
    + exists t'. split; [|done]. apply list_lookup_insert_eq. by eapply lookup_lt_Some.
    + destruct (inv_queue _ _ Hinv j Hq) as (u & ? & ?). exists u. by rewrite list_lookup_insert_ne.
  - intros j u Hj Hu Ha. pose proof (count_nonneg broadcasting (<[i := t']> ls)) as Hn.
    rewrite (count_insert _ _ _ _ _ Hi) in Hn.
    destruct (H9 j Hj) as [[-> _]|[Hne Hq]].
    + rewrite list_lookup_insert_eq in Hu by by eapply lookup_lt_Some. simplify_eq. specialize (H10 Ha Hj). lia.
    + rewrite list_lookup_insert_ne in Hu by done.
      pose proof (inv_sleeping_reader _ _ Hinv j u Hq Hu Ha).
      destruct H11 as [Hnil|]; [rewrite Hnil in Hj; by apply not_elem_of_nil in Hj|lia].
Qed.
End Frame.

(** The premises of [rw_inv_frame] and the wake-ups, by computation. *)
Ltac settle H1 H2 :=
  eapply (rw_inv_frame _ _ _ _ H1 H2); simpl; rewrite ?updates_app; simpl;
    try done; try lia; try (by left); try (right; by left).
Ltac keep H1 H2 :=
  eapply (wakeup_frame _ _ _ _ H1 H2); simpl; try done; try lia; try (intros []; done).

(** The step of a thread that needs the mutex, and of one with one outcome. *)
Ltac free m Hs := destruct m; [by apply not_elem_of_nil in Hs|].
Ltac one_of Hs := apply list_elem_of_singleton in Hs as [= -> ->].

Section Steps.
Context (spurious : bool) (ls : list thread) (x : shared) (i : nat).
Hypothesis Hinv : inv ls x.

Lemma writer_inv id pc t' x' :
  ls !! i = Some (Writer id pc) -> (t', x') ∈ writer spurious i id pc x -> inv (<[i := t']> ls) x'.
Proof.
  intros Hi Hs. pose proof (inv_holds _ _ Hinv _ _ Hi) as Hh. pose proof (inv_inside _ _ Hinv _ _ Hi) as Hd.
  pose proof (inv_exclusive _ _ Hinv) as Hx.
  pose proof (inv_output _ _ Hinv) as Ho. pose proof (readers_nonneg _ _ Hinv) as Hr.
  pose proof (holder_locked _ _ _ _ Hinv Hi) as Hm. pose proof (writer_inside _ _ _ _ Hinv Hi) as Hw.
  pose proof (awake_out _ _ _ _ Hinv Hi) as Hawake.
  destruct x as [m q r w d so]. simpl in *.
  destruct pc; simpl in Hs, Hh, Hd, Hm, Hw, Hawake; try specialize (Hm eq_refl); try specialize (Hw eq_refl);
    subst; try (free m Hs); try (one_of Hs); try (settle Hinv Hi; keep Hinv Hi; fail).
  - destruct (Z.ltb_spec 0 r), (Z.ltb_spec 0 w); settle Hinv Hi; try (by apply (wakeup_self _ _ _ Hi));
      right; left; simpl; lia.
  - settle Hinv Hi. right; left; simpl. lia.
  - apply list_elem_of_fmap in Hs as (q' & [= -> ->] & [Hni Hs]%wake_sub). settle Hinv Hi.
    + right; right. intros k Hk. by apply Hs.
    + by apply (wakeup_self _ _ _ Hi).
  - settle Hinv Hi. by apply (wakeup_self _ _ _ Hi).
  - settle Hinv Hi. right; left; simpl. lia.
  - destruct (checked_int (d + 10)) as [v|] eqn:E; [|by apply not_elem_of_nil in Hs]. one_of Hs.
    apply checked_int_Some in E as [-> _]. settle Hinv Hi. keep Hinv Hi.
  - pose proof (consistent_inside _ _ _ _ Hinv Hi (WriterLine id d) eq_refl eq_refl eq_refl).
    settle Hinv Hi; [unfold updates at 2; simpl; lia|]. keep Hinv Hi.
  - settle Hinv Hi. by apply (wakeup_announce _ _ _ Hi).
  - settle Hinv Hi. right; right. by intros k ?%elem_of_nil.
Qed.

Lemma reader_inv id pc t' x' :
  ls !! i = Some (Reader id pc) -> (t', x') ∈ reader spurious i id pc x -> inv (<[i := t']> ls) x'.
Proof.
  intros Hi Hs. pose proof (inv_holds _ _ Hinv _ _ Hi) as Hh. pose proof (inv_inside _ _ Hinv _ _ Hi) as Hd.
  pose proof (inv_exclusive _ _ Hinv) as Hx. pose proof (readers_nonneg _ _ Hinv) as Hr.
  pose proof (inv_output _ _ Hinv) as Ho. pose proof (no_broadcast _ _ _ _ Hinv Hi) as Hnb.
  pose proof (holder_locked _ _ _ _ Hinv Hi) as Hm. pose proof (reader_inside _ _ _ _ Hinv Hi) as Hw.
  pose proof (awake_out _ _ _ _ Hinv Hi) as Hawake. pose proof (queue_writer _ _ Hinv) as Hqw.
  destruct x as [m q r w d so]. simpl in *.
  destruct pc; simpl in Hs, Hh, Hd, Hm, Hw, Hawake, Hnb; try specialize (Hm eq_refl); try specialize (Hw eq_refl);
    subst; try (free m Hs); try (one_of Hs); try (settle Hinv Hi; keep Hinv Hi; fail).
  - destruct (Z.ltb_spec 0 w); settle Hinv Hi; keep Hinv Hi.
  - settle Hinv Hi. right; left; simpl. lia.
  - apply list_elem_of_fmap in Hs as (q' & [= -> ->] & [Hni Hs]%wake_sub). settle Hinv Hi.
    + right; right. intros k Hk. by apply Hs.
    + keep Hinv Hi; [naive_solver|]. intros ->. destruct q' as [|k q']; [done|].
      destruct (proj1 (Hs k)) as [_ ?%not_elem_of_nil]; [left|done].
  - pose proof (consistent_inside _ _ _ _ Hinv Hi (ReaderLine id d) eq_refl eq_refl eq_refl).
    settle Hinv Hi; [unfold updates at 2; simpl; lia|]. keep Hinv Hi.
  - settle Hinv Hi. by apply (wakeup_announce _ _ _ Hi).
  - apply list_elem_of_fmap in Hs as (q' & [= -> ->] & Hs). destruct (Z.eqb_spec r 0) as [->|Hr0].
    + apply signal_takes in Hs as [[-> ->]|(k & Hk & Hq)].
      * settle Hinv Hi.
      * settle Hinv Hi; [right; right; intros j [_ Hj]%Hq; auto|].
        destruct (inv_queue _ _ Hinv k Hk) as (u & Hu & _).
        destruct (Hqw k u eq_refl (Hnb eq_refl eq_refl) Hk Hu) as [id' ->].
        right; right; right. exists k, (Writer id' WSleep).
        rewrite list_lookup_insert_ne by (symmetry; auto). split; [done|]. simpl. rewrite Hq. by intros [].
    + apply list_elem_of_singleton in Hs as ->. settle Hinv Hi. right; left; simpl. lia.
Qed.

End Steps.

Lemma rw_inv_move spurious c c' :
  inv c.1 c.2 -> move (step spurious) c c' -> inv c'.1 c'.2.
Proof.
  intros HI Hm. destruct Hm as [j t t' ls x x' Hj Hs].
  destruct t; [by eapply writer_inv|by eapply reader_inv].
Qed.

(** Outside the entry section, waiting for the mutex at most. *)
Definition outside (t : thread) : bool := match t with Writer _ WLock | Reader _ RLock => true | _ => false end.

Lemma threads_outside nr nw j t : threads nr nw !! j = Some t -> outside t = true.
Proof.
  intros [Ht|Ht]%list_elem_of_lookup_2%elem_of_app; apply list_elem_of_fmap in Ht as (k & -> & _); done.
Qed.

Lemma rw_inv_start nr nw : inv (start nr nw).1 (start nr nw).2.
Proof.
  assert (forall P, (forall t, outside t = true -> P t = false) -> count P (threads nr nw) = 0) as Hc.
  { intros P HP. apply count_none. intros j t Hj. by eapply HP, threads_outside. }
  constructor; simpl; rewrite ?Hc; try done; try (intros t; by destruct t as [? []|? []]).
  - by left.
  - intros j u Hj%threads_outside. by destruct u as [? []|? []].
  - intros j u Hj%threads_outside. by destruct u as [? []|? []].
  - by intros j ?%elem_of_nil.
  - by intros j u ?%elem_of_nil.
  - by left.
Qed.

Lemma rw_inv_reachable spurious nr nw c :
  reachable (step spurious) (start nr nw) c -> inv c.1 c.2.
Proof.
  apply (reachable_invariant _ (fun c => inv c.1 c.2)); [apply rw_inv_start|]. apply rw_inv_move.
Qed.

Lemma threads_kept spurious nr nw c :
  0 <= nr -> 0 <= nw -> reachable (step spurious) (start nr nw) c -> Z.of_nat (length c.1) = nr + nw.
Proof.
  intros Hr Hw. apply (reachable_invariant _ (fun c => Z.of_nat (length c.1) = nr + nw)).
  - simpl. unfold threads. rewrite length_app, !length_fmap, !length_seqZ. lia.
  - intros c1 c2 H Hm. destruct Hm. simpl in *. by rewrite length_insert.
Qed.

(** With every thread asleep or outside, nobody is left in the queue. *)
Lemma no_lost_wakeup ls x :
  inv ls x -> (forall j t, ls !! j = Some t -> asleep t = true /\ j ∈ cv x \/ outside t = true) -> cv x = [].
Proof.
  intros HI Hall.
  assert (forall P, (forall t, asleep t = true \/ outside t = true -> P t = false) -> count P ls = 0) as Hc.
  { intros P HP. apply count_none. intros j t Hj. apply HP. destruct (Hall j t Hj) as [[? _]|?]; auto. }
  destruct (inv_wakeup _ _ HI) as [|[H|[H|(k & u & Hk & Hu)]]]; [done| | |].
  - rewrite (inv_readers _ _ HI), (inv_writers _ _ HI), !Hc in H; [lia|..];
      intros t Ht; by destruct t as [? []|? []], Ht.
  - rewrite !Hc in H; [lia|..]; intros t Ht; by destruct t as [? []|? []], Ht.
  - destruct (Hall k u Hk) as [[Ha Hq]|Ha]; destruct u as [? []|? []]; done.
Qed.

(** A thread that cannot move: asleep, waiting for the mutex, or about to
    overflow the value. *)
Lemma stuck_thread spurious ls x j t :
  inv ls x -> ls !! j = Some t -> step spurious j t x = [] ->
  asleep t = true /\ j ∈ cv x \/ locked x = true /\ holds t = false \/ INT_MAX < shared_data x + 10.
Proof.
  intros HI Hj Hs. pose proof (inv_inside _ _ HI _ _ Hj) as Hd. pose proof (inv_data _ _ HI) as Hdata.
  assert (0 <= updates (stdout x)) by (apply total_nonneg; by intros []).
  pose proof (count_nonneg unprinted ls).
  destruct x as [m q r w d so], t as [id pc|id pc], pc; simpl in *; try done; try (destruct m; by auto).
  - left. split; [done|]. by apply fmap_nil_inv, wake_asleep in Hs.
  - right; right. subst tmp. destruct (checked_int (d + 10)) eqn:E; [done|].
    unfold checked_int in E. case_match eqn:E2; [done|]. unfold INT_MIN, INT_MAX in *. lia.
  - left. split; [done|]. by apply fmap_nil_inv, wake_asleep in Hs.
  - apply fmap_nil_inv in Hs. destruct (r =? 0); [by apply signal_some in Hs|done].
Qed.

Lemma never_stuck spurious ls x :
  inv ls x -> ls <> [] -> shared_data x + 10 <= INT_MAX -> can_move (step spurious) (ls, x).
Proof.
  intros HI Hne Hd. destruct (moves_or_stuck (step spurious) (ls, x)) as [|Hs]; [done|exfalso]. simpl in Hs.
  assert (locked x = false) as Hl.
  { destruct (locked x) eqn:E; [|done]. pose proof (inv_locked _ _ HI) as Hc. rewrite E in Hc. simpl in Hc.
    destruct (count_exists holds ls) as (j & t & Hj & Ht); [lia|].
    destruct (stuck_thread _ _ _ _ _ HI Hj (Hs j t Hj)) as [[? _]|[[_ ?]|?]]; [|congruence|lia].
    by destruct t as [? []|? []]. }
  assert (forall j t, ls !! j = Some t -> asleep t = true /\ j ∈ cv x) as Hall.
  { intros j t Hj. destruct (stuck_thread _ _ _ _ _ HI Hj (Hs j t Hj)) as [?|[[? _]|?]]; [done|congruence|lia]. }
  assert (cv x = []) as Hq by (apply (no_lost_wakeup ls x HI); intros j t Hj; left; by eapply Hall).
  destruct ls as [|t ls]; [done|]. destruct (Hall 0%nat t eq_refl) as [_ H0]. rewrite Hq in H0.
  by apply not_elem_of_nil in H0.
Qed.

(** C26. Readers and writers, for any number of threads, in every interleaving
    and with or without spurious wake-ups: while a writer is inside no other
    thread is, the counters count the threads inside, every line printed shows
    ten times the number of updates printed so far, so that no update is lost
    and no reader sees a stale value; no wake-up is lost: when every thread
    that is not asleep is outside, nobody is left waiting; and some thread can
    always move until the value would overflow an [int]. *)
Theorem readers_writers_exclude spurious nr nw ls x :
  0 <= nr -> 0 <= nw -> 0 < nr + nw -> reachable (step spurious) (start nr nw) (ls, x) ->
  (forall i j t u, ls !! i = Some t -> ls !! j = Some u -> writing t = true -> i <> j ->
     reading u = false /\ writing u = false) /\
  (readers_count x = count reading ls /\ writers_count x = count writing ls) /\
  consistent (stdout x) /\
  ((forall j t, ls !! j = Some t -> asleep t = true /\ j ∈ cv x \/ outside t = true) -> cv x = []) /\
  (shared_data x + 10 <= INT_MAX -> can_move (step spurious) (ls, x)).
Proof.
  intros Hr Hw Hpos Hc. pose proof (rw_inv_reachable _ _ _ _ Hc) as HI. pose proof (threads_kept _ _ _ _ Hr Hw Hc) as Hlen.
  simpl in *. split_and!; [|apply HI|apply HI|apply HI|by apply no_lost_wakeup|].
  - intros i j t u Hi Hj Ht Hne. by apply (others_idle _ _ _ _ HI Hi j u Ht Hj).
  - apply never_stuck; [done|]. intros ->. simpl in Hlen. lia.
Qed.

(** A reader is inside when the first writer comes and waits; it leaves and
    wakes the writer, which updates, and a second reader sees the update. *)
Definition meeting : list (nat * nat) :=
  (fun i => (i, 0%nat)) <$>
    replicate 4 0%nat ++ replicate 3 5%nat ++ replicate 6 0%nat ++ replicate 13 5%nat ++ replicate 6 1%nat.

Lemma readers_writers_exclude_witness :
  exists ls x, reachable (step false) (start NUM_READERS NUM_WRITERS) (ls, x) /\
    stdout x = [ReaderLine 1 0; WriterLine 1 10; ReaderLine 2 10] /\
    (forall i j t u, ls !! i = Some t -> ls !! j = Some u -> writing t = true -> i <> j ->
       reading u = false /\ writing u = false) /\
    (readers_count x = count reading ls /\ writers_count x = count writing ls) /\
    consistent (stdout x) /\
    ((forall j t, ls !! j = Some t -> asleep t = true /\ j ∈ cv x \/ outside t = true) -> cv x = []) /\
    (shared_data x + 10 <= INT_MAX -> can_move (step false) (ls, x)).
Proof.
  destruct (schedule (step false) meeting (start NUM_READERS NUM_WRITERS)) as [[ls x]|] eqn:E; [|by vm_compute in E].
  apply schedule_reachable in E as Hr. exists ls, x. split; [done|]. split.
  - vm_compute in E. by injection E as _ <-.
  - by apply (readers_writers_exclude false NUM_READERS NUM_WRITERS).
Defined.

(** *** Starvation

    Readers prevail: two readers that overlap keep a writer asleep for ever. *)
Definition starving : list thread :=
  [Reader 1 RShow; Reader 2 RLock; Reader 3 RLock; Reader 4 RLock; Reader 5 RLock;
   Writer 1 WSleep; Writer 2 WLock].
Definition overlap : list (nat * nat) :=
  (fun i => (i, 0%nat)) <$> replicate 4 1%nat ++ replicate 10 0%nat ++ replicate 6 1%nat.

Lemma overlap_turn so :
  schedule (step false) overlap (starving, Shared false [5%nat] 1 0 0 so) =
    Some (starving, Shared false [5%nat] 1 0 0 ((so ++ [ReaderLine 1 0]) ++ [ReaderLine 2 0])).
Proof. reflexivity. Qed.

(** However much the readers have printed, the writer may still be waiting. *)
Lemma writer_starves n :
  exists x, reachable (step false) (start NUM_READERS NUM_WRITERS) (starving, x) /\
    cv x = [5%nat] /\ length (stdout x) = (2 * n)%nat.
Proof.
  assert (exists so, length so = (2 * n)%nat /\
    reachable (step false) (start NUM_READERS NUM_WRITERS) (starving, Shared false [5%nat] 1 0 0 so))
    as (so & Hl & Hr); [|by eexists].
  induction n as [|n (so & Hl & IH)].
  - exists []. split; [done|].
    apply (schedule_reachable _ ((fun i => (i, 0%nat)) <$> replicate 4 0%nat ++ replicate 3 5%nat)). reflexivity.
  - eexists. split; [|etrans; [exact IH|]; apply (schedule_reachable _ overlap), overlap_turn].
    rewrite !length_app. simpl. lia.
Qed.
