(* ===== verification/Philosophers.v ===== *)
(** * deadlocks/code/dining_philosophers.c

    Philosophers around a table, a semaphore per chopstick; each takes the
    left one first.  A step is one call; the sleeps have no step.  The number
    of philosophers is a parameter of the results, N in the program. *)

From S2P Require Import Prelude CLib Os Threads.

Local Open Scope Z_scope.

Definition N : nat := 3.
Definition ITERATIONS : Z := 10000000.

(** The pointers to the semaphores are indices of the array. *)
Record context := Ctx { idx : nat; left : nat; right : nat }.

Inductive line := Eats (idx : nat) | Thinks (idx : nat).

Inductive pc := WaitLeft | WaitRight | Eat | PostRight | PostLeft | Think.
#[export] Instance pc_eq_dec : EqDecision pc.
Proof. solve_decision. Defined.
Record philosopher := Phil { ctx : context; iter : Z; at_ : pc }.

Record table := Table { chopsticks : list Z; stdout : list line }.

(** [sem_wait], blocked at zero, and [sem_post]. *)
Definition sem_wait (k : nat) (cs : list Z) : option (list Z) :=
  match cs !! k with
  | Some v => if 0 <? v then Some (<[k := v - 1]> cs) else None
  | None => None
  end.
Definition sem_post (k : nat) (cs : list Z) : list Z :=
  match cs !! k with Some v => <[k := v + 1]> cs | None => cs end.

Definition step (_ : nat) (p : philosopher) (x : table) : list (philosopher * table) :=
  let '(Phil c i q) := p in
  let '(Table cs so) := x in
  let wait k next :=
    match sem_wait k cs with Some cs' => [(Phil c i next, Table cs' so)] | None => [] end in
  match q with
  | WaitLeft => if i <? ITERATIONS then wait (left c) WaitRight else []
  | WaitRight => wait (right c) Eat
  | Eat => [(Phil c i PostRight, Table cs (so ++ [Eats (idx c)]))]
  | PostRight => [(Phil c i PostLeft, Table (sem_post (right c) cs) so)]
  | PostLeft => [(Phil c i Think, Table (sem_post (left c) cs) so)]
  | Think => [(Phil c (i + 1) WaitLeft, Table cs (so ++ [Thinks (idx c)]))]
  end.

(** [(i + 1) % N] *)
Definition next (n i : nat) : nat := ((i + 1) mod n)%nat.

(** What [main] prepares: semaphores at 1, and a context for each thread. *)
Definition context_of (n i : nat) : context := Ctx i i (next n i).
Definition start (n : nat) : list philosopher * table :=
  ((fun i => Phil (context_of n i) 0 WaitLeft) <$> seq 0 n, Table (replicate n 1) []).

Fixpoint create_each (ids : list Z) (rest : prog Z) : prog Z :=
  match ids with
  | [] => rest
  | i :: ids' =>
      let! r := sys (Spawn "philosopher" i) in
      if negb (rv r =? 0) then printf "pthread_create(): %s" [PZ (rv r)] ;;; Ret 1 else
      ignored "snprintf" [i] ;;;
      ignored "pthread_setname_np" [i] ;;;
      create_each ids' rest
  end.

Definition main : prog Z :=
  let ids := seqZ 0 (Z.of_nat N) in
  for_each (fun i _ => ignored "sem_init" [i; 1]) ids tt ;;;
  printf "Creating philosophers" [] ;;;
  create_each ids (
  printf "Joining all threads" [] ;;;
  join_threads ids ;;;
  for_each (fun i _ => ignored "sem_destroy" [i]) ids tt ;;;
  Ret 0).

(** The time of each [nanosleep]: its nanoseconds are out of range, and the
    call returns [EINVAL] at once. *)
Definition ts : Z * Z := (0, 50000000000).
Definition timespec_valid (t : Z * Z) : bool := (0 <=? t.1) && (0 <=? t.2) && (t.2 <? 1000000000).
Example never_sleeps : timespec_valid ts = false.
Proof. reflexivity. Qed.

(** *** Around the table *)
Section Table.
Context (n : nat) (Hn : (2 <= n)%nat).

Lemma next_cases i : (i < n)%nat -> next n i = if decide (i + 1 = n)%nat then 0%nat else (i + 1)%nat.
Proof.
  intros Hi. unfold next. case_decide as He; [rewrite He; apply Nat.Div0.mod_same|apply Nat.mod_small; lia].
Qed.
Lemma next_lt i : (i < n)%nat -> (next n i < n)%nat.
Proof. intros Hi. rewrite next_cases by done. case_decide; lia. Qed.
Lemma next_ne i : (i < n)%nat -> next n i <> i.
Proof. intros Hi. rewrite next_cases by done. case_decide; lia. Qed.
Lemma next_inj i j : (i < n)%nat -> (j < n)%nat -> next n i = next n j -> i = j.
Proof. intros Hi Hj. rewrite !next_cases by done. repeat case_decide; lia. Qed.

(** Everybody has a neighbour on the right of whom he sits. *)
Lemma prev_exists i : (i < n)%nat -> exists j, (j < n)%nat /\ next n j = i.
Proof.
  intros Hi. destruct i as [|i].
  - exists (n - 1)%nat. split; [lia|]. rewrite next_cases by lia. case_decide; lia.
  - exists i. split; [lia|]. rewrite next_cases by lia. case_decide; lia.
Qed.

(** What holds for one and passes to the right holds for all. *)
Lemma around (P : nat -> Prop) i :
  (i < n)%nat -> P i -> (forall j, (j < n)%nat -> P j -> P (next n j)) -> forall j, (j < n)%nat -> P j.
Proof.
  intros Hi HP Hstep.
  assert (forall k, (i + k < n)%nat -> P (i + k)%nat) as Hup.
  { induction k as [|k IH]; intros Hk; [by rewrite Nat.add_0_r|].
    pose proof (Hstep (i + k)%nat ltac:(lia) (IH ltac:(lia))) as H.
    rewrite next_cases in H by lia. case_decide; [lia|]. by replace (i + S k)%nat with (i + k + 1)%nat by lia. }
  assert (P 0%nat) as H0.
  { pose proof (Hstep (n - 1)%nat ltac:(lia)) as H. rewrite next_cases in H by lia. case_decide; [|lia].
    apply H. replace (n - 1)%nat with (i + (n - 1 - i))%nat by lia. apply Hup. lia. }
  induction j as [|j IH]; intros Hj; [done|].
  pose proof (Hstep j ltac:(lia) (IH ltac:(lia))) as H.
  rewrite next_cases in H by lia. case_decide; [lia|]. by rewrite <- Nat.add_1_r.
Qed.

(** Holding the left and the right chopstick. *)
Definition has_left (p : philosopher) : Z :=
  match at_ p with WaitRight | Eat | PostRight | PostLeft => 1 | _ => 0 end.
Definition has_right (p : philosopher) : Z :=
  match at_ p with Eat | PostRight => 1 | _ => 0 end.

Record inv (ls : list philosopher) (x : table) : Prop := {
  inv_seats : length ls = n;
  inv_chopsticks : length (chopsticks x) = n;
  inv_context i p : ls !! i = Some p -> ctx p = context_of n i;
  inv_held i p q : ls !! i = Some p -> ls !! next n i = Some q ->
    chopsticks x !! next n i = Some (1 - has_right p - has_left q) /\ has_right p + has_left q <= 1;
}.

(** A step of one philosopher, by what it does to both chopsticks. *)
Lemma inv_change ls cs so cs' so' i p p' :
  inv ls (Table cs so) -> ls !! i = Some p -> ctx p' = ctx p -> length cs' = length cs ->
  (forall k, k <> i -> k <> next n i -> cs' !! k = cs !! k) ->
  (forall v, cs !! i = Some v -> cs' !! i = Some (v - (has_left p' - has_left p)) /\
    0 <= v - (has_left p' - has_left p)) ->
  (forall v, cs !! next n i = Some v -> cs' !! next n i = Some (v - (has_right p' - has_right p)) /\
    0 <= v - (has_right p' - has_right p)) ->
  inv (<[i := p']> ls) (Table cs' so').
Proof.
  intros [H1 H2 H3 H4] Hi Hc Hlen Hother Hl Hr. simpl in *.
  assert (forall j q, ls !! j = Some q -> (j < n)%nat) as Hlt by (intros j q ?%lookup_lt_Some; lia).
  pose proof (Hlt _ _ Hi) as Hin. constructor; simpl; [by rewrite length_insert|lia| |]; clear H1 H2.
  - intros j q Hj. insert_cases Hj; [rewrite Hc|]; eauto.
  - intros j q u Hj Hu. insert_cases Hj.
    + rewrite list_lookup_insert_ne in Hu by (symmetry; by apply next_ne).
      destruct (H4 _ _ _ Hi Hu) as [Hv Hb]. destruct (Hr _ Hv) as [-> ?]. split; [f_equal; lia|lia].
    + insert_cases Hu.
      * destruct (H4 j q p Hj) as [Hv Hb]; [done|]. destruct (Hl _ Hv) as [-> ?]. split; [f_equal; lia|lia].
      * rewrite Hother; [by apply H4|done|]. intros Heq%next_inj; eauto.
Qed.

Lemma has_bounds p : 0 <= has_right p <= has_left p /\ has_left p <= 1.
Proof. destruct p as [? ? []]; unfold has_left, has_right; simpl; lia. Qed.

(** The semaphores count what is on the table. *)
Lemma chopstick_left ls x i p :
  inv ls x -> ls !! i = Some p -> exists v, chopsticks x !! i = Some v /\ 0 <= v /\ v + has_left p <= 1.
Proof.
  intros [H1 H2 H3 H4] Hi.
  assert (i < n)%nat as Hin by (rewrite <- H1; by eapply lookup_lt_Some).
  destruct (prev_exists i Hin) as (j & Hj & <-).
  destruct (lookup_lt_is_Some_2 ls j) as [q Hq]; [lia|].
  destruct (H4 j q p Hq Hi) as [Hv Hb]. eexists. split; [exact Hv|]. pose proof (has_bounds q). lia.
Qed.
Lemma chopstick_right ls x i p :
  inv ls x -> ls !! i = Some p -> exists v, chopsticks x !! next n i = Some v /\ 0 <= v /\ v + has_right p <= 1.
Proof.
  intros [H1 H2 H3 H4] Hi.
  assert (i < n)%nat as Hin by (rewrite <- H1; by eapply lookup_lt_Some).
  destruct (lookup_lt_is_Some_2 ls (next n i)) as [q Hq]; [rewrite H1; by apply next_lt|].
  destruct (H4 i p q Hi Hq) as [Hv Hb]. eexists. split; [exact Hv|]. pose proof (has_bounds q). lia.
Qed.

(** What a step writes at the places of [inv_change]. *)
Ltac places :=
  match goal with H : _ ∈ [_] |- _ => apply list_elem_of_singleton in H as [= -> ->] end;
  eapply inv_change; try done; unfold has_left, has_right in *; simpl in *;
    try (by rewrite length_insert);
    intros; simplify_eq; rewrite ?list_lookup_insert_eq, ?list_lookup_insert_ne by done;
    first [done | split; [f_equal; lia|lia] | split; [by rewrite ?Z.sub_diag, Z.sub_0_r|lia] ].

Lemma inv_step ls x i p p' x' :
  inv ls x -> ls !! i = Some p -> (p', x') ∈ step i p x -> inv (<[i := p']> ls) x'.
Proof.
  intros HI Hi Hs. destruct x as [cs so].
  destruct (chopstick_left _ _ _ _ HI Hi) as (vl & Hl & Hl0 & Hl1).
  destruct (chopstick_right _ _ _ _ HI Hi) as (vr & Hr & Hr0 & Hr1). simpl in Hl, Hr.
  pose proof (inv_context _ _ HI _ _ Hi) as Hc. destruct p as [c k q]. simpl in Hc. subst c.
  assert (i < n)%nat as Hin by (rewrite <- (inv_seats _ _ HI); by eapply lookup_lt_Some).
  pose proof (next_ne i Hin) as Hne. apply lookup_lt_Some in Hl as Hll. apply lookup_lt_Some in Hr as Hrl.
  destruct q; simpl in Hs; unfold sem_wait, sem_post in Hs; rewrite ?Hl, ?Hr in Hs.
  - destruct (k <? ITERATIONS); [|by apply not_elem_of_nil in Hs].
    destruct (Z.ltb_spec 0 vl); [|by apply not_elem_of_nil in Hs]. places.
  - destruct (Z.ltb_spec 0 vr); [|by apply not_elem_of_nil in Hs]. places.
  - places.
  - places.
  - places.
  - places.
Qed.

Lemma phil_inv_start : inv (start n).1 (start n).2.
Proof.
  constructor; simpl; [by rewrite length_fmap, length_seq|by rewrite length_replicate|..].
  - intros i p Hi. apply list_lookup_fmap_Some in Hi as (k & -> & Hk). apply lookup_seq in Hk as [-> _]. done.
  - intros i p q Hi Hq. apply list_lookup_fmap_Some in Hi as (k & -> & Hk). apply lookup_seq in Hk as [-> Hk].
    apply list_lookup_fmap_Some in Hq as (k' & -> & _).
    rewrite lookup_replicate_2 by (by apply next_lt). done.
Qed.

Lemma phil_inv_reachable c : reachable step (start n) c -> inv c.1 c.2.
Proof.
  apply (reachable_invariant step (fun c => inv c.1 c.2)); [apply phil_inv_start|].
  intros c1 c2 HI Hm. destruct Hm as [j p p' ls x x' Hj Hs]. by eapply inv_step.
Qed.

Definition eating (p : philosopher) : Prop := at_ p = Eat.
Definition waits_right (p : philosopher) : Prop := at_ p = WaitRight.
Definition ended (p : philosopher) : Prop := at_ p = WaitLeft /\ ITERATIONS <= iter p.

(** Why a philosopher cannot move. *)
Lemma stuck_philosopher ls x i p q :
  inv ls x -> ls !! i = Some p -> ls !! next n i = Some q -> step i p x = [] ->
  ended p \/ at_ p = WaitLeft /\ chopsticks x !! i = Some 0 \/ waits_right p /\ has_left q = 1.
Proof.
  intros HI Hi Hq Hs. pose proof (inv_context _ _ HI _ _ Hi) as Hc.
  destruct (chopstick_left _ _ _ _ HI Hi) as (vl & Hl & Hl0 & _).
  destruct (inv_held _ _ HI _ _ _ Hi Hq) as [Hr _].
  destruct x as [cs so], p as [c k pc]. simpl in *. subst c. unfold ended, waits_right.
  destruct pc; simpl in *; try done; unfold sem_wait in Hs; rewrite ?Hl, ?Hr in Hs.
  - destruct (Z.ltb_spec k ITERATIONS); [|by left]. destruct (Z.ltb_spec 0 vl); [done|].
    right; left. split; [done|]. rewrite Hl. f_equal. lia.
  - destruct (Z.ltb_spec 0 (1 - has_right (Phil (context_of n i) k WaitRight) - has_left q)); [done|].
    right; right. split; [done|]. pose proof (has_bounds q). unfold has_right in *. simpl in *. lia.
Qed.

(** When nobody can move and one has not ended, everybody holds the left
    chopstick. *)
Lemma circular_wait ls x :
  inv ls x -> (forall i p, ls !! i = Some p -> step i p x = []) ->
  (forall i p, ls !! i = Some p -> ended p) \/ (forall i p, ls !! i = Some p -> waits_right p).
Proof.
  intros HI Hs.
  assert (forall i, (i < n)%nat -> exists p, ls !! i = Some p) as Hin.
  { intros i Hi. apply lookup_lt_is_Some_2. by rewrite (inv_seats _ _ HI). }
  assert (forall i p, ls !! i = Some p -> (i < n)%nat) as Hlt.
  { intros i p Hi. rewrite <- (inv_seats _ _ HI). by eapply lookup_lt_Some. }
  assert (forall i p, ls !! i = Some p -> ended p \/ waits_right p) as Hall.
  { intros i p Hi. pose proof (Hlt _ _ Hi) as Hi'. destruct (Hin _ (next_lt i Hi')) as [q Hq].
    destruct (stuck_philosopher _ _ _ _ _ HI Hi Hq (Hs i p Hi)) as [|[[Hw H0]|[? _]]]; auto. exfalso.
    destruct (prev_exists i Hi') as (j & Hj & <-). destruct (Hin j Hj) as [u Hu].
    destruct (inv_held _ _ HI _ _ _ Hu Hi) as [Hv _]. rewrite Hv in H0. injection H0 as H0.
    destruct (stuck_philosopher _ _ _ _ _ HI Hu Hi (Hs j u Hu)) as [[H _]|[[H _]|[H _]]];
      unfold has_left, has_right, waits_right in *; rewrite H, Hw in H0; lia. }
  assert ((exists i p, ls !! i = Some p /\ waits_right p) \/ forall i p, ls !! i = Some p -> ended p)
    as [(i & p & Hi & Hw)|]; [| |by left].
  { destruct (decide (Exists (fun p => at_ p = WaitRight) ls)) as [He|He].
    - left. apply Exists_exists in He as (p & (i & Hi)%list_elem_of_lookup & Hp). by exists i, p.
    - right. intros i p Hi. destruct (Hall i p Hi) as [|Hp]; [done|]. exfalso. apply He.
      apply Exists_exists. exists p. split; [by eapply list_elem_of_lookup_2|done]. }
  right.
  assert (forall j, (j < n)%nat -> exists q, ls !! j = Some q /\ waits_right q) as Hring.
  { apply (around (fun j => exists q, ls !! j = Some q /\ waits_right q) i); eauto.
    intros j Hj (q & Hq & Hwq). destruct (Hin _ (next_lt j Hj)) as [u Hu]. exists u. split; [done|].
    destruct (stuck_philosopher _ _ _ _ _ HI Hq Hu (Hs j q Hq)) as [[H _]|[[H _]|[_ H]]];
      unfold waits_right in *; try congruence.
    destruct (Hall _ _ Hu) as [[He _]|]; [|done]. unfold has_left in H. rewrite He in H. lia. }
  intros j q Hj. destruct (Hring j (Hlt _ _ Hj)) as (q' & ? & ?). congruence.
Qed.

End Table.

(** C27. The philosophers, any number of at least two around the table, in
    every interleaving: two neighbours never hold the chopstick between them
    at once, so they never eat at once; and nobody can move exactly when all
    have ended or when everybody holds the left chopstick and waits for the
    right one, the circular wait. *)
Theorem philosophers_deadlock n ls x :
  (2 <= n)%nat -> reachable step (start n) (ls, x) ->
  (forall i p q, ls !! i = Some p -> ls !! next n i = Some q -> has_right p + has_left q <= 1 /\ ~ (eating p /\ eating q)) /\
  ((forall i p, ls !! i = Some p -> step i p x = []) <->
   (forall i p, ls !! i = Some p -> ended p) \/ (forall i p, ls !! i = Some p -> waits_right p)).
Proof.
  intros Hn Hc. pose proof (phil_inv_reachable n Hn _ Hc) as HI. simpl in HI. split.
  - intros i p q Hi Hq. destruct (inv_held _ _ _ HI _ _ _ Hi Hq) as [_ Hb]. split; [done|].
    intros [Hp He]. unfold has_right, has_left, eating in *. rewrite Hp, He in Hb. lia.
  - split; [by apply (circular_wait n Hn)|]. intros [He|Hw] i p Hi.
    + destruct (He i p Hi) as [Hp Hk]. destruct p as [c k pc], x as [cs so]. simpl in *. subst pc. simpl.
      by rewrite (proj2 (Z.ltb_ge k ITERATIONS)).
    + pose proof (Hw i p Hi) as Hp. apply lookup_lt_Some in Hi as Hlt. rewrite (inv_seats _ _ _ HI) in Hlt.
      destruct (lookup_lt_is_Some_2 ls (next n i)) as [q Hq].
      { rewrite (inv_seats _ _ _ HI). by apply next_lt. }
      destruct (inv_held _ _ _ HI _ _ _ Hi Hq) as [Hr _]. pose proof (inv_context _ _ _ HI _ _ Hi) as Hctx.
      pose proof (Hw _ _ Hq) as Hwq. destruct p as [c k pc], x as [cs so]. unfold waits_right in *. simpl in *. subst.
      simpl. unfold sem_wait. rewrite Hr. unfold has_right, has_left. simpl. by rewrite Hwq.
Qed.

(** The deadlock of the program: each of the three takes the left chopstick. *)
Lemma philosophers_deadlock_witness :
  exists ls x, reachable step (start N) (ls, x) /\ chopsticks x = [0; 0; 0] /\
    (forall i p, ls !! i = Some p -> waits_right p) /\
    (forall i p q, ls !! i = Some p -> ls !! next N i = Some q ->
       has_right p + has_left q <= 1 /\ ~ (eating p /\ eating q)) /\
    ((forall i p, ls !! i = Some p -> step i p x = []) <->
     (forall i p, ls !! i = Some p -> ended p) \/ (forall i p, ls !! i = Some p -> waits_right p)).
Proof.
  destruct (schedule step [(0, 0); (1, 0); (2, 0)]%nat (start N)) as [[ls x]|] eqn:E; [|by vm_compute in E].
  apply schedule_reachable in E as Hr. exists ls, x. split; [done|]. vm_compute in E. injection E as <- <-.
  split; [done|]. split.
  - intros i p Hi. by destruct i as [|[|[|?]]]; simplify_eq/=.
  - apply (philosophers_deadlock N); [unfold N; lia|done].
Defined.

(** A philosopher who finds both chopsticks eats and thinks. *)
Example first_round :
  snd <$> schedule step (replicate 6 (0, 0)%nat) (start N) = Some (Table [1; 1; 1] [Eats 0; Thinks 0]).
Proof. reflexivity. Qed.
