(* ===== verification/RobustMutex.v ===== *)
(** * Robust mutexes

    A mutex in memory shared by processes, as the system keeps it: when its
    owner dies, a robust mutex tells the next one that locks it. *)

From S2P Require Import Prelude Os Threads.

Local Open Scope Z_scope.

(** A mutex as the system keeps it. *)
Inductive mutex := Free | Held (owner : nat) | OwnerDead | Inconsistent (owner : nat) | NotRecoverable.

Definition EOWNERDEAD : Z := 130.
Definition ENOTRECOVERABLE : Z := 131.

(** [pthread_mutex_lock]: the value returned and the mutex after it; no
    outcome while the caller waits. *)
Definition mutex_lock (robust : bool) (j : nat) (m : mutex) : list (Z * mutex) :=
  match m with
  | Free => [(0, Held j)]
  | OwnerDead => if robust then [(EOWNERDEAD, Inconsistent j)] else []
  | NotRecoverable => [(ENOTRECOVERABLE, NotRecoverable)]
  | Held _ | Inconsistent _ => []
  end.
Definition mutex_unlock (j : nat) (m : mutex) : mutex :=
  match m with
  | Held i => if decide (i = j) then Free else m
  | Inconsistent i => if decide (i = j) then NotRecoverable else m
  | _ => m
  end.
Definition mutex_consistent (j : nat) (m : mutex) : mutex :=
  match m with Inconsistent i => if decide (i = j) then Held j else m | _ => m end.
(** The end of process [j]: a robust mutex it holds is marked. *)
Definition mutex_die (robust : bool) (j : nat) (m : mutex) : mutex :=
  match m with
  | Held i | Inconsistent i => if decide (i = j) then if robust then OwnerDead else m else m
  | _ => m
  end.

(** ** Who has it *)
Definition owner (m : mutex) : option nat :=
  match m with Held i | Inconsistent i => Some i | _ => None end.

Lemma mutex_lock_spec robust j m r m' :
  (r, m') ∈ mutex_lock robust j m ->
  (m = Free /\ r = 0 /\ m' = Held j) \/
  (m = OwnerDead /\ robust = true /\ r = EOWNERDEAD /\ m' = Inconsistent j) \/
  (m = NotRecoverable /\ r = ENOTRECOVERABLE /\ m' = NotRecoverable).
Proof.
  destruct m, robust; simpl; rewrite ?list_elem_of_singleton; try (by intros ?%not_elem_of_nil); intros [= -> ->]; auto 6.
Qed.

(** Death takes the mutex from its owner only. *)
Lemma mutex_die_spec j m :
  (owner m = Some j /\ mutex_die true j m = OwnerDead) \/ (owner m <> Some j /\ mutex_die true j m = m).
Proof. destruct m; simpl; try case_decide; subst; auto; right; (split; [congruence|done]). Qed.
