(* ===== verification/RecordDb.v ===== *)
(** * sync2/code/record_db.h, record_db_setup.c, record_db_worker.c, record_db_worker_robust.c

    Worker processes that change records in shared memory, each record under
    its own process-shared mutex or all under one; any process may be killed
    at any step.  A step is one access of the shared memory or one call.  The
    four builds of the Makefile are values of [config]. *)

From S2P Require Import Prelude CLib Os Threads RobustMutex.

Local Open Scope Z_scope.

(** ** record_db.h *)
Definition NUM_RECORDS : nat := 5.

Record record := Rec { id : Z; base_value : Z; last_result : Z; processing_count : Z }.

(** RECORD_DB_GLOBAL_LOCK, RECORD_DB_ROBUST in the setup, the robust worker,
    and whether processes may be killed. *)
Record config := Config { global_lock : bool; robust_mutex : bool; robust_worker : bool; deaths : bool }.

(** [RecordDB]: the mutexes of the records and the global one after them. *)
Inductive line := Current (rec : nat) (base count : Z) | Updated (rec : nat) (result : Z).
Record db := Db { mutexes : list mutex; records : list record; stdout : list line }.

(** The mutex that [record_db_lock] and [record_db_unlock] take. *)
Definition record_db_mutex (cfg : config) (record : nat) : nat :=
  if global_lock cfg then NUM_RECORDS else record.

(** ** record_db_setup.c *)
Definition initial_records : list record :=
  (fun i => Rec (Z.of_nat i) (100 + Z.of_nat i) 0 0) <$> seq 0 NUM_RECORDS.
Definition initial_db : db := Db (replicate (S NUM_RECORDS) Free) initial_records [].

Definition setup_main (cfg : config) : prog Z :=
  ignored "shm_unlink" [] ;;;
  let! fd := sys (Libc "shm_open" []) in
  if rv fd =? -1 then perror "shm_open failed" ;;; Exit EXIT_FAILURE else
  let! t := sys (Libc "ftruncate" [rv fd]) in
  if rv t =? -1 then perror "ftruncate failed" ;;; Exit EXIT_FAILURE else
  let! p := sys (Libc "mmap" [rv fd]) in
  ignored "pthread_mutexattr_init" [] ;;;
  ignored "pthread_mutexattr_setpshared" [] ;;;
  (if robust_mutex cfg then ignored "pthread_mutexattr_setrobust" [] else Ret tt) ;;;
  (if global_lock cfg then ignored "pthread_mutex_init" [Z.of_nat NUM_RECORDS] else Ret tt) ;;;
  for_each (fun i _ => ignored "pthread_mutex_init" [i]) (seqZ 0 (Z.of_nat NUM_RECORDS)) tt ;;;
  ignored "pthread_mutexattr_destroy" [] ;;;
  ignored "munmap" [rv p] ;;;
  sys (Close (rv fd)) ;;;
  printf "[Setup] Database initialized with %d records." [PZ (Z.of_nat NUM_RECORDS)] ;;;
  Ret 0.

(** ** The hash of record_db_worker.c and record_db_worker_robust.c

    [ll] is the arithmetic on [long long]: [checked_ll], undefined on
    overflow, or the wrap-around of the machine. *)
Section Hash.
Context (ll : Z -> option Z).

Definition data_chunk (current_val steps_left : Z) : list Z :=
  str "RECORD_STATE:[" ++ dec current_val ++ str "]-STEP:[" ++ dec steps_left ++ str "]-SALT:[x8f9q]".

(** [while ((c = *str++)) hash = ((hash << 5) + hash) + c;] *)
Fixpoint hash_bytes (hash : Z) (s : list Z) : option Z :=
  match s with
  | [] => Some hash
  | c :: s' => a ← ll (Z.shiftl hash 5); b ← ll (a + hash); h ← ll (b + c); hash_bytes h s'
  end.

Fixpoint chain_hash (n : nat) (current_val : Z) : option Z :=
  match n with
  | O => Some current_val
  | S n' => hash ← hash_bytes 5381 (data_chunk current_val (Z.of_nat n)); chain_hash n' hash
  end.
Definition recursive_chain_hash (current_val steps_left : Z) : option Z :=
  chain_hash (Z.to_nat steps_left) current_val.
End Hash.

(** ** The workers *)
Inductive pc :=
| Lock | Consistent | Show
| LoadBase | StoreBase (tmp : Z) | LoadCount | StoreCount (tmp : Z)
| Hash | StoreResult (final_hash : Z) | Report | Unlock.
(** A killed process is kept as it was when it died. *)
#[export] Instance pc_eq_dec : EqDecision pc.
Proof. solve_decision. Defined.
Inductive life := Running (p : pc) | Exited (status : Z) | Killed (p : pc).
#[export] Instance life_eq_dec : EqDecision life.
Proof. solve_decision. Defined.
Record worker := Worker { target : nat; steps : Z; state : life }.

Section Worker.
Context (ll : Z -> option Z) (cfg : config).

(** [main] up to the critical section. *)
Definition worker_main (args : list (list Z)) : prog (nat * Z) :=
  match args with
  | [record_id; steps] =>
      let target_id := atoi record_id in
      let steps := atoi steps in
      if (target_id <? 0) || (Z.of_nat NUM_RECORDS <=? target_id) then
        printf "Invalid record ID." [] ;;; Exit EXIT_FAILURE else
      let! fd := sys (Libc "shm_open" []) in
      if rv fd =? -1 then perror "shm_open failed" ;;; Exit EXIT_FAILURE else
      let! p := sys (Libc "mmap" [rv fd]) in
      printf "[Worker PID:%d] Locking record %d..." [PZ target_id] ;;;
      Ret (Z.to_nat target_id, steps)
  | _ => printf "Usage: %s <record_id> <steps>" [] ;;; Exit EXIT_FAILURE
  end.

(** The critical section, [process] in its middle. *)
Definition program (j : nat) (w : worker) (x : db) : list (worker * db) :=
  let '(Worker t s l) := w in
  let '(Db ms rs so) := x in
  let k := record_db_mutex cfg t in
  let next p := Worker t s (Running p) in
  match l, ms !! k, rs !! t with
  | Running p, Some m, Some r =>
      match p with
      | Lock =>         (* record_db_lock *)
          (fun '(res, m') =>
             let ms := <[k := m']> ms in
             if (res =? EOWNERDEAD) && robust_worker cfg then (next Consistent, Db ms rs so)
             else if negb (res =? 0) then
               (Worker t s (Exited EXIT_FAILURE), Db (mutex_die (robust_mutex cfg) j <$> ms) rs so)
             else (next Show, Db ms rs so)) <$> mutex_lock (robust_mutex cfg) j m
      | Consistent =>   (* pthread_mutex_consistent(&rec->mtx) *)
          [(next Show, Db (alter (mutex_consistent j) t ms) rs so)]
      | Show => [(next LoadBase, Db ms rs (so ++ [Current t (base_value r) (processing_count r)]))]
      | LoadBase => [(next (StoreBase (base_value r)), x)]
      | StoreBase tmp => (* rec->base_value += 5 *)
          match ll (tmp + 5) with
          | Some v => [(next LoadCount, Db ms (<[t := Rec (id r) v (last_result r) (processing_count r)]> rs) so)]
          | None => []
          end
      | LoadCount => [(next (StoreCount (processing_count r)), x)]
      | StoreCount tmp => (* rec->processing_count++ *)
          match checked_int (tmp + 1) with
          | Some v => [(next Hash, Db ms (<[t := Rec (id r) (base_value r) (last_result r) v]> rs) so)]
          | None => []
          end
      | Hash =>         (* recursive_chain_hash(rec->base_value, steps) *)
          match recursive_chain_hash ll (base_value r) s with
          | Some h => [(next (StoreResult h), x)]
          | None => []
          end
      | StoreResult h => [(next Report, Db ms (<[t := Rec (id r) (base_value r) h (processing_count r)]> rs) so)]
      | Report => [(next Unlock, Db ms rs (so ++ [Updated t (last_result r)]))]
      | Unlock => [(Worker t s (Exited EXIT_SUCCESS), Db (alter (mutex_unlock j) k ms) rs so)]
      end
  | _, _, _ => []
  end.

(** A running process may be killed at any point. *)
Definition kill (j : nat) (w : worker) (x : db) : list (worker * db) :=
  match state w with
  | Running p =>
      if deaths cfg then
        [(Worker (target w) (steps w) (Killed p),
          Db (mutex_die (robust_mutex cfg) j <$> mutexes x) (records x) (stdout x))]
      else []
  | _ => []
  end.

Definition step (j : nat) (w : worker) (x : db) : list (worker * db) := program j w x ++ kill j w x.

Definition start (jobs : list (nat * Z)) : list worker * db :=
  ((fun '(t, s) => Worker t s (Running Lock)) <$> jobs, initial_db).
End Worker.

(** *** The hash *)

(** Eleven characters make the hash overflow, and the prefix has fourteen:
    for one step or more the behaviour is undefined, whatever the record. *)
Lemma hash_overflows current_val steps_left :
  0 < steps_left -> recursive_chain_hash checked_ll current_val steps_left = None.
Proof.
  intros Hs. unfold recursive_chain_hash. destruct (Z.to_nat steps_left) as [|n] eqn:E; [lia|].
  cbn [chain_hash]. unfold data_chunk. generalize (dec current_val ++ str "]-STEP:[" ++ dec (Z.of_nat (S n)) ++ str "]-SALT:[x8f9q]").
  intros rest.
  assert (forall a b h, hash_bytes checked_ll h a = None -> hash_bytes checked_ll h (a ++ b) = None) as Happ.
  { induction a as [|c a IH]; intros b h; [done|]. cbn [app hash_bytes].
    destruct (checked_ll (Z.shiftl h 5)) as [x|]; [|done]. simpl. destruct (checked_ll (x + h)) as [y|]; [|done]. simpl.
    destruct (checked_ll (y + c)); [|done]. simpl. apply IH. }
  rewrite Happ; [done|]. reflexivity.
Qed.

(** The text hashed fits the 512 bytes of [data_chunk]. *)
Lemma data_chunk_fits current_val steps_left :
  LLONG_MIN <= current_val <= LLONG_MAX -> INT_MIN <= steps_left <= INT_MAX ->
  (length (data_chunk current_val steps_left) < 512)%nat.
Proof.
  intros Hc Hs. limits. unfold data_chunk. rewrite !length_app, !str_length.
  pose proof (dec_length current_val). pose proof (dec_length steps_left). simpl. lia.
Qed.

(** *** Who holds what *)
(** Running between the lock and the unlock. *)
Definition inside (w : worker) : bool :=
  match state w with Running Lock | Exited _ | Killed _ => false | Running _ => true end.
(** Past the update of [base_value], past that of [processing_count], and past
    the store of the result. *)
Definition past_base (p : pc) : bool :=
  match p with LoadCount | StoreCount _ | Hash | StoreResult _ | Report | Unlock => true | _ => false end.
Definition past_count (p : pc) : bool :=
  match p with Hash | StoreResult _ | Report | Unlock => true | _ => false end.
Definition past_result (p : pc) : bool := match p with Report | Unlock => true | _ => false end.
Definition did (past : pc -> bool) (w : worker) : bool :=
  match state w with Running p | Killed p => past p | Exited s => s =? EXIT_SUCCESS end.
Definition on (t : nat) (P : worker -> bool) (w : worker) : bool := bool_decide (target w = t) && P w.
Definition based (t : nat) : worker -> bool := on t (did past_base).
Definition counted (t : nat) : worker -> bool := on t (did past_count).
(** Stopped or killed between the two counters. *)
Definition between (t : nat) : worker -> bool := on t (fun w => did past_base w && negb (did past_count w)).
(** Stopped or killed between the new base and its result. *)
Definition torn (t : nat) (w : worker) : bool := on t (fun w => did past_base w && negb (did past_result w)) w.

Lemma past_order p : (past_result p = true -> past_count p = true) /\ (past_count p = true -> past_base p = true).
Proof. by destruct p. Qed.

Lemma between_count t ls : count (based t) ls = count (counted t) ls + count (between t) ls.
Proof.
  induction ls as [|w ls IH]; [done|]. cbn [count]. rewrite IH. unfold based, counted, between, on, did.
  destruct (bool_decide (target w = t)); simpl; [|lia].
  destruct (state w) as [p|s|p]; try (destruct p; simpl; lia). destruct (s =? EXIT_SUCCESS); simpl; lia.
Qed.

Section Invariant.
Context (ll : Z -> option Z) (cfg : config).

Notation hash := (recursive_chain_hash ll).
Notation mutex_of := (record_db_mutex cfg).

(** What a mutex says of its owner. *)
Definition mutex_ok (ls : list worker) (l : nat) (m : mutex) : Prop :=
  match m with
  | Free => True
  | Held i => exists w, ls !! i = Some w /\ mutex_of (target w) = l /\
      (inside w = true \/ robust_mutex cfg = false /\ deaths cfg = true /\ exists p, state w = Killed p)
  | OwnerDead => robust_mutex cfg = true /\ deaths cfg = true
  | Inconsistent i => (robust_mutex cfg = true /\ deaths cfg = true) /\ exists w, ls !! i = Some w /\ mutex_of (target w) = l /\
      inside w = true /\ (state w = Running Consistent \/ global_lock cfg = true)
  | NotRecoverable => deaths cfg = true /\ global_lock cfg = true
  end.

(** What a worker inside knows of its record, and how one ends. *)
Definition worker_ok (rs : list record) (w : worker) : Prop :=
  match state w with
  | Running (StoreBase tmp) => base_value <$> rs !! target w = Some tmp
  | Running (StoreCount tmp) => processing_count <$> rs !! target w = Some tmp
  | Running (StoreResult h) => (base_value <$> rs !! target w) ≫= (fun v => hash v (steps w)) = Some h
  | Running Consistent => deaths cfg = true
  | Exited s => s = EXIT_SUCCESS \/
      s = EXIT_FAILURE /\ deaths cfg = true /\ (robust_worker cfg = false \/ global_lock cfg = true)
  | _ => True
  end.

(** A record agrees with what the workers did to it. *)
Record record_ok (ls : list worker) (t : nat) (r : record) : Prop := {
  rec_id : id r = Z.of_nat t;
  rec_base : base_value r = 100 + Z.of_nat t + 5 * count (based t) ls;
  rec_count : processing_count r = count (counted t) ls;
  rec_result : (exists j w, ls !! j = Some w /\ torn t w = true) \/
    count (based t) ls = 0 /\ last_result r = 0 \/
    exists j w, ls !! j = Some w /\ target w = t /\ hash (base_value r) (steps w) = Some (last_result r);
}.

Record inv (ls : list worker) (x : db) : Prop := {
  inv_mutexes : length (mutexes x) = S NUM_RECORDS;
  inv_records : length (records x) = NUM_RECORDS;
  inv_target j w : ls !! j = Some w -> (target w < NUM_RECORDS)%nat;
  inv_inside j w : ls !! j = Some w -> inside w = true ->
    exists m, mutexes x !! mutex_of (target w) = Some m /\ owner m = Some j;
  inv_mutex l m : mutexes x !! l = Some m -> mutex_ok ls l m;
  inv_worker j w : ls !! j = Some w -> worker_ok (records x) w;
  inv_record t r : records x !! t = Some r -> record_ok ls t r;
}.

Section Frame.
Context (ls : list worker) (x : db) (j : nat) (w : worker).
Hypothesis Hinv : inv ls x.
Hypothesis Hj : ls !! j = Some w.

(** Workers inside with one lock are one worker. *)
Lemma inside_unique i u :
  ls !! i = Some u -> inside u = true -> inside w = true -> mutex_of (target u) = mutex_of (target w) -> i = j.
Proof.
  intros Hi Hu Hw He. destruct (inv_inside _ _ Hinv _ _ Hi Hu) as (m & Hm & Ho).
  destruct (inv_inside _ _ Hinv _ _ Hj Hw) as (m' & Hm' & Ho'). congruence.
Qed.

Lemma same_record i u :
  ls !! i = Some u -> inside u = true -> inside w = true -> target u = target w -> i = j.
Proof. intros Hi Hu Hw He. apply (inside_unique i u Hi Hu Hw). by rewrite He. Qed.

(** Only a worker inside knows something of a record. *)
Lemma worker_ok_out rs rs' u :
  inside u = false -> worker_ok rs u -> worker_ok rs' u.
Proof. unfold worker_ok, inside. by destruct (state u) as [[]|?|[]]. Qed.

(** The same progress in the critical section, as far as the record tells. *)
Definition same_progress (w w' : worker) : Prop :=
  did past_base w' = did past_base w /\ did past_count w' = did past_count w /\
  did past_result w' = did past_result w.

(** What a step does not count for. *)
Lemma record_ok_frame w' t r :
  target w' = target w -> steps w' = steps w -> (target w = t -> same_progress w w') ->
  record_ok ls t r -> record_ok (<[j := w']> ls) t r.
Proof.
  intros Ht Hs Hp [H1 H2 H3 H4].
  assert (based t w' = based t w /\ counted t w' = counted t w /\ torn t w' = torn t w) as (E1 & E2 & E3).
  { unfold based, counted, torn, on. rewrite Ht. case_bool_decide; [|done].
    destruct Hp as (-> & -> & ->); done. }
  constructor; rewrite ?(count_insert _ _ _ _ _ Hj), ?E1, ?E2; [done|lia|lia|].
  assert (forall P : worker -> Prop, (P w -> P w') -> (exists i u, ls !! i = Some u /\ P u) ->
    exists i u, <[j := w']> ls !! i = Some u /\ P u) as Hex.
  { intros P HP (i & u & Hi & Hu). destruct (decide (i = j)) as [->|Hne].
    - simplify_eq. exists j, w'. rewrite list_lookup_insert_eq by (by eapply lookup_lt_Some). auto.
    - exists i, u. by rewrite list_lookup_insert_ne. }
  destruct H4 as [H4|[[H4 ?]|H4]].
  - left. apply (Hex (fun u => torn t u = true)); [by rewrite E3|done].
  - right; left. split; [lia|done].
  - right; right. apply (Hex (fun u => target u = t /\ _)); [by rewrite Ht, Hs|done].
Qed.

Lemma mutex_ok_other w' l m : owner m <> Some j -> mutex_ok ls l m -> mutex_ok (<[j := w']> ls) l m.
Proof.
  intros Ho. destruct m as [|i| |i|]; simpl in *; try done.
  - intros (u & Hu & H). exists u. rewrite list_lookup_insert_ne by congruence. done.
  - intros (Hd & u & Hu & H). split; [done|]. exists u. rewrite list_lookup_insert_ne by congruence. done.
Qed.

(** A step of one worker. *)
Lemma db_inv_frame w' x' :
  target w' = target w -> steps w' = steps w ->
  length (mutexes x') = length (mutexes x) -> length (records x') = length (records x) ->
  (forall l m i, mutexes x !! l = Some m -> owner m = Some i -> i <> j -> mutexes x' !! l = Some m) ->
  (inside w' = true -> exists m, mutexes x' !! mutex_of (target w) = Some m /\ owner m = Some j) ->
  (forall l m, mutexes x' !! l = Some m ->
     mutexes x !! l = Some m /\ owner m <> Some j \/ mutex_ok (<[j := w']> ls) l m) ->
  worker_ok (records x') w' ->
  records x' = records x /\ same_progress w w' \/
    inside w = true /\ (forall t, t <> target w -> records x' !! t = records x !! t) /\
    (forall r, records x' !! target w = Some r -> record_ok (<[j := w']> ls) (target w) r) ->
  inv (<[j := w']> ls) x'.
Proof.
  intros Ht Hs Hlm Hlr M1 M2 M3 Hw Hr. constructor.
  - rewrite Hlm. apply Hinv.
  - rewrite Hlr. apply Hinv.
  - intros i u Hi. insert_cases Hi; [rewrite Ht|]; by eapply inv_target.
  - intros i u Hi Hu. insert_cases Hi; [rewrite Ht; by apply M2|].
    destruct (inv_inside _ _ Hinv _ _ Hi Hu) as (m & Hm & Ho). exists m. split; [|done]. eapply M1; eauto.
  - intros l m Hm. destruct (M3 l m Hm) as [[Hm' Ho]|]; [|done].
    apply mutex_ok_other; [done|]. by apply Hinv.
  - intros i u Hi. insert_cases Hi; [done|]. pose proof (inv_worker _ _ Hinv _ _ Hi) as Hok.
    destruct Hr as [[-> _]|(Hin & Hother & _)]; [done|].
    destruct (inside u) eqn:Eu; [|by eapply worker_ok_out].
    unfold worker_ok in *. rewrite Hother; [done|]. intros He.
    by pose proof (same_record i u Hi Eu Hin He).
  - intros t r Ht'. destruct Hr as [[Hrs Hp]|(Hin & Hother & Hown)].
    + rewrite Hrs in Ht'. apply record_ok_frame; auto. by apply Hinv.
    + destruct (decide (t = target w)) as [->|Hne]; [by apply Hown|].
      rewrite Hother in Ht' by done. apply record_ok_frame; auto; [by intros <-|]. by apply Hinv.
Qed.

(** A step inside that leaves the mutexes. *)
Lemma inv_local w' x' :
  target w' = target w -> steps w' = steps w -> mutexes x' = mutexes x -> length (records x') = length (records x) ->
  inside w = true -> inside w' = true -> state w <> Running Consistent ->
  worker_ok (records x') w' ->
  records x' = records x /\ same_progress w w' \/
    (forall t, t <> target w -> records x' !! t = records x !! t) /\
    (forall r, records x' !! target w = Some r -> record_ok (<[j := w']> ls) (target w) r) ->
  inv (<[j := w']> ls) x'.
Proof.
  intros Ht Hs Hm Hl Hin Hin' Hc Hw Hr. apply db_inv_frame; try done; rewrite ?Hm; try done.
  - intros _. by eapply inv_inside.
  - intros l m Hlm. destruct (decide (owner m = Some j)) as [Ho|]; [right|by left].
    pose proof (inv_mutex _ _ Hinv l m Hlm) as Hok. apply lookup_lt_Some in Hj as Hlt.
    destruct m as [|i| |i|]; simplify_eq/=.
    + destruct Hok as (u & Hu & Hl' & _). simplify_eq. exists w'.
      rewrite list_lookup_insert_eq by done. rewrite Ht. auto.
    + destruct Hok as (Hd & u & Hu & Hl' & _ & H). simplify_eq. split; [done|]. exists w'.
      rewrite list_lookup_insert_eq by done. rewrite Ht. destruct H; naive_solver.
  - destruct Hr as [|[? ?]]; auto.
Qed.

(** A mutex that names a worker is the one it takes. *)
Lemma owner_place l m :
  mutexes x !! l = Some m -> owner m = Some j ->
  mutex_of (target w) = l /\ (inside w = true \/ m = Held j /\ robust_mutex cfg = false /\ exists p, state w = Killed p).
Proof.
  intros Hm Ho. pose proof (inv_mutex _ _ Hinv l m Hm) as Hok. destruct m as [|i| |i|]; simplify_eq/=.
  - destruct Hok as (u & Hu & Hl & H). simplify_eq. naive_solver.
  - destruct Hok as (_ & u & Hu & Hl & H & _). simplify_eq. auto.
Qed.

Lemma running_lock_owner l m : state w = Running Lock -> mutexes x !! l = Some m -> owner m <> Some j.
Proof.
  intros Hs Hm Ho. destruct (owner_place l m Hm Ho) as [_ [H|(_ & _ & p & H)]]; [|congruence].
  unfold inside in H. by rewrite Hs in H.
Qed.

Lemma mutex_die_other i m : owner m = Some i -> i <> j -> mutex_die (robust_mutex cfg) j m = m.
Proof. destruct m; simpl; intros [= ->] Hne; by rewrite decide_False. Qed.
Lemma mutex_die_none m : owner m <> Some j -> mutex_die (robust_mutex cfg) j m = m.
Proof. destruct m as [|i| |i|]; simpl; try done; intros Hne; rewrite decide_False; congruence. Qed.

(** The end of a process that is not inside. *)
Lemma inv_exit s' l m' :
  state w = Running Lock -> deaths cfg = true -> s' = EXIT_FAILURE ->
  robust_worker cfg = false \/ global_lock cfg = true -> mutex_of (target w) = l ->
  mutexes x !! l = Some OwnerDead /\ robust_mutex cfg = true /\ m' = Inconsistent j \/
    mutexes x !! l = Some NotRecoverable /\ m' = NotRecoverable ->
  inv (<[j := Worker (target w) (steps w) (Exited s')]> ls)
    (Db (mutex_die (robust_mutex cfg) j <$> <[l := m']> (mutexes x)) (records x) (stdout x)).
Proof.
  intros Hst Hd -> Hcfg Hl Hm.
  assert (forall m, mutexes x !! l = Some m -> owner m = None) as Hnone by naive_solver.
  apply lookup_lt_Some in Hj as Hjlt.
  apply db_inv_frame; simpl; try done; rewrite ?length_fmap, ?length_insert; try done.
  - intros l0 m i Hl0 Ho Hne. rewrite list_lookup_fmap, list_lookup_insert_ne, Hl0; [simpl; f_equal; by eapply mutex_die_other|].
    intros <-. rewrite (Hnone _ Hl0) in Ho. done.
  - intros l0 m Hl0. rewrite list_lookup_fmap in Hl0. destruct (decide (l0 = l)) as [->|Hne].
    + right. rewrite list_lookup_insert_eq in Hl0 by (destruct Hm as [[? _]|[? _]]; by eapply lookup_lt_Some).
      destruct Hm as [(_ & Hr & ->)|[Hn ->]]; injection Hl0 as <-; simpl.
      * rewrite decide_True, Hr by done. done.
      * apply (inv_mutex _ _ Hinv _ _ Hn).
    + left. rewrite list_lookup_insert_ne in Hl0 by done. destruct (mutexes x !! l0) as [m0|] eqn:E; [|done].
      injection Hl0 as <-. pose proof (running_lock_owner _ _ Hst E). by rewrite mutex_die_none.
  - right. auto.
  - left. unfold same_progress, did. rewrite Hst. simpl. done.
Qed.

Lemma inv_kill p :
  state w = Running p -> deaths cfg = true ->
  inv (<[j := Worker (target w) (steps w) (Killed p)]> ls)
    (Db (mutex_die (robust_mutex cfg) j <$> mutexes x) (records x) (stdout x)).
Proof.
  intros Hst Hd. apply lookup_lt_Some in Hj as Hjlt.
  apply db_inv_frame; simpl; try done; rewrite ?length_fmap; try done.
  - intros l m i Hl Ho Hne. rewrite list_lookup_fmap, Hl. simpl. f_equal. by eapply mutex_die_other.
  - intros l m Hl. rewrite list_lookup_fmap in Hl. destruct (mutexes x !! l) as [m0|] eqn:E; [|done].
    injection Hl as <-. destruct (decide (owner m0 = Some j)) as [Ho|Ho]; [right|left; by rewrite mutex_die_none].
    destruct (owner_place _ _ E Ho) as [Hl _]. pose proof (inv_mutex _ _ Hinv _ _ E) as Hok.
    destruct m0 as [|i| |i|]; simplify_eq/=; rewrite decide_True by done; destruct (robust_mutex cfg) eqn:Er; try done.
    + eexists. rewrite list_lookup_insert_eq by done. split; [done|]. simpl. split; [done|]. right. eauto.
    + by destruct Hok as [[? _] _].
  - left. unfold same_progress, did. by rewrite Hst.
Qed.

(** Taking the mutex, from the state it was in. *)
Lemma inv_take p m m' :
  state w = Running Lock -> mutexes x !! mutex_of (target w) = Some m -> owner m = None ->
  m = Free /\ m' = Held j /\ p = Show \/
    m = OwnerDead /\ m' = Inconsistent j /\ p = Consistent ->
  inv (<[j := Worker (target w) (steps w) (Running p)]> ls)
    (Db (<[mutex_of (target w) := m']> (mutexes x)) (records x) (stdout x)).
Proof.
  intros Hst Hm Ho Hp. apply lookup_lt_Some in Hj as Hjlt. apply lookup_lt_Some in Hm as Hmlt.
  pose proof (inv_mutex _ _ Hinv _ _ Hm) as Hok.
  apply db_inv_frame; simpl; try done; rewrite ?length_insert; try done.
  - intros l0 m0 i Hl0 Ho0 Hne. rewrite list_lookup_insert_ne; [done|]. intros <-. simplify_eq.
  - intros _. exists m'. rewrite list_lookup_insert_eq by done. split; [done|].
    by destruct Hp as [(_ & -> & _)|(_ & -> & _)].
  - intros l0 m0 Hl0. destruct (decide (l0 = mutex_of (target w))) as [->|Hne].
    + right. rewrite list_lookup_insert_eq in Hl0 by done. injection Hl0 as <-.
      destruct Hp as [(-> & -> & ->)|(-> & -> & ->)]; simpl; [|split; [done|]];
        eexists; (rewrite list_lookup_insert_eq by done); naive_solver.
    + left. rewrite list_lookup_insert_ne in Hl0 by done. split; [done|]. by eapply running_lock_owner.
  - destruct Hp as [(-> & -> & ->)|(-> & -> & ->)]; [done|]. apply Hok.
  - left. unfold same_progress, did. rewrite Hst. simpl. by destruct Hp as [(_ & _ & ->)|(_ & _ & ->)].
Qed.

Lemma inv_consistent_step :
  state w = Running Consistent ->
  inv (<[j := Worker (target w) (steps w) (Running Show)]> ls)
    (Db (alter (mutex_consistent j) (target w) (mutexes x)) (records x) (stdout x)).
Proof.
  intros Hst. apply lookup_lt_Some in Hj as Hjlt.
  assert (inside w = true) as Hin by (unfold inside; by rewrite Hst).
  assert (forall m, owner (mutex_consistent j m) = owner m) as Hsame.
  { intros [|i| |i|]; try done. simpl. by case_decide; simplify_eq/=. }
  apply db_inv_frame; simpl; try done; rewrite ?length_alter; try done.
  - intros l m i Hl Ho Hne. destruct (decide (l = target w)) as [->|]; [|by rewrite list_lookup_alter_ne].
    rewrite list_lookup_alter_eq, Hl. simpl. f_equal. destruct m; simplify_eq/=; [done|]. by rewrite decide_False.
  - intros _. destruct (inv_inside _ _ Hinv _ _ Hj Hin) as (m & Hm & Ho).
    destruct (decide (mutex_of (target w) = target w)) as [He|]; [|exists m; by rewrite list_lookup_alter_ne].
    rewrite He in *. eexists. rewrite list_lookup_alter_eq, Hm. split; [done|]. by rewrite Hsame.
  - intros l m Hl.
    assert (exists m0, mutexes x !! l = Some m0 /\ owner m0 = owner m /\
      (m = m0 /\ (l = target w -> m <> Inconsistent j) \/ l = target w /\ m0 = Inconsistent j /\ m = Held j)) as (m0 & Hm0 & Ho & Hc).
    { destruct (decide (l = target w)) as [->|Hne].
      - rewrite list_lookup_alter_eq in Hl. destruct (mutexes x !! target w) as [m0|]; [|done]. injection Hl as <-.
        exists m0. rewrite Hsame. split_and!; try done. destruct m0 as [|i| |i|]; simpl; try naive_solver.
        case_decide; naive_solver.
      - rewrite list_lookup_alter_ne in Hl by done. exists m. naive_solver. }
    destruct (decide (owner m = Some j)) as [Hom|Hom]; [right|left].
    2:{ destruct Hc as [[-> _]|(_ & -> & ->)]; [done|]. by simpl in Hom. }
    rewrite <- Ho in Hom. destruct (owner_place _ _ Hm0 Hom) as [Hp _]. pose proof (inv_mutex _ _ Hinv _ _ Hm0) as Hok.
    rewrite Ho in Hom. destruct m as [|i| |i|]; simpl in Hom; try discriminate Hom; injection Hom as ->.
    + eexists. rewrite list_lookup_insert_eq by done. split; [done|]. split; [done|]. by left.
    + destruct Hc as [[<- Hc]|(_ & _ & ?)]; [|done]. simpl in Hok.
      destruct Hok as [Hd _]. split; [done|]. eexists. rewrite list_lookup_insert_eq by done. split_and!; try done.
      right. unfold record_db_mutex in Hp. destruct (global_lock cfg); [done|]. by destruct (Hc (eq_sym Hp)).
  - left. unfold same_progress, did. by rewrite Hst.
Qed.

Lemma inv_unlock_step :
  state w = Running Unlock ->
  inv (<[j := Worker (target w) (steps w) (Exited EXIT_SUCCESS)]> ls)
    (Db (alter (mutex_unlock j) (mutex_of (target w)) (mutexes x)) (records x) (stdout x)).
Proof.
  intros Hst. apply lookup_lt_Some in Hj as Hjlt.
  assert (inside w = true) as Hin by (unfold inside; by rewrite Hst).
  apply db_inv_frame; simpl; try done; rewrite ?length_alter; try done.
  - intros l m i Hl Ho Hne. destruct (decide (l = mutex_of (target w))) as [->|]; [|by rewrite list_lookup_alter_ne].
    rewrite list_lookup_alter_eq, Hl. simpl. f_equal. destruct m; simplify_eq/=; by rewrite decide_False.
  - intros l m Hl. destruct (decide (l = mutex_of (target w))) as [->|Hne].
    + right. rewrite list_lookup_alter_eq in Hl. destruct (inv_inside _ _ Hinv _ _ Hj Hin) as (m0 & Hm0 & Ho).
      rewrite Hm0 in Hl. injection Hl as <-. pose proof (inv_mutex _ _ Hinv _ _ Hm0) as Hok.
      destruct m0 as [|i| |i|]; simplify_eq/=; rewrite decide_True by done; [done|]. simpl.
      destruct Hok as ([_ Hd] & u & Hu & _ & _ & [H|H]); simplify_eq; [congruence|done].
    + left. rewrite list_lookup_alter_ne in Hl by done. split; [done|]. intros Ho.
      destruct (owner_place _ _ Hl Ho). congruence.
  - by left.
  - left. unfold same_progress, did. by rewrite Hst.
Qed.

Hypothesis ll_exact : forall z, LLONG_MIN <= z <= LLONG_MAX -> ll z = Some z.
Hypothesis few : Z.of_nat (length ls) <= INT_MAX.

(** A step inside, seen from the record it writes: [r'] is what it leaves. *)
Lemma inv_write w' r r' so' :
  target w' = target w -> steps w' = steps w -> inside w = true -> inside w' = true -> state w <> Running Consistent ->
  records x !! target w = Some r -> id r' = id r ->
  worker_ok (<[target w := r']> (records x)) w' ->
  base_value r' - 5 * Z.b2z (did past_base w') = base_value r - 5 * Z.b2z (did past_base w) ->
  processing_count r' - Z.b2z (did past_count w') = processing_count r - Z.b2z (did past_count w) ->
  did past_base w' && negb (did past_result w') = true \/ hash (base_value r') (steps w') = Some (last_result r') ->
  inv (<[j := w']> ls) (Db (mutexes x) (<[target w := r']> (records x)) so').
Proof.
  intros Ht Hs Hin Hin' Hc Hr Hid Hw Hb Hn Hl. apply lookup_lt_Some in Hj as Hjlt. apply lookup_lt_Some in Hr as Hrlt.
  apply inv_local; simpl; try done; [by rewrite length_insert|]. right. split.
  - intros t Hne. by rewrite list_lookup_insert_ne.
  - intros r0 Hr0. rewrite list_lookup_insert_eq in Hr0 by done. injection Hr0 as <-.
    destruct (inv_record _ _ Hinv _ _ Hr) as [H1 H2 H3 H4].
    assert (<[j := w']> ls !! j = Some w') as Hj' by by apply list_lookup_insert_eq.
    constructor; rewrite ?(count_insert _ _ _ _ _ Hj); unfold based, counted, on in *;
      rewrite ?Ht, ?bool_decide_true by done; simpl in *; [congruence|lia|lia|].
    destruct Hl as [Hl|Hl]; [left|right; right]; exists j, w'; rewrite Hj'; (split; [done|]).
    + unfold torn, on. by rewrite Ht, bool_decide_true.
    + done.
Qed.

Lemma record_bounds t r :
  (t < NUM_RECORDS)%nat -> records x !! t = Some r ->
  100 <= base_value r <= 104 + 5 * INT_MAX /\ 0 <= processing_count r <= INT_MAX.
Proof.
  intros Ht Hr. destruct (inv_record _ _ Hinv _ _ Hr) as [_ -> -> _].
  pose proof (count_nonneg (based t) ls). pose proof (count_nonneg (counted t) ls).
  pose proof (count_length (based t) ls). pose proof (count_length (counted t) ls).
  unfold NUM_RECORDS in Ht. lia.
Qed.

End Frame.

Hypothesis ll_exact : forall z, LLONG_MIN <= z <= LLONG_MAX -> ll z = Some z.

(** What [record_db_lock] returns and does. *)
Lemma lock_inv ls x j t s m w' x' :
  inv ls x -> ls !! j = Some (Worker t s (Running Lock)) -> mutexes x !! mutex_of t = Some m ->
  (w', x') ∈ (fun '(res, m') =>
     if (res =? EOWNERDEAD) && robust_worker cfg
     then (Worker t s (Running Consistent), Db (<[mutex_of t := m']> (mutexes x)) (records x) (stdout x))
     else if negb (res =? 0) then
       (Worker t s (Exited EXIT_FAILURE),
        Db (mutex_die (robust_mutex cfg) j <$> <[mutex_of t := m']> (mutexes x)) (records x) (stdout x))
     else (Worker t s (Running Show), Db (<[mutex_of t := m']> (mutexes x)) (records x) (stdout x))) <$>
    mutex_lock (robust_mutex cfg) j m ->
  inv (<[j := w']> ls) x'.
Proof.
  intros HI Hj Hm Hs. apply list_elem_of_fmap in Hs as ([res m'] & He & Hl).
  pose proof (inv_mutex _ _ HI _ _ Hm) as Hok.
  destruct m as [|i| |i|]; simpl in Hl; try by apply not_elem_of_nil in Hl.
  - apply list_elem_of_singleton in Hl as [= -> ->]. injection He as -> ->.
    apply (inv_take _ _ _ _ HI Hj Show Free); auto.
  - destruct Hok as [Hr Hd]. rewrite Hr in Hl. apply list_elem_of_singleton in Hl as [= -> ->].
    simpl in He. destruct (robust_worker cfg) eqn:Erw; injection He as -> ->.
    + apply (inv_take _ _ _ _ HI Hj Consistent OwnerDead); auto.
    + apply (inv_exit _ _ _ _ HI Hj EXIT_FAILURE (mutex_of t) (Inconsistent j)); auto.
  - apply list_elem_of_singleton in Hl as [= -> ->]. injection He as -> ->.
    apply (inv_exit _ _ _ _ HI Hj EXIT_FAILURE (mutex_of t) NotRecoverable); auto; [apply Hok|right; apply Hok].
Qed.

(** Steps inside that leave the record, and that write it. *)
Ltac local HI Hj := eapply (inv_local _ _ _ _ HI Hj); simpl; try done; try (by left); unfold worker_ok; simpl.
Ltac write Hs HI Hj r :=
  apply list_elem_of_singleton in Hs as [= -> ->]; eapply (inv_write _ _ _ _ HI Hj _ r); simpl; try done.

(** A step of the program. *)
Lemma program_inv ls x j w w' x' :
  inv ls x -> ls !! j = Some w -> Z.of_nat (length ls) <= INT_MAX ->
  (w', x') ∈ program ll cfg j w x -> inv (<[j := w']> ls) x'.
Proof.
  intros HI Hj Hfew Hs. pose proof (inv_target _ _ HI _ _ Hj) as Ht. pose proof (inv_worker _ _ HI _ _ Hj) as Hk.
  destruct w as [t s l], x as [ms rs so]. unfold program in Hs.
  destruct l as [p|?|?]; [|by apply not_elem_of_nil in Hs..].
  destruct (ms !! mutex_of t) as [m|] eqn:Em; [|by apply not_elem_of_nil in Hs].
  destruct (rs !! t) as [r|] eqn:Er; [|by apply not_elem_of_nil in Hs].
  destruct (record_bounds _ _ HI Hfew t r) as [Hb Hn]; [done..|].
  unfold worker_ok in Hk. simpl in Ht, Hk. rewrite Er in Hk. simpl in Hk.
  destruct p; simpl in Hk; simplify_eq; try (apply list_elem_of_singleton in Hs as [= -> ->]).
  - by eapply (lock_inv ls (Db ms rs so)).
  - by apply (inv_consistent_step _ _ _ _ HI Hj).
  - local HI Hj.
  - local HI Hj. by rewrite Er.
  - destruct (ll (base_value r + 5)) as [v|] eqn:E; [|by apply not_elem_of_nil in Hs].
    rewrite ll_exact in E by (limits; lia). injection E as <-. write Hs HI Hj r; [lia|by left].
  - local HI Hj. by rewrite Er.
  - destruct (checked_int (processing_count r + 1)) as [v|] eqn:E; [|by apply not_elem_of_nil in Hs].
    apply checked_int_Some in E as [-> _]. write Hs HI Hj r; [lia|by left].
  - destruct (hash (base_value r) s) as [h|] eqn:E; [|by apply not_elem_of_nil in Hs].
    apply list_elem_of_singleton in Hs as [= -> ->]. local HI Hj. by rewrite Er.
  - eapply (inv_write _ _ _ _ HI Hj _ r); try done. by right.
  - local HI Hj.
  - by apply (inv_unlock_step _ _ _ _ HI Hj).
Qed.

Lemma db_inv_start jobs :
  Forall (fun job => (job.1 < NUM_RECORDS)%nat) jobs -> inv (start jobs).1 (start jobs).2.
Proof.
  intros Hjobs.
  assert (forall j w, (start jobs).1 !! j = Some w -> state w = Running Lock /\ (target w < NUM_RECORDS)%nat) as Hw.
  { intros j w Hj. unfold start in Hj. apply list_lookup_fmap_Some in Hj as ([t s] & -> & Hj). split; [done|].
    eapply Forall_lookup_1 in Hjobs; [|done]. done. }
  assert (forall P t, (forall p, did P (Worker t p (Running Lock)) = false) -> count (on t (did P)) (start jobs).1 = 0) as Hc.
  { intros P t HP. pose proof (count_nonneg (on t (did P)) (start jobs).1).
    destruct (decide (1 <= count (on t (did P)) (start jobs).1)) as [Hge|]; [|lia].
    apply count_exists in Hge as (j & w & Hj & Hon). destruct (Hw j w Hj) as [Hs _].
    unfold on, did in *. rewrite Hs in Hon. specialize (HP 0). simpl in HP. rewrite HP in Hon.
    by rewrite andb_false_r in Hon. }
  constructor; try done.
  - intros j w Hj. exact (proj2 (Hw j w Hj)).
  - intros j w Hj Hin. unfold inside in Hin. by rewrite (proj1 (Hw j w Hj)) in Hin.
  - intros l m Hm. apply lookup_replicate in Hm as [-> _]. done.
  - intros j w Hj. unfold worker_ok. by rewrite (proj1 (Hw j w Hj)).
  - intros t r Hr. simpl in Hr. unfold initial_records in Hr.
    apply list_lookup_fmap_Some in Hr as (k & -> & Hk). apply lookup_seq in Hk as [-> Hk]. simpl.
    constructor; simpl; unfold based, counted; rewrite ?Hc by done; try done; lia || (right; left; done).
Qed.

Lemma db_inv_reachable jobs c :
  Forall (fun job => (job.1 < NUM_RECORDS)%nat) jobs -> Z.of_nat (length jobs) <= INT_MAX ->
  reachable (step ll cfg) (start jobs) c -> inv c.1 c.2 /\ length c.1 = length jobs.
Proof.
  intros Hjobs Hfew. apply (reachable_invariant _ (fun c => inv c.1 c.2 /\ length c.1 = length jobs)).
  - split; [by apply db_inv_start|]. simpl. by rewrite length_fmap.
  - intros c1 c2 [HI Hlen] Hm. destruct Hm as [j w w' ls x x' Hj Hs]. simpl in *.
    split; [|by rewrite length_insert]. unfold step in Hs. apply elem_of_app in Hs as [Hs|Hs].
    + eapply program_inv; eauto. by rewrite Hlen.
    + unfold kill in Hs. destruct (state w) as [p|?|?] eqn:Es; [|by apply not_elem_of_nil in Hs..].
      destruct (deaths cfg) eqn:Ed; [|by apply not_elem_of_nil in Hs].
      apply list_elem_of_singleton in Hs as [= -> ->]. by eapply inv_kill.
Qed.

(** *** Progress *)
Hypothesis ll_total : forall z, ll z <> None.

Lemma hash_defined v s : hash v s <> None.
Proof.
  assert (forall b h, hash_bytes ll h b <> None) as Hb.
  { induction b as [|c b IH]; intros h; [done|]. cbn [hash_bytes].
    destruct (ll (Z.shiftl h 5)) as [a|] eqn:E1; [|by apply ll_total in E1]. simpl.
    destruct (ll (a + h)) as [b1|] eqn:E2; [|by apply ll_total in E2]. simpl.
    destruct (ll (b1 + c)) as [d|] eqn:E3; [|by apply ll_total in E3]. apply IH. }
  unfold recursive_chain_hash. generalize (Z.to_nat s). intros n. revert v.
  induction n as [|n IH]; intros v; [done|]. cbn [chain_hash].
  destruct (hash_bytes ll 5381 (data_chunk v (Z.of_nat (S n)))) as [h|] eqn:E; [apply IH|by apply Hb in E].
Qed.

(** A running worker whose program cannot go on waits for a mutex that names
    its holder. *)
Lemma stuck_worker ls x j w p :
  inv ls x -> ls !! j = Some w -> Z.of_nat (length ls) <= INT_MAX -> state w = Running p ->
  program ll cfg j w x = [] ->
  p = Lock /\ exists m i, mutexes x !! mutex_of (target w) = Some m /\ owner m = Some i.
Proof.
  intros HI Hj Hfew Hst Hs. pose proof (inv_target _ _ HI _ _ Hj) as Ht.
  pose proof (inv_worker _ _ HI _ _ Hj) as Hk. pose proof (inv_record _ _ HI) as Hrec. pose proof (inv_mutex _ _ HI) as Hmx.
  destruct w as [t s l], x as [ms rs so]. simpl in *. subst l. unfold program in Hs.
  destruct (lookup_lt_is_Some_2 ms (mutex_of t)) as [m Hm].
  { pose proof (inv_mutexes _ _ HI) as Hl. simpl in Hl. unfold record_db_mutex, NUM_RECORDS in *. destruct (global_lock cfg); lia. }
  destruct (lookup_lt_is_Some_2 rs t) as [r Hr]; [pose proof (inv_records _ _ HI) as Hl; simpl in Hl; lia|].
  rewrite Hm, Hr in Hs. unfold worker_ok in Hk. simpl in Hk. rewrite Hr in Hk. simpl in Hk.
  destruct p; try done.
  - split; [done|]. apply fmap_nil_inv in Hs. pose proof (Hmx _ _ Hm) as Hok. exists m.
    destruct m as [|i| |i|]; simpl in *; try done; eauto. by rewrite (proj1 Hok) in Hs.
  - by destruct (ll (tmp + 5)) eqn:E; [|apply ll_total in E].
  - exfalso. injection Hk as <-. pose proof (count_missing (counted t) ls j _ Hj) as Hlt.
    destruct (record_bounds _ _ HI Hfew t r Ht Hr) as [_ Hb]. pose proof (rec_count _ _ _ (Hrec _ _ Hr)) as Hcnt.
    specialize (Hlt (andb_false_r _)).
    unfold checked_int in Hs. destruct (Z.leb_spec INT_MIN (processing_count r + 1)); [|limits; lia].
    destruct (Z.leb_spec (processing_count r + 1) INT_MAX); [done|]. lia.
  - by destruct (hash (base_value r) s) eqn:E; [|apply hash_defined in E].
Qed.

Lemma worker_progress ls x :
  inv ls x -> Z.of_nat (length ls) <= INT_MAX -> deaths cfg = false \/ robust_mutex cfg = true ->
  (forall j w p, ls !! j = Some w -> state w <> Running p) \/
  exists j w, ls !! j = Some w /\ program ll cfg j w x <> [].
Proof.
  intros HI Hfew Hcfg.
  destruct (decide (Exists (fun w => inside w = true) ls)) as [He|He].
  - right. apply Exists_exists in He as (w & (j & Hj)%list_elem_of_lookup & Hin). exists j, w. split; [done|].
    intros Hs. unfold inside in Hin. destruct (state w) as [p|?|?] eqn:Es; try done.
    by destruct (stuck_worker _ _ _ _ _ HI Hj Hfew Es Hs) as [-> _].
  - destruct (decide (Exists (fun w => state w = Running Lock) ls)) as [Hr|Hr].
    + right. apply Exists_exists in Hr as (w & (j & Hj)%list_elem_of_lookup & Hst). exists j, w. split; [done|].
      intros Hs. destruct (stuck_worker _ _ _ _ _ HI Hj Hfew Hst Hs) as (_ & m & i & Hm & Ho).
      apply He, Exists_exists. pose proof (inv_mutex _ _ HI _ _ Hm) as Hok.
      destruct m as [|i'| |i'|]; simplify_eq/=.
      * destruct Hok as (u & Hu & _ & [Hin|(Hrm & Hd & _)]); [|destruct Hcfg; congruence].
        exists u. split; [by eapply list_elem_of_lookup_2|done].
      * destruct Hok as (_ & u & Hu & _ & Hin & _). exists u. split; [by eapply list_elem_of_lookup_2|done].
    + left. intros j w p Hj Hst. apply list_elem_of_lookup_2 in Hj.
      destruct (decide (p = Lock)) as [->|Hne]; [apply Hr|apply He]; apply Exists_exists; exists w; (split; [done|]); [done|].
      unfold inside. rewrite Hst. by destruct p.
Qed.

End Invariant.

(** The arithmetic of the machine. *)
Definition wrap_ll (z : Z) : option Z := Some (wrap_s 64 z).

(** C28. Workers on the records, any number, with any targets, in every
    interleaving and with processes killed at any point, for any arithmetic
    that is exact in range.  Two workers are never inside under one lock.  Each
    base value is five times the count above its start, plus five for every
    worker stopped or killed between the two updates, and the count is the
    number of workers that made theirs; unless one was stopped or killed
    before its result, the result is the hash of the base value.  When nobody
    can be killed, or the mutexes are robust, no worker is left waiting; and
    when nobody can be killed, or the workers recover each record's own mutex,
    every worker that ends has succeeded. *)
Theorem record_db_workers ll cfg jobs ls x :
  (forall z, LLONG_MIN <= z <= LLONG_MAX -> ll z = Some z) ->
  Forall (fun job => (job.1 < NUM_RECORDS)%nat) jobs -> Z.of_nat (length jobs) <= INT_MAX ->
  reachable (step ll cfg) (start jobs) (ls, x) ->
  (forall i j u w, ls !! i = Some u -> ls !! j = Some w -> inside u = true -> inside w = true ->
     record_db_mutex cfg (target u) = record_db_mutex cfg (target w) -> i = j) /\
  (forall t r, records x !! t = Some r ->
     base_value r = 100 + Z.of_nat t + 5 * (processing_count r + count (between t) ls) /\
     processing_count r = count (counted t) ls /\
     ((exists j w, ls !! j = Some w /\ torn t w = true) \/ base_value r = 100 + Z.of_nat t /\ last_result r = 0 \/
      exists j w, ls !! j = Some w /\ target w = t /\
        recursive_chain_hash ll (base_value r) (steps w) = Some (last_result r))) /\
  ((forall z, ll z <> None) -> deaths cfg = false \/ robust_mutex cfg = true ->
   (forall j w p, ls !! j = Some w -> state w <> Running p) \/
   exists j w, ls !! j = Some w /\ program ll cfg j w x <> []) /\
  (deaths cfg = false \/ robust_worker cfg = true /\ global_lock cfg = false ->
   forall j w s, ls !! j = Some w -> state w = Exited s -> s = EXIT_SUCCESS).
Proof.
  intros Hll Hjobs Hfew Hc. destruct (db_inv_reachable ll cfg Hll jobs _ Hjobs Hfew Hc) as [HI Hlen]. simpl in *.
  split_and!.
  - intros i j u w Hi Hj Hu Hw He. by eapply (inside_unique ll cfg ls x j w HI Hj i u).
  - intros t r Hr. destruct (inv_record _ _ _ _ HI _ _ Hr) as [_ H2 H3 H4].
    rewrite between_count in H2. split; [lia|]. split; [done|].
    destruct H4 as [?|[[H0 ?]|?]]; auto. right; left. rewrite between_count in H0. lia.
  - intros Htot Hcfg. apply (worker_progress ll cfg Htot); [done|by rewrite Hlen|done].
  - intros Hcfg j w s Hj Hs. pose proof (inv_worker _ _ _ _ HI _ _ Hj) as Hok. unfold worker_ok in Hok. rewrite Hs in Hok.
    destruct Hok as [|(_ & Hd & Hbad)]; [done|]. destruct Hcfg as [|[? ?]], Hbad; congruence.
Qed.

(** The robust build: worker 0 is killed between the two updates of record 2,
    worker 1 recovers the mutex and finishes.  The base value stays five ahead
    of the count. *)
Definition robust : config := Config false true true true.
Definition torn_run : list (nat * nat) :=
  [(0, 0); (0, 0); (0, 0); (0, 0); (0, 1)]%nat ++ replicate 11 (1, 0)%nat.

Lemma record_db_workers_witness :
  exists ls x, reachable (step wrap_ll robust) (start [(2%nat, 3); (2%nat, 0)]) (ls, x) /\
    records x !! 2%nat = Some (Rec 2 112 112 1) /\
    (forall i j u w, ls !! i = Some u -> ls !! j = Some w -> inside u = true -> inside w = true ->
       record_db_mutex robust (target u) = record_db_mutex robust (target w) -> i = j) /\
    (forall t r, records x !! t = Some r ->
       base_value r = 100 + Z.of_nat t + 5 * (processing_count r + count (between t) ls) /\
       processing_count r = count (counted t) ls /\
       ((exists j w, ls !! j = Some w /\ torn t w = true) \/ base_value r = 100 + Z.of_nat t /\ last_result r = 0 \/
        exists j w, ls !! j = Some w /\ target w = t /\
          recursive_chain_hash wrap_ll (base_value r) (steps w) = Some (last_result r))) /\
    ((forall z, wrap_ll z <> None) -> deaths robust = false \/ robust_mutex robust = true ->
     (forall j w p, ls !! j = Some w -> state w <> Running p) \/
     exists j w, ls !! j = Some w /\ program wrap_ll robust j w x <> []) /\
    (deaths robust = false \/ robust_worker robust = true /\ global_lock robust = false ->
     forall j w s, ls !! j = Some w -> state w = Exited s -> s = EXIT_SUCCESS).
Proof.
  destruct (schedule (step wrap_ll robust) torn_run (start [(2%nat, 3); (2%nat, 0)])) as [[ls x]|] eqn:E;
    [|by vm_compute in E].
  apply schedule_reachable in E as Hr. exists ls, x. split; [done|]. split.
  - vm_compute in E. by injection E as _ <-.
  - apply (record_db_workers wrap_ll robust [(2%nat, 3); (2%nat, 0)]).
    + intros z Hz. unfold wrap_ll. rewrite wrap_s_small; [done|lia|]. limits. simpl. lia.
    + repeat constructor.
    + unfold INT_MAX. simpl. lia.
    + done.
Defined.

(** Without robust mutexes, a worker killed inside leaves the others waiting
    for ever: worker 1 has no step. *)
Example killed_holder_blocks :
  let cfg := Config false false false true in
  (fun c => (mutexes c.2 !! 2%nat, program wrap_ll cfg 1 (Worker 2 0 (Running Lock)) c.2)) <$>
    schedule (step wrap_ll cfg) [(0, 0); (0, 1)]%nat (start [(2%nat, 0); (2%nat, 0)])
  = Some (Some (Held 0), []).
Proof. vm_compute. reflexivity. Qed.

(** With robust mutexes and the global lock, the worker that recovers marks
    the wrong mutex consistent, and no later worker can lock. *)
Example wrong_mutex_recovered :
  let cfg := Config true true true true in
  (fun c => (mutexes c.2 !! NUM_RECORDS, map state c.1)) <$>
    schedule (step wrap_ll cfg) ([(0, 0); (0, 1)]%nat ++ replicate 11 (1, 0)%nat ++ [(2, 0)%nat])
      (start [(2%nat, 0); (2%nat, 0); (3%nat, 0)])
  = Some (Some NotRecoverable, [Killed Show; Exited EXIT_SUCCESS; Exited EXIT_FAILURE]).
Proof. vm_compute. reflexivity. Qed.
