(* ===== verification/Sensors.v ===== *)
(** * sync2/code/aggregator.c and sensor.c

    Sensor processes write readings to files, an aggregator waits for all of
    them over one named semaphore, reads the files and lets them go on over
    another.  A step is one call, or the reading of one number; what a sensor
    prints into its file arrives when the file is closed, since it fits the
    buffer of the stream.  Temperatures are a parameter: their type, their
    order and what a sensor measures. *)

From S2P Require Import Prelude CLib Os Threads.

Local Open Scope Z_scope.

Definition CYCLES : Z := 5.
Definition READINGS_PER_CYCLE : Z := 10.

Section Float.
Context {F : Type} (lt : F -> F -> bool) (min_start max_start : F).
(** The reading [r] of sensor [id] in cycle [i]. *)
Context (temp : nat -> Z -> Z -> F).

(** [readings_count], [global_min] and [global_max]. *)
Record summary := Summary { readings_count : Z; global_min : F; global_max : F }.
Definition nothing_read : summary := Summary 0 min_start max_start.
Definition scan (a : summary) (t : F) : summary :=
  Summary (readings_count a + 1)
    (if lt t (global_min a) then t else global_min a)
    (if lt (global_max a) t then t else global_max a).

Inductive line := Processed (cycle : Z) (a : summary) | Wrote (id : nat) (cycle : Z).

(** The semaphores, the files by the number in their name, and the output. *)
Record world := World {
  data_ready : Z; can_overwrite : Z;
  files : gmap nat (list F);
  stdout : list line }.

Inductive aggregator_pc :=
| AWait (s : Z) | AOpen (s : nat) (a : summary) | AScan (s k : nat) (a : summary) | APost (s : Z).
Inductive sensor_pc := SOpen | SClose | SPrint | SPost | SWait.
Inductive process :=
| Aggregator (i : Z) (pc : aggregator_pc)
| Sensor (id : nat) (i : Z) (pc : sensor_pc).

(** The loop of aggregator.c. *)
Definition aggregator (num_sensors : Z) (i : Z) (pc : aggregator_pc) (x : world) : list (process * world) :=
  let '(World ready can fs so) := x in
  match pc with
  | AWait s =>
      if i <=? CYCLES then
        if s <? num_sensors then
          if 0 <? ready then [(Aggregator i (AWait (s + 1)), World (ready - 1) can fs so)] else []
        else [(Aggregator i (AOpen 0 nothing_read), x)]
      else []
  | AOpen s a =>        (* s <= num_sensors *)
      if Z.of_nat s <=? num_sensors then
        match fs !! s with
        | Some _ => [(Aggregator i (AScan s 0 a), x)]
        | None => [(Aggregator i (AOpen (S s) a), x)]
        end
      else [(Aggregator i (APost 0), World ready can fs (so ++ [Processed i a]))]
  | AScan s k a =>
      match (default [] (fs !! s)) !! k with
      | Some t => [(Aggregator i (AScan s (S k) (scan a t)), x)]
      | None => [(Aggregator i (AOpen (S s) a), x)]
      end
  | APost s =>
      if s <? num_sensors then [(Aggregator i (APost (s + 1)), World ready (can + 1) fs so)]
      else [(Aggregator (i + 1) (AWait 0), x)]
  end.

Definition readings (id : nat) (i : Z) : list F := temp id i <$> seqZ 0 READINGS_PER_CYCLE.

(** The loop of sensor.c; with [io_fails] the file may not open. *)
Definition sensor (io_fails : bool) (id : nat) (i : Z) (pc : sensor_pc) (x : world) : list (process * world) :=
  let '(World ready can fs so) := x in
  match pc with
  | SOpen =>
      if i <=? CYCLES then
        (Sensor id i SClose, World ready can (<[id := []]> fs) so) ::
        (if io_fails then [(Sensor id i SPrint, x)] else [])
      else []
  | SClose => [(Sensor id i SPrint, World ready can (<[id := readings id i]> fs) so)]
  | SPrint => [(Sensor id i SPost, World ready can fs (so ++ [Wrote id i]))]
  | SPost => [(Sensor id i SWait, World (ready + 1) can fs so)]
  | SWait => if 0 <? can then [(Sensor id (i + 1) SOpen, World ready (can - 1) fs so)] else []
  end.

Definition step (io_fails : bool) (num_sensors : Z) (_ : nat) (t : process) (x : world) : list (process * world) :=
  match t with
  | Aggregator i pc => aggregator num_sensors i pc x
  | Sensor id i pc => sensor io_fails id i pc x
  end.

(** The aggregator has created the semaphores; the sensors [ids] have opened
    them. *)
Definition start (ids : list nat) : list process * world :=
  (Aggregator 1 (AWait 0) :: ((fun id => Sensor id 1 SOpen) <$> ids), World 0 0 ∅ []).

(** Both programs around their loops; [SEM_FAILED] is 0. *)
Definition aggregator_main (body : Z -> prog unit) (args : list (list Z)) : prog Z :=
  match args with
  | [n] =>
      let num_sensors := atoi n in
      ignored "sem_unlink" [] ;;; ignored "sem_unlink" [] ;;;
      let! data_ready := sys (Libc "sem_open" (str "/data_ready")) in
      let! can_overwrite := sys (Libc "sem_open" (str "/can_overwrite")) in
      if (rv data_ready =? 0) || (rv can_overwrite =? 0) then perror "sem_open failed" ;;; Exit EXIT_FAILURE else
      printf "[Aggregator] Started. Expecting %d sensors." [PZ num_sensors] ;;;
      body num_sensors ;;;
      ignored "sem_close" [] ;;; ignored "sem_close" [] ;;; ignored "sem_unlink" [] ;;; ignored "sem_unlink" [] ;;;
      printf "[Aggregator] Finished and cleaned up." [] ;;;
      Ret 0
  | _ => printf "Usage: %s <num_sensors>" [] ;;; Exit EXIT_FAILURE
  end.

Definition sensor_main (body : Z -> prog unit) (args : list (list Z)) : prog Z :=
  match args with
  | [n] =>
      let sensor_id := atoi n in
      ignored "srand" [] ;;;
      let! data_ready := sys (Libc "sem_open" (str "/data_ready")) in
      let! can_overwrite := sys (Libc "sem_open" (str "/can_overwrite")) in
      if (rv data_ready =? 0) || (rv can_overwrite =? 0) then
        perror "sem_open failed (is aggregator running?)" ;;; Exit EXIT_FAILURE else
      printf "[Sensor %d] Started. Writing to '%s'" [PZ sensor_id; PS (str "sensor_" ++ dec sensor_id ++ str ".dat")] ;;;
      body sensor_id ;;;
      ignored "sem_close" [] ;;; ignored "sem_close" [] ;;;
      printf "[Sensor %d] Finished." [PZ sensor_id] ;;;
      Ret 0
  | _ => printf "Usage: %s <sensor_id>" [] ;;; Exit EXIT_FAILURE
  end.

(** *** The semaphores count *)

Definition waiting (t : process) : Z := match t with Sensor _ _ SWait => 1 | _ => 0 end.
(** Posts of [data_ready] less its waits, and of [can_overwrite]. *)
Definition ready_of (n : Z) (t : process) : Z :=
  match t with
  | Sensor _ i _ => i - 1 + waiting t
  | Aggregator i pc => - ((i - 1) * n + match pc with AWait s => s | _ => n end)
  end.
Definition can_of (n : Z) (t : process) : Z :=
  match t with
  | Sensor _ i _ => - (i - 1)
  | Aggregator i pc => (i - 1) * n + match pc with APost s => s | _ => 0 end
  end.

Definition reading (pc : aggregator_pc) : bool := match pc with AOpen _ _ | AScan _ _ _ => true | _ => false end.

(** The numbers of the files before the [s]-th, and what is read when [k] of
    the [s]-th are. *)
Definition contents (fs : gmap nat (list F)) (q : nat) : list F := default [] (fs !! q).
Definition before (fs : gmap nat (list F)) (s : nat) : list F := seq 0 s ≫= contents fs.
Definition read_so_far (fs : gmap nat (list F)) (pc : aggregator_pc) : Prop :=
  match pc with
  | AOpen s a => a = foldl scan nothing_read (before fs s)
  | AScan s k a => a = foldl scan nothing_read (before fs s ++ take k (contents fs s)) /\ (k <= length (contents fs s))%nat
  | _ => True
  end.

Section Run.
Context (io_fails : bool) (ids : list nat).
Notation n := (Z.of_nat (length ids)).

Definition aggregator_ok (i : Z) (pc : aggregator_pc) : Prop :=
  1 <= i /\ match pc with
    | AWait s => 0 <= s <= n /\ i <= CYCLES + 1 /\ (0 < s -> i <= CYCLES)
    | APost s => 0 <= s <= n /\ i <= CYCLES
    | AOpen s _ => (s <= S (length ids))%nat /\ i <= CYCLES
    | AScan s _ _ => (s <= length ids)%nat /\ i <= CYCLES
    end.
Definition sensor_ok (j : nat) (t : process) : Prop :=
  exists id i pc, t = Sensor id i pc /\ ids !! j = Some id /\ 1 <= i <= CYCLES + 1 /\ (pc <> SOpen -> i <= CYCLES).

(** What a file holds, when every file opens. *)
Definition file_ok (fs : gmap nat (list F)) (t : process) : Prop :=
  match t with
  | Sensor id i SOpen => fs !! id = if i =? 1 then None else Some (readings id (i - 1))
  | Sensor id i SClose => fs !! id = Some []
  | Sensor id i _ => fs !! id = Some (readings id i)
  | Aggregator _ _ => True
  end.

(** A summary of one whole cycle of every sensor, each of some cycle. *)
Definition summary_ok (a : summary) : Prop :=
  exists g : nat -> list F,
    (forall q, q ∈ ids -> exists c, g q = readings q c) /\ (forall q, q ∉ ids -> g q = []) /\
    a = foldl scan nothing_read (seq 0 (S (length ids)) ≫= g).

Record inv (i : Z) (pc : aggregator_pc) (ss : list process) (x : world) : Prop := {
  inv_ready : data_ready x = total (ready_of n) (Aggregator i pc :: ss) /\ 0 <= data_ready x;
  inv_can : can_overwrite x = total (can_of n) (Aggregator i pc :: ss) /\ 0 <= can_overwrite x;
  inv_number : length ss = length ids;
  inv_aggregator : aggregator_ok i pc;
  inv_sensor j t : ss !! j = Some t -> sensor_ok j t;
  inv_read : read_so_far (files x) pc;
  inv_files : io_fails = false ->
    (forall j t, ss !! j = Some t -> file_ok (files x) t) /\ (forall q, q ∉ ids -> files x !! q = None);
  inv_output : io_fails = false -> forall c a, Processed c a ∈ stdout x -> summary_ok a;
}.

Lemma waiting_bool t : 0 <= waiting t <= 1.
Proof. destruct t as [|? ? []]; simpl; lia. Qed.

Lemma total_split ss :
  (forall j t, ss !! j = Some t -> sensor_ok j t) ->
  total (ready_of n) ss = - total (can_of n) ss + total waiting ss.
Proof.
  intros Hss. assert (Forall (fun t => exists id i pc, t = Sensor id i pc) ss) as Hall.
  { apply Forall_lookup. intros j t Hj. destruct (Hss j t Hj) as (id & i & pc & -> & _). eauto. }
  clear Hss. induction Hall as [|t ss (id & i & pc & ->) _ IH]; [done|]. cbn [total]. rewrite IH. simpl. lia.
Qed.

Lemma total_all (f : process -> Z) ss :
  (forall t, 0 <= f t <= 1) -> Z.of_nat (length ss) <= total f ss -> forall j t, ss !! j = Some t -> f t = 1.
Proof.
  intros Hf Ht j t Hj. pose proof (Hf t).
  assert (total (fun t => 1 - f t) ss = Z.of_nat (length ss) - total f ss) as He.
  { clear. induction ss as [|t ss IH]; cbn [total length]; [done|]. rewrite IH. lia. }
  pose proof (total_ge (fun t => 1 - f t) ss j t) as Hg. simpl in Hg.
  assert (forall x, 0 <= 1 - f x) as H0 by (intros u; specialize (Hf u); lia). specialize (Hg H0 Hj). lia.
Qed.

(** While the aggregator reads, every sensor waits. *)
Lemma all_waiting i pc ss x j t :
  inv i pc ss x -> reading pc = true -> ss !! j = Some t -> waiting t = 1.
Proof.
  intros HI Hp Hj. destruct (inv_ready _ _ _ _ HI) as [Hr Hr0]. destruct (inv_can _ _ _ _ HI) as [Hc Hc0].
  cbn [total] in Hr, Hc. rewrite (total_split ss) in Hr by apply HI.
  revert j t Hj. apply (total_all waiting ss waiting_bool). rewrite (inv_number _ _ _ _ HI).
  destruct pc; simpl in *; done || lia.
Qed.

Lemma before_S fs s : before fs (S s) = before fs s ++ contents fs s.
Proof. unfold before. rewrite seq_S, bind_app. simpl. by rewrite app_nil_r. Qed.

Lemma foldl_snoc {A B} (f : A -> B -> A) a l x : foldl f a (l ++ [x]) = f (foldl f a l) x.
Proof. by rewrite foldl_app. Qed.

(** What is read when the last file has been. *)
Lemma summary_whole i s a ss x :
  inv i (AOpen s a) ss x -> n < Z.of_nat s -> io_fails = false -> summary_ok a.
Proof.
  intros HI Hs Hio. destruct (inv_files _ _ _ _ HI Hio) as [Hf Hnone].
  pose proof (inv_aggregator _ _ _ _ HI) as (_ & Hs' & _). pose proof (inv_read _ _ _ _ HI) as Hr. simpl in Hr.
  assert (s = S (length ids)) as -> by lia. exists (contents (files x)). split_and!; [| |exact Hr].
  - intros q (j & Hj)%list_elem_of_lookup.
    destruct (lookup_lt_is_Some_2 ss j) as [t Ht].
    { rewrite (inv_number _ _ _ _ HI). by eapply lookup_lt_Some. }
    pose proof (all_waiting _ _ _ _ _ _ HI eq_refl Ht) as Hw.
    destruct (inv_sensor _ _ _ _ HI _ _ Ht) as (id & i' & pc & -> & Hid & _). simplify_eq.
    specialize (Hf _ _ Ht). destruct pc; simplify_eq/=. exists i'. unfold contents. by rewrite Hf.
  - intros q Hq. unfold contents. by rewrite Hnone.
Qed.

(** A step of the aggregator that leaves semaphores and files. *)
Lemma inv_aggregator_frame i pc ss x i' pc' x' :
  inv i pc ss x -> aggregator_ok i' pc' ->
  data_ready x' - data_ready x = ready_of n (Aggregator i' pc') - ready_of n (Aggregator i pc) -> 0 <= data_ready x' ->
  can_overwrite x' - can_overwrite x = can_of n (Aggregator i' pc') - can_of n (Aggregator i pc) -> 0 <= can_overwrite x' ->
  files x' = files x -> read_so_far (files x) pc' ->
  (io_fails = false -> forall c a, Processed c a ∈ stdout x' -> Processed c a ∈ stdout x \/ summary_ok a) ->
  inv i' pc' ss x'.
Proof.
  intros HI Ha Hr Hr0 Hc Hc0 Hf Hread Ho. destruct (inv_ready _ _ _ _ HI), (inv_can _ _ _ _ HI). cbn [total] in *.
  constructor; rewrite ?Hf; try apply HI; try done; cbn [total]; [lia|lia|].
  intros Hio c a Hin. destruct (Ho Hio c a Hin); [|done]. by eapply (inv_output _ _ _ _ HI Hio).
Qed.

Lemma aggregator_inv i pc ss x t' x' :
  inv i pc ss x -> (t', x') ∈ aggregator n i pc x ->
  exists i' pc', t' = Aggregator i' pc' /\ inv i' pc' ss x'.
Proof.
  intros HI Hs. pose proof (inv_aggregator _ _ _ _ HI) as [Hi Ha]. pose proof (inv_read _ _ _ _ HI) as Hr.
  pose proof (inv_ready _ _ _ _ HI) as [_ Hr0]. pose proof (inv_can _ _ _ _ HI) as [_ Hc0].
  destruct x as [ready can fs so]. unfold aggregator in Hs. simpl in Hr, Hr0, Hc0.
  destruct pc as [s|s a|s k a|s].
  - destruct (Z.leb_spec i CYCLES); [|by apply not_elem_of_nil in Hs].
    destruct (Z.ltb_spec s n).
    + destruct (Z.ltb_spec 0 ready); [|by apply not_elem_of_nil in Hs].
      apply list_elem_of_singleton in Hs as [= -> ->]. eexists _, _. split; [done|].
      eapply inv_aggregator_frame; try done; simpl; try lia; [split; [lia|split_and!; lia]|auto].
    + apply list_elem_of_singleton in Hs as [= -> ->]. eexists _, _. split; [done|].
      eapply inv_aggregator_frame; try done; simpl; try lia; [split; [lia|split; lia]|auto].
  - destruct (Z.leb_spec (Z.of_nat s) n).
    + destruct (fs !! s) as [l|] eqn:E; apply list_elem_of_singleton in Hs as [= -> ->]; eexists _, _; (split; [done|]).
      * eapply inv_aggregator_frame; try done; simpl; try lia; [split; [lia|split; lia]| |auto].
        rewrite take_0, app_nil_r. split; [done|lia].
      * eapply inv_aggregator_frame; try done; simpl; try lia; [split; [lia|split; lia]| |auto].
        rewrite before_S. unfold contents at 1. rewrite E. simpl. by rewrite app_nil_r.
    + apply list_elem_of_singleton in Hs as [= -> ->]. eexists _, _. split; [done|].
      eapply inv_aggregator_frame; try done; simpl; try lia; [split; [lia|split; lia]|].
      intros Hio c b [Hin|Hin%list_elem_of_singleton]%elem_of_app; [by left|right]. injection Hin as -> ->.
      by eapply summary_whole.
  - destruct Hr as [Hr Hk]. change (default [] (fs !! s)) with (contents fs s) in Hs.
    destruct (contents fs s !! k) as [t|] eqn:E; apply list_elem_of_singleton in Hs as [= -> ->]; eexists _, _; (split; [done|]).
    + eapply inv_aggregator_frame; try done; simpl; try lia; [|auto].
      apply lookup_lt_Some in E as Hlt. rewrite (take_S_r _ _ _ E), app_assoc, foldl_snoc, <- Hr. split; [done|lia].
    + eapply inv_aggregator_frame; try done; simpl; try lia; [split; [lia|split; lia]| |auto].
      apply lookup_ge_None in E. rewrite before_S. rewrite take_ge in Hr by done. done.
  - destruct (Z.ltb_spec s n); apply list_elem_of_singleton in Hs as [= -> ->]; eexists _, _; (split; [done|]).
    + eapply inv_aggregator_frame; try done; simpl; try lia; [split; [lia|split; lia]|auto].
    + eapply inv_aggregator_frame; try done; simpl; try lia; [split; [lia|split_and!; lia]|auto].
Qed.

(** A step of a sensor: it writes its own file only, and never while the
    aggregator reads. *)
Lemma inv_sensor_frame i pc ss x j id c q c' q' x' :
  NoDup ids -> inv i pc ss x -> ss !! j = Some (Sensor id c q) -> ids !! j = Some id ->
  1 <= c' <= CYCLES + 1 /\ (q' <> SOpen -> c' <= CYCLES) ->
  data_ready x' - data_ready x = ready_of n (Sensor id c' q') - ready_of n (Sensor id c q) -> 0 <= data_ready x' ->
  can_overwrite x' - can_overwrite x = can_of n (Sensor id c' q') - can_of n (Sensor id c q) -> 0 <= can_overwrite x' ->
  files x' = files x \/ q <> SWait /\ (exists l, files x' = <[id := l]> (files x)) ->
  (io_fails = false -> file_ok (files x) (Sensor id c q) -> file_ok (files x') (Sensor id c' q')) ->
  (forall k a, Processed k a ∈ stdout x' -> Processed k a ∈ stdout x) ->
  inv i pc (<[j := Sensor id c' q']> ss) x'.
Proof.
  intros Hnd HI Hj Hid Hok Hr Hr0 Hc Hc0 Hf Hfo Ho. destruct (inv_ready _ _ _ _ HI), (inv_can _ _ _ _ HI).
  constructor; cbn [total] in *; rewrite ?(sum_over_insert _ _ _ _ _ Hj), ?length_insert; try apply HI; [lia|lia|..].
  - intros k u Hu. insert_cases Hu; [|by eapply inv_sensor]. exists id, c', q'. auto.
  - destruct Hf as [->|[Hq _]]; [apply HI|]. destruct (reading pc) eqn:Er; [|by destruct pc].
    pose proof (all_waiting _ _ _ _ _ _ HI Er Hj) as Hw. by destruct q.
  - intros Hio. destruct (inv_files _ _ _ _ HI Hio) as [Hfs Hnone].
    assert (forall k, k <> id -> files x' !! k = files x !! k) as Hother.
    { intros k Hne. destruct Hf as [->|[_ [l ->]]]; [done|]. by rewrite lookup_insert_ne. }
    split.
    + intros k u Hu. insert_cases Hu; [by eapply Hfo, Hfs|]. specialize (Hfs _ _ Hu).
      destruct (inv_sensor _ _ _ _ HI _ _ Hu) as (id' & d & p & -> & Hid' & _).
      assert (id' <> id) as Hne by (intros ->; by pose proof (NoDup_lookup _ _ _ _ Hnd Hid Hid')).
      simpl in *. by rewrite Hother.
    + intros k Hnin. rewrite Hother; [by apply Hnone|]. intros ->. apply Hnin. by eapply list_elem_of_lookup_2.
  - intros Hio k a Hin. by eapply (inv_output _ _ _ _ HI Hio), Ho.
Qed.

Lemma sensor_inv i pc ss x j t t' x' :
  NoDup ids -> inv i pc ss x -> ss !! j = Some t -> (t', x') ∈ step io_fails n (S j) t x ->
  inv i pc (<[j := t']> ss) x'.
Proof.
  intros Hnd HI Hj Hs. destruct (inv_sensor _ _ _ _ HI _ _ Hj) as (id & c & q & -> & Hid & Hc & Hq).
  pose proof (inv_ready _ _ _ _ HI) as [_ Hr0]. pose proof (inv_can _ _ _ _ HI) as [_ Hn0].
  destruct x as [ready can fs so]. simpl in Hs, Hr0, Hn0. unfold sensor in Hs.
  destruct q; try specialize (Hq ltac:(done)).
  - destruct (Z.leb_spec c CYCLES); [|by apply not_elem_of_nil in Hs].
    apply elem_of_cons in Hs as [[= -> ->]|Hs].
    + eapply inv_sensor_frame; try done; simpl; try lia; [right; eauto|]. intros _ _. by rewrite lookup_insert_eq.
    + assert (io_fails = true /\ (t', x') = (Sensor id c SPrint, World ready can fs so)) as [Hio [= -> ->]].
      { destruct io_fails; [by apply list_elem_of_singleton in Hs|by apply not_elem_of_nil in Hs]. }
      eapply inv_sensor_frame; try done; simpl; try lia; [by left|congruence].
  - apply list_elem_of_singleton in Hs as [= -> ->].
    eapply inv_sensor_frame; try done; simpl; try lia; [right; eauto|]. intros _ _. by rewrite lookup_insert_eq.
  - apply list_elem_of_singleton in Hs as [= -> ->].
    eapply inv_sensor_frame; try done; simpl; try lia; [by left|].
    intros k a [?|Hin%list_elem_of_singleton]%elem_of_app; done.
  - apply list_elem_of_singleton in Hs as [= -> ->]. eapply inv_sensor_frame; try done; simpl; try lia; by left.
  - destruct (Z.ltb_spec 0 can); [|by apply not_elem_of_nil in Hs]. apply list_elem_of_singleton in Hs as [= -> ->].
    eapply inv_sensor_frame; try done; simpl; try lia; [split; [lia|done]|by left|]. intros _ Hf.
    destruct (Z.eqb_spec (c + 1) 1); [lia|]. by replace (c + 1 - 1) with c by lia.
Qed.

Definition system_inv (c : list process * world) : Prop :=
  exists i pc ss, c.1 = Aggregator i pc :: ss /\ inv i pc ss c.2.

Lemma sensors_inv_start : system_inv (start ids).
Proof.
  exists 1, (AWait 0), ((fun id => Sensor id 1 SOpen) <$> ids). split; [done|].
  assert (forall f : process -> Z, (forall id, f (Sensor id 1 SOpen) = 0) -> total f ((fun id => Sensor id 1 SOpen) <$> ids) = 0) as H0.
  { intros f Hf. apply total_zero. intros j t Hj. by apply list_lookup_fmap_Some in Hj as (id & -> & _). }
  assert (forall j t, ((fun id => Sensor id 1 SOpen) <$> ids) !! j = Some t ->
    exists id, t = Sensor id 1 SOpen /\ ids !! j = Some id) as Hl.
  { intros j t Hj. apply list_lookup_fmap_Some in Hj as (id & -> & Hid). eauto. }
  constructor; cbn [total]; rewrite ?H0 by done; try done.
  - by rewrite length_fmap.
  - split; [lia|]. split_and!; unfold CYCLES; lia.
  - intros j t Hj. destruct (Hl j t Hj) as (id & -> & Hid). exists id, 1, SOpen. split_and!; unfold CYCLES; try done; lia.
  - intros _. split; [|intros q _; apply lookup_empty]. intros j t Hj. destruct (Hl j t Hj) as (id & -> & _). apply lookup_empty.
  - intros _ c a Hin. by apply elem_of_nil in Hin.
Qed.

Lemma sensors_inv_reachable c :
  NoDup ids -> reachable (step io_fails n) (start ids) c -> system_inv c.
Proof.
  intros Hnd. apply (reachable_invariant _ system_inv); [apply sensors_inv_start|].
  intros c1 c2 (i & pc & ss & Hc & HI) Hm. destruct Hm as [j t t' ls x x' Hj Hs]. simpl in *. subst ls.
  destruct j as [|j]; simplify_eq/=.
  - destruct (aggregator_inv _ _ _ _ _ _ HI Hs) as (i' & pc' & -> & HI'). exists i', pc', ss. done.
  - exists i, pc, (<[j := t']> ss). split; [done|]. by eapply sensor_inv.
Qed.

(** *** Who can be left waiting *)
Definition ended (t : process) : bool :=
  match t with
  | Aggregator i (AWait _) | Sensor _ i SOpen => CYCLES <? i
  | _ => false
  end.

Lemma sensor_stuck j t x :
  sensor_ok j t -> step io_fails n (S j) t x = [] -> ended t = true \/ waiting t = 1 /\ can_overwrite x <= 0.
Proof.
  intros (id & i & pc & -> & _ & Hi & Hp) Hs. destruct x as [ready can fs so]. simpl in Hs.
  destruct pc; simpl in *; try done.
  - left. destruct (Z.leb_spec i CYCLES); [done|]. lia.
  - right. split; [done|]. destruct (Z.ltb_spec 0 can); [done|lia].
Qed.

Lemma aggregator_stuck i pc ss x :
  inv i pc ss x -> aggregator n i pc x = [] ->
  ended (Aggregator i pc) = true \/ exists s, pc = AWait s /\ s < n /\ i <= CYCLES /\ data_ready x = 0.
Proof.
  intros HI Hs. pose proof (inv_ready _ _ _ _ HI) as [_ Hr0]. destruct x as [ready can fs so]. simpl in *.
  destruct pc as [s|s a|s k a|s]; simpl in *.
  - destruct (Z.leb_spec i CYCLES); [right|left; lia]. destruct (Z.ltb_spec s n); [|done].
    destruct (Z.ltb_spec 0 ready); [done|]. exists s. split_and!; try done. lia.
  - destruct (Z.of_nat s <=? n); [|done]. by destruct (fs !! s).
  - by destruct (default [] (fs !! s) !! k).
  - by destruct (s <? n).
Qed.

(** What an ended sensor has done, and one that has not. *)
Lemma can_of_bounds j t : sensor_ok j t -> - CYCLES <= can_of n t <= 0 /\ (ended t = true -> can_of n t = - CYCLES /\ waiting t = 0) /\
  (waiting t = 1 -> - CYCLES < can_of n t).
Proof.
  intros (id & i & pc & -> & _ & Hi & Hp). unfold CYCLES in *. destruct pc; simpl in *; try specialize (Hp ltac:(done));
    (split; [lia|]); split; intros H; unfold CYCLES in *; try done; lia.
Qed.

Lemma sensors_total_bound (f : process -> Z) (b : Z) ss :
  (forall j t, ss !! j = Some t -> b <= f t) -> b * Z.of_nat (length ss) <= total f ss.
Proof.
  induction ss as [|t ss IH]; intros Hf; cbn [total length]; [lia|].
  pose proof (Hf 0%nat t eq_refl). specialize (IH (fun j u Hj => Hf (S j) u Hj)). lia.
Qed.

(** The system stops before its end only when a sensor has run ahead of the
    others: it has ended and the aggregator waits for one more. *)
Lemma stuck_system c :
  NoDup ids -> (0 < length ids)%nat -> system_inv c -> (forall j t, c.1 !! j = Some t -> step io_fails n j t c.2 = []) ->
  Forall (fun t => ended t = true) c.1 \/
  (1 < length ids)%nat /\ (exists i s, c.1 !! 0%nat = Some (Aggregator i (AWait s)) /\ s < n /\ i <= CYCLES) /\
  (exists j t, c.1 !! S j = Some t /\ ended t = true).
Proof.
  intros Hnd Hpos (i & pc & ss & Hc & HI) Hs. rewrite Hc in *.
  pose proof (aggregator_stuck _ _ _ _ HI (Hs 0%nat _ eq_refl)) as Ha.
  assert (forall j t, ss !! j = Some t -> ended t = true \/ waiting t = 1 /\ can_overwrite c.2 <= 0) as Hss.
  { intros j t Hj. eapply sensor_stuck; [by apply HI|]. by apply (Hs (S j)). }
  destruct (inv_ready _ _ _ _ HI) as [Hr Hr0], (inv_can _ _ _ _ HI) as [Hn Hn0]. cbn [total] in Hr, Hn.
  rewrite (total_split ss) in Hr by apply HI.
  pose proof (inv_number _ _ _ _ HI) as Hlen. pose proof (inv_aggregator _ _ _ _ HI) as [Hi Hpc].
  assert (forall j t, ss !! j = Some t -> sensor_ok j t) as Hok by apply HI.
  pose proof (total_nonneg waiting ss (fun t => proj1 (waiting_bool t))) as Hw0.
  pose proof (sensors_total_bound (can_of n) (- CYCLES) ss (fun j t Hj => proj1 (proj1 (can_of_bounds j t (Hok j t Hj))))) as Hb.
  destruct Ha as [He|(s & -> & Hs' & Hi' & Hd)].
  - left. apply Forall_cons. split; [done|]. apply Forall_lookup. intros j t Hj.
    destruct (Hss j t Hj) as [|[Hwt Hcan]]; [done|exfalso].
    destruct pc as [s|? ?|? ? ?|?]; try done. simpl in He, Hn. apply Z.ltb_lt in He.
    destruct (can_of_bounds j t (Hok j t Hj)) as (_ & _ & Hlt). specialize (Hlt Hwt).
    pose proof (sensors_total_bound (can_of n) (- CYCLES) (<[j := Sensor 0 6 SOpen]> ss)) as Hb'.
    rewrite (sum_over_insert _ _ _ _ _ Hj), length_insert in Hb'. simpl in Hb'.
    assert (forall k u, <[j := Sensor 0 6 SOpen]> ss !! k = Some u -> - CYCLES <= can_of n u) as Hall.
    { intros k u Hk. insert_cases Hk; [unfold CYCLES; simpl; lia|]. exact (proj1 (proj1 (can_of_bounds k u (Hok k u Hk)))). }
    specialize (Hb' Hall). unfold CYCLES in *. assert (i = 6) as -> by lia. lia.
  - right. simpl in Hr, Hn, Hpc.
    assert (exists j t, ss !! j = Some t /\ ended t = true) as (j & t & Hj & Ht).
    { destruct (decide (Exists (fun t => ended t = true) ss)) as [He|He].
      - apply Exists_exists in He as (t & (j & Hj)%list_elem_of_lookup & Ht). eauto.
      - exfalso. assert (Z.of_nat (length ss) <= total waiting ss) as Hall; [|].
        + replace (Z.of_nat (length ss)) with (1 * Z.of_nat (length ss)) by lia. apply sensors_total_bound. intros j t Hj.
          destruct (Hss j t Hj) as [Ht|[Hw _]]; [|lia]. exfalso. apply He, Exists_exists. exists t.
          split; [by eapply list_elem_of_lookup_2|done].
        + destruct (lookup_lt_is_Some_2 ss 0) as [u Hu]; [lia|].
          destruct (Hss _ _ Hu) as [Ht|[_ Hcan]]; [|lia]. apply He, Exists_exists. exists u.
          split; [by eapply list_elem_of_lookup_2|done]. }
    split_and!; [|eauto|by exists j, t].
    destruct (decide (length ids = 1)%nat) as [H1|]; [exfalso|lia].
    destruct ss as [|u [|? ?]]; [done| |simpl in Hlen; lia].
    destruct j as [|?]; [|done]. injection Hj as ->.
    destruct (can_of_bounds 0 t (Hok 0%nat t eq_refl)) as (_ & He & _). destruct (He Ht) as [Hct Hwt].
    cbn [total] in *. rewrite H1 in *. unfold CYCLES in *. lia.
Qed.

Lemma foldl_scan_count l a : readings_count (foldl scan a l) = readings_count a + Z.of_nat (length l).
Proof. revert a. induction l as [|t l IH]; intros a; simpl; [lia|]. rewrite IH. simpl. lia. Qed.

(** A summary of a whole cycle counts every reading of every sensor. *)
Lemma summary_ok_count a :
  NoDup ids -> Forall (fun id => (id <= length ids)%nat) ids -> summary_ok a ->
  readings_count a = READINGS_PER_CYCLE * n.
Proof.
  intros Hnd Hle (g & Hg & Hg' & ->). rewrite foldl_scan_count. change (readings_count nothing_read) with 0.
  assert (forall l, length (l ≫= g) = (10 * length (filter (fun q => q ∈ ids) l))%nat) as Hlen.
  { induction l as [|q l IH]; [done|]. rewrite bind_cons, length_app, IH, filter_cons.
    case_decide as Hq; [|by rewrite Hg'].
    destruct (Hg q Hq) as [c ->]. unfold readings. rewrite length_fmap, length_seqZ. cbn [length]. change (Z.to_nat READINGS_PER_CYCLE) with 10%nat. lia. }
  rewrite Hlen.
  assert (filter (fun q => q ∈ ids) (seq 0 (S (length ids))) ≡ₚ ids) as Hp.
  { apply NoDup_Permutation; [by apply NoDup_filter, NoDup_seq|done|]. intros q. rewrite list_elem_of_filter, elem_of_seq.
    split; [naive_solver|]. intros Hq. split; [done|]. rewrite Forall_forall in Hle. specialize (Hle q Hq). lia. }
  rewrite Hp. unfold READINGS_PER_CYCLE. lia.
Qed.

End Run.

(** C29. Any number of sensors and the aggregator, in every interleaving:
    while the aggregator reads, every sensor waits, so no file is read while it
    is written; when files open, every line of the aggregator sums up ten
    readings of each sensor; and the processes stop before their end only if
    a sensor took the permissions of the others, which one sensor cannot. *)
Theorem sensors_aggregate io_fails ids c :
  NoDup ids -> Forall (fun id => (id <= length ids)%nat) ids -> (0 < length ids)%nat ->
  let n := Z.of_nat (length ids) in
  reachable (step io_fails n) (start ids) c ->
  (forall i pc j t, c.1 !! 0%nat = Some (Aggregator i pc) -> reading pc = true -> c.1 !! S j = Some t -> waiting t = 1) /\
  (io_fails = false -> forall i a, Processed i a ∈ stdout c.2 ->
     summary_ok ids a /\ readings_count a = READINGS_PER_CYCLE * n) /\
  ((forall j t, c.1 !! j = Some t -> step io_fails n j t c.2 = []) ->
   Forall (fun t => ended t = true) c.1 \/
   (1 < length ids)%nat /\ (exists i s, c.1 !! 0%nat = Some (Aggregator i (AWait s)) /\ s < n /\ i <= CYCLES) /\
   (exists j t, c.1 !! S j = Some t /\ ended t = true)).
Proof.
  intros Hnd Hle Hpos n Hc. pose proof (sensors_inv_reachable _ _ _ Hnd Hc) as HS.
  pose proof HS as (i & pc & ss & Hl & HI). split_and!.
  - intros i' pc' j t H0 Hp Hj. rewrite Hl in H0, Hj. injection H0 as <- <-. by eapply all_waiting.
  - intros Hio k a Ha. pose proof (inv_output _ _ _ _ _ _ HI Hio k a Ha) as Hok. split; [done|].
    by apply (summary_ok_count ids).
  - by apply stuck_system.
Qed.
End Float.

(** Two sensors of whole degrees: one cycle. *)
Definition degrees (id : nat) (i r : Z) : Z := 15 + Z.of_nat id + r.
Notation whole_degrees := (step Z.ltb 1000 (-1000) degrees).
Definition one_cycle : list (nat * nat) :=
  (fun j => (j, 0%nat)) <$> replicate 4 1%nat ++ replicate 4 2%nat ++ replicate 30 0%nat.

Lemma sensors_aggregate_witness :
  exists c, reachable (whole_degrees false 2) (start [0; 1]%nat) c /\
    stdout c.2 = [Wrote 0 1; Wrote 1 1; Processed 1 (Summary 20 15 25)] /\
    (forall i pc j t, c.1 !! 0%nat = Some (Aggregator i pc) -> reading pc = true -> c.1 !! S j = Some t -> waiting t = 1) /\
    (false = false -> forall i a, Processed i a ∈ stdout c.2 ->
       summary_ok Z.ltb 1000 (-1000) degrees [0; 1]%nat a /\ readings_count a = READINGS_PER_CYCLE * 2) /\
    ((forall j t, c.1 !! j = Some t -> whole_degrees false 2 j t c.2 = []) ->
     Forall (fun t => ended t = true) c.1 \/
     (1 < 2)%nat /\ (exists i s, c.1 !! 0%nat = Some (Aggregator i (AWait s)) /\ s < 2 /\ i <= CYCLES) /\
     (exists j t, c.1 !! S j = Some t /\ ended t = true)).
Proof.
  destruct (schedule (whole_degrees false 2) one_cycle (start [0; 1]%nat)) as [c|] eqn:E; [|by vm_compute in E].
  apply schedule_reachable in E as Hr. exists c. split; [done|]. split; [vm_compute in E; by injection E as <-|].
  apply (sensors_aggregate Z.ltb 1000 (-1000) degrees false [0; 1]%nat).
  - apply NoDup_cons. split; [by rewrite list_elem_of_singleton|apply NoDup_singleton].
  - repeat constructor.
  - simpl. lia.
  - done.
Defined.

(** A fast sensor takes both permissions of every cycle, ends, and leaves the
    aggregator and the other sensor waiting for each other: nobody can move. *)
Definition fast : list (nat * nat) :=
  let sensor := replicate 4 1%nat in
  let cycle := replicate 32 0%nat in
  (fun j => (j, 0%nat)) <$>
    sensor ++ replicate 4 2%nat ++ cycle ++ [1%nat] ++ sensor ++ [1%nat] ++ sensor ++ cycle ++
    [1%nat] ++ sensor ++ [1%nat] ++ sensor ++ cycle ++ [1%nat; 2%nat] ++ replicate 4 2%nat ++ [0%nat].

Example fast_sensor_deadlocks :
  (fun c => (c.1, imap (fun j t => whole_degrees false 2 j t c.2) c.1)) <$>
    schedule (whole_degrees false 2) fast (start [0; 1]%nat)
  = Some ([Aggregator 4 (AWait 1); Sensor 0 6 SOpen; Sensor 1 2 SWait], [[]; []; []]).
Proof. vm_compute. reflexivity. Qed.
