(* ===== verification/Tug.v ===== *)
(** * shm/code/shm_tug.c

    A tug of war in shared memory: players move the rope, a 1 on a board of
    50 cells, without any lock, and an arbiter scans the board.  A step is one
    access of the board. *)

From S2P Require Import Prelude CLib Os Threads.

Local Open Scope Z_scope.

Definition BOARD_SIZE : Z := 50.

(** How the arbiter ends the game. *)
Inductive verdict := Disappeared | Cloned (ropes : Z) | LeftWins | RightWins.

(** The scan keeps [pos] and [ones_count]; the second pass renders. *)
Inductive arbiter_pc :=
| AScan (i pos ones_count : Z)
| ARender (i pos ones_count : Z) (text : list Z)
| AClear (v : verdict) (i : Z)
| AExit (v : verdict).
Inductive player_pc :=
| PScan (i pos : Z)
| PClear (pos : Z)
| PSet (new_pos : Z)
| PExit.
Inductive process :=
| Arbiter (pc : arbiter_pc)
| Player (direction : Z) (pc : player_pc).

(** The board and what is on the terminal, a line per turn. *)
Record world := World { board : list Z; shown : list (list Z) }.

Definition rendered (i v : Z) : Z := if v =? 1 then 42 else if i =? Z.quot BOARD_SIZE 2 then 124 else 45.

(** The checks after a turn; [None] goes on. *)
Definition judge (pos ones_count : Z) : option verdict :=
  if ones_count =? 0 then Some Disappeared
  else if 1 <? ones_count then Some (Cloned ones_count)
  else if pos =? 0 then Some LeftWins
  else if pos =? BOARD_SIZE - 1 then Some RightWins
  else None.

Definition arbiter (pc : arbiter_pc) (x : world) : list (process * world) :=
  let '(World b sh) := x in
  match pc with
  | AScan i pos ones =>
      if i <? BOARD_SIZE then
        match mem_load b i with
        | Some v => [(Arbiter (if v =? 1 then AScan (i + 1) i (ones + 1) else AScan (i + 1) pos ones), x)]
        | None => []
        end
      else [(Arbiter (ARender 0 pos ones []), x)]
  | ARender i pos ones text =>
      if i <? BOARD_SIZE then
        match mem_load b i with
        | Some v => [(Arbiter (ARender (i + 1) pos ones (text ++ [rendered i v])), x)]
        | None => []
        end
      else
        let x := World b (sh ++ [text]) in
        match judge pos ones with
        | Some v => [(Arbiter (AClear v 0), x)]
        | None => [(Arbiter (AScan 0 (-1) 0), x)]
        end
  | AClear v i =>       (* memset(board, 0, length) *)
      if i <? BOARD_SIZE then
        match mem_store b i [0] with
        | Some b' => [(Arbiter (AClear v (i + 1)), World b' sh)]
        | None => []
        end
      else [(Arbiter (AExit v), x)]
  | AExit _ => []
  end.

Definition player (d : Z) (pc : player_pc) (x : world) : list (process * world) :=
  let '(World b sh) := x in
  match pc with
  | PScan i pos =>
      if i <? BOARD_SIZE then
        match mem_load b i with
        | Some v => [(Player d (PScan (i + 1) (if v =? 1 then i else pos)), x)]
        | None => []
        end
      else if (pos <=? 0) || (BOARD_SIZE - 1 <=? pos) then [(Player d PExit, x)]
      else [(Player d (PClear pos), x)]
  | PClear pos =>
      match mem_store b pos [0] with
      | Some b' => [(Player d (PSet (pos + d)), World b' sh)]
      | None => []
      end
  | PSet new_pos =>
      match mem_store b new_pos [1] with
      | Some b' => [(Player d (PScan 0 (-1)), World b' sh)]
      | None => []
      end
  | PExit => []
  end.

Definition step (_ : nat) (t : process) (x : world) : list (process * world) :=
  match t with
  | Arbiter pc => arbiter pc x
  | Player d pc => player d pc x
  end.

(** The board after step 3 of the arbiter; players that have joined. *)
Definition initial_board : list Z := <[Z.to_nat (Z.quot BOARD_SIZE 2) := 1]> (replicate (Z.to_nat BOARD_SIZE) 0).
Definition start (directions : list Z) : list process * world :=
  (Arbiter (AScan 0 (-1) 0) :: ((fun d => Player d (PScan 0 (-1))) <$> directions), World initial_board []).

(** Around the loops: shared memory, and the roles of [main]. *)
Definition arbiter_memory : prog Z :=
  ignored "shm_unlink" [] ;;;
  let! fd := sys (Libc "shm_open" []) in
  if rv fd =? -1 then perror "shm_open" ;;; Exit 1 else
  let! t := sys (Libc "ftruncate" [rv fd; BOARD_SIZE * 4]) in
  if rv t =? -1 then perror "ftruncate" ;;; Exit 1 else
  let! p := sys (Libc "mmap" [rv fd; BOARD_SIZE * 4]) in
  if rv p =? -1 then perror "mmap" ;;; Exit 1 else
  sys (Close (rv fd)) ;;; Ret (rv p).

Definition run_arbiter (game : Z -> prog unit) : prog unit :=
  let! ptr := arbiter_memory in
  printf "Arbiter started. Waiting for players to join..." [] ;;;
  game ptr ;;;
  ignored "munmap" [ptr] ;;;
  ignored "shm_unlink" [] ;;;
  printf "Arbiter exiting. Game over." [].

Definition run_player (game : Z -> Z -> prog unit) (direction : Z) (name : list Z) : prog unit :=
  let! fd := sys (Libc "shm_open" []) in
  if rv fd =? -1 then perror "shm_open (Is the Arbiter running?)" ;;; Exit 1 else
  let! p := sys (Libc "mmap" [rv fd; BOARD_SIZE * 4]) in
  if rv p =? -1 then perror "mmap" ;;; Exit 1 else
  sys (Close (rv fd)) ;;;
  printf "Player %s joined the game!" [PS name] ;;;
  ignored "srand" [] ;;;
  game (rv p) direction ;;;
  ignored "munmap" [rv p] ;;;
  printf "Player %s exiting." [PS name].

Definition main (referee : Z -> prog unit) (game : Z -> Z -> prog unit) (args : list (list Z)) : prog Z :=
  match args with
  | role :: _ =>
      if decide (role = str "arbiter") then run_arbiter referee ;;; Ret 0
      else if decide (role = str "left") then run_player game (-1) (str "LEFT") ;;; Ret 0
      else if decide (role = str "right") then run_player game 1 (str "RIGHT") ;;; Ret 0
      else printf "Unknown role. Use arbiter, left, or right." [] ;;; Ret 1
  | [] => printf "Usage: %s <arbiter|left|right>" [] ;;; Ret 1
  end.

(** *** The rope *)
Definition ropes (b : list Z) : Z := total id b.
Definition lifting (t : process) : Z := match t with Player _ (PSet _) => 1 | _ => 0 end.
(** The arbiter has begun to clear the board. *)
Definition over (pc : arbiter_pc) : bool := match pc with AClear _ _ | AExit _ => true | _ => false end.

Definition arbiter_ok (pc : arbiter_pc) : Prop :=
  match pc with AScan i _ _ | ARender i _ _ _ | AClear _ i => 0 <= i | AExit _ => True end.
(** A player's next access is on the board. *)
Definition player_ok (t : process) : Prop :=
  match t with
  | Player d pc =>
      (d = 1 \/ d = -1) /\
      match pc with
      | PScan i pos => 0 <= i
      | PClear pos => 0 < pos < BOARD_SIZE - 1
      | PSet p => 0 <= p < BOARD_SIZE
      | PExit => True
      end
  | Arbiter _ => False
  end.
(** A player on its own knows where the rope is. *)
Definition sees (b : list Z) (t : process) : Prop :=
  match t with
  | Player _ (PScan _ pos) => pos < 0 \/ b !! Z.to_nat pos = Some 1
  | Player _ (PClear pos) => b !! Z.to_nat pos = Some 1
  | _ => True
  end.

Record inv (pc : arbiter_pc) (ps : list process) (x : world) : Prop := {
  inv_size : Z.of_nat (length (board x)) = BOARD_SIZE;
  inv_cells : Forall (fun v => v = 0 \/ v = 1) (board x);
  inv_arbiter : arbiter_ok pc;
  inv_player j t : ps !! j = Some t -> player_ok t;
  inv_rope : over pc = false -> 1 <= ropes (board x) + total lifting ps;
  inv_alone : over pc = false -> length ps = 1%nat ->
    ropes (board x) + total lifting ps = 1 /\ forall t, ps = [t] -> sees (board x) t;
}.

Lemma board_load pc ps x i :
  inv pc ps x -> 0 <= i < BOARD_SIZE -> exists v, mem_load (board x) i = Some v /\ board x !! Z.to_nat i = Some v /\ (v = 0 \/ v = 1).
Proof.
  intros HI Hi. pose proof (inv_size _ _ _ HI). unfold mem_load. rewrite (proj2 (Z.leb_le 0 i)) by lia.
  destruct (lookup_lt_is_Some_2 (board x) (Z.to_nat i)) as [v Hv]; [lia|]. exists v. split; [done|]. split; [done|].
  pose proof (inv_cells _ _ _ HI) as Hc. rewrite Forall_lookup in Hc. eauto.
Qed.

Lemma board_store pc ps b sh i v :
  inv pc ps (World b sh) -> 0 <= i < BOARD_SIZE -> mem_store b i [v] = Some (<[Z.to_nat i := v]> b).
Proof.
  intros HI Hi. pose proof (inv_size _ _ _ HI) as Hs. simpl in Hs. rewrite mem_store_is_Some by (simpl; lia).
  rewrite insert_take_drop by lia. simpl. by rewrite Nat.add_1_r.
Qed.

Lemma ropes_store b i v w : b !! i = Some v -> ropes (<[i := w]> b) = ropes b - v + w.
Proof. intros H. unfold ropes. by rewrite (sum_over_insert _ _ _ _ _ H). Qed.

Lemma lifting_bool t : 0 <= lifting t <= 1.
Proof. by destruct t as [|? []]; simpl; lia. Qed.

Lemma ropes_bound b : Forall (fun v => v = 0 \/ v = 1) b -> forall i, b !! i = Some 1 -> 1 <= ropes b.
Proof.
  intros Hb i Hi. pose proof (total_ge (Z.max 0) b i 1 (fun x => Z.le_max_l 0 x) Hi) as Hg.
  assert (total (Z.max 0) b = ropes b) as <-; [|exact Hg].
  clear Hi Hg. induction Hb as [|x b Hx _ IH]; [done|]. unfold ropes in *. cbn [total]. rewrite IH.
  unfold id at 2. lia.
Qed.

Lemma cells_store b i v : v = 0 \/ v = 1 -> Forall (fun v => v = 0 \/ v = 1) b -> Forall (fun v => v = 0 \/ v = 1) (<[i := v]> b).
Proof. intros. by apply Forall_insert. Qed.

(** A step of the arbiter. *)
Lemma tug_arbiter_inv pc ps x t' x' :
  inv pc ps x -> (t', x') ∈ arbiter pc x -> exists pc', t' = Arbiter pc' /\ inv pc' ps x'.
Proof.
  intros HI Hs.
  assert (forall pc' sh, arbiter_ok pc' -> (over pc' = false -> over pc = false) -> inv pc' ps (World (board x) sh)) as Hsame.
  { intros pc' sh Hok Hover. destruct HI as [H1 H2 H3 H4 H5 H6]. constructor; simpl; auto. }
  destruct pc as [i pos ones|i pos ones text|v i|v]; pose proof (inv_arbiter _ _ _ HI) as Ha; destruct x as [b sh];
    simpl in Hs, Ha, Hsame.
  - destruct (Z.ltb_spec i BOARD_SIZE).
    + destruct (board_load _ _ _ i HI) as (v & Hv & _); [done|]. simpl in Hv. rewrite Hv in Hs.
      apply list_elem_of_singleton in Hs as [= -> ->]. eexists. split; [done|].
      apply Hsame; destruct (v =? 1); simpl; done || lia.
    + apply list_elem_of_singleton in Hs as [= -> ->]. eexists. split; [done|]. by apply Hsame.
  - destruct (Z.ltb_spec i BOARD_SIZE).
    + destruct (board_load _ _ _ i HI) as (v & Hv & _); [done|]. simpl in Hv. rewrite Hv in Hs.
      apply list_elem_of_singleton in Hs as [= -> ->]. eexists. split; [done|]. apply Hsame; simpl; done || lia.
    + destruct (judge pos ones); apply list_elem_of_singleton in Hs as [= -> ->]; eexists; (split; [done|]); by apply Hsame.
  - destruct (Z.ltb_spec i BOARD_SIZE).
    + rewrite (board_store _ _ _ _ i 0 HI) in Hs by done. apply list_elem_of_singleton in Hs as [= -> ->].
      eexists. split; [done|]. destruct HI as [H1 H2 H3 H4 H5 H6]. simpl in *.
      constructor; simpl; try done; [by rewrite length_insert|apply cells_store; auto|lia].
    + apply list_elem_of_singleton in Hs as [= -> ->]. eexists. split; [done|]. by apply Hsame.
  - by apply not_elem_of_nil in Hs.
Qed.

(** A step of a player, by what it does to the board. *)
Lemma tug_player_frame pc ps b sh j t t' b' :
  inv pc ps (World b sh) -> ps !! j = Some t -> player_ok t' ->
  length b' = length b -> Forall (fun v => v = 0 \/ v = 1) b' ->
  (over pc = false -> ropes b + lifting t <= ropes b' + lifting t' \/ 1 <= ropes b') ->
  (over pc = false -> length ps = 1%nat -> ropes b' + lifting t' = 1 /\ sees b' t') ->
  inv pc (<[j := t']> ps) (World b' sh).
Proof.
  intros [H1 H2 H3 H4 H5 H6] Hj Hok Hl Hc Hr Ha. simpl in *. constructor; simpl; try done.
  - by rewrite Hl.
  - intros k u Hk. insert_cases Hk; [done|]. by eapply H4.
  - intros Ho. rewrite (sum_over_insert _ _ _ _ _ Hj). specialize (H5 Ho). pose proof (lifting_bool t').
    pose proof (total_ge lifting ps j t (fun u => proj1 (lifting_bool u)) Hj). destruct (Hr Ho); lia.
  - intros Ho Hone. rewrite length_insert in Hone. destruct (Ha Ho Hone) as [Hsum Hsee].
    destruct ps as [|p [|? ?]]; [done| |done]. destruct j; [|done]. simplify_eq/=. split; [lia|]. by intros ? [= <-].
Qed.

Lemma tug_player_inv pc ps x j t t' x' :
  inv pc ps x -> ps !! j = Some t -> (t', x') ∈ step (S j) t x -> inv pc (<[j := t']> ps) x'.
Proof.
  intros HI Hj Hs. pose proof (inv_player _ _ _ HI _ _ Hj) as Hok. destruct t as [|d q]; [done|].
  pose proof (inv_cells _ _ _ HI) as Hcells. pose proof (inv_size _ _ _ HI) as Hsize.
  assert (over pc = false -> length ps = 1%nat -> ropes (board x) + lifting (Player d q) = 1 /\ sees (board x) (Player d q)) as Halone.
  { intros Ho Hone. destruct (inv_alone _ _ _ HI Ho Hone) as [Hsum Hsee].
    destruct ps as [|p [|? ?]]; [done| |done]. destruct j; [|done]. injection Hj as ->. cbn [total] in Hsum.
    split; [lia|]. by apply Hsee. }
  destruct x as [b sh]. cbn [step] in Hs. simpl in Hcells, Hsize, Halone. destruct Hok as [Hd Hq]. destruct q as [i pos|pos|p|]; simpl in Hs, Hq.
  - destruct (Z.ltb_spec i BOARD_SIZE) as [Hi|Hi].
    + destruct (board_load _ _ _ i HI) as (v & Hv & Hbv & _); [done|]. simpl in Hv, Hbv. rewrite Hv in Hs.
      apply list_elem_of_singleton in Hs as [= -> ->].
      eapply tug_player_frame; try done; simpl; [split; [done|lia]|by left|].
      intros Ho Hone. destruct (Halone Ho Hone) as [Hsum Hsee]. split; [done|].
      destruct (Z.eqb_spec v 1) as [->|]; [by right|done].
    + destruct (Z.leb_spec pos 0), (Z.leb_spec (BOARD_SIZE - 1) pos); simpl in Hs;
        apply list_elem_of_singleton in Hs as [= -> ->]; eapply tug_player_frame; try done; simpl;
        try (by left); try (intros Ho Hone; destruct (Halone Ho Hone) as [Hsum Hsee]; split; done).
      intros Ho Hone. destruct (Halone Ho Hone) as [Hsum [?|Hsee]]; [lia|done].
  - rewrite (board_store _ _ _ _ pos 0 HI) in Hs by lia. apply list_elem_of_singleton in Hs as [= -> ->].
    destruct (board_load _ _ _ pos HI) as (v & _ & Hv & H01); [lia|]. simpl in Hv.
    eapply tug_player_frame; try done; simpl; [split; [done|unfold BOARD_SIZE in *; lia]|by rewrite length_insert|by apply cells_store; auto| |].
    + intros _. left. rewrite (ropes_store _ _ _ _ Hv). lia.
    + intros Ho Hone. destruct (Halone Ho Hone) as [Hsum Hsee]. rewrite Hsee in Hv. injection Hv as <-.
      rewrite (ropes_store _ _ _ _ Hsee). split; [lia|done].
  - rewrite (board_store _ _ _ _ p 1 HI) in Hs by lia. apply list_elem_of_singleton in Hs as [= -> ->].
    destruct (board_load _ _ _ p HI) as (v & _ & Hv & H01); [lia|]. simpl in Hv.
    assert (1 <= ropes (<[Z.to_nat p := 1]> b)) as Hge.
    { apply (ropes_bound _ (cells_store _ (Z.to_nat p) 1 (or_intror eq_refl) Hcells) (Z.to_nat p)).
      apply list_lookup_insert_eq. by eapply lookup_lt_Some. }
    eapply tug_player_frame; try done; simpl; [by rewrite length_insert|by apply cells_store; auto|by right|].
    intros Ho Hone. destruct (Halone Ho Hone) as [Hsum _]. split; [|left; lia].
    assert (v = 0) as ->.
    { destruct H01 as [| ->]; [done|]. pose proof (ropes_bound _ Hcells _ Hv). lia. }
    rewrite (ropes_store _ _ _ _ Hv). lia.
  - by apply not_elem_of_nil in Hs.
Qed.

Definition system_inv (c : list process * world) : Prop :=
  exists pc ps, c.1 = Arbiter pc :: ps /\ inv pc ps c.2.

Lemma tug_start ds :
  Forall (fun d => d = 1 \/ d = -1) ds -> system_inv (start ds).
Proof.
  intros Hds. exists (AScan 0 (-1) 0), ((fun d => Player d (PScan 0 (-1))) <$> ds). split; [done|].
  assert (total lifting ((fun d => Player d (PScan 0 (-1))) <$> ds) = 0) as H0.
  { apply total_zero. intros j t Hj. by apply list_lookup_fmap_Some in Hj as (d & -> & _). }
  assert (ropes initial_board = 1) as H1 by reflexivity.
  constructor; simpl; rewrite ?H0, ?H1; try done; try lia.
  - apply cells_store; [by right|]. apply Forall_replicate. by left.
  - intros j t Hj. apply list_lookup_fmap_Some in Hj as (d & -> & Hd). simpl. split; [|lia].
    rewrite Forall_lookup in Hds. eauto.
  - intros _ _. split; [done|]. intros t Ht. destruct ds as [|d ds]; [done|]. injection Ht as <- _. by left.
Qed.

Lemma tug_reachable ds c :
  Forall (fun d => d = 1 \/ d = -1) ds -> reachable step (start ds) c -> system_inv c /\ length c.1 = S (length ds).
Proof.
  intros Hds. apply (reachable_invariant step (fun c => system_inv c /\ length c.1 = S (length ds))).
  - split; [by apply tug_start|]. simpl. by rewrite length_fmap.
  - intros c1 c2 [(pc & ps & Hc & HI) Hl] Hm. destruct Hm as [j t t' ls x x' Hj Hs]. simpl in *. subst ls.
    split; [|by rewrite length_insert]. destruct j as [|j]; simplify_eq/=.
    + destruct (tug_arbiter_inv _ _ _ _ _ HI Hs) as (pc' & -> & HI'). by exists pc', ps.
    + exists pc, (<[j := t']> ps). split; [done|]. by eapply tug_player_inv.
Qed.

(** Nobody is stopped by an access off the board. *)
Lemma stuck_exits pc ps x j t :
  inv pc ps x -> (Arbiter pc :: ps) !! j = Some t -> step j t x = [] ->
  (exists v, t = Arbiter (AExit v)) \/ exists d, t = Player d PExit.
Proof.
  intros HI Hj Hs. destruct j as [|j]; simplify_eq/=.
  - pose proof (inv_arbiter _ _ _ HI) as Ha. destruct x as [b sh].
    destruct pc as [i pos ones|i pos ones text|v i|v]; simpl in *; [| | |by eauto]; exfalso.
    + destruct (Z.ltb_spec i BOARD_SIZE); [|done].
      destruct (board_load _ _ _ i HI) as (v & Hv & _); [done|]. simpl in Hv. by rewrite Hv in Hs.
    + destruct (Z.ltb_spec i BOARD_SIZE); [|by destruct (judge pos ones)].
      destruct (board_load _ _ _ i HI) as (v & Hv & _); [done|]. simpl in Hv. by rewrite Hv in Hs.
    + destruct (Z.ltb_spec i BOARD_SIZE); [|done]. by rewrite (board_store _ _ _ _ i 0 HI) in Hs.
  - pose proof (inv_player _ _ _ HI _ _ Hj) as Hok. destruct t as [|d q]; [done|]. destruct x as [b sh].
    destruct Hok as [_ Hq]. destruct q as [i pos|pos|p|]; simpl in *; [| | |by eauto]; exfalso.
    + destruct (Z.ltb_spec i BOARD_SIZE).
      * destruct (board_load _ _ _ i HI) as (v & Hv & _); [done|]. simpl in Hv. by rewrite Hv in Hs.
      * by destruct ((pos <=? 0) || (BOARD_SIZE - 1 <=? pos)).
    + by rewrite (board_store _ _ _ _ pos 0 HI) in Hs by lia.
    + by rewrite (board_store _ _ _ _ p 1 HI) in Hs by lia.
Qed.

(** C30. The tug of war, any number of players without a lock, in every
    interleaving: every access is on the board, so that nobody stops before
    its end; as long as the arbiter has not cleared the board the rope is
    never lost, only lifted: there is a rope on the board or a player between
    its two stores; and a player on its own has exactly one. *)
Theorem tug_rope_kept ds ls x :
  Forall (fun d => d = 1 \/ d = -1) ds -> reachable step (start ds) (ls, x) ->
  Z.of_nat (length (board x)) = BOARD_SIZE /\
  (forall j t, ls !! j = Some t -> step j t x = [] -> (exists v, t = Arbiter (AExit v)) \/ exists d, t = Player d PExit) /\
  forall pc, ls !! 0%nat = Some (Arbiter pc) -> over pc = false ->
    1 <= ropes (board x) + total lifting ls /\
    (length ds = 1%nat -> ropes (board x) + total lifting ls = 1).
Proof.
  intros Hds Hc. destruct (tug_reachable _ _ Hds Hc) as [(pc & ps & Hl & HI) Hlen]. simpl in *. subst ls.
  split; [apply HI|]. split; [intros j t; by apply stuck_exits|].
  intros pc' [= <-] Ho. simpl in *. split; [by apply HI|]. intros H1. apply HI; [done|lia].
Qed.

(** Both players have lifted the rope from the same cell and put two back. *)
Definition both_pull : list (nat * nat) :=
  (fun j => (j, 0%nat)) <$> replicate 51 1%nat ++ replicate 51 2%nat ++ [1; 2; 1; 2]%nat.

Lemma tug_rope_kept_witness :
  exists ls x, reachable step (start [-1; 1]) (ls, x) /\ ropes (board x) = 2 /\
    Z.of_nat (length (board x)) = BOARD_SIZE /\
    (forall j t, ls !! j = Some t -> step j t x = [] -> (exists v, t = Arbiter (AExit v)) \/ exists d, t = Player d PExit) /\
    forall pc, ls !! 0%nat = Some (Arbiter pc) -> over pc = false ->
      1 <= ropes (board x) + total lifting ls /\
      (2%nat = 1%nat -> ropes (board x) + total lifting ls = 1).
Proof.
  destruct (schedule step both_pull (start [-1; 1])) as [[ls x]|] eqn:E; [|by vm_compute in E].
  apply schedule_reachable in E as Hr. exists ls, x. split; [done|]. split.
  - vm_compute in E. injection E as _ <-. reflexivity.
  - apply (tug_rope_kept [-1; 1]); [|done]. repeat (apply Forall_cons; split; [by auto|]). constructor.
Defined.

(** The scan of the arbiter is not atomic: one player alone, pulling right in
    front of it, is seen twice and reported as a race. *)
Definition seen_twice : list (nat * nat) :=
  (fun j => (j, 0%nat)) <$> replicate 26 0%nat ++ replicate 53 1%nat ++ replicate 76 0%nat.
Example lone_player_cloned :
  (fun c => c.1 !! 0%nat) <$> schedule step seen_twice (start [1]) = Some (Some (Arbiter (AClear (Cloned 2) 0))).
Proof. vm_compute. reflexivity. Qed.

(** A player between its stores puts the rope back on the cleared board, and
    the game goes on after its end. *)
Definition late_store : list (nat * nat) :=
  (fun j => (j, 0%nat)) <$> replicate 52 1%nat ++ replicate 153 0%nat ++ [1%nat].
Example game_survives_arbiter :
  (fun c => (c.1 !! 0%nat, ropes (board c.2))) <$> schedule step late_store (start [1])
  = Some (Some (Arbiter (AExit Disappeared)), 1).
Proof. vm_compute. reflexivity. Qed.
