(* ===== verification/Eden.v ===== *)
(** * sop2/lab/l8/example2/sop-eden.c

    A server that checks the datagrams it receives: a login, a command and
    numbers in network order.  [Message m] is the 68 bytes of one struct that
    every datagram is received into, so that it still holds the bytes of
    earlier ones. *)

From S2P Require Import Prelude CLib Os Kernel Net LabCommon.

Local Open Scope Z_scope.

Definition MSG_MAX : Z := 64.
Definition LOGIN_LEN : Z := 16.
Definition COMMAND_LEN : Z := 8.
Definition HEADER_LEN : Z := LOGIN_LEN + COMMAND_LEN.

Definition LOGINS : list (list Z) := str <$>
  ["kaczmarskik"; "jelowickif"; "hermant"; "turs"; "krasowskip";
   "larysaz"; "zygulas"; "homendaw"; "galazkap"; "jastrzebskaaaaaa"]%string.
Definition COMMANDS : list (list Z) := str <$>
  ["RUN"; "EXIT"; "PAUSE"; "COMPUTE"; "LIST"; "GATHER"]%string.

(** [Command]. *)
Definition EXIT : Z := 1.
Definition COMPUTE : Z := 3.

(** [Message]: login, command, ten words, [params_count]. *)
Definition MESSAGE_SIZE : nat := 68.
Definition login (m : list Z) : list Z := take 16 m.
Definition command (m : list Z) : list Z := take 8 (drop 16 m).

Definition check_login (login : list Z) : bool :=
  existsb (fun l => strncmp login l (Z.to_nat LOGIN_LEN) =? 0) LOGINS.

Fixpoint command_index (command : list Z) (cs : list (list Z)) (i : Z) : Z :=
  match cs with
  | [] => -1
  | c :: cs' => if strncmp command c (Z.to_nat COMMAND_LEN) =? 0 then i else command_index command cs' (i + 1)
  end.
Definition check_command (command : list Z) : Z := command_index command COMMANDS 0.

Definition make_socket (domain type : Z) : prog Z :=
  let! s := sys Socket in
  if rv s <? 0 then ERR "socket" else Ret (rv s).

Definition SOCK_STREAM : Z := 1.
Definition SOCK_DGRAM : Z := 2.
Definition bind_inet_socket (port type backlog : Z) : prog Z :=
  let! socketfd := make_socket 2 type in
  let! o := sys (Setsockopt socketfd) in
  if negb (rv o =? 0) then ERR "setsockopt" else
  let! b := sys (Bind socketfd port) in
  if rv b <? 0 then ERR "bind" else
  if SOCK_STREAM =? type then
    let! l := sys (Listen socketfd backlog) in
    if rv l <? 0 then ERR "listen" else Ret socketfd
  else Ret socketfd.

(** The turn of the loop over [m.params]. *)
Definition param (i : Z) (m : list Z) : prog (list Z) :=
  let! w := defined "m.params: index" (mem_slice m (HEADER_LEN + 4 * i) 4) in
  let v := ntohl (of_le w) in
  let! m := defined "m.params: index" (mem_store m (HEADER_LEN + 4 * i) (le_bytes 4 v)) in
  printf "%u " [PZ v] ;;; Ret m.

(** A turn of the loop of [main]; the end is [return 0]. *)
Definition receive (fd : Z) (m : list Z) : prog (list Z + Z) :=
  let! r := sys (Recvfrom fd (MSG_MAX + 1)) in
  let m_size := rv r in
  if m_size <? 0 then
    if rerr r =? EINTR then Ret (inl m) else ERR "recvfrom"
  else
  let! m := defined "m: overrun" (mem_store m 0 (rdata r)) in
  if (m_size <? HEADER_LEN) || (MSG_MAX <? m_size) then
    printf "error: wrong message length %ld" [PZ m_size] ;;; Ret (inl m)
  else
  if negb (check_login (login m)) then
    printf "error: wrong login %.16s" [PS (upto_nul (login m))] ;;; Ret (inl m)
  else
  let command_idx := check_command (command m) in
  let l := PS (upto_nul (login m)) in
  let c := PS (upto_nul (command m)) in
  if command_idx =? -1 then printf "error: unknown command %.8s" [c] ;;; Ret (inl m)
  else if command_idx =? EXIT then
    if negb (m_size - HEADER_LEN =? 0) then
      printf "error: command: %.8s cannot have params" [c] ;;; Ret (inl m)
    else printf "%.16s: %.8s" [l; c] ;;; sys (Close fd) ;;; Ret (inr 0)
  else if command_idx =? COMPUTE then
    let params_bytes := m_size - HEADER_LEN in
    if params_bytes =? 0 then
      printf "error: compute has to have at least one pair of parameters" [] ;;; Ret (inl m)
    else if negb (params_bytes mod (2 * 4) =? 0) then
      printf "error: wrong compute message params length %ld" [PZ (m_size - HEADER_LEN)] ;;; Ret (inl m)
    else
      let params_count := (m_size - HEADER_LEN) / 4 in
      let! m := defined "m.params_count" (mem_store m 64 (le_bytes 4 params_count)) in
      printf "%.16s: %.8s " [l; c] ;;;
      let! m := for_each param (seqZ 0 params_count) m in
      ignored "putchar" [NL] ;;; Ret (inl m)
  else
    if negb (m_size - HEADER_LEN =? 0) then
      printf "error: command: %.8s cannot have params" [c] ;;; Ret (inl m)
    else printf "%.16s: %.8s" [l; c] ;;; Ret (inl m).

(** [main]; [junk] is the struct before the first datagram. *)
Definition main (n : nat) (junk : list Z) (args : list (list Z)) : prog Z :=
  match args with
  | [port] =>
      let! socket := bind_inet_socket (wrap_u 16 (atoi port)) SOCK_DGRAM 1 in
      loop n (receive socket) junk
  | _ =>
      printf "%s <in_port>" [] ;;; printf "  in_port - port that accepts messages" [] ;;;
      Exit EXIT_FAILURE
  end.

(** ** What the datagrams mean *)

(** A field of [n] characters holds a string of at most [n]. *)
Definition field (from n : nat) (d : list Z) : list Z := upto_nul (take n (drop from d)).

(** A word in network order. *)
Definition of_be (w : list Z) : Z := of_le (rev w).
Fixpoint words (n : nat) (d : list Z) : list (list Z) :=
  match n with
  | O => []
  | S n' => take 4 d :: words n' (drop 4 d)
  end.

Inductive meaning :=
| WrongLength (n : Z)
| WrongLogin (l : list Z)
| UnknownCommand (c : list Z)
| CannotHaveParams (c : list Z)
| NoPairs
| OddParams (bytes : Z)
| Compute (l : list Z) (params : list Z)
| Order (l c : list Z)
| Stop (l : list Z).

(** Read from the bytes of the datagram, without the struct. *)
Definition interpret (d : list Z) : meaning :=
  let n := Z.of_nat (length d) in
  let l := field 0 16 d in let c := field 16 8 d in
  let bytes := n - 24 in
  if decide (n < 24 \/ 64 < n) then WrongLength n
  else if decide (l ∉ LOGINS) then WrongLogin l
  else if decide (c ∉ COMMANDS) then UnknownCommand c
  else if decide (c = str "COMPUTE") then
    if decide (bytes = 0) then NoPairs
    else if decide (bytes mod 8 = 0) then Compute l (of_be <$> words (Z.to_nat (bytes / 4)) (drop 24 d))
    else OddParams bytes
  else if decide (bytes <> 0) then CannotHaveParams c
  else if decide (c = str "EXIT") then Stop l
  else Order l c.

Definition render (x : meaning) : list (string * list parg) :=
  match x with
  | WrongLength n => [("error: wrong message length %ld"%string, [PZ n])]
  | WrongLogin l => [("error: wrong login %.16s"%string, [PS l])]
  | UnknownCommand c => [("error: unknown command %.8s"%string, [PS c])]
  | CannotHaveParams c => [("error: command: %.8s cannot have params"%string, [PS c])]
  | NoPairs => [("error: compute has to have at least one pair of parameters"%string, [])]
  | OddParams b => [("error: wrong compute message params length %ld"%string, [PZ b])]
  | Compute l ps =>
      ("%.16s: %.8s "%string, [PS l; PS (str "COMPUTE")]) :: ((fun v => ("%u "%string, [PZ v])) <$> ps)
  | Order l c => [("%.16s: %.8s"%string, [PS l; PS c])]
  | Stop l => [("%.16s: %.8s"%string, [PS l; PS (str "EXIT")])]
  end.

Definition is_stop (x : meaning) : bool := match x with Stop _ => true | _ => false end.

(** The program's output, and what the datagrams up to the first EXIT ask for. *)
Definition printed (t : list event) : list (string * list parg) :=
  omap (fun e => match e with ESay (Printf fmt args) => Some (fmt, args) | _ => None end) t.

Fixpoint answers (ds : list (list Z)) : list (string * list parg) :=
  match ds with
  | [] => []
  | d :: ds' => render (interpret d) ++ if is_stop (interpret d) then [] else answers ds'
  end.

(** The replies of the kernel: datagrams with interruptions between them, and
    what [close] returns. *)
Definition receive_reply (d : list Z) : reply := Reply (Z.of_nat (length d)) 0 d [].
Definition EINTR_REPLY : reply := Reply (-1) EINTR [] [].
Fixpoint arrivals (c : reply) (ds : list (nat * list Z)) : list reply :=
  match ds with
  | [] => []
  | (ints, d) :: ds' =>
      replicate ints EINTR_REPLY ++ receive_reply d ::
      if is_stop (interpret d) then [c] else arrivals c ds'
  end.

(** ** Lemmas *)
Lemma printed_app t t' : printed (t ++ t') = printed t ++ printed t'.
Proof. apply omap_app. Qed.

Lemma upto_nul_cons c l : upto_nul (c :: l) = if c =? 0 then [] else c :: upto_nul l.
Proof.
  unfold upto_nul. simpl. destruct (c =? 0); [done|]. by destruct (cstr_terminated l []) as (s & -> & _).
Qed.

(** [strncmp] compares fields. *)
Lemma strncmp_field a b n : strncmp a b n = 0 <-> upto_nul (take n a) = upto_nul (take n b).
Proof.
  revert a b. induction n as [|n IH]; intros a b; [done|].
  destruct a as [|x a], b as [|y b]; cbn [strncmp hd tl take]; rewrite ?upto_nul_cons.
  - done.
  - destruct (Z.eqb_spec 0 y) as [<-|]; [done|]. destruct (Z.eqb_spec y 0); [done|]. split; [lia|done].
  - destruct (Z.eqb_spec x 0) as [->|]; [done|]. split; [lia|done].
  - destruct (Z.eqb_spec x y) as [->|].
    + destruct (Z.eqb_spec y 0); [done|]. rewrite IH. split; congruence.
    + destruct (Z.eqb_spec x 0) as [->|], (Z.eqb_spec y 0) as [->|]; split; intros; simplify_eq; lia || done.
Qed.

(** A literal that fits the field is its own field. *)
Lemma strncmp_literal a l n :
  upto_nul (take n l) = l -> (strncmp a l n =? 0) = bool_decide (upto_nul (take n a) = l).
Proof.
  intros Hl. destruct (Z.eqb_spec (strncmp a l n) 0) as [E|E].
  - rewrite bool_decide_true; [done|]. apply strncmp_field in E. by rewrite Hl in E.
  - rewrite bool_decide_false; [done|]. intros H. apply E, strncmp_field. by rewrite Hl.
Qed.

Lemma logins_fit : Forall (fun l => upto_nul (take 16 l) = l) LOGINS.
Proof. vm_decide. Qed.
Lemma commands_fit : Forall (fun l => upto_nul (take 8 l) = l) COMMANDS.
Proof. vm_decide. Qed.

Lemma check_login_spec b : check_login b = bool_decide (upto_nul (take 16 b) ∈ LOGINS).
Proof.
  unfold check_login. change (Z.to_nat LOGIN_LEN) with 16%nat. generalize logins_fit. generalize LOGINS. intros ls Hls.
  induction Hls as [|l ls Hl _ IH]; [done|]. cbn [existsb].
  rewrite (strncmp_literal b l 16 Hl), IH.
  rewrite <- bool_decide_or. apply bool_decide_ext. by rewrite elem_of_cons.
Qed.

Lemma command_index_spec b cs i :
  Forall (fun c => upto_nul (take 8 c) = c) cs -> 0 <= i ->
  (command_index b cs i = -1 /\ upto_nul (take 8 b) ∉ cs) \/
  exists k, cs !! k = Some (upto_nul (take 8 b)) /\ command_index b cs i = i + Z.of_nat k.
Proof.
  intros Hcs. revert i. induction Hcs as [|c cs Hc _ IH]; intros i Hi; cbn [command_index].
  - left. split; [done|]. apply not_elem_of_nil.
  - change (Z.to_nat COMMAND_LEN) with 8%nat. rewrite (strncmp_literal b c 8 Hc). case_bool_decide as E.
    + right. exists 0%nat. simpl. split; [by f_equal|lia].
    + destruct (IH (i + 1)) as [[-> Hn]|(k & Hk & ->)]; [lia|left; set_solver|].
      right. exists (S k). simpl. split; [done|lia].
Qed.

(** The ten words one after the other. *)
Lemma of_be_ntohl w : Forall byte w -> length w = 4%nat -> ntohl (of_le w) = of_be w.
Proof. intros Hw Hl. unfold ntohl, bswap. by rewrite <- Hl, le_bytes_of. Qed.

Lemma slice_segment {A} (p w r : list A) i n :
  i = Z.of_nat (length p) -> n = Z.of_nat (length w) -> mem_slice (p ++ w ++ r) i n = Some w.
Proof.
  intros -> ->. unfold mem_slice.
  rewrite (proj2 (Z.leb_le _ _)), (proj2 (Z.leb_le _ _)), (proj2 (Z.leb_le _ _)) by (llen; lia). simpl.
  by rewrite !Nat2Z.id, drop_app_length, take_app_length.
Qed.

Lemma params_run ws : forall k p r env,
  Forall (fun w => length w = 4%nat /\ Forall byte w) ws -> Z.of_nat (length p) = 24 + 4 * k ->
  exists m t, run (for_each param (seqZ k (Z.of_nat (length ws))) (p ++ concat ws ++ r)) env = (Done m env, t) /\
    length m = length (p ++ concat ws ++ r) /\
    printed t = (fun v => ("%u "%string, [PZ v])) <$> (of_be <$> ws).
Proof.
  induction ws as [|w ws IH]; intros k p r env Hws Hp.
  - simpl. eexists _, _. done.
  - apply Forall_cons in Hws as [[Hw Hb] Hws]. rewrite seqZ_cons by (simpl; lia).
    replace (Z.pred (Z.of_nat (length (w :: ws)))) with (Z.of_nat (length ws)) by (simpl; lia).
    cbn [for_each concat]. unfold param at 1. rewrite <- !app_assoc.
    rewrite (slice_segment p w) by (unfold HEADER_LEN, LOGIN_LEN, COMMAND_LEN; lia). cbn [defined pbind].
    rewrite (mem_store_segment p w) by (rewrite ?le_bytes_length; unfold HEADER_LEN, LOGIN_LEN, COMMAND_LEN; lia).
    cbn [defined pbind printf run]. rewrite of_be_ntohl by done.
    set (w' := le_bytes 4 _). assert (length w' = 4%nat) as Hw' by apply le_bytes_length.
    rewrite app_assoc. destruct (IH (Z.succ k) (p ++ w') r env Hws) as (m & t & -> & Hl & Ht).
    { rewrite length_app, Hw'. lia. }
    eexists _, _. split; [done|]. split; [|exact (f_equal (cons _) Ht)].
    rewrite Hl, !length_app, Hw, Hw'. lia.
Qed.

Lemma words_concat n d : (4 * n <= length d)%nat -> concat (words n d) ++ drop (4 * n) d = d.
Proof.
  revert d. induction n as [|n IH]; intros d Hn; [done|]. cbn [words concat].
  replace (4 * S n)%nat with (4 + 4 * n)%nat by lia.
  rewrite <- app_assoc, <- drop_drop, IH by (rewrite length_drop; lia). apply take_drop.
Qed.

Lemma words_ok n d :
  (4 * n <= length d)%nat -> Forall byte d -> Forall (fun w => length w = 4%nat /\ Forall byte w) (words n d).
Proof.
  revert d. induction n as [|n IH]; intros d Hn Hd; constructor.
  - split; [rewrite length_take; lia|by apply Forall_take].
  - apply IH; [rewrite length_drop; lia|by apply Forall_drop].
Qed.

Lemma words_length n d : length (words n d) = n.
Proof. revert d. induction n; intros; simpl; auto. Qed.

Lemma command_cases k c :
  COMMANDS !! k = Some c ->
  (k = 1%nat /\ c = str "EXIT") \/ (k = 3%nat /\ c = str "COMPUTE") \/
  (k <> 1%nat /\ k <> 3%nat /\ c <> str "COMPUTE" /\ c <> str "EXIT").
Proof. destruct k as [|[|[|[|[|[|?]]]]]]; intros [= <-]; auto 7. Qed.

(** The struct as the loop over [m.params] sees it. *)
Lemma params_area d k old :
  (24 <= length d <= 64)%nat -> length (drop 24 d) = (4 * k)%nat ->
  take 64 (d ++ old) = take 24 d ++ concat (words k (drop 24 d)) ++ take (64 - length d) old.
Proof.
  intros Hd Hk. rewrite <- (app_nil_r (concat _)).
  assert (concat (words k (drop 24 d)) = drop 24 d) as ->.
  { rewrite <- (words_concat k (drop 24 d)) at 2 by lia. by rewrite (drop_ge (drop 24 d)), app_nil_r by lia. }
  rewrite app_nil_r, app_assoc, take_drop. by rewrite take_app, (take_ge d) by lia.
Qed.

(** One datagram into a struct that holds anything. *)
Lemma receive_run fd m d c env :
  length m = MESSAGE_SIZE -> (length d <= 65)%nat -> Forall byte d ->
  exists t, printed t = render (interpret d) /\
    if is_stop (interpret d) then
      run (receive fd m) (receive_reply d :: c :: env) = (Done (inr 0) env, t)
    else exists m', run (receive fd m) (receive_reply d :: env) = (Done (inl m') env, t) /\ length m' = MESSAGE_SIZE.
Proof.
  intros Hm Hd Hb. unfold MESSAGE_SIZE in *. unfold receive, receive_reply. cbn [pbind sys run rv rdata rerr].
  destruct (Z.ltb_spec (Z.of_nat (length d)) 0); [lia|].
  rewrite mem_store_is_Some by lia. change (Z.to_nat 0) with 0%nat. rewrite take_0. cbn [app defined pbind Nat.add].
  set (m1 := d ++ drop (length d) m). assert (length m1 = 68%nat) as Hm1 by (unfold m1; llen).
  unfold interpret. change HEADER_LEN with 24. change MSG_MAX with 64.
  destruct (Z.ltb_spec (Z.of_nat (length d)) 24), (Z.ltb_spec 64 (Z.of_nat (length d))); cbn [orb];
    case_decide; try lia; [eexists; split; [|eexists; split; [done|done]]; done..|].
  assert (login m1 = take 16 d) as Hlogin by (unfold login, m1; by rewrite take_app_le by lia).
  assert (command m1 = take 8 (drop 16 d)) as Hcommand.
  { unfold command, m1. rewrite drop_app_le by lia. by rewrite take_app_le by (rewrite length_drop; lia). }
  rewrite check_login_spec, Hlogin, Hcommand. rewrite take_take. change (16 `min` 16)%nat with 16%nat.
  change (upto_nul (take 16 d)) with (field 0 16 d). change (upto_nul (take 8 (drop 16 d))) with (field 16 8 d).
  set (l := field 0 16 d). set (cm := field 16 8 d).
  rewrite bool_decide_decide. destruct (decide (l ∈ LOGINS)) as [Hl|Hl]; cbn [negb];
    case_decide; try done; [|eexists; split; [|eexists; split; [done|done]]; done].
  unfold check_command.
  destruct (command_index_spec (take 8 (drop 16 d)) COMMANDS 0 commands_fit) as [[-> Hc]|(k & Hk & ->)]; [done| |];
    rewrite take_take in *; change (upto_nul (take (8 `min` 8) (drop 16 d))) with cm in *.
  { rewrite decide_True by done. eexists; split; [|eexists; split; [done|done]]; done. }
  clearbody l cm. pose proof (list_elem_of_lookup_2 _ _ _ Hk) as Hin.
  rewrite (decide_False (P := cm ∉ COMMANDS)) by (intros Hn; by apply Hn).
  rewrite Z.add_0_l. destruct (Z.eqb_spec (Z.of_nat k) (-1)); [lia|].
  apply command_cases in Hk as [[-> ->]|[[-> ->]|(Hk1 & Hk2 & Hc1 & Hc2)]].
  - change (Z.of_nat 1 =? EXIT) with true. cbv iota. rewrite (decide_False (P := str "EXIT" = _)) by done.
    rewrite (decide_True (P := str "EXIT" = str "EXIT")) by done.
    destruct (Z.eqb_spec (Z.of_nat (length d) - 24) 0); cbn [negb]; case_decide; try done;
      (eexists; split; [|try (eexists; split); done]; done).
  - change (Z.of_nat 3 =? EXIT) with false. change (Z.of_nat 3 =? COMPUTE) with true. cbv iota.
    rewrite (decide_True (P := str "COMPUTE" = _)) by done.
    destruct (Z.eqb_spec (Z.of_nat (length d) - 24) 0); case_decide; try done;
      [eexists; split; [|eexists; split; done]; done|].
    change (2 * 4) with 8. destruct (Z.eqb_spec ((Z.of_nat (length d) - 24) mod 8) 0); cbn [negb]; case_decide; try done;
      [|eexists; split; [|eexists; split; done]; done].
    match goal with E : _ mod 8 = 0 |- _ => apply Z.mod_divide in E as [q Hq]; [|done] end.
    rewrite Hq in *. assert (q * 8 / 4 = Z.of_nat (Z.to_nat (2 * q))) as ->.
    { replace (q * 8) with (2 * q * 4) by lia. rewrite Z.div_mul; lia. }
    set (k := Z.to_nat (2 * q)). rewrite !Nat2Z.id.
    assert (length (drop 24 d) = 4 * k)%nat as Hk by (rewrite length_drop; unfold k; lia).
    rewrite mem_store_is_Some by (rewrite ?le_bytes_length; lia). cbn [defined pbind printf run is_stop].
    change (take (Z.to_nat 64) m1) with (take 64 (d ++ drop (length d) m)).
    rewrite (params_area d k) by (done || lia). rewrite run_bind, <- !app_assoc.
    set (tl := _ ++ le_bytes 4 _ ++ _). assert (24 + 4 * k + length tl = 68)%nat as Htl.
    { unfold tl. rewrite !length_app, le_bytes_length, length_take, !length_drop, Hm, Hm1.
      rewrite length_drop in Hk. change (Z.to_nat 64) with 64%nat. lia. }
    destruct (params_run (words k (drop 24 d)) 0 (take 24 d) tl env)
      as (m' & t & Hrun & Hlen & Ht); [apply words_ok; [lia|by apply Forall_drop]|rewrite length_take; lia|].
    pose proof (words_concat k (drop 24 d) ltac:(lia)) as Hwords. rewrite (drop_ge (drop 24 d)), app_nil_r in Hwords by lia.
    rewrite words_length in Hrun. rewrite Hrun. cbn [run ignored pbind]. eexists. split; [|eexists; split; [done|]].
    + unfold printed in *. cbn [omap list_omap render]. f_equal. by rewrite omap_app, Ht, app_nil_r.
    + rewrite Hlen, !length_app, length_take. apply (f_equal length) in Hwords. rewrite Hwords. lia.
  - rewrite (decide_False (P := cm = _)) by done. rewrite (decide_False (P := cm = str "EXIT")) by done.
    destruct (Z.eqb_spec (Z.of_nat k) EXIT) as [E|_]; [unfold EXIT in E; lia|].
    destruct (Z.eqb_spec (Z.of_nat k) COMPUTE) as [E|_]; [unfold COMPUTE in E; lia|].
    destruct (Z.eqb_spec (Z.of_nat (length d) - 24) 0); cbn [negb]; case_decide; try done;
      (eexists; split; [|eexists; split; done]; done).
Qed.

(** An interruption only costs a turn. *)
Lemma receive_interrupted n fd m ints env :
  exists t, printed t = [] /\ forall o t',
    run (loop n (receive fd) m) env = (o, t') ->
    run (loop (ints + n) (receive fd) m) (replicate ints EINTR_REPLY ++ env) = (o, t ++ t').
Proof.
  induction ints as [|ints (t & Ht & IH)]; [by exists []|].
  exists (ECall (Recvfrom fd (MSG_MAX + 1)) EINTR_REPLY :: t). split; [done|]. intros o t' Hr.
  cbn [Nat.add replicate app]. rewrite loop_S, run_bind. unfold receive at 1. cbn [run pbind sys rv rerr].
  change (rv EINTR_REPLY <? 0) with true. change (rerr EINTR_REPLY =? EINTR) with true. cbn [run].
  by rewrite (IH _ _ Hr).
Qed.

Definition stopped (ds : list (nat * list Z)) : bool := existsb (fun p => is_stop (interpret p.2)) ds.
(** The turns of the loop: one per datagram and interruption, and a last one. *)
Definition turns (ds : list (nat * list Z)) : nat := S (sum_list_with (fun p => p.1 + 1)%nat ds).

Lemma eden_loop fd c ds : forall extra m,
  length m = MESSAGE_SIZE -> Forall (fun p => (length p.2 <= 65)%nat /\ Forall byte p.2) ds ->
  exists t, run (loop (turns ds + extra) (receive fd) m) (arrivals c ds)
      = (if stopped ds then Done 0 [] else Blocked, t) /\
    printed t = answers ds.*2.
Proof.
  induction ds as [|[ints d] ds IH]; intros extra m Hm Hds.
  - eexists. cbn [turns sum_list_with Nat.add]. rewrite loop_S, run_bind. by cbn.
  - apply Forall_cons in Hds as [[Hd Hb] Hds]. cbn [arrivals fmap list_fmap answers snd].
    replace (turns ((ints, d) :: ds) + extra)%nat with (ints + S (turns ds + extra))%nat
      by (unfold turns; simpl; lia).
    set (env := receive_reply d :: _).
    destruct (receive_interrupted (S (turns ds + extra)) fd m ints env) as (t0 & Ht0 & Hints).
    assert (exists t, run (loop (S (turns ds + extra)) (receive fd) m) env
      = (if stopped ((ints, d) :: ds) then Done 0 [] else Blocked, t) /\
        printed t = render (interpret d) ++ if is_stop (interpret d) then [] else answers ds.*2) as (t & Hr & Ht).
    { destruct (receive_run fd m d c [] Hm Hd Hb) as (t & Ht & _). clear t Ht.
      rewrite loop_S, run_bind. unfold env, stopped. cbn [existsb snd]. fold (stopped ds).
      destruct (is_stop (interpret d)) eqn:Es; cbn [orb].
      - destruct (receive_run fd m d c [] Hm Hd Hb) as (t & Ht & Hr). rewrite Es in Hr. rewrite Hr. cbn [run].
        eexists. split; [done|]. by rewrite printed_app, Ht.
      - destruct (receive_run fd m d c (arrivals c ds) Hm Hd Hb) as (t & Ht & Hr). rewrite Es in Hr.
        destruct Hr as (m' & -> & Hm'). destruct (IH extra m' Hm' Hds) as (t' & -> & Ht').
        eexists. split; [done|]. by rewrite printed_app, Ht, Ht'. }
    exists (t0 ++ t). split; [by apply Hints|]. by rewrite printed_app, Ht0, Ht.
Qed.

(** C31. The server answers every datagram by its own bytes: for any sequence
    of datagrams of up to 65 bytes, with interruptions between them and
    whatever the struct held before, the output is that of the meanings of
    the datagrams, one by one, up to the first EXIT, on which the server
    closes its socket and returns 0; a datagram shorter than the struct never
    shows bytes of an earlier one, and no access leaves the struct. *)
Theorem eden_answers fd c ds extra junk :
  length junk = MESSAGE_SIZE -> Forall (fun p => (length p.2 <= 65)%nat /\ Forall byte p.2) ds ->
  exists t, run (loop (turns ds + extra) (receive fd) junk) (arrivals c ds)
      = (if stopped ds then Done 0 [] else Blocked, t) /\
    printed t = answers ds.*2.
Proof. apply eden_loop. Qed.

Definition eden_message (l c : string) (ps : list Z) : list Z :=
  str l ++ replicate (16 - String.length l) 0 ++ str c ++ replicate (8 - String.length c) 0 ++
  concat ((fun v => le_bytes 4 (htonl v)) <$> ps).

Lemma eden_answers_witness :
  let ds := [(0%nat, eden_message "hermant" "COMPUTE" [7; 300; 1; 4294967295]);
             (2%nat, eden_message "turs" "COMPUTE" [5; 6]);
             (0%nat, eden_message "jastrzebskaaaaaa" "PAUSE" []);
             (0%nat, eden_message "turs" "COMPUTER" [1; 2]);
             (1%nat, eden_message "nobody" "RUN" []);
             (0%nat, eden_message "turs" "EXIT" [])] in
  exists t, run (loop (turns ds + 0) (receive 3) (replicate 68 255)) (arrivals (rint 0) ds) = (Done 0 [], t) /\
    printed t =
      [("%.16s: %.8s ", [PS (str "hermant"); PS (str "COMPUTE")]); ("%u ", [PZ 7]); ("%u ", [PZ 300]); ("%u ", [PZ 1]);
       ("%u ", [PZ 4294967295]);
       ("%.16s: %.8s ", [PS (str "turs"); PS (str "COMPUTE")]); ("%u ", [PZ 5]); ("%u ", [PZ 6]);
       ("%.16s: %.8s", [PS (str "jastrzebskaaaaaa"); PS (str "PAUSE")]);
       ("error: unknown command %.8s", [PS (str "COMPUTER")]);
       ("error: wrong login %.16s", [PS (str "nobody")]);
       ("%.16s: %.8s", [PS (str "turs"); PS (str "EXIT")])]%string.
Proof.
  intros ds. destruct (eden_answers 3 (rint 0) ds 0 (replicate 68 255)) as (t & Hr & Ht); [done|vm_decide|].
  exists t. split; [rewrite Hr; reflexivity|]. rewrite Ht. vm_compute. reflexivity.
Defined.
