(* ===== verification/Balls.v ===== *)
(** * sop1/lab/l3/prog18.c

    Throwers take balls from a common count, throw each into one of eleven
    bins and count it, every variable under its own mutex; the main thread
    polls the count and then reads the bins without any lock.  A step is one
    call, one load or one store of the shared state; [sleep] has no step.
    [rand_r] is a parameter: from a seed, the number and the next seed. *)

From S2P Require Import Prelude CLib Os Threads LabCommon.

Local Open Scope Z_scope.

Definition BIN_COUNT : Z := 11.
Definition RAND_MAX : Z := INT_MAX.

(** A mutex is [true] while it is held. *)
Record shared_state := Shared {
  balls_waiting : Z;
  bins : list Z;
  balls_thrown : Z;
  bins_mtx : list bool;
  balls_waiting_mtx : bool;
  balls_thrown_mtx : bool }.

(** What [main] prints: the bins, and at the end the total and the sum the
    mean is computed from. *)
Inductive line := BinLine (v : Z) | TotalLine (final_balls_count mean_sum : Z).

Section Program.
Variable rand_r : Z -> Z * Z.

(** [NEXT_DOUBLE(seed) > 0.5]; the quotient is exact enough in double. *)
Definition above_half (r : Z) : bool := RAND_MAX <? 2 * r.

(** [n] turns of the loop of [throw_ball]. *)
Fixpoint throw_from (n : nat) (seed result : Z) : Z * Z :=
  match n with
  | O => (result, seed)
  | S n' =>
      let '(r, seed) := rand_r seed in
      throw_from n' seed (if above_half r then result + 1 else result)
  end.
Definition throw_ball (seed : Z) : Z * Z := throw_from (Z.to_nat (BIN_COUNT - 1)) seed 0.

(** [throwing_func]: the balls waiting, the bin, the balls thrown. *)
Inductive thrower_pc :=
| WLock | WTest | WLoad | WStore (v : Z) | WUnlock | WQuit
| Throw
| BLock (binno : Z) | BLoad (binno : Z) | BStore (binno v : Z) | BUnlock (binno : Z)
| TLock | TLoad | TStore (v : Z) | TUnlock
| Returned.

(** [main] after [make_throwers], with its local [balls_thrown]. *)
Inductive main_pc :=
| MTest (thrown : Z) | MLock | MLoad | MUnlock (thrown : Z)
| MCount (i final : Z) (mean : Z) | MMean (i final mean : Z)
| MPrint (i final mean : Z) | MTotal (final mean : Z)
| MExit.

Inductive thread := Main (balls_count : Z) (pc : main_pc) | Thrower (seed : Z) (pc : thrower_pc).

Record world := World { shared : shared_state; stdout : list line }.

Definition thrower (seed : Z) (pc : thrower_pc) (x : shared_state) : list (thread * shared_state) :=
  let '(Shared w b n bm wm tm) := x in
  let go pc x := [(Thrower seed pc, x)] in
  let stop {A} (o : option A) (f : A -> list (thread * shared_state)) := match o with Some a => f a | None => [] end in
  match pc with
  | WLock => stop (lock wm) (fun wm => go WTest (Shared w b n bm wm tm))
  | WTest => go (if 0 <? w then WLoad else WQuit) x
  | WLoad => go (WStore w) x
  | WStore v => stop (checked_int (v - 1)) (fun w => go WUnlock (Shared w b n bm wm tm))
  | WUnlock => go Throw (Shared w b n bm false tm)
  | WQuit => go Returned (Shared w b n bm false tm)
  | Throw => let '(binno, seed) := throw_ball seed in [(Thrower seed (BLock binno), x)]
  | BLock i => stop (mem_load bm i ≫= lock) (fun h => stop (mem_store bm i [h]) (fun bm => go (BLoad i) (Shared w b n bm wm tm)))
  | BLoad i => stop (mem_load b i) (fun v => go (BStore i v) x)
  | BStore i v =>
      stop (checked_int (v + 1)) (fun v => stop (mem_store b i [v]) (fun b => go (BUnlock i) (Shared w b n bm wm tm)))
  | BUnlock i => stop (mem_store bm i [false]) (fun bm => go TLock (Shared w b n bm wm tm))
  | TLock => stop (lock tm) (fun tm => go TLoad (Shared w b n bm wm tm))
  | TLoad => go (TStore n) x
  | TStore v => stop (checked_int (v + 1)) (fun n => go TUnlock (Shared w b n bm wm tm))
  | TUnlock => go WLock (Shared w b n bm wm false)
  | Returned => []
  end.

Definition main_loop (balls_count : Z) (pc : main_pc) (x : world) : list (thread * world) :=
  let '(World (Shared w b n bm wm tm as s) so) := x in
  let go pc x := [(Main balls_count pc, x)] in
  let stop {A} (o : option A) (f : A -> list (thread * world)) := match o with Some a => f a | None => [] end in
  match pc with
  | MTest t => go (if t <? balls_count then MLock else MCount 0 0 0) x
  | MLock => stop (lock tm) (fun tm => go MLoad (World (Shared w b n bm wm tm) so))
  | MLoad => go (MUnlock n) x
  | MUnlock t => go (MTest t) (World (Shared w b n bm wm false) so)
  | MCount i f m =>
      if i <? BIN_COUNT then
        stop (mem_load b i) (fun v => stop (checked_int (f + v)) (fun f => go (MMean i f m) x))
      else go (MPrint 0 f m) x
  | MMean i f m =>      (* shared.bins[i] * i is an int *)
      stop (mem_load b i) (fun v => stop (checked_int (v * i)) (fun p => go (MCount (i + 1) f (m + p)) x))
  | MPrint i f m =>
      if i <? BIN_COUNT then stop (mem_load b i) (fun v => go (MPrint (i + 1) f m) (World s (so ++ [BinLine v])))
      else go (MTotal f m) x
  | MTotal f m => go MExit (World s (so ++ [TotalLine f m]))
  | MExit => []
  end.

Definition step (_ : nat) (t : thread) (x : world) : list (thread * world) :=
  match t with
  | Main c pc => main_loop c pc x
  | Thrower seed pc => (fun '(t, s) => (t, World s (stdout x))) <$> thrower seed pc (shared x)
  end.

Definition initial_state (balls_count : Z) : shared_state :=
  Shared balls_count (replicate (Z.to_nat BIN_COUNT) 0) 0 (replicate (Z.to_nat BIN_COUNT) false) false false.

Definition start (balls_count : Z) (seeds : list Z) : list thread * world :=
  (Main balls_count (MTest 0) :: ((fun s => Thrower s WLock) <$> seeds), World (initial_state balls_count) []).
End Program.

(** ** Around the threads *)
Definition usage {A} : prog A :=
  printf "Usage: %s [num_balls>0] [num_throwers>0]" [] ;;; Exit EXIT_FAILURE.

(** The seeds given to the throwers. *)
Definition make_throwers (throwers_count : Z) : prog (list Z) :=
  let! args := sys (Malloc (24 * throwers_count)) in
  if rv args =? 0 then ERR "malloc" else
  let! r := sys (Libc "pthread_attr_init" []) in
  if negb (rv r =? 0) then ERR "pthread_attr_init" else
  let! r := sys (Libc "pthread_attr_setdetachstate" []) in
  if negb (rv r =? 0) then ERR "pthread_attr_setdetachstate" else
  ignored "srand(time(NULL))" [] ;;;
  let! seeds := for_each (fun i seeds =>
    let! seed := sys (Libc "rand" []) in
    let! c := sys (Spawn "throwing_func" i) in
    if negb (rv c =? 0) then ERR "pthread_create" else Ret (seeds ++ [wrap_u 32 (rv seed)]))
    (seqZ 0 throwers_count) [] in
  ignored "pthread_attr_destroy" [] ;;; Ret seeds.

(** [main] up to the threads: the count and the seeds of [start]. *)
Definition main (args : list (list Z)) : prog (Z * list Z) :=
  match args with
  | [balls; throwers] =>
      let balls_count := atoi balls in
      let throwers_count := atoi throwers in
      if (balls_count <=? 0) || (throwers_count <=? 0) then usage else
      for_each (fun _ _ =>
        let! r := sys (Libc "pthread_mutex_init" []) in
        if negb (rv r =? 0) then ERR "pthread_mutex_init" else Ret tt) (seqZ 0 BIN_COUNT) tt ;;;
      let! seeds := make_throwers throwers_count in
      Ret (balls_count, seeds)
  | _ => usage
  end.

(** ** Where the balls are *)
Fixpoint weighted_from (i : Z) (l : list Z) : Z :=
  match l with [] => 0 | v :: l' => v * i + weighted_from (i + 1) l' end.
Definition weighted (l : list Z) : Z := weighted_from 0 l.

(** A ball taken and not yet in a bin, a ball in a bin and not yet counted. *)
Definition flying (t : thread) : Z :=
  match t with
  | Thrower _ (WUnlock | Throw | BLock _ | BLoad _ | BStore _ _) => 1
  | _ => 0
  end.
Definition uncounted (t : thread) : Z :=
  match t with Thrower _ (BUnlock _ | TLock | TLoad | TStore _) => 1 | _ => 0 end.

Definition holds_waiting (t : thread) : bool :=
  match t with Thrower _ (WTest | WLoad | WStore _ | WUnlock | WQuit) => true | _ => false end.
Definition holds_thrown (t : thread) : bool :=
  match t with
  | Thrower _ (TLoad | TStore _ | TUnlock) | Main _ (MLoad | MUnlock _) => true
  | _ => false
  end.
Definition holds_bin (i : Z) (t : thread) : bool :=
  match t with Thrower _ (BLoad k | BStore k _ | BUnlock k) => k =? i | _ => false end.

(** What a thread knows of the shared state. *)
Definition thrower_knows (s : shared_state) (pc : thrower_pc) : Prop :=
  match pc with
  | WLoad => 0 < balls_waiting s
  | WStore v => v = balls_waiting s /\ 0 < v
  | WQuit | Returned => balls_waiting s = 0
  | BLock i | BLoad i | BUnlock i => 0 <= i < BIN_COUNT
  | BStore i v => 0 <= i < BIN_COUNT /\ bins s !! Z.to_nat i = Some v
  | TStore v => v = balls_thrown s
  | _ => True
  end.
Definition main_knows (c : Z) (x : world) (pc : main_pc) : Prop :=
  let b := bins (shared x) in
  let counted := balls_thrown (shared x) = c in
  let upto i := take (Z.to_nat i) b in
  match pc with
  | MTest t | MUnlock t => t <= balls_thrown (shared x) /\ stdout x = []
  | MLock | MLoad => stdout x = []
  | MCount i f m => counted /\ 0 <= i <= BIN_COUNT /\ f = total id (upto i) /\ m = weighted (upto i) /\ stdout x = []
  | MMean i f m => counted /\ 0 <= i < BIN_COUNT /\ f = total id (upto (i + 1)) /\ m = weighted (upto i) /\ stdout x = []
  | MPrint i f m => counted /\ 0 <= i <= BIN_COUNT /\ f = total id b /\ m = weighted b /\ stdout x = BinLine <$> upto i
  | MTotal f m => counted /\ f = total id b /\ m = weighted b /\ stdout x = BinLine <$> b
  | MExit => counted /\ stdout x = (BinLine <$> b) ++ [TotalLine (total id b) (weighted b)]
  end.
Definition knows (c : Z) (x : world) (t : thread) : Prop :=
  match t with
  | Main c' pc => c' = c /\ main_knows c x pc
  | Thrower _ pc => thrower_knows (shared x) pc
  end.

Record inv (c : Z) (ls : list thread) (x : world) : Prop := {
  inv_main j t : ls !! j = Some t -> (j = 0%nat <-> exists pc, t = Main c pc);
  inv_waiting_mtx : count holds_waiting ls = Z.b2z (balls_waiting_mtx (shared x));
  inv_thrown_mtx : count holds_thrown ls = Z.b2z (balls_thrown_mtx (shared x));
  inv_bins_mtx i h : bins_mtx (shared x) !! Z.to_nat i = Some h -> 0 <= i -> count (holds_bin i) ls = Z.b2z h;
  inv_sizes : Z.of_nat (length (bins (shared x))) = BIN_COUNT /\ Z.of_nat (length (bins_mtx (shared x))) = BIN_COUNT;
  inv_bins : Forall (fun v => 0 <= v) (bins (shared x));
  inv_balls : balls_waiting (shared x) + total flying ls + total id (bins (shared x)) = c /\ 0 <= balls_waiting (shared x);
  inv_thrown : balls_thrown (shared x) + total uncounted ls = total id (bins (shared x)) /\ 0 <= balls_thrown (shared x);
  inv_knows j t : ls !! j = Some t -> knows c x t;
}.

Lemma flying_bool t : 0 <= flying t.
Proof. by destruct t as [|? []]. Qed.
Lemma uncounted_bool t : 0 <= uncounted t.
Proof. by destruct t as [|? []]. Qed.

Lemma b2z_bool b : 0 <= Z.b2z b <= 1.
Proof. by destruct b. Qed.

(** Bins are non-negative and hold no more than all balls. *)
Lemma bin_bound b i v : Forall (fun v => 0 <= v) b -> b !! i = Some v -> 0 <= v <= total id b.
Proof.
  intros Hb. revert i. induction Hb as [|y b Hy Hb IH]; intros i Hi; [done|]. cbn [total].
  assert (0 <= total id b) as H0 by (clear -Hb; induction Hb; [done|cbn [total]; unfold id at 1; lia]).
  unfold id at 1. destruct i as [|i]; simplify_eq/=; [lia|]. specialize (IH i Hi). lia.
Qed.

Lemma bins_nonneg b : Forall (fun v => 0 <= v) b -> 0 <= total id b.
Proof. induction 1; [done|]. cbn [total]. unfold id at 1. lia. Qed.

Lemma throw_range rand_r n seed result :
  result <= (throw_from rand_r n seed result).1 <= result + Z.of_nat n.
Proof.
  revert seed result. induction n as [|n IH]; intros seed result; [simpl; lia|].
  cbn [throw_from]. destruct (rand_r seed) as [r seed']. destruct (above_half r).
  - specialize (IH seed' (result + 1)). lia.
  - specialize (IH seed' result). lia.
Qed.

(** A ball lands in one of the bins. *)
Lemma throw_ball_range rand_r seed : 0 <= (throw_ball rand_r seed).1 < BIN_COUNT.
Proof. unfold throw_ball. pose proof (throw_range rand_r (Z.to_nat (BIN_COUNT - 1)) seed 0). unfold BIN_COUNT in *. lia. Qed.

(** Taking one more element. *)
Lemma take_next (b : list Z) i v :
  0 <= i -> b !! Z.to_nat i = Some v -> take (Z.to_nat (i + 1)) b = take (Z.to_nat i) b ++ [v].
Proof. intros Hi Hv. rewrite Z2Nat.inj_add by lia. rewrite Nat.add_1_r. by apply take_S_r. Qed.

Lemma total_app (f : Z -> Z) l l' : total f (l ++ l') = total f l + total f l'.
Proof. induction l as [|v l IH]; [done|]. cbn [app total]. lia. Qed.

Lemma weighted_snoc_from i l v : weighted_from i (l ++ [v]) = weighted_from i l + v * (i + Z.of_nat (length l)).
Proof.
  revert i. induction l as [|u l IH]; intros i; [simpl; lia|].
  change (weighted_from i ((u :: l) ++ [v])) with (u * i + weighted_from (i + 1) (l ++ [v])).
  change (weighted_from i (u :: l)) with (u * i + weighted_from (i + 1) l). rewrite IH. simpl length. lia.
Qed.

Lemma weighted_take_next b i v :
  0 <= i -> b !! Z.to_nat i = Some v -> weighted (take (Z.to_nat (i + 1)) b) = weighted (take (Z.to_nat i) b) + v * i.
Proof.
  intros Hi Hv. rewrite (take_next b i v) by done. unfold weighted. rewrite weighted_snoc_from, length_take.
  apply lookup_lt_Some in Hv. f_equal. f_equal. lia.
Qed.

Lemma total_take_next b i v :
  0 <= i -> b !! Z.to_nat i = Some v -> total id (take (Z.to_nat (i + 1)) b) = total id (take (Z.to_nat i) b) + v.
Proof. intros Hi Hv. rewrite (take_next b i v) by done. rewrite total_app. simpl. unfold id. lia. Qed.

(** ** A step of a thrower *)
Section ThrowerStep.
Context (c : Z) (ls : list thread) (s : shared_state) (so : list line).
Context (HI : inv c ls (World s so)).
Context (j : nat) (seed : Z) (pc : thrower_pc) (Hj : ls !! j = Some (Thrower seed pc)).

Lemma balls_flying : flying (Thrower seed pc) <= total flying ls.
Proof. apply (total_ge flying ls j); [apply flying_bool|done]. Qed.
Lemma balls_uncounted : uncounted (Thrower seed pc) <= total uncounted ls.
Proof. apply (total_ge uncounted ls j); [apply uncounted_bool|done]. Qed.

(** Once every ball is counted, none is on its way. *)
Lemma all_counted :
  balls_thrown s = c -> balls_waiting s = 0 /\ flying (Thrower seed pc) = 0 /\ uncounted (Thrower seed pc) = 0.
Proof.
  intros Hn. pose proof balls_flying. pose proof balls_uncounted. destruct (inv_balls _ _ _ HI), (inv_thrown _ _ _ HI).
  pose proof (flying_bool (Thrower seed pc)). pose proof (uncounted_bool (Thrower seed pc)). cbn [shared] in *. lia.
Qed.

Lemma waiting_alone k u : holds_waiting (Thrower seed pc) = true -> ls !! k = Some u -> k <> j -> holds_waiting u = false.
Proof.
  intros Ht Hk Hne. destruct (holds_waiting u) eqn:E; [|done]. destruct Hne.
  apply (count_two holds_waiting ls k j u _ Hk Hj E Ht). rewrite (inv_waiting_mtx _ _ _ HI). by destruct (balls_waiting_mtx _).
Qed.
Lemma thrown_alone k u : holds_thrown (Thrower seed pc) = true -> ls !! k = Some u -> k <> j -> holds_thrown u = false.
Proof.
  intros Ht Hk Hne. destruct (holds_thrown u) eqn:E; [|done]. destruct Hne.
  apply (count_two holds_thrown ls k j u _ Hk Hj E Ht). rewrite (inv_thrown_mtx _ _ _ HI). by destruct (balls_thrown_mtx _).
Qed.
Lemma bin_alone i k u :
  0 <= i < BIN_COUNT -> holds_bin i (Thrower seed pc) = true -> ls !! k = Some u -> k <> j -> holds_bin i u = false.
Proof.
  intros Hi Ht Hk Hne. destruct (holds_bin i u) eqn:E; [|done]. destruct Hne.
  destruct (inv_sizes _ _ _ HI) as [_ Hsz].
  destruct (lookup_lt_is_Some_2 (bins_mtx s) (Z.to_nat i)) as [h Hh]; [simpl in Hsz; lia|].
  apply (count_two (holds_bin i) ls k j u _ Hk Hj E Ht). rewrite (inv_bins_mtx _ _ _ HI i h Hh) by lia. by destruct h.
Qed.

(** What the others know survives a step that leaves the numbers alone. *)
Lemma knows_numbers s' u :
  balls_waiting s' = balls_waiting s -> bins s' = bins s -> balls_thrown s' = balls_thrown s ->
  knows c (World s so) u -> knows c (World s' so) u.
Proof.
  intros Hw Hb Hn. destruct u as [c' q|? q]; simpl; unfold main_knows, thrower_knows; simpl; rewrite Hw, Hb, Hn || rewrite Hb, Hn; done.
Qed.

Lemma thrower_frame seed' pc' s' :
  let t := Thrower seed pc in let t' := Thrower seed' pc' in
  Z.b2z (balls_waiting_mtx s') = Z.b2z (balls_waiting_mtx s) - Z.b2z (holds_waiting t) + Z.b2z (holds_waiting t') ->
  Z.b2z (balls_thrown_mtx s') = Z.b2z (balls_thrown_mtx s) - Z.b2z (holds_thrown t) + Z.b2z (holds_thrown t') ->
  length (bins_mtx s') = length (bins_mtx s) ->
  (forall i h h', 0 <= i -> bins_mtx s !! Z.to_nat i = Some h -> bins_mtx s' !! Z.to_nat i = Some h' ->
    Z.b2z h' = Z.b2z h - Z.b2z (holds_bin i t) + Z.b2z (holds_bin i t')) ->
  length (bins s') = length (bins s) -> Forall (fun v => 0 <= v) (bins s') ->
  balls_waiting s' + flying t' + total id (bins s') = balls_waiting s + flying t + total id (bins s) ->
  balls_thrown s' + uncounted t' - total id (bins s') = balls_thrown s + uncounted t - total id (bins s) ->
  0 <= balls_waiting s' -> 0 <= balls_thrown s' -> thrower_knows s' pc' ->
  (forall k u, ls !! k = Some u -> k <> j -> knows c (World s so) u -> knows c (World s' so) u) ->
  inv c (<[j := t']> ls) (World s' so).
Proof.
  intros t t' Hw Ht Hlm Hm Hlb Hb H1 H2 H3 H4 Hk Ho. destruct HI as [I1 I2 I3 I4 [I5 I5'] I6 I7 I8 I9]. cbn [shared stdout] in *.
  constructor; cbn [shared stdout].
  - intros k u Hku. insert_cases Hku; [|by apply I1]. rewrite (I1 _ _ Hj). naive_solver.
  - rewrite (count_insert _ _ _ _ _ Hj), I2, Hw. done.
  - rewrite (count_insert _ _ _ _ _ Hj), I3, Ht. done.
  - intros i h' Hh' Hi. destruct (lookup_lt_is_Some_2 (bins_mtx s) (Z.to_nat i)) as [h Hh].
    { apply lookup_lt_Some in Hh'. lia. }
    rewrite (count_insert _ _ _ _ _ Hj), (I4 i h Hh Hi), (Hm i h h' Hi Hh Hh'). done.
  - lia.
  - done.
  - rewrite (sum_over_insert _ _ _ _ _ Hj). fold t. lia.
  - rewrite (sum_over_insert _ _ _ _ _ Hj). fold t. lia.
  - intros k u Hku. insert_cases Hku; [done|]. apply (Ho k); [done|done|by apply (I9 k)].
Qed.

(** The steps that only move on or take and leave a mutex. *)
Lemma thrower_same seed' pc' :
  let t := Thrower seed pc in let t' := Thrower seed' pc' in
  holds_waiting t' = holds_waiting t -> holds_thrown t' = holds_thrown t -> (forall i, holds_bin i t' = holds_bin i t) ->
  flying t' = flying t -> uncounted t' = uncounted t -> thrower_knows s pc' ->
  inv c (<[j := t']> ls) (World s so).
Proof.
  intros t t' E1 E2 E3 E4 E5 Hk. destruct (inv_balls _ _ _ HI), (inv_thrown _ _ _ HI).
  apply thrower_frame; try done; fold t; fold t'; rewrite ?E1, ?E2, ?E4, ?E5; try lia; try apply HI.
  intros i h h' _ Hh Hh'. rewrite E3. simplify_eq. lia.
Qed.
End ThrowerStep.

(** The mutex of a bin set by a store. *)
Lemma bin_mtx_store (bm bm' : list bool) k h0 h' :
  mem_store bm k [h'] = Some bm' -> bm !! Z.to_nat k = Some h0 -> 0 <= k ->
  length bm' = length bm /\
  forall i h g, 0 <= i -> bm !! Z.to_nat i = Some h -> bm' !! Z.to_nat i = Some g ->
    Z.b2z g = Z.b2z h - Z.b2z h0 * Z.b2z (k =? i) + Z.b2z h' * Z.b2z (k =? i).
Proof.
  intros Hs Hk Hk0. pose proof (mem_store_length _ _ _ _ Hs) as Hl. split; [done|].
  rewrite (mem_store_one _ _ _ _ Hk Hk0) in Hs. injection Hs as <-.
  intros i h g Hi Hh Hg. destruct (Z.eqb_spec k i) as [->|Hne]; simpl.
  - rewrite list_lookup_insert_eq in Hg by by eapply lookup_lt_Some. simplify_eq. lia.
  - rewrite list_lookup_insert_ne in Hg by lia. simplify_eq. lia.
Qed.

(** The three stores, as the other threads see them. *)
Section Stores.
Context (c : Z) (ls : list thread) (s : shared_state) (so : list line).
Context (HI : inv c ls (World s so)).
Context (j : nat) (seed : Z) (pc : thrower_pc) (Hj : ls !! j = Some (Thrower seed pc)).

Lemma main_counting (k : nat) c' q s' :
  0 < flying (Thrower seed pc) + uncounted (Thrower seed pc) \/ 0 < balls_waiting s ->
  balls_thrown s <= balls_thrown s' ->
  knows c (World s so) (Main c' q) -> knows c (World s' so) (Main c' q).
Proof.
  intros Hb Hn. assert (balls_thrown s <> c) as Hne.
  { intros E. destruct (all_counted c ls s so HI j seed pc Hj E) as (?&?&?). lia. }
  destruct q; simpl; unfold main_knows; simpl; intuition lia.
Qed.

Lemma store_waiting v s' :
  pc = WStore v -> s' = Shared (v - 1) (bins s) (balls_thrown s) (bins_mtx s) (balls_waiting_mtx s) (balls_thrown_mtx s) ->
  forall k u, ls !! k = Some u -> k <> j -> knows c (World s so) u -> knows c (World s' so) u.
Proof.
  intros Hpc -> k u Hk Hne Hu. pose proof (inv_knows _ _ _ HI _ _ Hj) as Hv. rewrite Hpc in Hv. destruct Hv as [Hv Hv0]. cbn [shared] in Hv, Hv0.
  destruct u as [c' q|sd q].
  - apply (main_counting k); [right; lia|simpl; lia|done].
  - pose proof (waiting_alone c ls s so HI j seed pc Hj k _ ltac:(by rewrite Hpc) Hk Hne) as Ha.
    pose proof (inv_knows _ _ _ HI _ _ Hk) as Hq. destruct q; simpl in *; done || lia.
Qed.

Lemma store_thrown v s' :
  pc = TStore v -> s' = Shared (balls_waiting s) (bins s) (v + 1) (bins_mtx s) (balls_waiting_mtx s) (balls_thrown_mtx s) ->
  forall k u, ls !! k = Some u -> k <> j -> knows c (World s so) u -> knows c (World s' so) u.
Proof.
  intros Hpc -> k u Hk Hne Hu. pose proof (inv_knows _ _ _ HI _ _ Hj) as Hv. rewrite Hpc in Hv. simpl in Hv.
  destruct u as [c' q|sd q].
  - apply (main_counting k); [left; rewrite Hpc; simpl; lia|simpl; lia|done].
  - pose proof (thrown_alone c ls s so HI j seed pc Hj k _ ltac:(by rewrite Hpc) Hk Hne) as Ha.
    destruct q; simpl in *; done.
Qed.

Lemma store_bin i v s' :
  pc = BStore i v ->
  s' = Shared (balls_waiting s) (<[Z.to_nat i := v + 1]> (bins s)) (balls_thrown s) (bins_mtx s) (balls_waiting_mtx s) (balls_thrown_mtx s) ->
  forall k u, ls !! k = Some u -> k <> j -> knows c (World s so) u -> knows c (World s' so) u.
Proof.
  intros Hpc -> k u Hk Hne Hu. pose proof (inv_knows _ _ _ HI _ _ Hj) as Hv. rewrite Hpc in Hv. destruct Hv as [Hi Hv].
  destruct u as [c' q|sd q].
  - apply (main_counting k); [left; rewrite Hpc; simpl; lia|simpl; lia|done].
  - pose proof (bin_alone c ls s so HI j seed pc Hj i k _ Hi ltac:(rewrite Hpc; apply Z.eqb_refl) Hk Hne) as Ha.
    destruct q; simpl in *; try done. destruct Hu as [Hb Hu]. split; [done|].
    apply Z.eqb_neq in Ha. rewrite list_lookup_insert_ne by lia. done.
Qed.
End Stores.

Lemma bins_insert b k v w :
  b !! k = Some v -> 0 <= w -> Forall (fun v => 0 <= v) b ->
  Forall (fun v => 0 <= v) (<[k := w]> b) /\ total id (<[k := w]> b) = total id b - v + w.
Proof. intros Hk Hw Hb. split; [by apply Forall_insert|]. by rewrite (sum_over_insert id _ _ _ _ Hk). Qed.

(** Nothing but the mutexes: what [thrower_frame] asks beyond the counts. *)
Ltac same_bins := intros ???? Hh Hh'; cbn [bins_mtx] in *; simplify_eq; simpl; lia.

Lemma thrower_inv rand_r c ls s so j seed pc t' s' :
  0 <= c <= INT_MAX -> inv c ls (World s so) -> ls !! j = Some (Thrower seed pc) ->
  (t', s') ∈ thrower rand_r seed pc s -> inv c (<[j := t']> ls) (World s' so).
Proof.
  intros Hc HI Hj Hs. pose proof (inv_knows _ _ _ HI _ _ Hj) as Hk. pose proof (inv_sizes _ _ _ HI) as [Hsz Hszm].
  pose proof (inv_balls _ _ _ HI) as [Hb Hw0]. pose proof (inv_thrown _ _ _ HI) as [Hn Hn0].
  pose proof (balls_flying ls j seed pc Hj) as Hfl. pose proof (balls_uncounted ls j seed pc Hj) as Hun.
  pose proof (inv_bins _ _ _ HI) as Hpos. pose proof (bins_nonneg _ Hpos) as Hbn. cbn [shared] in *.
  destruct s as [w b n bm wm tm]. cbn [balls_waiting bins balls_thrown bins_mtx balls_waiting_mtx balls_thrown_mtx] in *.
  destruct pc; cbn [thrower] in Hs; simpl in Hk, Hfl, Hun.
  - destruct (lock wm) as [h|] eqn:E; [|by apply not_elem_of_nil in Hs]. apply lock_Some in E as [-> ->].
    apply list_elem_of_singleton in Hs as [= -> ->]. eapply thrower_frame; eauto; simpl; try lia; same_bins.
  - apply list_elem_of_singleton in Hs as [= -> ->].
    destruct (Z.ltb_spec 0 w); eapply thrower_same; eauto; simpl; lia.
  - apply list_elem_of_singleton in Hs as [= -> ->]. eapply thrower_same; eauto; simpl; auto.
  - rewrite (proj2 (checked_int_Some (v - 1) (v - 1))) in Hs by (limits; pose proof (total_nonneg flying ls flying_bool); lia).
    apply list_elem_of_singleton in Hs as [= -> ->]. pose proof (store_waiting c ls _ so HI j seed _ Hj v _ eq_refl eq_refl).
    eapply thrower_frame; eauto; simpl; try lia; same_bins.
  - apply list_elem_of_singleton in Hs as [= -> ->]. pose proof (inv_waiting_mtx _ _ _ HI) as Hm.
    pose proof (count_pos holds_waiting _ _ _ Hj eq_refl). pose proof (b2z_bool wm). simpl in Hm.
    eapply thrower_frame; eauto; simpl; try lia; same_bins.
  - apply list_elem_of_singleton in Hs as [= -> ->]. pose proof (inv_waiting_mtx _ _ _ HI) as Hm.
    pose proof (count_pos holds_waiting _ _ _ Hj eq_refl). pose proof (b2z_bool wm). simpl in Hm.
    eapply thrower_frame; eauto; simpl; try lia; same_bins.
  - destruct (throw_ball rand_r seed) as [i seed'] eqn:E. apply list_elem_of_singleton in Hs as [= -> ->].
    pose proof (throw_ball_range rand_r seed) as Hr. rewrite E in Hr. eapply thrower_same; eauto; simpl; auto.
  - destruct (mem_load bm binno) as [h|] eqn:El; [|by apply not_elem_of_nil in Hs]. simpl in Hs.
    destruct (lock h) as [h'|] eqn:E; [|by apply not_elem_of_nil in Hs]. apply lock_Some in E as [-> ->].
    destruct (mem_store bm binno [true]) as [bm'|] eqn:Es; [|by apply not_elem_of_nil in Hs].
    apply list_elem_of_singleton in Hs as [= -> ->]. apply mem_load_Some in El as [Hi Hl].
    destruct (bin_mtx_store _ _ _ _ _ Es Hl Hi) as [Hlen Hh].
    eapply thrower_frame; eauto; simpl; try lia. intros i h h' H1 H2 H3. rewrite (Hh i h h' H1 H2 H3). simpl. lia.
  - destruct (mem_load b binno) as [v|] eqn:El; [|by apply not_elem_of_nil in Hs]. apply mem_load_Some in El as [Hi Hl].
    apply list_elem_of_singleton in Hs as [= -> ->]. eapply thrower_same; eauto; simpl; auto.
  - destruct Hk as [Hi Hv]. pose proof (bin_bound _ _ _ Hpos Hv) as Hvb.
    rewrite (proj2 (checked_int_Some (v + 1) (v + 1))) in Hs by (limits; pose proof (total_nonneg flying ls flying_bool); lia).
    rewrite (mem_store_one _ _ _ _ Hv) in Hs by lia. apply list_elem_of_singleton in Hs as [= -> ->].
    pose proof (store_bin c ls _ so HI j seed _ Hj binno v _ eq_refl eq_refl).
    destruct (bins_insert _ _ _ (v + 1) Hv ltac:(lia) Hpos) as [Hpos' Htot].
    eapply thrower_frame; eauto; simpl; rewrite ?length_insert, ?Htot; try lia; try done; same_bins.
  - destruct (mem_store bm binno [false]) as [bm'|] eqn:Es; [|by apply not_elem_of_nil in Hs].
    apply list_elem_of_singleton in Hs as [= -> ->].
    destruct (lookup_lt_is_Some_2 bm (Z.to_nat binno)) as [h Hl]; [lia|].
    pose proof (inv_bins_mtx _ _ _ HI binno h Hl ltac:(lia)) as Hm. simpl in Hm.
    pose proof (count_pos (holds_bin binno) _ _ _ Hj ltac:(simpl; apply Z.eqb_refl)). assert (h = true) as -> by (destruct h; [done|simpl in *; lia]).
    destruct (bin_mtx_store _ _ _ _ _ Es Hl ltac:(lia)) as [Hlen Hh].
    eapply thrower_frame; eauto; simpl; try lia. intros i h1 h' H1 H2 H3. rewrite (Hh i h1 h' H1 H2 H3). simpl. lia.
  - destruct (lock tm) as [h|] eqn:E; [|by apply not_elem_of_nil in Hs]. apply lock_Some in E as [-> ->].
    apply list_elem_of_singleton in Hs as [= -> ->]. eapply thrower_frame; eauto; simpl; try lia; same_bins.
  - apply list_elem_of_singleton in Hs as [= -> ->]. eapply thrower_same; eauto; simpl; auto.
  - subst v. rewrite (proj2 (checked_int_Some (n + 1) (n + 1))) in Hs
      by (limits; pose proof (total_nonneg flying ls flying_bool); pose proof (total_nonneg uncounted ls uncounted_bool); lia).
    apply list_elem_of_singleton in Hs as [= -> ->]. pose proof (store_thrown c ls _ so HI j seed _ Hj n _ eq_refl eq_refl).
    eapply thrower_frame; eauto; simpl; try lia; same_bins.
  - apply list_elem_of_singleton in Hs as [= -> ->]. pose proof (inv_thrown_mtx _ _ _ HI) as Hm.
    pose proof (count_pos holds_thrown _ _ _ Hj eq_refl). pose proof (b2z_bool tm). simpl in Hm.
    eapply thrower_frame; eauto; simpl; try lia; same_bins.
  - by apply not_elem_of_nil in Hs.
Qed.

(** ** A step of [main] *)
Section MainStep.
Context (c : Z) (ls : list thread) (s : shared_state) (so : list line).
Context (HI : inv c ls (World s so)).
Context (pc : main_pc) (Hl : ls !! 0%nat = Some (Main c pc)).

Lemma balls_main_frame pc' tm so' :
  Z.b2z tm = Z.b2z (balls_thrown_mtx s) - Z.b2z (holds_thrown (Main c pc)) + Z.b2z (holds_thrown (Main c pc')) ->
  let s' := Shared (balls_waiting s) (bins s) (balls_thrown s) (bins_mtx s) (balls_waiting_mtx s) tm in
  main_knows c (World s' so') pc' -> inv c (<[0%nat := Main c pc']> ls) (World s' so').
Proof.
  intros Htm s' Hk. destruct HI as [I1 I2 I3 I4 [I5 I5'] I6 I7 I8 I9]. cbn [shared stdout] in *.
  constructor; cbn [shared stdout]; try done.
  - intros k u Hku. insert_cases Hku; [|by apply I1]. naive_solver.
  - rewrite (count_insert _ _ _ _ _ Hl). simpl. lia.
  - rewrite (count_insert _ _ _ _ _ Hl), I3. symmetry. exact Htm.
  - intros i h Hh Hi. rewrite (count_insert _ _ _ _ _ Hl), (I4 i h Hh Hi). simpl. lia.
  - rewrite (sum_over_insert _ _ _ _ _ Hl). simpl. lia.
  - rewrite (sum_over_insert _ _ _ _ _ Hl). simpl. lia.
  - intros k u Hku. insert_cases Hku; [done|]. specialize (I9 k u Hku).
    destruct u as [c' q|sd q]; [|done]. exfalso.
    destruct I9 as [-> _]. destruct (proj2 (I1 _ _ Hku)); [by eexists|done].
Qed.

(** Without a change of the mutex. *)
Lemma main_same pc' so' :
  holds_thrown (Main c pc') = holds_thrown (Main c pc) -> main_knows c (World s so') pc' ->
  inv c (<[0%nat := Main c pc']> ls) (World s so').
Proof.
  intros Hh Hk. pose proof (balls_main_frame pc' (balls_thrown_mtx s) so') as H. destruct s. apply H; [rewrite Hh; simpl; lia|done].
Qed.
End MainStep.

(** All balls are in the bins once all are counted. *)
Lemma bins_full c ls s so : inv c ls (World s so) -> balls_thrown s = c -> total id (bins s) = c.
Proof.
  intros HI Hn. destruct (inv_balls _ _ _ HI), (inv_thrown _ _ _ HI). cbn [shared] in *.
  pose proof (total_nonneg flying ls flying_bool). pose proof (total_nonneg uncounted ls uncounted_bool). lia.
Qed.

(** Nor are more counted than there are. *)
Lemma thrown_bound c ls s so : inv c ls (World s so) -> balls_thrown s <= c.
Proof.
  intros HI. destruct (inv_balls _ _ _ HI), (inv_thrown _ _ _ HI). cbn [shared] in *.
  pose proof (total_nonneg flying ls flying_bool). pose proof (total_nonneg uncounted ls uncounted_bool). lia.
Qed.

Lemma bin_at c ls x i : inv c ls x -> 0 <= i < BIN_COUNT -> exists v, mem_load (bins (shared x)) i = Some v /\ bins (shared x) !! Z.to_nat i = Some v.
Proof. intros HI Hi. apply mem_load_in. by rewrite (proj1 (inv_sizes _ _ _ HI)). Qed.

Lemma take_all c ls x (i : Z) : inv c ls x -> BIN_COUNT <= i -> take (Z.to_nat i) (bins (shared x)) = bins (shared x).
Proof. intros HI Hi. destruct (inv_sizes _ _ _ HI) as [Hsz _]. apply take_ge. lia. Qed.

Lemma take_bound b i : Forall (fun v => 0 <= v) b -> 0 <= total id (take i b) <= total id b.
Proof.
  intros Hb. assert (total id b = total id (take i b) + total id (drop i b)) as ->.
  { by rewrite <- total_app, take_drop. }
  split; [apply bins_nonneg; by apply Forall_take|].
  pose proof (bins_nonneg _ (Forall_drop _ i b Hb)). lia.
Qed.

Lemma balls_main_inv c ls s so pc t' x' :
  0 <= c -> 10 * c <= INT_MAX -> inv c ls (World s so) -> ls !! 0%nat = Some (Main c pc) ->
  (t', x') ∈ main_loop c pc (World s so) -> inv c (<[0%nat := t']> ls) x'.
Proof.
  intros Hc0 Hc HI Hl Hs. destruct (inv_knows _ _ _ HI _ _ Hl) as [_ Hk].
  pose proof (fun pc' tm so' => balls_main_frame c ls s so HI pc Hl pc' tm so') as Hframe. pose proof (fun pc' so' => main_same c ls s so HI pc Hl pc' so') as Hsame.
  pose proof (thrown_bound _ _ _ _ HI) as Hle. pose proof (bins_full _ _ _ _ HI) as Hfull. pose proof (inv_bins _ _ _ HI) as Hpos.
  pose proof (fun i => bin_at c ls (World s so) i HI) as Hat. pose proof (fun i => take_all c ls (World s so) i HI) as Hall.
  unfold main_knows in Hk, Hframe, Hsame. cbn [shared stdout] in *.
  destruct s as [w b n bm wm tm]. cbn [balls_waiting bins balls_thrown bins_mtx balls_waiting_mtx balls_thrown_mtx] in *.
  destruct pc; cbn [main_loop] in Hs.
  - apply list_elem_of_singleton in Hs as [= -> ->]. destruct Hk as [Ht ->].
    destruct (Z.ltb_spec thrown c); [by apply Hsame|]. apply Hsame; [done|].
    split; [lia|]. unfold BIN_COUNT. repeat split; lia || done.
  - destruct (lock tm) as [h|] eqn:E; [|by apply not_elem_of_nil in Hs]. apply lock_Some in E as [-> ->].
    apply list_elem_of_singleton in Hs as [= -> ->]. by apply Hframe.
  - apply list_elem_of_singleton in Hs as [= -> ->]. apply Hsame; [done|]. split; [lia|done].
  - apply list_elem_of_singleton in Hs as [= -> ->]. pose proof (inv_thrown_mtx _ _ _ HI) as Hm.
    pose proof (count_pos holds_thrown _ _ _ Hl eq_refl). pose proof (b2z_bool tm). simpl in Hm.
    apply Hframe; [simpl; lia|done].
  - destruct Hk as (Hn & Hi & -> & -> & Hso). destruct (Z.ltb_spec i BIN_COUNT).
    + destruct (Hat i) as (v & Hv & Hbv); [lia|]. rewrite Hv in Hs.
      pose proof (total_take_next b i v ltac:(lia) Hbv) as Htn. pose proof (take_bound b (Z.to_nat (i + 1)) Hpos) as Htb.
      rewrite Hfull in Htb by done. rewrite <- Htn in Hs. set (f := total id (take (Z.to_nat (i + 1)) b)) in *.
      rewrite (proj2 (checked_int_Some f f)) in Hs by (limits; lia).
      apply list_elem_of_singleton in Hs as [= -> ->]. apply Hsame; [done|]. repeat split; lia || done.
    + apply list_elem_of_singleton in Hs as [= -> ->]. apply Hsame; [done|].
      rewrite (Hall i) by lia. rewrite Hso. repeat split; unfold BIN_COUNT; lia || done.
  - destruct Hk as (Hn & Hi & -> & -> & Hso). destruct (Hat i) as (v & Hv & Hbv); [lia|]. rewrite Hv in Hs.
    pose proof (bin_bound _ _ _ Hpos Hbv) as Hvb. rewrite Hfull in Hvb by done.
    rewrite (proj2 (checked_int_Some (v * i) (v * i))) in Hs by (unfold BIN_COUNT in *; limits; nia).
    apply list_elem_of_singleton in Hs as [= -> ->]. apply Hsame; [done|].
    rewrite (weighted_take_next b i v) by (lia || done). repeat split; lia || done.
  - destruct Hk as (Hn & Hi & -> & -> & ->). destruct (Z.ltb_spec i BIN_COUNT).
    + destruct (Hat i) as (v & Hv & Hbv); [lia|]. rewrite Hv in Hs.
      apply list_elem_of_singleton in Hs as [= -> ->]. apply Hsame; [done|].
      rewrite (take_next b i v), fmap_app by (lia || done). repeat split; lia || done.
    + apply list_elem_of_singleton in Hs as [= -> ->]. apply Hsame; [done|]. by rewrite (Hall i) by lia.
  - destruct Hk as (Hn & -> & -> & ->). apply list_elem_of_singleton in Hs as [= -> ->]. by apply Hsame.
  - by apply not_elem_of_nil in Hs.
Qed.

(** ** Every reachable state *)
Lemma balls_start c seeds : 0 <= c -> inv c (start c seeds).1 (start c seeds).2.
Proof.
  intros Hc. simpl. set (ts := (fun s => Thrower s WLock) <$> seeds).
  assert (forall j t, ts !! j = Some t -> exists sd, t = Thrower sd WLock) as Hts.
  { intros j t Hj. apply list_lookup_fmap_Some in Hj as (sd & -> & _). eauto. }
  assert (forall P, (forall sd, P (Thrower sd WLock) = false) -> count P ts = 0) as Hcount.
  { intros P HP. clear Hts. unfold ts. induction seeds as [|sd sds IH]; [done|]. cbn [fmap list_fmap count]. by rewrite HP, IH. }
  assert (forall f : thread -> Z, (forall sd, f (Thrower sd WLock) = 0) -> total f ts = 0) as Htotal.
  { intros f Hf. apply total_zero. intros j t Hj. by destruct (Hts _ _ Hj) as [sd ->]. }
  constructor; cbn [shared initial_state balls_waiting bins balls_thrown bins_mtx balls_waiting_mtx balls_thrown_mtx count total].
  - intros [|j] t Hj; [naive_solver|]. destruct (Hts _ _ Hj) as [sd ->]. naive_solver.
  - by rewrite Hcount.
  - by rewrite Hcount.
  - intros i h Hh _. apply lookup_replicate in Hh as [-> _]. by rewrite Hcount.
  - by rewrite !length_replicate.
  - by apply Forall_replicate.
  - rewrite Htotal by done. change (total id (replicate (Z.to_nat BIN_COUNT) 0)) with 0. simpl. lia.
  - rewrite Htotal by done. done.
  - intros [|j] t Hj; [injection Hj as <-; done|]. by destruct (Hts _ _ Hj) as [sd ->].
Qed.

Lemma balls_reachable rand_r c seeds ls x :
  0 <= c -> 10 * c <= INT_MAX -> reachable (step rand_r) (start c seeds) (ls, x) ->
  inv c ls x /\ length ls = S (length seeds).
Proof.
  intros Hc0 Hc. apply (reachable_invariant (step rand_r) (fun y => inv c y.1 y.2 /\ length y.1 = S (length seeds)) _ (ls, x)).
  - split; [by apply balls_start|]. simpl. by rewrite length_fmap.
  - intros c1 c2 [HI Hlen] Hm. destruct Hm as [j t t' ls' s s' Hj Hs]. simpl in *.
    split; [|by rewrite length_insert]. destruct s as [s so]. destruct t as [c' pc|seed pc].
    + pose proof (inv_knows _ _ _ HI _ _ Hj) as [-> _].
      assert (j = 0%nat) as -> by (apply (inv_main _ _ _ HI _ _ Hj); eauto). by eapply balls_main_inv.
    + apply list_elem_of_fmap in Hs as ([t s''] & [= -> ->] & Hs). eapply thrower_inv; eauto. limits. lia.
Qed.

(** A thread that cannot move has ended or waits for a mutex that is held. *)
Definition waits_for_holder (ls : list thread) (t : thread) : Prop :=
  match t with
  | Main _ MLock | Thrower _ TLock => 1 <= count holds_thrown ls
  | Thrower _ WLock => 1 <= count holds_waiting ls
  | Thrower _ (BLock i) => 1 <= count (holds_bin i) ls
  | Main _ MExit | Thrower _ Returned => True
  | _ => False
  end.

Lemma balls_stuck rand_r c ls x j t :
  0 <= c -> 10 * c <= INT_MAX -> inv c ls x -> ls !! j = Some t -> step rand_r j t x = [] -> waits_for_holder ls t.
Proof.
  intros Hc0 Hc HI Hj Hs. pose proof (inv_knows _ _ _ HI _ _ Hj) as Hk. destruct x as [s so].
  pose proof (bins_full _ _ _ _ HI) as Hfull. pose proof (inv_bins _ _ _ HI) as Hpos. pose proof (thrown_bound _ _ _ _ HI) as Hle.
  pose proof (inv_balls _ _ _ HI) as [Hb Hw0]. pose proof (inv_thrown _ _ _ HI) as [Hn Hn0].
  pose proof (total_nonneg flying ls flying_bool) as Hf0. pose proof (total_nonneg uncounted ls uncounted_bool) as Hu0.
  pose proof (fun i => bin_at c ls (World s so) i HI) as Hat. pose proof (bins_nonneg _ Hpos) as Hbn.
  pose proof (inv_waiting_mtx _ _ _ HI) as Hwm. pose proof (inv_thrown_mtx _ _ _ HI) as Htm.
  pose proof (inv_bins_mtx _ _ _ HI) as Hbm. pose proof (inv_sizes _ _ _ HI) as [_ Hszm].
  cbn [shared] in *. destruct s as [w b n bm wm tm].
  cbn [balls_waiting bins balls_thrown bins_mtx balls_waiting_mtx balls_thrown_mtx] in *.
  destruct t as [c' pc|seed pc].
  - destruct Hk as [-> Hk]. unfold main_knows in Hk. cbn [shared bins balls_thrown stdout] in Hk.
    destruct pc; simpl in Hs |- *; try done.
    + destruct tm; [simpl in Htm; lia|done].
    + destruct (Z.ltb_spec i BIN_COUNT); [|done]. destruct Hk as (Hnc & Hi & -> & _). destruct (Hat i) as (v & Hv & Hbv); [lia|].
      rewrite Hv in Hs. pose proof (total_take_next b i v ltac:(lia) Hbv) as Htn.
      pose proof (take_bound b (Z.to_nat (i + 1)) Hpos) as Htb. rewrite Hfull in Htb by done. rewrite Htn in Htb.
      set (f := total id (take (Z.to_nat i) b) + v) in *. rewrite (proj2 (checked_int_Some f f)) in Hs by (limits; lia). done.
    + destruct Hk as (Hnc & Hi & _). destruct (Hat i) as (v & Hv & Hbv); [lia|]. rewrite Hv in Hs.
      pose proof (bin_bound _ _ _ Hpos Hbv) as Hvb. rewrite Hfull in Hvb by done.
      rewrite (proj2 (checked_int_Some (v * i) (v * i))) in Hs by (unfold BIN_COUNT in *; limits; nia). done.
    + destruct (Z.ltb_spec i BIN_COUNT); [|done]. destruct Hk as (_ & Hi & _). destruct (Hat i) as (v & Hv & _); [lia|]. by rewrite Hv in Hs.
  - simpl in Hk. apply fmap_nil_inv in Hs. destruct pc; simpl in Hs, Hk |- *; try done.
    + destruct wm; [simpl in Hwm; lia|done].
    + rewrite (proj2 (checked_int_Some (v - 1) (v - 1))) in Hs by (limits; lia). done.
    + by destruct (throw_ball rand_r seed).
    + destruct (lookup_lt_is_Some_2 bm (Z.to_nat binno)) as [h Hh]; [lia|]. specialize (Hbm binno h Hh ltac:(lia)).
      destruct h; [simpl in Hbm; lia|]. unfold mem_load in Hs. rewrite (proj2 (Z.leb_le 0 binno)), Hh in Hs by lia. simpl in Hs.
      by rewrite mem_store_is_Some in Hs by (simpl; lia).
    + destruct (Hat binno) as (v & Hv & _); [lia|]. by rewrite Hv in Hs.
    + destruct Hk as [Hi Hv]. pose proof (bin_bound _ _ _ Hpos Hv).
      rewrite (proj2 (checked_int_Some (v + 1) (v + 1))) in Hs by (limits; lia). by rewrite (mem_store_one _ _ _ _ Hv) in Hs by lia.
    + by rewrite mem_store_is_Some in Hs by (simpl; lia).
    + destruct tm; [simpl in Htm; lia|done].
    + rewrite (proj2 (checked_int_Some (v + 1) (v + 1))) in Hs by (limits; lia). done.
Qed.

(** The holders of a mutex do not wait. *)
Lemma holder_moves ls t :
  holds_waiting t = true \/ holds_thrown t = true \/ (exists i, holds_bin i t = true) -> ~ waits_for_holder ls t.
Proof. destruct t as [? []|? []]; simpl; naive_solver. Qed.

Definition ended (t : thread) : Prop := match t with Main _ MExit | Thrower _ Returned => True | _ => False end.

Lemma stuck_ended rand_r c ls x :
  0 <= c -> 10 * c <= INT_MAX -> inv c ls x ->
  (forall j t, ls !! j = Some t -> step rand_r j t x = []) -> forall j t, ls !! j = Some t -> ended t.
Proof.
  intros Hc0 Hc HI Hall j t Hj.
  assert (forall k u, ls !! k = Some u -> waits_for_holder ls u) as Hw by (intros; eapply balls_stuck; eauto).
  assert (forall P, (forall u, P u = true -> ~ waits_for_holder ls u) -> ~ 1 <= count P ls) as Hno.
  { intros P HP Hc1. apply count_exists in Hc1 as (k & u & Hk & Hu). by apply (HP u Hu), (Hw k). }
  pose proof (Hw j t Hj) as Ht.
  destruct t as [? []|? []]; simpl in Ht |- *; try done; exfalso; revert Ht; apply Hno; intros u Hu;
    eapply holder_moves; eauto.
Qed.

(** Throwers end when no ball waits. *)
Lemma all_ended c ls x :
  inv c ls x -> (2 <= length ls)%nat -> (forall j t, ls !! S j = Some t -> ended t) -> balls_thrown (shared x) = c.
Proof.
  intros HI Hlen He. destruct x as [s so].
  assert (forall f, (forall t, ended t -> f t = 0) -> (forall q, f (Main c q) = 0) -> total f ls = 0) as Hz.
  { intros f Hf Hm. apply total_zero. intros [|j] t Hj; [|eauto].
    destruct (proj1 (inv_main _ _ _ HI _ _ Hj) eq_refl) as [q ->]. apply Hm. }
  destruct (inv_balls _ _ _ HI) as [Hb _], (inv_thrown _ _ _ HI) as [Hn _].
  rewrite (Hz flying) in Hb by (done || by intros [? []|? []]). rewrite (Hz uncounted) in Hn by (done || by intros [? []|? []]).
  destruct (lookup_lt_is_Some_2 ls 1) as [t Ht]; [lia|]. pose proof (inv_knows _ _ _ HI _ _ Ht) as Hk. specialize (He _ _ Ht).
  cbn [shared] in *. destruct t as [c' q|sd q].
  - destruct Hk as [-> _]. assert (1 = 0)%nat as E; [|done]. apply (inv_main _ _ _ HI _ _ Ht). eauto.
  - destruct q; try done. simpl in Hk. lia.
Qed.

(** C32. No ball is lost: for any number of throwers, any [rand_r] and a count
    [c] whose points [10 * c] fit an [int], in every interleaving, the balls waiting, on their way and in the bins make up the
    initial count, where [main] reads the bins without a lock included: when
    it ends it has printed the final bins and their total is the count.
    The threads can only all stop when all have ended, and once the throwers
    have, every ball is counted, so that [main] leaves its loop. *)
Theorem balls_conserved rand_r c seeds ls x :
  0 <= c -> 10 * c <= INT_MAX -> reachable (step rand_r) (start c seeds) (ls, x) ->
  balls_waiting (shared x) + total flying ls + total id (bins (shared x)) = c /\
  (ls !! 0%nat = Some (Main c MExit) ->
    stdout x = (BinLine <$> bins (shared x)) ++ [TotalLine c (weighted (bins (shared x)))]) /\
  ((forall j t, ls !! j = Some t -> step rand_r j t x = []) -> forall j t, ls !! j = Some t -> ended t) /\
  (seeds <> [] -> (forall j t, ls !! S j = Some t -> ended t) -> balls_thrown (shared x) = c).
Proof.
  intros Hc0 Hc Hr. destruct (balls_reachable _ _ _ _ _ Hc0 Hc Hr) as [HI Hlen].
  split; [apply HI|]. split; [|split; [by eapply stuck_ended|]].
  - intros Hm. destruct x as [s so]. destruct (inv_knows _ _ _ HI _ _ Hm) as [_ [Hn Hk]].
    cbn [shared stdout] in *. by rewrite (bins_full _ _ _ _ HI Hn) in Hk.
  - intros Hs He. eapply all_ended; eauto. rewrite Hlen. destruct seeds; [done|simpl; lia].
Qed.

(** Two throwers, a ball each, then [main] from its first test to the end. *)
Definition some_rand_r (s : Z) : Z * Z := let n := (s * 1103515245 + 12345) mod 2 ^ 31 in (n, n).
Definition two_balls : list (nat * nat) :=
  (fun j => (j, 0%nat)) <$> replicate 14 1%nat ++ replicate 17 2%nat ++ replicate 3 1%nat ++ replicate 41 0%nat.

Lemma balls_conserved_witness :
  exists ls x, reachable (step some_rand_r) (start 2 [1; 7]) (ls, x) /\
    stdout x = (BinLine <$> [0; 0; 0; 0; 1; 1; 0; 0; 0; 0; 0]) ++ [TotalLine 2 9] /\
    balls_waiting (shared x) + total flying ls + total id (bins (shared x)) = 2 /\
    (ls !! 0%nat = Some (Main 2 MExit) ->
      stdout x = (BinLine <$> bins (shared x)) ++ [TotalLine 2 (weighted (bins (shared x)))]) /\
    ((forall j t, ls !! j = Some t -> step some_rand_r j t x = []) -> forall j t, ls !! j = Some t -> ended t) /\
    ([1; 7] <> [] -> (forall j t, ls !! S j = Some t -> ended t) -> balls_thrown (shared x) = 2).
Proof.
  destruct (schedule (step some_rand_r) two_balls (start 2 [1; 7])) as [[ls x]|] eqn:E; [|by vm_compute in E].
  apply schedule_reachable in E as Hr. exists ls, x. split; [done|]. split.
  - vm_compute in E. injection E as _ <-. vm_compute. reflexivity.
  - apply (balls_conserved some_rand_r 2 [1; 7] ls x); [done|done|done].
Defined.
