(* ===== verification/ArrayEraser.v ===== *)
(** * sop1/lab/l3/prog19.c

    A thread waits for signals and removes a random number from an array on
    each SIGINT, while the main thread prints what is left every second;
    SIGQUIT ends both.  A step is one call, one load or one store; [sigwait]
    may return either signal at any time, [rand] any number, and [sleep] has
    no step. *)

From S2P Require Import Prelude CLib Os Threads LabCommon.

Local Open Scope Z_scope.

Definition DEFAULT_ARRAYSIZE : Z := 10.
Definition DELETED_ITEM : Z := -1.
Definition SIGINT : Z := 2.
Definition SIGQUIT : Z := 3.

(** [ReadArguments]. *)
Definition ReadArguments (args : list (list Z)) : prog Z :=
  match args with
  | [] => Ret DEFAULT_ARRAYSIZE
  | a :: _ =>
      let arraySize := atoi a in
      if arraySize <=? 0 then printf "Invalid value for 'array size'" [] ;;; Exit EXIT_FAILURE else Ret arraySize
  end.

(** What both threads reach through [argsSignalHandler], and the lines of
    [printArray]; a mutex is [true] while it is held, [returned] is what
    [pthread_join] waits for. *)
Record world := World {
  array : list Z; arrayCount : Z; mxArray : bool;
  quitFlag : bool; mxQuitFlag : bool;
  returned : bool; stdout : list (list Z) }.

Inductive main_pc :=
| MLockQuit | MTestQuit | MUnlockQuit (quit : bool)
| MLockArray | MTestItem (i : Z) (out : list Z) | MPrintItem (i : Z) (out : list Z) | MUnlockArray
| MJoin | MEnd.

(** [removeItem] is [SScan] to [SStoreCount]. *)
Inductive handler_pc :=
| SWait
| SLockArray | STestCount | SRand
| SScan (curIndex i index : Z) | SDelete (i : Z) | SLoadCount | SStoreCount (v : Z)
| SUnlockArray
| SLockQuit | SSetQuit | SUnlockQuit | SReturned.

Inductive thread := Main (arraySize : Z) (pc : main_pc) | Handler (pc : handler_pc).

Definition main_thread (arraySize : Z) (pc : main_pc) (x : world) : list (thread * world) :=
  let '(World a n ma q mq r so) := x in
  let go pc x := [(Main arraySize pc, x)] in
  match pc with
  | MLockQuit => match lock mq with Some mq => go MTestQuit (World a n ma q mq r so) | None => [] end
  | MTestQuit => go (MUnlockQuit q) x
  | MUnlockQuit quit => go (if quit then MJoin else MLockArray) (World a n ma q false r so)
  | MLockArray => match lock ma with Some ma => go (MTestItem 0 []) (World a n ma q mq r so) | None => [] end
  | MTestItem i out =>
      if i <? arraySize then
        match mem_load a i with
        | Some v => go (if v =? DELETED_ITEM then MTestItem (i + 1) out else MPrintItem i out) x
        | None => []
        end
      else go MUnlockArray (World a n ma q mq r (so ++ [out]))
  | MPrintItem i out => match mem_load a i with Some v => go (MTestItem (i + 1) (out ++ [v])) x | None => [] end
  | MUnlockArray => go MLockQuit (World a n false q mq r so)
  | MJoin => if r then go MEnd x else []
  | MEnd => []
  end.

Definition signal_handling (pc : handler_pc) (x : world) : list (thread * world) :=
  let '(World a n ma q mq r so) := x in
  let go pc x := [(Handler pc, x)] in
  match pc with
  | SWait =>            (* sigwait, then the cases SIGINT and SIGQUIT *)
      [(Handler SLockArray, x); (Handler SLockQuit, x)]
  | SLockArray => match lock ma with Some ma => go STestCount (World a n ma q mq r so) | None => [] end
  | STestCount => go (if 0 <? n then SRand else SUnlockArray) x
  | SRand => (fun index => (Handler (SScan (-1) (-1) index), x)) <$> seqZ 0 n
  | SScan curIndex i index =>
      if curIndex =? index then go (SDelete i) x else
      let i := i + 1 in
      match mem_load a i with
      | Some v => go (SScan (if v =? DELETED_ITEM then curIndex else curIndex + 1) i index) x
      | None => []
      end
  | SDelete i => match mem_store a i [DELETED_ITEM] with Some a => go SLoadCount (World a n ma q mq r so) | None => [] end
  | SLoadCount => go (SStoreCount n) x
  | SStoreCount v => go SUnlockArray (World a (v - 1) ma q mq r so)
  | SUnlockArray => go SWait (World a n false q mq r so)
  | SLockQuit => match lock mq with Some mq => go SSetQuit (World a n ma q mq r so) | None => [] end
  | SSetQuit => go SUnlockQuit (World a n ma true mq r so)
  | SUnlockQuit => go SReturned (World a n ma q false true so)
  | SReturned => []
  end.

Definition step (_ : nat) (t : thread) (x : world) : list (thread * world) :=
  match t with
  | Main n pc => main_thread n pc x
  | Handler pc => signal_handling pc x
  end.

Definition start (arraySize : Z) : list thread * world :=
  ([Main arraySize MLockQuit; Handler SWait],
   World (seqZ 1 arraySize) arraySize false false false false []).

(** [main] around the two loops. *)
Definition main (loops : Z -> prog unit) (args : list (list Z)) : prog unit :=
  let! arraySize := ReadArguments args in
  let! array := sys (Malloc (4 * arraySize)) in
  if rv array =? 0 then ERR "Malloc error for array!" else
  let! m := sys (Libc "pthread_sigmask" [SIGINT; SIGQUIT]) in
  if negb (rv m =? 0) then ERR "SIG_BLOCK error" else
  let! t := sys (Spawn "signal_handling" 0) in
  if negb (rv t =? 0) then ERR "Couldn't create signal handling thread!" else
  loops arraySize ;;;
  ignored "free" [rv array] ;;;
  let! m := sys (Libc "pthread_sigmask" [SIGINT; SIGQUIT]) in
  if negb (rv m =? 0) then ERR "SIG_BLOCK error" else
  Exit EXIT_SUCCESS.

(** ** The numbers left *)
Definition live (a : list Z) : list Z := filter (fun v => v <> DELETED_ITEM) a.

Definition main_array (pc : main_pc) : bool := match pc with MTestItem _ _ | MPrintItem _ _ | MUnlockArray => true | _ => false end.
Definition main_quit (pc : main_pc) : bool := match pc with MTestQuit | MUnlockQuit _ => true | _ => false end.
Definition handler_array (pc : handler_pc) : bool :=
  match pc with
  | STestCount | SRand | SScan _ _ _ | SDelete _ | SLoadCount | SStoreCount _ | SUnlockArray => true
  | _ => false
  end.
Definition handler_quit (pc : handler_pc) : bool := match pc with SSetQuit | SUnlockQuit => true | _ => false end.

(** Removed from the array and not yet from the count. *)
Definition uncounted (pc : handler_pc) : Z := match pc with SLoadCount | SStoreCount _ => 1 | _ => 0 end.

Definition main_knows (x : world) (pc : main_pc) : Prop :=
  let upto i := take (Z.to_nat i) (array x) in
  match pc with
  | MTestItem i out => 0 <= i <= Z.of_nat (length (array x)) /\ out = live (upto i)
  | MPrintItem i out => 0 <= i /\ out = live (upto i) /\ exists v, array x !! Z.to_nat i = Some v /\ v <> DELETED_ITEM
  | MUnlockQuit true | MJoin => quitFlag x = true
  | MEnd => returned x = true
  | _ => True
  end.

Definition handler_knows (x : world) (pc : handler_pc) : Prop :=
  match pc with
  | SRand => 0 < arrayCount x
  | SScan cur i index =>
      -1 <= i < Z.of_nat (length (array x)) /\ 0 <= index < arrayCount x /\
      cur + 1 = Z.of_nat (length (live (take (Z.to_nat (i + 1)) (array x)))) /\ cur <= index /\
      (cur = index -> exists v, array x !! Z.to_nat i = Some v /\ v <> DELETED_ITEM /\ 0 <= i)
  | SDelete i => 0 <= i /\ exists v, array x !! Z.to_nat i = Some v /\ v <> DELETED_ITEM
  | SStoreCount v => v = arrayCount x
  | SUnlockQuit => quitFlag x = true
  | _ => True
  end.

(** Every line is left of the one before it. *)
Fixpoint shrinking (lines : list (list Z)) (now : list Z) : Prop :=
  match lines with
  | [] => True
  | l :: lines' => hd now lines' `sublist_of` l /\ shrinking lines' now
  end.

Record inv (n : Z) (pm : main_pc) (ph : handler_pc) (x : world) : Prop := {
  inv_array_mtx : Z.b2z (mxArray x) = Z.b2z (main_array pm) + Z.b2z (handler_array ph);
  inv_quit_mtx : Z.b2z (mxQuitFlag x) = Z.b2z (main_quit pm) + Z.b2z (handler_quit ph);
  inv_size : Z.of_nat (length (array x)) = n;
  inv_items i v : array x !! i = Some v -> v = Z.of_nat i + 1 \/ v = DELETED_ITEM;
  inv_count : arrayCount x = Z.of_nat (length (live (array x))) + uncounted ph;
  inv_returned : returned x = true <-> ph = SReturned;
  inv_quit : quitFlag x = true <-> ph = SUnlockQuit \/ ph = SReturned;
  inv_main : main_knows x pm;
  inv_handler : handler_knows x ph;
  inv_lines : shrinking (stdout x) (live (array x));
}.

(** ** Lemmas on the numbers left *)
Lemma live_snoc a v : live (a ++ [v]) = live a ++ (if v =? DELETED_ITEM then [] else [v]).
Proof.
  unfold live. rewrite filter_app. f_equal. destruct (Z.eqb_spec v DELETED_ITEM) as [->|H]; [done|].
  by rewrite filter_cons_True.
Qed.

Lemma live_all a : Forall (fun v => v <> DELETED_ITEM) a -> live a = a.
Proof. induction 1 as [|v a Hv _ IH]; [done|]. unfold live in *. by rewrite filter_cons_True, IH. Qed.

Lemma live_take_next (a : list Z) i v :
  0 <= i -> a !! Z.to_nat i = Some v ->
  live (take (Z.to_nat (i + 1)) a) = live (take (Z.to_nat i) a) ++ (if v =? DELETED_ITEM then [] else [v]).
Proof.
  intros Hi Hv. rewrite <- live_snoc. f_equal. rewrite Z2Nat.inj_add by lia. rewrite Nat.add_1_r. by apply take_S_r.
Qed.

Lemma live_split a i v :
  a !! i = Some v -> v <> DELETED_ITEM -> live a = live (take i a) ++ v :: live (drop (S i) a).
Proof.
  intros Hv Hd. rewrite <- (take_drop_middle a i v Hv) at 1. unfold live. by rewrite filter_app, filter_cons_True.
Qed.

(** Removing the number at [i] removes it from the list of those left. *)
Lemma live_delete a i v :
  a !! i = Some v -> v <> DELETED_ITEM ->
  live (<[i := DELETED_ITEM]> a) = delete (length (live (take i a))) (live a).
Proof.
  intros Hv Hd. rewrite (live_split a i v Hv Hd), delete_middle.
  rewrite insert_take_drop by by eapply lookup_lt_Some. unfold live. rewrite filter_app, filter_cons_False; [done|].
  intros H. by apply H.
Qed.

Lemma live_take_length a i : (length (live (take i a)) <= length (live a))%nat.
Proof. rewrite <- (take_drop i a) at 2. unfold live. rewrite filter_app, length_app. lia. Qed.

Lemma shrinking_now lines now now' : now' `sublist_of` now -> shrinking lines now -> shrinking lines now'.
Proof.
  intros Hs. induction lines as [|l [|l' lines] IH]; simpl; [done| |].
  - intros [H _]. split; [by transitivity now|done].
  - intros [H H']. split; [done|by apply IH].
Qed.

Lemma shrinking_snoc lines now : shrinking lines now -> shrinking (lines ++ [now]) now.
Proof.
  induction lines as [|l [|l' lines] IH]; simpl; [by split| |].
  - intros [H _]. by split_and!.
  - intros [H H']. split; [done|by apply IH].
Qed.

(** ** The steps *)
Ltac one Hs := apply list_elem_of_singleton in Hs as [= -> ->].

(** [main] changes its mutexes and prints; the handler knows what it knew. *)
Lemma eraser_main_inv n pm ph x t' x' :
  inv n pm ph x -> (t', x') ∈ main_thread n pm x -> exists pm', t' = Main n pm' /\ inv n pm' ph x'.
Proof.
  intros [I1 I2 I3 I4 I5 I6 I7 I8 I9 I10] Hs. destruct x as [a c ma q mq r so]; simpl in *.
  assert (forall pm' ma' mq', Z.b2z ma' = Z.b2z (main_array pm') + Z.b2z (handler_array ph) ->
    Z.b2z mq' = Z.b2z (main_quit pm') + Z.b2z (handler_quit ph) ->
    main_knows (World a c ma' q mq' r so) pm' -> inv n pm' ph (World a c ma' q mq' r so)) as Hgo.
  { intros. by constructor. }
  destruct pm; simpl in Hs, I1, I2, I8.
  - destruct (lock mq) as [mq'|] eqn:E; [|by apply not_elem_of_nil in Hs]. apply lock_Some in E as [-> ->].
    one Hs. eexists; split; [done|]. apply Hgo; simpl in *; done || lia.
  - one Hs. eexists; split; [done|]. apply Hgo; simpl; try lia. by destruct q.
  - one Hs. eexists; split; [done|]. pose proof (handler_quit ph). destruct (handler_quit ph), mq, quit; simpl in *; try lia;
      apply Hgo; simpl; done || lia.
  - destruct (lock ma) as [ma'|] eqn:E; [|by apply not_elem_of_nil in Hs]. apply lock_Some in E as [-> ->].
    one Hs. eexists; split; [done|]. apply Hgo; simpl in *; try lia. split; [lia|done].
  - destruct I8 as [Hi ->]. destruct (Z.ltb_spec i n).
    + destruct (mem_load_in a i) as (v & Hv & Hav); [lia|]. rewrite Hv in Hs. one Hs. eexists; split; [done|].
      pose proof (live_take_next a i v ltac:(lia) Hav) as Hn.
      destruct (Z.eqb_spec v DELETED_ITEM) as [->|Hd]; apply Hgo; simpl; try lia.
      * split; [lia|]. by rewrite Hn, app_nil_r.
      * split_and!; [lia|done|by eexists].
    + one Hs. eexists; split; [done|]. rewrite take_ge by lia. constructor; simpl; try done. by apply shrinking_snoc.
  - destruct I8 as (Hi & -> & v & Hv & Hd). pose proof (lookup_lt_Some _ _ _ Hv).
    destruct (mem_load_in a i) as (v' & Hv' & Hav); [lia|]. rewrite Hv' in Hs. simplify_eq. one Hs. eexists; split; [done|].
    apply Hgo; simpl; try lia. split; [lia|]. rewrite (live_take_next a i v) by (lia || done).
    by destruct (Z.eqb_spec v DELETED_ITEM).
  - one Hs. eexists; split; [done|]. destruct (handler_array ph), ma; simpl in *; try lia; apply Hgo; simpl; done || lia.
  - destruct r; [|by apply not_elem_of_nil in Hs]. one Hs. eexists; split; [done|]. by apply Hgo.
  - by apply not_elem_of_nil in Hs.
Qed.

(** Outside [printArray], what [main] knows are flags that stay set. *)
Lemma main_flags x x' pm :
  main_array pm = false -> (quitFlag x = true -> quitFlag x' = true) -> (returned x = true -> returned x' = true) ->
  main_knows x pm -> main_knows x' pm.
Proof. destruct pm as [| |[]| | | | | |]; simpl; auto; discriminate. Qed.

(** The position [removeItem] stops at. *)
Lemma scan_next a i index cur v :
  -1 <= i -> a !! Z.to_nat (i + 1) = Some v -> cur + 1 = Z.of_nat (length (live (take (Z.to_nat (i + 1)) a))) ->
  cur < index ->
  let cur' := if v =? DELETED_ITEM then cur else cur + 1 in
  -1 <= i + 1 < Z.of_nat (length a) /\
  cur' + 1 = Z.of_nat (length (live (take (Z.to_nat (i + 1 + 1)) a))) /\ cur' <= index /\
  (cur' = index -> exists v, a !! Z.to_nat (i + 1) = Some v /\ v <> DELETED_ITEM /\ 0 <= i + 1).
Proof.
  intros Hi Hv Hcur Hlt cur'. pose proof (lookup_lt_Some _ _ _ Hv).
  rewrite (live_take_next a (i + 1) v) by (lia || done). rewrite length_app. unfold cur'.
  destruct (Z.eqb_spec v DELETED_ITEM); simpl; split_and!; try lia. intros _. eexists; split_and!; [done|done|lia].
Qed.

Lemma handler_inv n pm ph x t' x' :
  inv n pm ph x -> (t', x') ∈ signal_handling ph x -> exists ph', t' = Handler ph' /\ inv n pm ph' x'.
Proof.
  intros HI Hs. pose proof HI as [I1 I2 I3 I4 I5 I6 I7 I8 I9 I10]. destruct x as [a c ma q mq r so]; simpl in *.
  assert (forall ph' ma' mq', Z.b2z ma' = Z.b2z (main_array pm) + Z.b2z (handler_array ph') ->
    Z.b2z mq' = Z.b2z (main_quit pm) + Z.b2z (handler_quit ph') -> uncounted ph' = uncounted ph ->
    ph <> SReturned /\ ph' <> SReturned -> ph <> SUnlockQuit /\ ph' <> SUnlockQuit ->
    handler_knows (World a c ma' q mq' r so) ph' -> inv n pm ph' (World a c ma' q mq' r so)) as Hgo.
  { intros ph' ma' mq' H1 H2 H3 [H4 H4'] [H5 H5'] H6. constructor; simpl; try done; [by rewrite H3| |]; naive_solver. }
  destruct ph; simpl in Hs, I1, I2, I5, I9.
  - apply elem_of_cons in Hs as [[= -> ->]|Hs]; [|one Hs]; (eexists; split; [done|]); by apply Hgo.
  - destruct (lock ma) as [ma'|] eqn:E; [|by apply not_elem_of_nil in Hs]. apply lock_Some in E as [-> ->].
    one Hs. eexists; split; [done|]. apply Hgo; simpl in *; done || lia.
  - one Hs. eexists; split; [done|]. destruct (Z.ltb_spec 0 c); by apply Hgo.
  - apply list_elem_of_fmap in Hs as (index & [= -> ->] & Hin). apply elem_of_seqZ in Hin.
    eexists; split; [done|]. apply Hgo; try done. simpl. split_and!; try lia; done.
  - destruct I9 as (Hi & Hidx & Hcur & Hle & Hfound). destruct (Z.eqb_spec curIndex index) as [->|Hne].
    + one Hs. eexists; split; [done|]. apply Hgo; try done. destruct Hfound as (v & ? & ? & ?); [done|]. simpl. eauto.
    + assert (i + 1 < Z.of_nat (length a)) as Hlt.
      { destruct (decide (Z.of_nat (length a) <= i + 1)); [|lia]. rewrite take_ge in Hcur by lia. lia. }
      destruct (mem_load_in a (i + 1)) as (v & Hv & Hav); [lia|]. rewrite Hv in Hs. one Hs. eexists; split; [done|].
      destruct (scan_next a i index curIndex v) as (H1 & H2 & H3 & H4); try done; try lia. by apply Hgo.
  - destruct I9 as (Hi & v & Hv & Hd). rewrite (mem_store_one _ _ _ _ Hv Hi) in Hs. one Hs. eexists; split; [done|].
    assert (main_array pm = false) as Hm by (destruct (main_array pm), ma; simpl in *; done || lia).
    pose proof (live_delete a (Z.to_nat i) v Hv Hd) as Hl.
    constructor; simpl; try done.
    + by rewrite length_insert.
    + intros j w Hj. insert_cases Hj; [by right|by apply I4].
    + assert (length (live (take (Z.to_nat i) a)) < length (live a))%nat.
      { rewrite (live_split a _ v Hv Hd), length_app. simpl. lia. }
      rewrite Hl, length_delete by by apply lookup_lt_is_Some. lia.
    + naive_solver.
    + naive_solver.
    + by apply (main_flags (World a c ma q mq r so)).
    + eapply shrinking_now; [|done]. rewrite Hl. apply sublist_delete.
  - one Hs. eexists; split; [done|]. by apply Hgo.
  - subst v. one Hs. eexists; split; [done|].
    assert (main_array pm = false) as Hm by (destruct (main_array pm), ma; simpl in *; done || lia).
    constructor; simpl; try done; try lia; [rewrite I6; by split|rewrite I7; by split; intros [?|?]].
  - one Hs. eexists; split; [done|]. apply Hgo; simpl; try done. destruct (main_array pm), ma; simpl in *; done || lia.
  - destruct (lock mq) as [mq'|] eqn:E; [|by apply not_elem_of_nil in Hs]. apply lock_Some in E as [-> ->].
    one Hs. eexists; split; [done|]. apply Hgo; simpl in *; done || lia.
  - one Hs. eexists; split; [done|]. constructor; simpl; try done; [rewrite I6; by split|by split; [left|]|].
    destruct pm as [| |[]| | | | | |]; simpl in *; try done.
  - one Hs. eexists; split; [done|]. constructor; simpl; try done.
    + destruct (main_quit pm), mq; simpl in *; done || lia.
    + split; [by right|]. intros _. apply I7. by left.
    + destruct pm as [| |[]| | | | | |]; simpl in *; done.
  - by apply not_elem_of_nil in Hs.
Qed.

(** ** Every reachable state *)
Lemma eraser_start n : 0 <= n -> inv n MLockQuit SWait (start n).2.
Proof.
  intros Hn. constructor; simpl; try done.
  - rewrite length_seqZ. lia.
  - intros i v Hv. apply lookup_seqZ in Hv as [-> _]. left. lia.
  - rewrite live_all; [rewrite length_seqZ; lia|].
    apply Forall_forall. intros v Hv. apply elem_of_seqZ in Hv. unfold DELETED_ITEM. lia.
  - naive_solver.
Qed.

Lemma eraser_reachable n ls x :
  0 <= n -> reachable step (start n) (ls, x) -> exists pm ph, ls = [Main n pm; Handler ph] /\ inv n pm ph x.
Proof.
  intros Hn. apply (reachable_invariant step (fun y => exists pm ph, y.1 = [Main n pm; Handler ph] /\ inv n pm ph y.2) _ (ls, x)).
  - exists MLockQuit, SWait. split; [done|by apply eraser_start].
  - intros c1 c2 (pm & ph & Hc & HI) Hm. destruct Hm as [j t t' ls' s s' Hj Hs]. simpl in *. subst ls'.
    destruct j as [|[|j]]; simplify_eq/=.
    + destruct (eraser_main_inv _ _ _ _ _ _ HI Hs) as (pm' & -> & HI'). eauto.
    + destruct (handler_inv _ _ _ _ _ _ HI Hs) as (ph' & -> & HI'). eauto.
Qed.

(** Nobody stops inside: a thread that cannot move waits for the other. *)
Lemma eraser_main_stuck n pm ph x :
  inv n pm ph x -> main_thread n pm x = [] ->
  pm = MEnd \/ (pm = MJoin /\ ph <> SReturned) \/ (pm = MLockQuit /\ handler_quit ph = true) \/ (pm = MLockArray /\ handler_array ph = true).
Proof.
  intros [I1 I2 I3 I4 I5 I6 I7 I8 I9 I10] Hs. destruct x as [a c ma q mq r so].
  destruct pm as [| | | |i out|i out| | |]; simpl in *; try done; auto.
  - destruct mq; [|done]. destruct (handler_quit ph); simpl in *; auto; lia.
  - destruct ma; [|done]. destruct (handler_array ph); simpl in *; auto 7; lia.
  - destruct (Z.ltb_spec i n); [|done]. destruct (mem_load_in a i) as (v & Hv & _); [lia|]. by rewrite Hv in Hs.
  - destruct I8 as (Hi & _ & v & Hv & _). pose proof (lookup_lt_Some _ _ _ Hv).
    destruct (mem_load_in a i) as (w & Hw & _); [lia|]. by rewrite Hw in Hs.
  - destruct r; [done|]. right; left. split; [done|]. intros ->. destruct I6 as [_ I6]. by specialize (I6 eq_refl).
Qed.

Lemma eraser_handler_stuck n pm ph x :
  inv n pm ph x -> signal_handling ph x = [] ->
  ph = SReturned \/ (ph = SLockQuit /\ main_quit pm = true) \/ (ph = SLockArray /\ main_array pm = true).
Proof.
  intros [I1 I2 I3 I4 I5 I6 I7 I8 I9 I10] Hs. destruct x as [a c ma q mq r so].
  destruct ph as [| | | |cur i idx|i| | | | | | |]; simpl in *; try done; auto.
  - destruct ma; [|done]. destruct (main_array pm); simpl in *; auto; lia.
  - apply fmap_nil_inv in Hs. by rewrite seqZ_cons in Hs by lia.
  - destruct I9 as (Hi & Hidx & Hcur & Hle & _). destruct (Z.eqb_spec cur idx); [done|].
    destruct (decide (Z.of_nat (length a) <= i + 1)); [rewrite take_ge in Hcur by lia; lia|].
    destruct (mem_load_in a (i + 1)) as (v & Hv & _); [lia|]. by rewrite Hv in Hs.
  - destruct I9 as (Hi & v & Hv & _). by rewrite (mem_store_one _ _ _ _ Hv Hi) in Hs.
  - destruct mq; [|done]. destruct (main_quit pm); simpl in *; auto; lia.
Qed.

(** C33. The array is erased one number at a time: in every interleaving and
    for every sequence of signals, the cells hold their first numbers or are
    deleted; the count is the number of those left, except between the two
    stores of a removal; every line printed is left of the one before it and
    the array of the last, so that a removal is never seen half done;
    [removeItem] stops at a number left, inside the array, and takes exactly
    that one out; and the threads only stop when both have ended. *)
Theorem eraser_removes n ls x :
  0 <= n -> reachable step (start n) (ls, x) ->
  exists pm ph, ls = [Main n pm; Handler ph] /\
  (forall i v, array x !! i = Some v -> v = Z.of_nat i + 1 \/ v = DELETED_ITEM) /\
  arrayCount x = Z.of_nat (length (live (array x))) + uncounted ph /\
  shrinking (stdout x) (live (array x)) /\
  (forall i x', ph = SDelete i -> (Handler SLoadCount, x') ∈ signal_handling ph x ->
    exists k, live (array x') = delete k (live (array x)) /\ (k < length (live (array x)))%nat) /\
  ((forall j t, ls !! j = Some t -> step j t x = []) -> pm = MEnd /\ ph = SReturned).
Proof.
  intros Hn Hr. destruct (eraser_reachable _ _ _ Hn Hr) as (pm & ph & -> & HI). exists pm, ph.
  split; [done|]. split; [apply HI|]. split; [apply HI|]. split; [apply HI|]. split.
  - intros i x' -> Hs. destruct (inv_handler _ _ _ _ HI) as (Hi & v & Hv & Hd). destruct x as [a c ma q mq r so].
    simpl in *. rewrite (mem_store_one _ _ _ _ Hv Hi) in Hs. apply list_elem_of_singleton in Hs as [= ->]. simpl.
    eexists. split; [by eapply live_delete|]. rewrite (live_split a _ v Hv Hd), length_app. simpl. lia.
  - intros Hall. pose proof (eraser_main_stuck _ _ _ _ HI (Hall 0%nat _ eq_refl)) as Hm.
    pose proof (eraser_handler_stuck _ _ _ _ HI (Hall 1%nat _ eq_refl)) as Hh. naive_solver.
Qed.

(** The second number is removed between two lines, then SIGQUIT. *)
Definition second_removed : list (nat * nat) :=
  ((fun j => (j, 0%nat)) <$> replicate 12 0%nat ++ replicate 3 1%nat) ++
  [(1, 1)]%nat ++ ((fun j => (j, 0%nat)) <$> replicate 7 1%nat ++ replicate 11 0%nat).

Lemma eraser_removes_witness :
  exists ls x, reachable step (start 3) (ls, x) /\ stdout x = [[1; 2; 3]; [1; 3]] /\
  exists pm ph, ls = [Main 3 pm; Handler ph] /\
  (forall i v, array x !! i = Some v -> v = Z.of_nat i + 1 \/ v = DELETED_ITEM) /\
  arrayCount x = Z.of_nat (length (live (array x))) + uncounted ph /\
  shrinking (stdout x) (live (array x)) /\
  (forall i x', ph = SDelete i -> (Handler SLoadCount, x') ∈ signal_handling ph x ->
    exists k, live (array x') = delete k (live (array x)) /\ (k < length (live (array x)))%nat) /\
  ((forall j t, ls !! j = Some t -> step j t x = []) -> pm = MEnd /\ ph = SReturned).
Proof.
  destruct (schedule step second_removed (start 3)) as [[ls x]|] eqn:E; [|by vm_compute in E].
  apply schedule_reachable in E as Hr. exists ls, x. split; [done|]. split.
  - vm_compute in E. injection E as _ <-. reflexivity.
  - apply (eraser_removes 3 ls x); done.
Defined.
