(* ===== verification/Students.v ===== *)
(** * sop1/lab/l3/prog20.c

    Students go through three years, each counted in a counter of its own,
    and the main thread cancels some of them.  Cancellation is deferred: it
    only takes effect in [nanosleep], where a cleanup handler takes the
    student out of its counter.  A step is one call, one load or one store;
    which student is kicked and for how long is open. *)

From S2P Require Import Prelude CLib Os Threads LabCommon.

Local Open Scope Z_scope.

Definition DEFAULT_STUDENT_COUNT : Z := 100.

(** [ReadArguments]. *)
Definition ReadArguments (args : list (list Z)) : prog Z :=
  match args with
  | [] => Ret DEFAULT_STUDENT_COUNT
  | a :: _ =>
      let studentsCount := atoi a in
      if studentsCount <=? 0 then printf "Invalid value for 'studentsCount'" [] ;;; Exit EXIT_FAILURE
      else Ret studentsCount
  end.

(** The [timespec] of [msleep]: seconds and nanoseconds. *)
Definition msleep (milisec : Z) : Z * Z :=
  let sec := milisec / 1000 in
  (sec, wrap_u 32 (milisec - sec * 1000) * 1000000).

(** [yearCounters], [studentsList] and what the kernel keeps of the threads:
    pending cancellations and which threads have ended. *)
Record world := World {
  values : list Z; mxCounters : list bool;
  removed : list bool; present : Z;
  cancelled : list bool; terminated : list bool;
  stdout : list (list Z) }.

(** [student_life]: [increment_counter], the sleep, [decrement_counter] as
    [pthread_cleanup_pop] or cancellation ([dying]) calls it. *)
Inductive student_pc :=
| ILock | ILoad | IStore (v : Z) | IUnlock
| Nanosleep | Asleep
| DLock (dying : bool) | DLoad (dying : bool) | DStore (dying : bool) (v : Z) | DUnlock (dying : bool)
| Graduated | Interrupted.

(** The loop of [main] with [kick_student], the joins and the output. *)
Inductive main_pc :=
| MKick | MPick | MCancel (idx : Z) | MRemove (idx : Z) | MWhile
| MJoin (i : Z) | MPrint (i : Z) (out : list Z) | MEnd.

Inductive thread := Main (count : Z) (pc : main_pc) | Student (year : Z) (pc : student_pc).

(** Thread [j] of the system is student [j - 1]. *)
Definition student (j : nat) (year : Z) (pc : student_pc) (x : world) : list (thread * world) :=
  let '(World vs ms rm p cn tm so) := x in
  let go pc x := [(Student year pc, x)] in
  let stop {A} (o : option A) (f : A -> list (thread * world)) := match o with Some a => f a | None => [] end in
  let ends := <[pred j := true]> tm in
  match pc with
  | ILock | DLock _ =>
      stop (mem_load ms year ≫= lock) (fun h => stop (mem_store ms year [h]) (fun ms =>
        go (match pc with DLock d => DLoad d | _ => ILoad end) (World vs ms rm p cn tm so)))
  | ILoad => stop (mem_load vs year) (fun v => go (IStore v) x)
  | IStore v =>
      stop (checked_int (v + 1)) (fun v => stop (mem_store vs year [v]) (fun vs => go IUnlock (World vs ms rm p cn tm so)))
  | IUnlock =>
      stop (mem_store ms year [false]) (fun ms =>
        if year <? 3 then go Nanosleep (World vs ms rm p cn tm so)
        else go Graduated (World vs ms rm p cn ends so))
  | Nanosleep =>        (* a pending cancellation takes effect on entry *)
      stop (cn !! pred j) (fun c => go (if c : bool then DLock true else Asleep) x)
  | Asleep =>           (* the time is over, or a cancellation arrives *)
      stop (cn !! pred j) (fun c => go (DLock false) x ++ if c : bool then go (DLock true) x else [])
  | DLoad d => stop (mem_load vs year) (fun v => go (DStore d v) x)
  | DStore d v =>
      stop (checked_int (v - 1)) (fun v => stop (mem_store vs year [v]) (fun vs => go (DUnlock d) (World vs ms rm p cn tm so)))
  | DUnlock d =>
      stop (mem_store ms year [false]) (fun ms =>
        if d : bool then go Interrupted (World vs ms rm p cn ends so)
        else [(Student (year + 1) ILock, World vs ms rm p cn tm so)])
  | Graduated | Interrupted => []
  end.

Definition main_thread (count : Z) (pc : main_pc) (x : world) : list (thread * world) :=
  let '(World vs ms rm p cn tm so) := x in
  let go pc x := [(Main count pc, x)] in
  let stop {A} (o : option A) (f : A -> list (thread * world)) := match o with Some a => f a | None => [] end in
  match pc with
  | MKick => go (if p =? 0 then MWhile else MPick) x
  | MPick =>            (* idx = rand() % count, again while it is removed *)
      idx ← seqZ 0 count;
      stop (mem_load rm idx) (fun r => go (if r : bool then MPick else MCancel idx) x)
  | MCancel idx => stop (mem_store cn idx [true]) (fun cn => go (MRemove idx) (World vs ms rm p cn tm so))
  | MRemove idx => stop (mem_store rm idx [true]) (fun rm => go MWhile (World vs ms rm (p - 1) cn tm so))
  | MWhile => [(Main count MKick, x); (Main count (MJoin 0), x)]
  | MJoin i =>
      if i <? count then stop (mem_load tm i) (fun t => if t : bool then go (MJoin (i + 1)) x else [])
      else go (MPrint 0 []) x
  | MPrint i out =>
      if i <? 4 then stop (mem_load vs i) (fun v => go (MPrint (i + 1) (out ++ [v])) x)
      else go MEnd (World vs ms rm p cn tm (so ++ [out]))
  | MEnd => []
  end.

Definition step (j : nat) (t : thread) (x : world) : list (thread * world) :=
  match t with
  | Main n pc => main_thread n pc x
  | Student year pc => student j year pc x
  end.

Definition start (n : nat) : list thread * world :=
  (Main (Z.of_nat n) MKick :: replicate n (Student 0 ILock),
   World [0; 0; 0; 0] [false; false; false; false] (replicate n false) (Z.of_nat n) (replicate n false) (replicate n false) []).

(** [main] around the threads. *)
Definition main (year : Z -> prog unit) (args : list (list Z)) : prog unit :=
  let! studentsCount := ReadArguments args in
  let! th := sys (Malloc (8 * studentsCount)) in
  let! rm := sys (Malloc studentsCount) in
  if (rv th =? 0) || (rv rm =? 0) then ERR "Failed to allocate memory for 'students list'!" else
  for_each (fun i _ =>
    let! r := sys (Spawn "student_life" i) in
    if negb (rv r =? 0) then ERR "Failed to create student thread!" else Ret tt) (seqZ 0 studentsCount) tt ;;;
  ignored "srand(time(NULL))" [] ;;;
  let! t := sys (Libc "clock_gettime" []) in
  if negb (rv t =? 0) then ERR "Failed to retrieve time!" else
  year studentsCount ;;;
  ignored "free" [rv rm] ;;;
  ignored "free" [rv th] ;;;
  Exit EXIT_SUCCESS.

(** The sleep asks for less than a second of nanoseconds. *)
Lemma msleep_valid ms : 0 <= ms < 2 ^ 32 -> 0 <= (msleep ms).2 < 1000000000 /\ (msleep ms).1 * 1000 + (msleep ms).2 / 1000000 = ms.
Proof.
  intros Hms. unfold msleep. cbn [fst snd]. pose proof (Z.div_mod ms 1000). pose proof (Z.mod_pos_bound ms 1000).
  rewrite wrap_u_small by lia. rewrite Z.div_mul by done. lia.
Qed.

(** ** Who is where *)
Definition attends (y : Z) (t : thread) : bool :=
  match t with
  | Student year (IUnlock | Nanosleep | Asleep | DLock _ | DLoad _ | DStore _ _ | Graduated) => year =? y
  | _ => false
  end.
Definition holds (y : Z) (t : thread) : bool :=
  match t with
  | Student year (ILoad | IStore _ | IUnlock | DLoad _ | DStore _ _ | DUnlock _) => year =? y
  | _ => false
  end.
Definition graduated (t : thread) : bool := match t with Student _ Graduated => true | _ => false end.
Definition interrupted (t : thread) : bool := match t with Student _ Interrupted => true | _ => false end.
Definition over (t : thread) : bool := graduated t || interrupted t.
Definition dying (t : thread) : bool :=
  match t with Student _ (DLock true | DLoad true | DStore true _ | DUnlock true | Interrupted) => true | _ => false end.

Definition student_knows (x : world) (year : Z) (pc : student_pc) : Prop :=
  0 <= year <= 3 /\
  match pc with
  | IStore v => values x !! Z.to_nat year = Some v
  | Nanosleep | Asleep | DLock _ | DLoad _ | DUnlock _ => year < 3
  | DStore _ v => year < 3 /\ values x !! Z.to_nat year = Some v
  | Graduated => year = 3
  | _ => True
  end.

Definition main_knows (n : nat) (x : world) (pc : main_pc) : Prop :=
  let joined i := forall k, (k < i)%nat -> terminated x !! k = Some true in
  match pc with
  | MPick => present x <> 0
  | MCancel idx => 0 <= idx /\ removed x !! Z.to_nat idx = Some false
  | MRemove idx => 0 <= idx /\ removed x !! Z.to_nat idx = Some false /\ cancelled x !! Z.to_nat idx = Some true
  | MJoin i => 0 <= i <= Z.of_nat n /\ joined (Z.to_nat i)
  | MPrint i out => joined n /\ 0 <= i <= 4 /\ out = take (Z.to_nat i) (values x)
  | MEnd => joined n /\ stdout x = [values x]
  | _ => True
  end /\
  (pc <> MEnd -> stdout x = []).

Record inv (n : nat) (ls : list thread) (x : world) : Prop := {
  inv_threads : length ls = S n;
  inv_shape j t : ls !! j = Some t ->
    match j with O => exists pc, t = Main (Z.of_nat n) pc | S _ => exists y pc, t = Student y pc end;
  inv_sizes : length (values x) = 4%nat /\ length (mxCounters x) = 4%nat /\
    length (removed x) = n /\ length (cancelled x) = n /\ length (terminated x) = n;
  inv_values y v : 0 <= y -> values x !! Z.to_nat y = Some v -> v = count (attends y) ls;
  inv_mutexes y h : 0 <= y -> mxCounters x !! Z.to_nat y = Some h -> count (holds y) ls = Z.b2z h;
  inv_present : present x + count id (removed x) = Z.of_nat n;
  inv_removed k : removed x !! k = Some true -> cancelled x !! k = Some true;
  inv_cancelled k : cancelled x !! k = Some true ->
    removed x !! k = Some true \/ ls !! 0%nat = Some (Main (Z.of_nat n) (MRemove (Z.of_nat k)));
  inv_over k t b : ls !! S k = Some t -> terminated x !! k = Some b -> b = over t;
  inv_dying k t : ls !! S k = Some t -> dying t = true -> cancelled x !! k = Some true;
  inv_student j year pc : ls !! j = Some (Student year pc) -> student_knows x year pc;
  inv_main_knows c pc : ls !! 0%nat = Some (Main c pc) -> main_knows n x pc;
}.

(** ** A step of a student *)
Section StudentStep.
Context (n : nat) (ls : list thread) (x : world) (HI : inv n ls x).
Context (k : nat) (year : Z) (pc : student_pc) (Hk : ls !! S k = Some (Student year pc)).

Lemma student_index : (k < n)%nat.
Proof. apply lookup_lt_Some in Hk. rewrite (inv_threads _ _ _ HI) in Hk. lia. Qed.

(** Of the holders of a mutex there is one. *)
Lemma holder_alone y j u :
  0 <= y < 4 -> holds y (Student year pc) = true -> ls !! j = Some u -> j <> S k -> holds y u = false.
Proof.
  intros Hy Ht Hj Hne. destruct (holds y u) eqn:E; [|done]. destruct Hne.
  destruct (inv_sizes _ _ _ HI) as (_ & Hm & _).
  destruct (lookup_lt_is_Some_2 (mxCounters x) (Z.to_nat y)) as [h Hh]; [lia|].
  apply (count_two (holds y) ls j (S k) u _ Hj Hk E Ht). rewrite (inv_mutexes _ _ _ HI y h) by (lia || done). by destruct h.
Qed.

(** [main] has not joined a student that is not over. *)
Lemma not_joined : over (Student year pc) = false -> terminated x !! k = Some true -> False.
Proof. intros Ho Ht. pose proof (inv_over _ _ _ HI _ _ _ Hk Ht). congruence. Qed.

Lemma student_frame year' pc' x' :
  let t := Student year pc in let t' := Student year' pc' in
  over t = false ->
  length (values x') = 4%nat -> length (mxCounters x') = 4%nat ->
  (forall y v v', 0 <= y -> values x !! Z.to_nat y = Some v -> values x' !! Z.to_nat y = Some v' ->
    v' = v - Z.b2z (attends y t) + Z.b2z (attends y t')) ->
  (forall y h h', 0 <= y -> mxCounters x !! Z.to_nat y = Some h -> mxCounters x' !! Z.to_nat y = Some h' ->
    Z.b2z h' = Z.b2z h - Z.b2z (holds y t) + Z.b2z (holds y t')) ->
  removed x' = removed x -> present x' = present x -> cancelled x' = cancelled x -> stdout x' = stdout x ->
  terminated x' = (if over t' then <[k := true]> (terminated x) else terminated x) ->
  (dying t' = true -> cancelled x !! k = Some true) ->
  student_knows x' year' pc' ->
  (forall j y q, j <> S k -> ls !! j = Some (Student y q) -> student_knows x y q -> student_knows x' y q) ->
  inv n (<[S k := t']> ls) x'.
Proof.
  intros t t' Ho Hlv Hlm Hv Hm Hr Hp Hc Hso Htm Hd Hkn Hoth.
  destruct (inv_sizes _ _ _ HI) as (S1 & S2 & S3 & S4 & S5). pose proof student_index as Hidx.
  constructor; rewrite ?Hr, ?Hp, ?Hc, ?length_insert.
  - apply HI.
  - intros j u Hj. insert_cases Hj; [eauto|]. by apply (inv_shape _ _ _ HI).
  - split_and!; try done. rewrite Htm. destruct (over t'); [by rewrite length_insert|done].
  - intros y v' Hy Hv'. destruct (lookup_lt_is_Some_2 (values x) (Z.to_nat y)) as [v Hvv]; [apply lookup_lt_Some in Hv'; lia|].
    rewrite (count_insert _ _ _ _ _ Hk), <- (inv_values _ _ _ HI y v Hy Hvv). by apply Hv.
  - intros y h' Hy Hh'. destruct (lookup_lt_is_Some_2 (mxCounters x) (Z.to_nat y)) as [h Hh]; [apply lookup_lt_Some in Hh'; lia|].
    rewrite (count_insert _ _ _ _ _ Hk), (inv_mutexes _ _ _ HI y h Hy Hh). symmetry. by apply Hm.
  - apply HI.
  - apply HI.
  - intros i Hi. rewrite list_lookup_insert_ne by done. by apply HI.
  - intros i u b Hi Hb. rewrite Htm in Hb. insert_cases Hi.
    + match goal with |- _ = over ?u => destruct (over u) eqn:E end.
      * rewrite list_lookup_insert_eq in Hb by by rewrite S5. by injection Hb.
      * rewrite (inv_over _ _ _ HI _ _ _ Hk Hb). done.
    + apply (inv_over _ _ _ HI i u b Hi). destruct (over t'); [|done]. by rewrite list_lookup_insert_ne in Hb by lia.
  - intros i u Hi Hu. insert_cases Hi; [by apply Hd|]. by apply (inv_dying _ _ _ HI i u Hi).
  - intros j y q Hj. insert_cases Hj; [done|]. apply (Hoth j); [done|done|]. by apply (inv_student _ _ _ HI j).
  - intros c q Hq. rewrite list_lookup_insert_ne in Hq by done. destruct (inv_main_knows _ _ _ HI _ _ Hq) as [Hmk Hq0].
    assert (forall i, terminated x !! i = Some true -> terminated x' !! i = Some true) as Hmono.
    { intros i Hi. rewrite Htm. destruct (over t'); [|done]. destruct (decide (i = k)) as [->|]; [|by rewrite list_lookup_insert_ne].
      apply list_lookup_insert_eq. by rewrite S5. }
    assert (~ forall i, (i < n)%nat -> terminated x !! i = Some true) as Hnj.
    { intros H. by apply (not_joined Ho), H. }
    split; [|by rewrite Hso]. destruct q; rewrite ?Hr, ?Hp, ?Hc; try done; try (by destruct Hnj; apply Hmk).
    destruct Hmk as [Hi Hj]. split; [done|]. intros. by apply Hmono, Hj.
Qed.
End StudentStep.

(** A store into a counter or a mutex, for every index. *)
Lemma store_at {A} (f : A -> Z) (m : list A) (i : Z) (v w : A) d :
  m !! Z.to_nat i = Some v -> 0 <= i -> f w = f v + d ->
  forall y a b, 0 <= y -> m !! Z.to_nat y = Some a -> <[Z.to_nat i := w]> m !! Z.to_nat y = Some b ->
    f b = f a + d * Z.b2z (i =? y).
Proof.
  intros Hv Hi Hd y a b Hy Ha Hb. destruct (Z.eqb_spec i y) as [->|Hne]; simpl.
  - rewrite list_lookup_insert_eq in Hb by by eapply lookup_lt_Some. simplify_eq. lia.
  - rewrite list_lookup_insert_ne in Hb by lia. simplify_eq. lia.
Qed.

Ltac one Hs := apply list_elem_of_singleton in Hs as [= -> ->].
(** The obligations of [student_frame] for what a step leaves alone. *)
Ltac unchanged := try done; try (intros ??????; cbn [values mxCounters] in *; simplify_eq; simpl; lia).

Lemma student_lock n ls x k year pc pc' ms' :
  inv n ls x -> ls !! S k = Some (Student year pc) ->
  (pc = ILock /\ pc' = ILoad) \/ (exists d, pc = DLock d /\ pc' = DLoad d) ->
  (mem_load (mxCounters x) year ≫= lock) = Some true -> mem_store (mxCounters x) year [true] = Some ms' ->
  inv n (<[S k := Student year pc']> ls)
    (World (values x) ms' (removed x) (present x) (cancelled x) (terminated x) (stdout x)).
Proof.
  intros HI Hk Hpc Hl Hs. destruct (inv_student _ _ _ HI _ _ _ Hk) as [Hy Hkn].
  destruct (mem_load (mxCounters x) year) as [h|] eqn:E; [|done]. apply mem_load_Some in E as [_ E].
  apply lock_Some in Hl as [-> _]. rewrite (mem_store_one _ _ _ _ E) in Hs by lia. injection Hs as <-.
  pose proof (store_at Z.b2z _ _ _ true 1 E ltac:(lia) eq_refl) as Hst.
  destruct (inv_sizes _ _ _ HI) as (S1 & S2 & _).
  pose proof (inv_dying _ _ _ HI _ _ Hk) as Hdy.
  destruct Hpc as [[-> ->]|(d & -> & ->)]; eapply student_frame; eauto; unchanged; simpl; rewrite ?length_insert; try done;
    intros y a b Hy0 Ha Hb; rewrite (Hst y a b Hy0 Ha Hb); lia.
Qed.

Lemma student_unlock n ls x k year pc year' pc' ms' tm' :
  inv n ls x -> ls !! S k = Some (Student year pc) ->
  (pc = IUnlock /\ year' = year /\ ((year < 3 /\ pc' = Nanosleep /\ tm' = terminated x) \/
     (year = 3 /\ pc' = Graduated /\ tm' = <[k := true]> (terminated x)))) \/
  (pc = DUnlock true /\ year' = year /\ pc' = Interrupted /\ tm' = <[k := true]> (terminated x)) \/
  (pc = DUnlock false /\ year' = year + 1 /\ pc' = ILock /\ tm' = terminated x) ->
  mem_store (mxCounters x) year [false] = Some ms' ->
  inv n (<[S k := Student year' pc']> ls) (World (values x) ms' (removed x) (present x) (cancelled x) tm' (stdout x)).
Proof.
  intros HI Hk Hpc Hs. destruct (inv_student _ _ _ HI _ _ _ Hk) as [Hy Hkn].
  destruct (inv_sizes _ _ _ HI) as (S1 & S2 & _). pose proof (inv_dying _ _ _ HI _ _ Hk) as Hdy.
  destruct (lookup_lt_is_Some_2 (mxCounters x) (Z.to_nat year)) as [h Hh]; [lia|].
  pose proof (inv_mutexes _ _ _ HI year h ltac:(lia) Hh) as Hm.
  assert (holds year (Student year pc) = true) as Hhold
    by (destruct Hpc as [(-> & _)|[(-> & _)|(-> & _)]]; apply Z.eqb_refl).
  pose proof (count_pos (holds year) _ _ _ Hk Hhold). assert (h = true) as -> by (destruct h; [done|simpl in *; lia]).
  rewrite (mem_store_one _ _ _ _ Hh) in Hs by lia. injection Hs as <-.
  pose proof (store_at Z.b2z _ _ _ false (-1) Hh ltac:(lia) eq_refl) as Hst.
  destruct Hpc as [(-> & -> & [(? & -> & ->)|(? & -> & ->)])|[(-> & -> & -> & ->)|(-> & -> & -> & ->)]];
    eapply student_frame; eauto; unchanged; simpl; rewrite ?length_insert; try done;
    try (intros y a b Hy0 Ha Hb; rewrite (Hst y a b Hy0 Ha Hb); lia); simpl in Hkn; try split; try lia; done.
Qed.

Lemma student_store n ls x k year pc pc' v d vs' :
  inv n ls x -> ls !! S k = Some (Student year pc) ->
  (pc = IStore v /\ pc' = IUnlock /\ d = 1) \/ (exists c, pc = DStore c v /\ pc' = DUnlock c /\ d = -1) ->
  mem_store (values x) year [v + d] = Some vs' ->
  inv n (<[S k := Student year pc']> ls)
    (World vs' (mxCounters x) (removed x) (present x) (cancelled x) (terminated x) (stdout x)).
Proof.
  intros HI Hk Hpc Hs. destruct (inv_student _ _ _ HI _ _ _ Hk) as [Hy Hkn].
  destruct (inv_sizes _ _ _ HI) as (S1 & S2 & _). pose proof (inv_dying _ _ _ HI _ _ Hk) as Hdy.
  assert (values x !! Z.to_nat year = Some v) as Hv by (destruct Hpc as [(-> & _)|(c & -> & _)]; apply Hkn).
  rewrite (mem_store_one _ _ _ _ Hv) in Hs by lia. injection Hs as <-.
  pose proof (store_at id _ _ _ (v + d) d Hv ltac:(lia) eq_refl) as Hst. unfold id in Hst.
  assert (holds year (Student year pc) = true) as Hhold
    by (destruct Hpc as [(-> & _)|(c & -> & _)]; apply Z.eqb_refl).
  assert (forall j y q, j <> S k -> ls !! j = Some (Student y q) -> student_knows x y q ->
    student_knows (World (<[Z.to_nat year := v + d]> (values x)) (mxCounters x) (removed x) (present x) (cancelled x) (terminated x) (stdout x)) y q) as Hoth.
  { intros j y q Hne Hj [Hy' Hq]. pose proof (holder_alone n ls x HI k year pc Hk year j _ ltac:(lia) Hhold Hj Hne) as Ha.
    split; [done|]. destruct q; try done; simpl in *; apply Z.eqb_neq in Ha; by rewrite list_lookup_insert_ne by lia. }
  destruct Hpc as [(-> & -> & ->)|(c & -> & -> & ->)]; eapply student_frame; eauto; unchanged; simpl; rewrite ?length_insert; try done;
    try (intros y a b Hy0 Ha Hb; rewrite (Hst y a b Hy0 Ha Hb); lia). simpl in Hkn. split; [lia|]. by destruct Hkn.
Qed.

(** A step that only moves on. *)
Lemma student_same n ls x k year pc pc' :
  inv n ls x -> ls !! S k = Some (Student year pc) ->
  let t := Student year pc in let t' := Student year pc' in
  over t = false -> over t' = false -> (forall y, attends y t' = attends y t) -> (forall y, holds y t' = holds y t) ->
  (dying t' = true -> cancelled x !! k = Some true) -> student_knows x year pc' ->
  inv n (<[S k := t']> ls) x.
Proof.
  intros HI Hk t t' H1 H2 H3 H4 H5 H6. destruct (inv_sizes _ _ _ HI) as (S1 & S2 & _).
  eapply student_frame; eauto; fold t; fold t'; rewrite ?H2; try done;
    intros y a b _ Ha Hb; rewrite ?H3, ?H4; simplify_eq; lia.
Qed.

Lemma student_inv n ls x k year pc t' x' :
  Z.of_nat n < INT_MAX -> inv n ls x -> ls !! S k = Some (Student year pc) ->
  (t', x') ∈ student (S k) year pc x -> inv n (<[S k := t']> ls) x'.
Proof.
  intros Hn HI Hk Hs. destruct (inv_student _ _ _ HI _ _ _ Hk) as [Hy Hkn].
  pose proof (inv_dying _ _ _ HI _ _ Hk) as Hdy.
  pose proof (fun pc' => student_lock n ls x k year pc pc') as Hlock.
  pose proof (fun y' pc' => student_unlock n ls x k year pc y' pc') as Hunlock.
  pose proof (fun pc' v => student_store n ls x k year pc pc' v) as Hstore.
  pose proof (fun pc' => student_same n ls x k year pc pc' HI Hk) as Hsame.
  destruct x as [vs ms rm p cn tm so]. cbn [values mxCounters removed present cancelled terminated stdout] in *.
  destruct pc; cbn [student pred] in Hs; simpl in Hkn.
  - destruct (mem_load ms year ≫= lock) as [h|] eqn:El; [|by apply not_elem_of_nil in Hs].
    destruct (mem_store ms year [h]) as [ms'|] eqn:Es; [|by apply not_elem_of_nil in Hs]. one Hs.
    assert (h = true) as -> by (destruct (mem_load ms year); [|done]; by apply lock_Some in El as [_ ->]).
    by eapply Hlock; eauto.
  - destruct (mem_load vs year) as [v|] eqn:El; [|by apply not_elem_of_nil in Hs]. apply mem_load_Some in El as [_ El].
    one Hs. by apply Hsame.
  - destruct (checked_int (v + 1)) as [w|] eqn:Ec; [|by apply not_elem_of_nil in Hs]. apply checked_int_Some in Ec as [-> _].
    destruct (mem_store vs year [v + 1]) as [vs'|] eqn:Es; [|by apply not_elem_of_nil in Hs]. one Hs.
    eapply Hstore; eauto.
  - destruct (mem_store ms year [false]) as [ms'|] eqn:Es; [|by apply not_elem_of_nil in Hs].
    destruct (Z.ltb_spec year 3); one Hs; eapply Hunlock; eauto 10 with lia.
  - destruct (cn !! k) as [c|] eqn:Ec; [|by apply not_elem_of_nil in Hs]. one Hs.
    destruct c; by apply Hsame.
  - destruct (cn !! k) as [c|] eqn:Ec; [|by apply not_elem_of_nil in Hs].
    apply elem_of_app in Hs as [Hs|Hs]; [one Hs; by apply Hsame|].
    destruct c; [|by apply not_elem_of_nil in Hs]. one Hs. by apply Hsame.
  - destruct (mem_load ms year ≫= lock) as [h|] eqn:El; [|by apply not_elem_of_nil in Hs].
    destruct (mem_store ms year [h]) as [ms'|] eqn:Es; [|by apply not_elem_of_nil in Hs]. one Hs.
    assert (h = true) as -> by (destruct (mem_load ms year); [|done]; by apply lock_Some in El as [_ ->]).
    eapply Hlock; eauto.
  - destruct (mem_load vs year) as [v|] eqn:El; [|by apply not_elem_of_nil in Hs]. apply mem_load_Some in El as [_ El].
    one Hs. by apply Hsame.
  - destruct (checked_int (v - 1)) as [w|] eqn:Ec; [|by apply not_elem_of_nil in Hs]. apply checked_int_Some in Ec as [-> _].
    destruct (mem_store vs year [v - 1]) as [vs'|] eqn:Es; [|by apply not_elem_of_nil in Hs]. one Hs.
    eapply Hstore; eauto.
  - destruct (mem_store ms year [false]) as [ms'|] eqn:Es; [|by apply not_elem_of_nil in Hs].
    destruct dying0; one Hs; eapply Hunlock; eauto 10.
  - by apply not_elem_of_nil in Hs.
  - by apply not_elem_of_nil in Hs.
Qed.

(** ** A step of [main] *)
Lemma students_main_frame n ls x pc pc' x' :
  inv n ls x -> ls !! 0%nat = Some (Main (Z.of_nat n) pc) ->
  values x' = values x -> mxCounters x' = mxCounters x -> terminated x' = terminated x ->
  length (removed x') = n -> length (cancelled x') = n ->
  present x' + count id (removed x') = Z.of_nat n ->
  (forall k, removed x' !! k = Some true -> cancelled x' !! k = Some true) ->
  (forall k, cancelled x !! k = Some true -> cancelled x' !! k = Some true) ->
  (forall k, cancelled x' !! k = Some true -> removed x' !! k = Some true \/ pc' = MRemove (Z.of_nat k)) ->
  main_knows n x' pc' -> inv n (<[0%nat := Main (Z.of_nat n) pc']> ls) x'.
Proof.
  intros HI Hl Hv Hm Ht Hr Hc Hp Hrc Hcc Hcr Hk. destruct (inv_sizes _ _ _ HI) as (S1 & S2 & S3 & S4 & S5).
  constructor; rewrite ?Hv, ?Hm, ?Ht, ?length_insert; try done.
  - apply HI.
  - intros j t Hj. insert_cases Hj; [eauto|]. by apply (inv_shape _ _ _ HI).
  - intros y v Hy Hyv. rewrite (count_insert _ _ _ _ _ Hl), (inv_values _ _ _ HI y v Hy Hyv). simpl. lia.
  - intros y h Hy Hh. rewrite (count_insert _ _ _ _ _ Hl), (inv_mutexes _ _ _ HI y h Hy Hh). simpl. lia.
  - intros k Hck. rewrite list_lookup_insert_eq by by eapply lookup_lt_Some. destruct (Hcr k Hck) as [| ->]; auto.
  - intros k t b Hj. rewrite list_lookup_insert_ne in Hj by done. by apply HI.
  - intros k t Hj Hd. rewrite list_lookup_insert_ne in Hj by done. by apply Hcc, (inv_dying _ _ _ HI _ _ Hj).
  - intros j y q Hj. insert_cases Hj. destruct (inv_student _ _ _ HI _ _ _ Hj) as [Hy Hq].
    split; [done|]. by rewrite Hv.
  - intros c q Hq. rewrite list_lookup_insert_eq in Hq by by eapply lookup_lt_Some. by injection Hq as <- <-.
Qed.

Lemma students_main_inv n ls x pc t' x' :
  inv n ls x -> ls !! 0%nat = Some (Main (Z.of_nat n) pc) -> (t', x') ∈ main_thread (Z.of_nat n) pc x ->
  inv n (<[0%nat := t']> ls) x'.
Proof.
  intros HI Hl Hs. pose proof (inv_main_knows _ _ _ HI _ _ Hl) as [Hk Hso].
  pose proof (inv_sizes _ _ _ HI) as (S1 & S2 & S3 & S4 & S5). pose proof (inv_present _ _ _ HI) as Hp.
  pose proof (inv_removed _ _ _ HI) as Hrc. pose proof (inv_cancelled _ _ _ HI) as Hcr.
  assert (forall pc' so', (forall k, pc <> MRemove k) ->
    main_knows n (World (values x) (mxCounters x) (removed x) (present x) (cancelled x) (terminated x) so') pc' ->
    inv n (<[0%nat := Main (Z.of_nat n) pc']> ls) (World (values x) (mxCounters x) (removed x) (present x) (cancelled x) (terminated x) so')) as Hsame.
  { intros pc' so' Hpc Hk'. eapply students_main_frame; eauto. intros k Hck. destruct (Hcr k Hck) as [|Hm]; [by left|].
    rewrite Hl in Hm. injection Hm as ->. by destruct (Hpc (Z.of_nat k)). }
  destruct x as [vs ms rm p cn tm so]. cbn [values mxCounters removed present cancelled terminated stdout] in *.
  destruct pc; cbn [main_thread] in Hs.
  - one Hs. apply Hsame; [done|]. split; [|by rewrite Hso]. by destruct (Z.eqb_spec p 0).
  - apply list_elem_of_bind in Hs as (idx & Hs & Hin). apply elem_of_seqZ in Hin.
    destruct (mem_load rm idx) as [r|] eqn:E; [|by apply not_elem_of_nil in Hs]. apply mem_load_Some in E as [_ E].
    one Hs. apply Hsame; [done|]. split; [|by rewrite Hso]. destruct r; [done|]. split; [lia|done].
  - destruct Hk as [Hi Hr]. pose proof (lookup_lt_Some _ _ _ Hr).
    destruct (lookup_lt_is_Some_2 cn (Z.to_nat idx)) as [c Hc]; [lia|].
    rewrite (mem_store_one _ _ _ _ Hc Hi) in Hs. one Hs. eapply students_main_frame; eauto; simpl; rewrite ?length_insert; try done.
    + intros k Hk. apply list_lookup_insert_Some. destruct (decide (Z.to_nat idx = k)) as [<-|]; [left; split_and!; done || lia|right; auto].
    + intros k Hk. apply list_lookup_insert_Some. destruct (decide (Z.to_nat idx = k)) as [<-|]; [left; split_and!; done || lia|right; auto].
    + intros k Hk. insert_cases Hk; [right; f_equal; lia|]. destruct (Hcr k Hk) as [|Hm]; [by left|]. by rewrite Hl in Hm.
    + split; [|by rewrite Hso]. split_and!; try done. apply list_lookup_insert_eq. lia.
  - destruct Hk as (Hi & Hr & Hc). rewrite (mem_store_one _ _ _ _ Hr Hi) in Hs. one Hs.
    eapply students_main_frame; eauto; simpl; rewrite ?length_insert; try done.
    + rewrite (count_insert _ _ _ _ _ Hr). simpl. lia.
    + intros k Hk. insert_cases Hk; [done|by apply Hrc].
    + intros k Hk. left. apply list_lookup_insert_Some. destruct (Hcr k Hk) as [|Hm].
      * destruct (decide (Z.to_nat idx = k)) as [<-|]; [congruence|by right].
      * rewrite Hl in Hm. injection Hm as ->. left. pose proof (lookup_lt_Some _ _ _ Hr). split_and!; done || lia.
    + split; [done|by rewrite Hso].
  - apply elem_of_cons in Hs as [[= -> ->]|Hs]; [|one Hs]; (apply Hsame; [done|]); split; try (by rewrite Hso).
    + done.
    + split; [lia|]. intros k Hk0. lia.
  - destruct Hk as [Hi Hj]. destruct (Z.ltb_spec i (Z.of_nat n)).
    + destruct (mem_load tm i) as [[]|] eqn:E; [|by apply not_elem_of_nil in Hs..]. apply mem_load_Some in E as [_ E].
      one Hs. apply Hsame; [done|]. split; [|by rewrite Hso]. split; [lia|]. intros k Hk0.
      destruct (decide (k = Z.to_nat i)) as [->|]; [done|]. apply Hj. lia.
    + one Hs. apply Hsame; [done|]. split; [|by rewrite Hso]. split_and!; try done; try lia.
      intros k Hk0. apply Hj. lia.
  - destruct Hk as (Hj & Hi & ->). destruct (Z.ltb_spec i 4).
    + destruct (mem_load vs i) as [v|] eqn:E; [|by apply not_elem_of_nil in Hs]. apply mem_load_Some in E as [_ E].
      one Hs. apply Hsame; [done|]. split; [|by rewrite Hso]. split_and!; try done; try lia.
      rewrite Z2Nat.inj_add, Nat.add_1_r by lia. symmetry. by apply take_S_r.
    + one Hs. apply Hsame; [done|]. split; [|done]. split; [done|]. rewrite Hso by done. simpl. by rewrite take_ge by lia.
  - by apply not_elem_of_nil in Hs.
Qed.

(** ** Every reachable state *)
Lemma student_at n j t : replicate n (Student 0 ILock) !! j = Some t -> t = Student 0 ILock.
Proof. intros H. by apply lookup_replicate in H as [-> _]. Qed.

Lemma students_start n : inv n (start n).1 (start n).2.
Proof.
  assert (forall P : thread -> bool, P (Student 0 ILock) = false -> count P (replicate n (Student 0 ILock)) = 0) as Hc.
  { intros P HP. by apply count_replicate. }
  constructor; simpl.
  - by rewrite length_replicate.
  - intros [|j] t Hj; [injection Hj as <-; eauto|]. apply student_at in Hj as ->. eauto.
  - by rewrite !length_replicate.
  - intros y v Hy Hv. rewrite Hc by done. by destruct (Z.to_nat y) as [|[|[|[|?]]]]; simplify_eq/=.
  - intros y h Hy Hh. rewrite Hc by done. by destruct (Z.to_nat y) as [|[|[|[|?]]]]; simplify_eq/=.
  - rewrite (count_none id); [lia|]. intros i b Hb. by apply lookup_replicate in Hb as [-> _].
  - intros k Hk. by apply lookup_replicate in Hk as [? _].
  - intros k Hk. by apply lookup_replicate in Hk as [? _].
  - intros k t b Ht Hb. apply lookup_replicate in Hb as [-> _]. by apply student_at in Ht as ->.
  - intros k t Ht. by apply student_at in Ht as ->.
  - intros [|j] year pc Hj; [done|]. apply (student_at n j) in Hj. injection Hj as -> ->. by split.
  - by intros c pc [= <- <-].
Qed.

Lemma students_reachable n ls x :
  Z.of_nat n < INT_MAX -> reachable step (start n) (ls, x) -> inv n ls x.
Proof.
  intros Hn. apply (reachable_invariant step (fun y => inv n y.1 y.2) _ (ls, x)).
  - apply students_start.
  - intros c1 c2 HI Hm. destruct Hm as [j t t' ls' s s' Hj Hs]. simpl in *.
    pose proof (inv_shape _ _ _ HI _ _ Hj) as Ht. destruct j as [|j].
    + destruct Ht as [pc ->]. by eapply students_main_inv.
    + destruct Ht as (year & pc & ->). by eapply student_inv.
Qed.

(** A thread that cannot move has ended, waits for a held mutex, or joins a
    student that is not over. *)
Definition waits (ls : list thread) (t : thread) : Prop :=
  match t with
  | Student year (ILock | DLock _) => 1 <= count (holds year) ls
  | Student _ (Graduated | Interrupted) | Main _ MEnd => True
  | Main _ (MJoin i) => exists u, ls !! S (Z.to_nat i) = Some u /\ over u = false
  | _ => False
  end.

Lemma counters_bound n ls x y v :
  inv n ls x -> 0 <= y -> values x !! Z.to_nat y = Some v -> 0 <= v <= Z.of_nat n.
Proof.
  intros HI Hy Hv. rewrite (inv_values _ _ _ HI y v Hy Hv). pose proof (count_nonneg (attends y) ls).
  destruct (lookup_lt_is_Some_2 ls 0) as [t Ht]; [rewrite (inv_threads _ _ _ HI); lia|].
  destruct (inv_shape _ _ _ HI _ _ Ht) as [pc ->].
  pose proof (count_missing (attends y) ls _ _ Ht eq_refl). rewrite (inv_threads _ _ _ HI) in *. lia.
Qed.

Lemma student_stuck n ls x k year pc :
  Z.of_nat n < INT_MAX -> inv n ls x -> ls !! S k = Some (Student year pc) ->
  student (S k) year pc x = [] -> waits ls (Student year pc).
Proof.
  intros Hn HI Hk Hs. destruct (inv_student _ _ _ HI _ _ _ Hk) as [Hy Hkn].
  destruct (inv_sizes _ _ _ HI) as (S1 & S2 & S3 & S4 & S5).
  destruct (lookup_lt_is_Some_2 (mxCounters x) (Z.to_nat year)) as [h Hh]; [lia|].
  destruct (lookup_lt_is_Some_2 (values x) (Z.to_nat year)) as [v0 Hv0]; [lia|].
  pose proof (counters_bound n ls x year v0 HI ltac:(lia) Hv0) as Hb.
  pose proof (inv_mutexes _ _ _ HI year h ltac:(lia) Hh) as Hm. pose proof (student_index _ _ _ HI _ _ _ Hk) as Hidx.
  destruct (lookup_lt_is_Some_2 (cancelled x) k) as [c Hc]; [lia|].
  assert (mem_load (mxCounters x) year = Some h) as Hlm by (unfold mem_load; by rewrite (proj2 (Z.leb_le 0 year)) by lia).
  assert (mem_load (values x) year = Some v0) as Hlv by (unfold mem_load; by rewrite (proj2 (Z.leb_le 0 year)) by lia).
  assert (forall w, exists m, mem_store (mxCounters x) year [w] = Some m) as Hsm.
  { intros w. rewrite (mem_store_one _ _ _ _ Hh) by lia. eauto. }
  assert (forall w, exists m, mem_store (values x) year [w] = Some m) as Hsv.
  { intros w. rewrite (mem_store_one _ _ _ _ Hv0) by lia. eauto. }
  destruct x as [vs ms rm p cn tm so]. cbn [values mxCounters cancelled] in *.
  destruct pc; cbn [student pred] in Hs; simpl in Hkn |- *; try done; rewrite ?Hlm, ?Hlv, ?Hc in Hs; try done.
  - destruct h; [rewrite Hm; simpl; lia|]. simpl in Hs. destruct (Hsm true) as [m Em]. by rewrite Em in Hs.
  - simplify_eq. rewrite (proj2 (checked_int_Some (v + 1) (v + 1))) in Hs by (limits; lia).
    destruct (Hsv (v + 1)) as [m Em]. by rewrite Em in Hs.
  - destruct (Hsm false) as [m Em]. rewrite Em in Hs. by destruct (year <? 3).
  - destruct h; [rewrite Hm; simpl; lia|]. simpl in Hs. destruct (Hsm true) as [m Em]. by rewrite Em in Hs.
  - destruct Hkn as [_ Hv]. simplify_eq. rewrite (proj2 (checked_int_Some (v - 1) (v - 1))) in Hs by (limits; lia).
    destruct (Hsv (v - 1)) as [m Em]. by rewrite Em in Hs.
  - destruct (Hsm false) as [m Em]. rewrite Em in Hs. by destruct dying0.
Qed.

Lemma students_main_stuck n ls x pc :
  inv n ls x -> ls !! 0%nat = Some (Main (Z.of_nat n) pc) -> main_thread (Z.of_nat n) pc x = [] ->
  waits ls (Main (Z.of_nat n) pc).
Proof.
  intros HI Hl Hs. destruct (inv_main_knows _ _ _ HI _ _ Hl) as [Hk _].
  destruct (inv_sizes _ _ _ HI) as (S1 & S2 & S3 & S4 & S5). pose proof (inv_present _ _ _ HI) as Hp.
  pose proof (count_length id (removed x)) as Hcl. pose proof (count_nonneg id (removed x)).
  pose proof (inv_over _ _ _ HI) as Hov. pose proof (inv_threads _ _ _ HI) as Hth.
  destruct x as [vs ms rm p cn tm so]. cbn [values mxCounters removed present cancelled terminated stdout] in *.
  destruct pc; cbn [main_thread] in Hs; simpl in Hk |- *; try done.
  - assert (n <> 0%nat) by (intros ->; lia). rewrite seqZ_cons in Hs by lia. cbn [mbind list_bind] in Hs.
    destruct (mem_load_in rm 0) as (r & Hr & _); [lia|]. by rewrite Hr in Hs.
  - destruct Hk as [Hi Hr]. destruct (lookup_lt_is_Some_2 cn (Z.to_nat idx)) as [c Hc]; [apply lookup_lt_Some in Hr; lia|].
    by rewrite (mem_store_one _ _ _ _ Hc Hi) in Hs.
  - destruct Hk as (Hi & Hr & _). by rewrite (mem_store_one _ _ _ _ Hr Hi) in Hs.
  - destruct Hk as [Hi _]. destruct (Z.ltb_spec i (Z.of_nat n)); [|done].
    destruct (mem_load_in tm i) as (b & Hb & Hb'); [lia|]. rewrite Hb in Hs. destruct b; [done|].
    destruct (lookup_lt_is_Some_2 ls (S (Z.to_nat i))) as [u Hu]; [lia|]. exists u. split; [done|].
    by rewrite (Hov _ _ _ Hu Hb').
  - destruct Hk as (_ & Hi & _). destruct (Z.ltb_spec i 4); [|done].
    destruct (mem_load_in vs i) as (v & Hv & _); [lia|]. by rewrite Hv in Hs.
Qed.

Lemma students_stuck n ls x :
  Z.of_nat n < INT_MAX -> inv n ls x -> (forall j t, ls !! j = Some t -> step j t x = []) ->
  ls !! 0%nat = Some (Main (Z.of_nat n) MEnd) /\ forall k t, ls !! S k = Some t -> over t = true.
Proof.
  intros Hn HI Hall.
  assert (forall k t, ls !! S k = Some t -> waits ls t) as Hw.
  { intros k t Hk. destruct (inv_shape _ _ _ HI _ _ Hk) as (year & pc & ->). by eapply student_stuck, (Hall _ _ Hk). }
  assert (forall k t, ls !! S k = Some t -> over t = true) as Hover.
  { intros k t Hk. pose proof (Hw k t Hk) as Hwt. destruct (inv_shape _ _ _ HI _ _ Hk) as (year & pc & ->).
    assert (~ 1 <= count (holds year) ls) as Hno.
    { intros Hc1. apply count_exists in Hc1 as (j & u & Hj & Hu). destruct j as [|j].
      - by destruct (inv_shape _ _ _ HI _ _ Hj) as [q ->].
      - pose proof (Hw j u Hj) as Hwu. by destruct u as [|? []]. }
    by destruct pc. }
  split; [|done]. destruct (lookup_lt_is_Some_2 ls 0) as [t Ht]; [rewrite (inv_threads _ _ _ HI); lia|].
  destruct (inv_shape _ _ _ HI _ _ Ht) as [pc ->]. pose proof (students_main_stuck _ _ _ _ HI Ht (Hall _ _ Ht)) as Hm.
  destruct pc; try done. destruct Hm as (u & Hu & Ho). by rewrite (Hover _ _ Hu) in Ho.
Qed.

Lemma over_length ls : (forall j t, ls !! j = Some t -> over t = true) -> count over ls = Z.of_nat (length ls).
Proof.
  induction ls as [|t ls IH]; intros H; [done|]. cbn [count length]. rewrite (H 0%nat t eq_refl), IH; [simpl; lia|].
  intros j u Hj. by apply (H (S j)).
Qed.

(** The end: everybody is joined. *)
Lemma students_end n ls x :
  inv n ls x -> ls !! 0%nat = Some (Main (Z.of_nat n) MEnd) ->
  stdout x = [[0; 0; 0; count graduated ls]] /\
  count graduated ls + count interrupted ls = Z.of_nat n /\ present x <= count graduated ls.
Proof.
  intros HI Hl. destruct (inv_main_knows _ _ _ HI _ _ Hl) as [[Hj Hso] _]. pose proof (inv_threads _ _ _ HI) as Hth.
  destruct (inv_sizes _ _ _ HI) as (S1 & S2 & S3 & S4 & S5).
  assert (forall k t, ls !! S k = Some t -> over t = true) as Hover.
  { intros k t Hk. pose proof (lookup_lt_Some _ _ _ Hk). symmetry. apply (inv_over _ _ _ HI k t); [done|]. apply Hj. lia. }
  destruct ls as [|m ts]; [done|]. injection Hl as ->. simpl in Hth, Hover.
  assert (forall y, count (attends y) (Main (Z.of_nat n) MEnd :: ts) = if y =? 3 then count graduated ts else 0) as Hat.
  { intros y. cbn [count attends]. transitivity (count (fun t => graduated t && (y =? 3)) ts).
    - simpl. apply count_ext_at. intros k t Hk. pose proof (Hover k t Hk) as Ho.
      destruct (inv_shape _ _ _ HI (S k) t Hk) as (year & pc & ->).
      destruct (inv_student _ _ _ HI (S k) _ _ Hk) as [Hy Hpc]. destruct pc; try done. simpl in *. subst year.
      by rewrite (Z.eqb_sym 3 y).
    - destruct (y =? 3); [apply count_ext_at; intros; by rewrite andb_true_r|].
      apply count_none. intros; by rewrite andb_false_r. }
  assert (count graduated ts + count interrupted ts = Z.of_nat n) as Hsum.
  { rewrite (count_either graduated interrupted over); [rewrite over_length; [lia|done]|]. by intros [|? []]. }
  pose proof (inv_values _ _ _ HI) as Hv. setoid_rewrite Hat in Hv. cbn [count graduated interrupted Z.b2z].
  split; [|split; [done|]].
  - rewrite Hso. destruct (values x) as [|a [|b [|c [|d []]]]]; try done.
    pose proof (Hv 0 a) as Ha. pose proof (Hv 1 b) as Hb. pose proof (Hv 2 c) as Hc. pose proof (Hv 3 d) as Hd.
    simpl in *. rewrite Ha, Hb, Hc, Hd by done. done.
  - assert (count interrupted ts <= count id (removed x)); [|pose proof (inv_present _ _ _ HI); lia].
    apply count_mono; [lia|]. intros k t r Hk Hr Hi.
    assert (cancelled x !! k = Some true) as Hc by (apply (inv_dying _ _ _ HI k t Hk); by destruct t as [|? []]).
    destruct (inv_cancelled _ _ _ HI k Hc) as [Hrm|Hm]; [|done]. rewrite Hr in Hrm. by injection Hrm as ->.
Qed.

(** C34. Every student is accounted for: in every interleaving and whoever is
    kicked when, a counter is the number of students of its year that are
    counted in it; when [main] has joined everybody it prints that the first
    three years are empty and the fourth has the students that were not
    interrupted, at least those never kicked; only a cancelled student is
    interrupted; and the threads only all stop at that end. *)
Theorem students_counted n ls x :
  Z.of_nat n < INT_MAX -> reachable step (start n) (ls, x) ->
  (forall y v, 0 <= y -> values x !! Z.to_nat y = Some v -> v = count (attends y) ls) /\
  (forall k t, ls !! S k = Some t -> interrupted t = true -> cancelled x !! k = Some true) /\
  (ls !! 0%nat = Some (Main (Z.of_nat n) MEnd) ->
    stdout x = [[0; 0; 0; count graduated ls]] /\
    count graduated ls + count interrupted ls = Z.of_nat n /\ present x <= count graduated ls) /\
  ((forall j t, ls !! j = Some t -> step j t x = []) ->
    ls !! 0%nat = Some (Main (Z.of_nat n) MEnd) /\ forall k t, ls !! S k = Some t -> over t = true).
Proof.
  intros Hn Hr. pose proof (students_reachable _ _ _ Hn Hr) as HI. split_and!.
  - intros y v. apply HI.
  - intros k t Hk Ht. apply (inv_dying _ _ _ HI k t Hk). by destruct t as [|? []].
  - by apply students_end.
  - by apply students_stuck.
Qed.

(** Two students; the first is kicked in its first year, the other is not. *)
Definition one_kicked : list (nat * nat) :=
  (fun j => (j, 0%nat)) <$> replicate 4 1%nat ++ replicate 4 0%nat ++ replicate 5 1%nat ++ replicate 34 2%nat.
Definition then_joined : list (nat * nat) := (0, 1)%nat :: ((fun j => (j, 0%nat)) <$> replicate 8 0%nat).

Lemma students_counted_witness :
  exists ls x, reachable step (start 2) (ls, x) /\ stdout x = [[0; 0; 0; 1]] /\
  (forall y v, 0 <= y -> values x !! Z.to_nat y = Some v -> v = count (attends y) ls) /\
  (forall k t, ls !! S k = Some t -> interrupted t = true -> cancelled x !! k = Some true) /\
  (ls !! 0%nat = Some (Main (Z.of_nat 2) MEnd) ->
    stdout x = [[0; 0; 0; count graduated ls]] /\
    count graduated ls + count interrupted ls = Z.of_nat 2 /\ present x <= count graduated ls) /\
  ((forall j t, ls !! j = Some t -> step j t x = []) ->
    ls !! 0%nat = Some (Main (Z.of_nat 2) MEnd) /\ forall k t, ls !! S k = Some t -> over t = true).
Proof.
  destruct (schedule step (one_kicked ++ then_joined) (start 2)) as [[ls x]|] eqn:E; [|by vm_compute in E].
  apply schedule_reachable in E as Hr. exists ls, x. split; [done|]. split.
  - vm_compute in E. injection E as _ <-. reflexivity.
  - apply (students_counted 2 ls x); done.
Defined.
