(* ===== verification/Board.v ===== *)
(** * sop2/lab/l6: l6-2_server.c and l6-2_client.c

    A board of points in shared memory under a robust mutex: the server shows
    it every three seconds until SIGINT, players take points from random
    cells and may end or die while they hold the mutex.  A step is one call,
    one load or one store; [rand] may return anything and the sleeps have no
    step.  [SHM_SIZE] bytes hold the mutex, [N] and the cells. *)

From S2P Require Import Prelude CLib Os Threads LabCommon RobustMutex.

Local Open Scope Z_scope.

Definition SHM_SIZE : Z := 1024.
Definition MUTEX_SIZE : Z := 40.        (* sizeof(pthread_mutex_t), x86-64 *)
(** The bytes from [board] to the end of the memory. *)
Definition BOARD_BYTES : Z := SHM_SIZE - MUTEX_SIZE - 1.

(** ** l6-2_server.c: the memory *)
Definition fill_cell (N i j : Z) (board : list Z) : prog (list Z) :=
  let! r := sys (Libc "rand" []) in
  defined "board: overrun" (mem_store board (i * N + j) [1 + Z.rem (rv r) 9]).
Definition fill_board (N : Z) (board : list Z) : prog (list Z) :=
  for_each (fun i => for_each (fill_cell N i) (seqZ 0 N)) (seqZ 0 N) board.

Definition server_usage {A} : prog A :=
  printf "USAGE: %s N" [] ;;; printf "3 < N <= 30 - board size" [] ;;; Exit EXIT_FAILURE.

(** Up to the threads: [N] and the board; [main_loop] is the loop and the
    [pthread_join] after it. *)
Definition server_main (main_loop : Z -> list Z -> prog unit) (args : list (list Z)) : prog Z :=
  match args with
  | [n] =>
      let N := atoi n in
      if (N <? 3) || (100 <=? N) then server_usage else
      let! pid := sys (Libc "getpid" []) in
      ignored "srand" [rv pid] ;;;
      printf "My PID is %d" [PZ (rv pid)] ;;;
      let! fd := sys (Libc "shm_open" [rv pid]) in
      if rv fd =? -1 then ERR_kill "shm_open" else
      let! t := sys (Libc "ftruncate" [rv fd; SHM_SIZE]) in
      if rv t =? -1 then ERR_kill "ftruncate" else
      let! p := sys (Libc "mmap" [rv fd; SHM_SIZE]) in
      if rv p =? -1 then ERR_kill "mmap" else
      let! board := fill_board N (replicate (Z.to_nat BOARD_BYTES) 0) in
      ignored "pthread_mutexattr_setpshared" [] ;;;
      ignored "pthread_mutexattr_setrobust" [] ;;;
      ignored "pthread_mutex_init" [] ;;;
      let! m := sys (Libc "pthread_sigmask" [2]) in
      if negb (rv m =? 0) then ERR_kill "SIG_BLOCK error" else
      sys (Spawn "sighandling" 0) ;;;
      main_loop N board ;;;
      ignored "pthread_mutex_destroy" [] ;;;
      ignored "munmap" [rv p] ;;;
      ignored "shm_unlink" [rv pid] ;;;
      Ret EXIT_SUCCESS
  | _ => server_usage
  end.

(** l6-2_client.c up to the game: [N] is read from the memory. *)
Definition client_main (game : Z -> prog unit) (args : list (list Z)) : prog Z :=
  match args with
  | [s] =>
      let server_pid := atoi s in
      if server_pid =? 0 then printf "USAGE: %s server_pid" [] ;;; Exit EXIT_FAILURE else
      ignored "srand(getpid())" [] ;;;
      let! fd := sys (Libc "shm_open" [server_pid]) in
      if rv fd =? -1 then ERR_kill "shm_open" else
      let! p := sys (Libc "mmap" [rv fd; SHM_SIZE]) in
      if rv p =? -1 then ERR_kill "mmap" else
      let! n := sys (AtomicLoad "N_shared" 0) in
      game (rv n) ;;;
      ignored "munmap" [rv p] ;;;
      Ret EXIT_SUCCESS
  | _ => printf "USAGE: %s server_pid" [] ;;; Exit EXIT_FAILURE
  end.

(** ** The processes *)
Record world := World {
  mtx : mutex; board : list Z;
  args_mutex : bool; running : bool; handler_returned : bool;
  shown : list (list Z) }.

Inductive server_pc :=
| SLockArgs | STestRunning | SUnlockArgs
| SLock | SConsistent | SShow (k : Z) (out : list Z) | SUnlock
| SJoin | SEnd | SFailed.
Inductive handler_pc := HWait | HLock | HStore | HUnlock | HReturned.
Inductive player_pc := PLock | PConsistent | PRoll | PLoad (k : Z) | PClear (k p : Z) | PGameOver | PUnlock.
(** A killed player is kept as it was when it died. *)
Inductive life := Running (pc : player_pc) | Left | Killed (pc : player_pc) | Failed.
Inductive process :=
| Server (pc : server_pc)
| Handler (pc : handler_pc)
| Player (score : Z) (state : life).

Section Game.
Variable N : Z.

(** The call of [pthread_mutex_lock] with the tests after it. *)
Definition lock_board (j : nat) (m : mutex) (ok repair failed : process) : list (process * mutex) :=
  (fun '(error, m) =>
    if error =? 0 then (ok, m) else if error =? EOWNERDEAD then (repair, m) else (failed, m)) <$> mutex_lock true j m.

Definition server (j : nat) (pc : server_pc) (x : world) : list (process * world) :=
  let '(World m b am r hr sh) := x in
  let go pc x := [(Server pc, x)] in
  match pc with
  | SLockArgs => match lock am with Some am => go STestRunning (World m b am r hr sh) | None => [] end
  | STestRunning => go (if r then SUnlockArgs else SJoin) x      (* break keeps the mutex *)
  | SUnlockArgs => go SLock (World m b false r hr sh)
  | SLock => (fun '(t, m) => (t, World m b am r hr sh)) <$> lock_board j m (Server (SShow 0 [])) (Server SConsistent) (Server SFailed)
  | SConsistent => go (SShow 0 []) (World (mutex_consistent j m) b am r hr sh)
  | SShow k out =>
      if k <? N * N then match mem_load b k with Some v => go (SShow (k + 1) (out ++ [v])) x | None => [] end
      else go SUnlock (World m b am r hr (sh ++ [out]))
  | SUnlock => go SLockArgs (World (mutex_unlock j m) b am r hr sh)
  | SJoin => if hr then go SEnd x else []
  | SEnd | SFailed => []
  end.

Definition sighandling (pc : handler_pc) (x : world) : list (process * world) :=
  let '(World m b am r hr sh) := x in
  let go pc x := [(Handler pc, x)] in
  match pc with
  | HWait => go HLock x                 (* sigwait: SIGINT may come any time *)
  | HLock => match lock am with Some am => go HStore (World m b am r hr sh) | None => [] end
  | HStore => go HUnlock (World m b am false hr sh)
  | HUnlock => go HReturned (World m b false r true sh)
  | HReturned => []
  end.

Definition player (j : nat) (score : Z) (pc : player_pc) (x : world) : list (process * world) :=
  let '(World m b am r hr sh) := x in
  let go pc x := [(Player score (Running pc), x)] in
  match pc with
  | PLock =>
      (fun '(t, m) => (t, World m b am r hr sh)) <$>
        lock_board j m (Player score (Running PRoll)) (Player score (Running PConsistent)) (Player score Failed)
  | PConsistent => go PRoll (World (mutex_consistent j m) b am r hr sh)
  | PRoll =>            (* D == 1: exit with the mutex; else x, y = rand() % N *)
      (Player score Left, World (mutex_die true j m) b am r hr sh) ::
      (y ← seqZ 0 N; x' ← seqZ 0 N; go (PLoad (N * y + x')) x)
  | PLoad k =>
      match mem_load b k with
      | Some p =>
          if p =? 0 then go PGameOver x
          else match checked_int (score + p) with Some s => [(Player s (Running (PClear k p)), x)] | None => [] end
      | None => []
      end
  | PClear k _ => match mem_store b k [0] with Some b => go PUnlock (World m b am r hr sh) | None => [] end
  | PGameOver => [(Player score Left, World (mutex_unlock j m) b am r hr sh)]
  | PUnlock => go PLock (World (mutex_unlock j m) b am r hr sh)
  end.

(** What a process does itself; a player may also be killed anywhere. *)
Definition program (j : nat) (t : process) (x : world) : list (process * world) :=
  match t with
  | Server pc => server j pc x
  | Handler pc => sighandling pc x
  | Player score (Running pc) => player j score pc x
  | Player _ _ => []
  end.

Definition step (j : nat) (t : process) (x : world) : list (process * world) :=
  program j t x ++
  match t with
  | Player score (Running pc) =>
      [(Player score (Killed pc), World (mutex_die true j (mtx x)) (board x) (args_mutex x) (running x) (handler_returned x) (shown x))]
  | _ => []
  end.

Definition start (b : list Z) (players : nat) : list process * world :=
  (Server SLockArgs :: Handler HWait :: replicate players (Player 0 (Running PLock)), World Free b false true false []).
End Game.

(** ** Who holds the mutex of the board *)
Definition claim (j : nat) (t : process) : option mutex :=
  match t with
  | Server (SShow _ _ | SUnlock) | Player _ (Running (PRoll | PLoad _ | PClear _ _ | PGameOver | PUnlock)) => Some (Held j)
  | Server SConsistent | Player _ (Running PConsistent) => Some (Inconsistent j)
  | _ => None
  end.
Definition owns (j : nat) (t : process) (m : mutex) : Prop :=
  match claim j t with Some m' => m = m' | None => owner m <> Some j end.

Lemma claim_owner j t m : claim j t = Some m -> owner m = Some j.
Proof. by destruct t as [[]| |? [[]| | |]]; intros [= <-]. Qed.

(** At most one process holds it. *)
Lemma owns_alone j k t u m m' : owns j t m -> claim j t = Some m' -> owns k u m -> k <> j -> claim k u = None.
Proof.
  unfold owns. intros Ht Hc Hu Hne. rewrite Hc in Ht. subst. destruct (claim k u) as [m|] eqn:E; [|done].
  apply claim_owner in E, Hc. congruence.
Qed.

Lemma owns_step j t' m m' (ls : list process) :
  (forall k u, ls !! k = Some u -> owns k u m) ->
  (m' = m \/ ((owner m = None \/ owner m = Some j) /\ (owner m' = None \/ owner m' = Some j))) ->
  owns j t' m' -> forall k u, <[j := t']> ls !! k = Some u -> owns k u m'.
Proof.
  intros Hall Hm Ht k u Hk. insert_cases Hk; [done|]. specialize (Hall k u Hk).
  destruct Hm as [->|[Hm Hm']]; [done|]. unfold owns in *. destruct (claim k u) as [mk|] eqn:E.
  - subst. apply claim_owner in E. destruct Hm; congruence.
  - destruct Hm'; congruence.
Qed.

(** ** The points *)
Definition credit (t : process) : Z :=
  match t with
  | Player s (Running (PClear _ p) | Killed (PClear _ p)) => s - p
  | Player s _ => s
  | _ => 0
  end.

(** A board later on: points only disappear. *)
Definition fades (l l' : list Z) : Prop := Forall2 (fun a b => b = a \/ b = 0) l l'.
Fixpoint fading (boards : list (list Z)) (now : list Z) : Prop :=
  match boards with
  | [] => True
  | b :: boards' => fades b (hd now boards') /\ fading boards' now
  end.

Section Invariant.
Variable N : Z.

Definition cells (b : list Z) : list Z := take (Z.to_nat (N * N)) b.

Definition server_args (t : process) : bool := match t with Server (STestRunning | SUnlockArgs | SJoin | SEnd) => true | _ => false end.
Definition handler_args (t : process) : bool := match t with Handler (HStore | HUnlock) => true | _ => false end.

(** What a process knows of the shared memory. *)
Definition knows (x : world) (t : process) : Prop :=
  match t with
  | Server (SShow k out) => 0 <= k <= N * N /\ out = take (Z.to_nat k) (board x)
  | Server (SJoin | SEnd) => running x = false
  | Server SFailed => False
  | Server _ => True
  | Handler pc =>
      (handler_returned x = true <-> pc = HReturned) /\ (running x = false <-> pc = HUnlock \/ pc = HReturned)
  | Player s st =>
      0 <= s /\ 0 <= credit t /\
      match st with
      | Running (PLoad k) => 0 <= k < N * N
      | Running (PClear k p) => 0 <= k /\ board x !! Z.to_nat k = Some p /\ 0 < p
      | Failed => False
      | _ => True
      end
  end.

Record inv (P : Z) (ls : list process) (x : world) : Prop := {
  inv_shape j t : ls !! j = Some t ->
    match j with
    | 0%nat => exists pc, t = Server pc
    | 1%nat => exists pc, t = Handler pc
    | _ => exists s st, t = Player s st
    end;
  inv_two : (2 <= length ls)%nat;
  inv_owns j t : ls !! j = Some t -> owns j t (mtx x);
  inv_mutex : mtx x <> NotRecoverable /\ forall j, owner (mtx x) = Some j -> (j < length ls)%nat;
  inv_args : Z.b2z (args_mutex x) = count server_args ls + count handler_args ls;
  inv_board : Z.of_nat (length (board x)) = BOARD_BYTES /\ Forall (fun v => 0 <= v) (board x);
  inv_points : total id (board x) + total credit ls = P;
  inv_knows j t : ls !! j = Some t -> knows x t;
  inv_shown : fading (shown x) (cells (board x));
}.
End Invariant.

(** ** Lemmas *)
Lemma total_ge_at {A} (f : A -> Z) l i x :
  (forall j y, l !! j = Some y -> 0 <= f y) -> l !! i = Some x -> f x <= total f l.
Proof.
  revert i. induction l as [|y l IH]; intros i Hf Hi; [done|]. cbn [total].
  assert (0 <= total f l) as H0.
  { clear -Hf. induction l as [|z l IH]; [done|]. cbn [total]. pose proof (Hf 1%nat z eq_refl).
    apply Z.add_nonneg_nonneg; [done|]. apply IH. intros [|j] w Hj; [by apply (Hf 0%nat)|by apply (Hf (S (S j)))]. }
  pose proof (Hf 0%nat y eq_refl). destruct i as [|i]; simplify_eq/=; [lia|].
  specialize (IH i (fun j => Hf (S j)) Hi). lia.
Qed.

Lemma total_nonneg_at {A} (f : A -> Z) l : (forall j y, l !! j = Some y -> 0 <= f y) -> 0 <= total f l.
Proof.
  induction l as [|y l IH]; intros Hf; [done|]. cbn [total]. pose proof (Hf 0%nat y eq_refl).
  specialize (IH (fun j => Hf (S j))). lia.
Qed.

Lemma fades_refl l : fades l l.
Proof. apply Forall2_same_length_lookup. split; [done|]. intros i a b Ha Hb. simplify_eq. by left. Qed.

Lemma fades_trans a b c : fades a b -> fades b c -> fades a c.
Proof.
  intros Hab. revert c. induction Hab as [|x y a b Hxy _ IH]; intros c Hbc; inversion Hbc; subst; constructor.
  - destruct Hxy as [->| ->]; [done|right]. by destruct H1 as [->| ->].
  - by apply IH.
Qed.

Lemma fades_clear l k : fades l (<[k := 0]> l).
Proof.
  revert k. induction l as [|v l IH]; intros k; [constructor|]. destruct k as [|k]; simpl; constructor.
  - by right.
  - apply fades_refl.
  - by left.
  - apply IH.
Qed.

Lemma fading_now bs now now' : fades now now' -> fading bs now -> fading bs now'.
Proof.
  intros Hn. induction bs as [|b [|b' bs] IH]; simpl; [done| |].
  - intros [H _]. split; [by eapply fades_trans|done].
  - intros [H H']. split; [done|by apply IH].
Qed.

Lemma fading_snoc bs now : fading bs now -> fading (bs ++ [now]) now.
Proof.
  induction bs as [|b [|b' bs] IH]; simpl; [by split; [apply fades_refl|]| |].
  - intros [H _]. split_and!; [done|apply fades_refl|done].
  - intros [H H']. split; [done|by apply IH].
Qed.

Section Steps.
Context (N P : Z).
Implicit Types (ls : list process) (x : world).

Definition kind (t : process) : nat := match t with Server _ => 0 | Handler _ => 1 | Player _ _ => 2 end.

Lemma shape_kind ls x j t : inv N P ls x -> ls !! j = Some t -> kind t = (j `min` 2)%nat.
Proof. intros HI Hj. pose proof (inv_shape _ _ _ _ HI j t Hj) as H. destruct j as [|[|j]]; [by destruct H as [? ->]..|destruct H as (? & ? & ->); cbn [kind]; lia]. Qed.

Lemma board_frame ls x j t t' x' :
  inv N P ls x -> ls !! j = Some t -> kind t' = kind t ->
  (mtx x' = mtx x \/ ((owner (mtx x) = None \/ owner (mtx x) = Some j) /\ (owner (mtx x') = None \/ owner (mtx x') = Some j))) ->
  mtx x' <> NotRecoverable -> owns j t' (mtx x') ->
  Z.b2z (args_mutex x') = Z.b2z (args_mutex x) - (Z.b2z (server_args t) + Z.b2z (handler_args t))
    + (Z.b2z (server_args t') + Z.b2z (handler_args t')) ->
  length (board x') = length (board x) -> Forall (fun v => 0 <= v) (board x') ->
  total id (board x') + credit t' = total id (board x) + credit t ->
  knows N x' t' -> (forall k u, k <> j -> ls !! k = Some u -> knows N x u -> knows N x' u) ->
  fading (shown x') (cells N (board x')) -> inv N P (<[j := t']> ls) x'.
Proof.
  intros HI Hj Hkind Hm Hnr Ho Ha Hlen Hpos Hpts Hk Hoth Hsh.
  pose proof (lookup_lt_Some _ _ _ Hj) as Hlt. destruct (inv_mutex _ _ _ _ HI) as [_ Hown].
  constructor; rewrite ?length_insert; try done.
  - intros i u Hi. insert_cases Hi; [|by apply (inv_shape _ _ _ _ HI)].
    pose proof (shape_kind _ _ _ _ HI Hj) as Hkj. rewrite <- Hkind in Hkj.
    destruct i as [|[|i]], u; simpl in Hkj; try done; eauto.
  - apply HI.
  - by apply (owns_step j t' (mtx x)); [apply HI|..].
  - split; [done|]. intros i Hi. destruct Hm as [Hm|[_ Hm]]; [rewrite Hm in Hi; by apply Hown|].
    destruct Hm as [E|E]; rewrite E in Hi; simplify_eq; done.
  - rewrite Ha, !(count_insert _ _ _ _ _ Hj), (inv_args _ _ _ _ HI). lia.
  - rewrite Hlen. split; [apply HI|done].
  - rewrite (sum_over_insert _ _ _ _ _ Hj). pose proof (inv_points _ _ _ _ HI). lia.
  - intros k u Hu. insert_cases Hu; [done|]. apply (Hoth k); [done|done|]. by apply (inv_knows _ _ _ _ HI k).
Qed.

(** A step that leaves memory and mutexes alone. *)
Lemma board_same ls x j t t' :
  inv N P ls x -> ls !! j = Some t -> kind t' = kind t -> claim j t' = claim j t ->
  server_args t' = server_args t -> handler_args t' = handler_args t -> credit t' = credit t -> knows N x t' ->
  inv N P (<[j := t']> ls) x.
Proof.
  intros HI Hj H1 H2 H3 H4 H5 H6. destruct (inv_board _ _ _ _ HI). destruct (inv_mutex _ _ _ _ HI) as [Hnr _].
  eapply board_frame; eauto.
  - unfold owns. rewrite H2. by apply (inv_owns _ _ _ _ HI j t).
  - rewrite H3, H4. lia.
  - lia.
  - apply HI.
Qed.

(** A step on the mutex of the board only. *)
Lemma board_mutex ls x j t t' m :
  inv N P ls x -> ls !! j = Some t -> kind t' = kind t ->
  (m = mtx x \/ ((owner (mtx x) = None \/ owner (mtx x) = Some j) /\ (owner m = None \/ owner m = Some j))) ->
  m <> NotRecoverable -> owns j t' m ->
  server_args t' = server_args t -> handler_args t' = handler_args t -> credit t' = credit t ->
  knows N x t' ->
  inv N P (<[j := t']> ls) (World m (board x) (args_mutex x) (running x) (handler_returned x) (shown x)).
Proof.
  intros HI Hj H1 H2 H3 H4 H5 H6 H7 Hk. destruct (inv_board _ _ _ _ HI).
  eapply board_frame; eauto; simpl; try done.
  - rewrite H5, H6. lia.
  - lia.
  - apply HI.
Qed.

(** The mutex of the board is locked, and repaired when its owner died. *)
Lemma board_lock ls x j t ok repair failed t' m :
  inv N P ls x -> ls !! j = Some t ->
  kind ok = kind t -> kind repair = kind t -> claim j ok = Some (Held j) -> claim j repair = Some (Inconsistent j) ->
  server_args ok = server_args t -> handler_args ok = handler_args t -> credit ok = credit t -> knows N x ok ->
  server_args repair = server_args t -> handler_args repair = handler_args t -> credit repair = credit t -> knows N x repair ->
  (t', m) ∈ lock_board j (mtx x) ok repair failed ->
  inv N P (<[j := t']> ls) (World m (board x) (args_mutex x) (running x) (handler_returned x) (shown x)).
Proof.
  intros HI Hj K1 K2 C1 C2 A1 A2 A3 A4 B1 B2 B3 B4 Hs.
  apply list_elem_of_fmap in Hs as ([r m0] & Ht & Hs). destruct (inv_mutex _ _ _ _ HI) as [Hnr _].
  apply mutex_lock_spec in Hs as [(E & -> & ->)|[(E & _ & -> & ->)|(E & _)]]; [| |done]; injection Ht as -> ->;
    apply (board_mutex ls x j t _ _ HI Hj); try done; [right; rewrite E; auto| |right; rewrite E; auto|];
    unfold owns; by rewrite ?C1, ?C2.
Qed.
End Steps.

Ltac one Hs := apply list_elem_of_singleton in Hs as [= -> ->].

(** An unlock by the holder. *)
Lemma unlock_owner j m : m = Held j -> mutex_unlock j m = Free.
Proof. intros ->. simpl. by rewrite decide_True. Qed.
Lemma consistent_owner j m : m = Inconsistent j -> mutex_consistent j m = Held j.
Proof. intros ->. simpl. by rewrite decide_True. Qed.

Section Preservation.
Context (N P : Z) (HN : 0 <= N) (Hfit : N * N <= BOARD_BYTES).
Implicit Types (ls : list process) (x : world).

(** A store to the flags under [args_mutex]. *)
Lemma board_args ls x j t t' am r hr :
  inv N P ls x -> ls !! j = Some t -> kind t' = kind t -> claim j t' = claim j t -> credit t' = credit t ->
  Z.b2z am = Z.b2z (args_mutex x) - (Z.b2z (server_args t) + Z.b2z (handler_args t))
    + (Z.b2z (server_args t') + Z.b2z (handler_args t')) ->
  (running x = false -> r = false) -> (kind t <> 1%nat -> r = running x /\ hr = handler_returned x) ->
  knows N (World (mtx x) (board x) am r hr (shown x)) t' ->
  inv N P (<[j := t']> ls) (World (mtx x) (board x) am r hr (shown x)).
Proof.
  intros HI Hj H1 H2 H3 H4 Hr Hk1 H5. destruct (inv_board _ _ _ _ HI). destruct (inv_mutex _ _ _ _ HI) as [Hnr _].
  eapply board_frame; eauto; simpl; try done.
  - unfold owns. rewrite H2. by apply (inv_owns _ _ _ _ HI j t).
  - lia.
  - intros k u Hne Hu Hk. pose proof (shape_kind N P ls x j t HI Hj) as Hkt. pose proof (shape_kind N P ls x k u HI Hu) as Hku.
    destruct u as [[]| |? [[]| | |]]; simpl in *; auto. destruct Hk1 as [-> ->]; [lia|done].
  - apply HI.
Qed.

Lemma server_inv ls x j pc t' x' :
  inv N P ls x -> ls !! j = Some (Server pc) -> (t', x') ∈ server N j pc x -> inv N P (<[j := t']> ls) x'.
Proof.
  intros HI Hj Hs. pose proof (inv_knows _ _ _ _ HI _ _ Hj) as Hk. pose proof (inv_owns _ _ _ _ HI _ _ Hj) as Ho.
  destruct (inv_board _ _ _ _ HI) as [Hlen Hpos]. pose proof (inv_args _ _ _ _ HI) as Ha.
  pose proof (count_nonneg handler_args ls). pose proof (count_nonneg server_args ls).
  pose proof (fun t' am => board_args ls x j _ t' am (running x) (handler_returned x) HI Hj) as Hargs.
  pose proof (fun t' m => board_mutex N P ls x j _ t' m HI Hj) as Hmutex.
  pose proof (fun t' => board_same N P ls x j _ t' HI Hj) as Hsame.
  destruct pc; destruct x as [m b am r hr sh]; cbn [server] in Hs; simpl in Hk, Ho, Hlen, Hargs, Hmutex.
  - destruct (lock am) as [am'|] eqn:E; [|by apply not_elem_of_nil in Hs]. apply lock_Some in E as [-> ->]. one Hs.
    by apply Hargs.
  - one Hs. destruct r; by apply Hsame.
  - one Hs. pose proof (count_pos server_args _ _ _ Hj eq_refl). simpl in Ha.
    apply Hargs; try done. simpl. destruct am; simpl in *; lia.
  - apply list_elem_of_fmap in Hs as ([t m'] & [= -> ->] & Hs).
    apply (board_lock N P ls (World m b am r hr sh) j (Server SLock) (Server (SShow 0 [])) (Server SConsistent) (Server SFailed)); try done.
    simpl. split; [nia|done].
  - one Hs. rewrite (consistent_owner j m) by done. apply Hmutex; try done; [rewrite Ho; auto|simpl; split; [nia|done]].
  - destruct Hk as [Hk ->]. destruct (Z.ltb_spec k (N * N)).
    + destruct (mem_load_in b k) as (v & Hv & Hbv); [lia|]. rewrite Hv in Hs. one Hs. apply Hsame; try done.
      split; [lia|]. simpl. rewrite Z2Nat.inj_add, Nat.add_1_r by lia. symmetry. by apply take_S_r.
    + one Hs. replace k with (N * N) by lia. destruct (inv_mutex _ _ _ _ HI) as [Hnr _]. pose proof (inv_points _ _ _ _ HI).
      eapply board_frame; eauto; simpl; try done; try lia. apply fading_snoc. apply (inv_shown _ _ _ _ HI).
  - one Hs. rewrite (unlock_owner j m) by done. apply Hmutex; try done. right. rewrite Ho. auto.
  - destruct hr; [|by apply not_elem_of_nil in Hs]. one Hs. by apply Hsame.
  - by apply not_elem_of_nil in Hs.
  - done.
Qed.

Lemma sighandling_inv ls x j pc t' x' :
  inv N P ls x -> ls !! j = Some (Handler pc) -> (t', x') ∈ sighandling pc x -> inv N P (<[j := t']> ls) x'.
Proof.
  intros HI Hj Hs. pose proof (inv_knows _ _ _ _ HI _ _ Hj) as [Hh Hr]. pose proof (inv_args _ _ _ _ HI) as Ha.
  pose proof (count_nonneg server_args ls).
  pose proof (fun t' am => board_args ls x j _ t' am (running x) (handler_returned x) HI Hj) as Hargs.
  pose proof (fun t' r hr => board_args ls x j _ t' (args_mutex x) r hr HI Hj) as Hflags.
  pose proof (fun t' am r hr => board_args ls x j _ t' am r hr HI Hj) as Hboth.
  pose proof (fun t' => board_same N P ls x j _ t' HI Hj) as Hsame.
  destruct x as [m b am r hr sh]; destruct pc; cbn [sighandling] in Hs; simpl in Hh, Hr, Hargs, Hflags, Hboth.
  - one Hs. apply Hsame; try done. simpl. rewrite Hh, Hr. naive_solver.
  - destruct (lock am) as [am'|] eqn:E; [|by apply not_elem_of_nil in Hs]. apply lock_Some in E as [-> ->]. one Hs.
    apply Hargs; try done. simpl. rewrite Hh, Hr. naive_solver.
  - one Hs. apply Hflags; try done; simpl; try lia. rewrite Hh. naive_solver.
  - one Hs. pose proof (count_pos handler_args _ _ _ Hj eq_refl). simpl in Ha.
    apply Hboth; try done; simpl; [destruct am; simpl in *; lia|]. rewrite Hr. naive_solver.
  - by apply not_elem_of_nil in Hs.
Qed.

(** A cell taken by a player that holds the mutex. *)
Lemma clear_cell ls m b am r hr sh j s k p :
  inv N P ls (World m b am r hr sh) -> ls !! j = Some (Player s (Running (PClear k p))) ->
  inv N P (<[j := Player s (Running PUnlock)]> ls) (World m (<[Z.to_nat k := 0]> b) am r hr sh).
Proof.
  intros HI Hj. destruct (inv_knows _ _ _ _ HI _ _ Hj) as (Hs0 & Hc & Hk & Hv & Hp). simpl in Hc, Hv.
  destruct (inv_board _ _ _ _ HI) as [Hlen Hpos]. destruct (inv_mutex _ _ _ _ HI) as [Hnr _].
  pose proof (inv_owns _ _ _ _ HI _ _ Hj) as Ho.
  eapply board_frame; eauto; simpl; try done; try lia.
  - by rewrite length_insert.
  - by apply Forall_insert.
  - rewrite (sum_over_insert id _ _ _ _ Hv). unfold id. lia.
  - intros i u Hne Hi Hu. pose proof (owns_alone j i _ u m _ Ho eq_refl (inv_owns _ _ _ _ HI _ _ Hi) Hne) as Hcl.
    destruct u as [[]| |? [[]| | |]]; simpl in *; done.
  - eapply fading_now; [|apply (inv_shown _ _ _ _ HI)]. simpl. unfold cells.
    destruct (decide (Z.to_nat k < Z.to_nat (N * N))%nat).
    + rewrite take_insert_lt by done. apply fades_clear.
    + rewrite take_insert_ge by lia. apply fades_refl.
Qed.

(** Death: the mutex goes to the next one that locks it. *)
Lemma player_dies ls x j s pc st :
  inv N P ls x -> ls !! j = Some (Player s (Running pc)) ->
  (st = Killed pc \/ (st = Left /\ forall k p, pc <> PClear k p)) ->
  inv N P (<[j := Player s st]> ls)
    (World (mutex_die true j (mtx x)) (board x) (args_mutex x) (running x) (handler_returned x) (shown x)).
Proof.
  intros HI Hj Hst. destruct (inv_mutex _ _ _ _ HI) as [Hnr _].
  destruct (inv_knows _ _ _ _ HI _ _ Hj) as (Hs0 & Hc & Hk).
  assert (credit (Player s st) = credit (Player s (Running pc))) as Hcr.
  { destruct Hst as [->|[-> Hpc]]; [done|]. destruct pc; try done. by destruct (Hpc k p). }
  assert (claim j (Player s st) = None) as Hcl by by destruct Hst as [->|[-> _]].
  assert (knows N x (Player s st)) as Hkn.
  { split_and!; [done|by rewrite Hcr|]. by destruct Hst as [->|[-> _]]. }
  destruct (mutex_die_spec j (mtx x)) as [[Ho ->]|[Ho ->]]; apply (board_mutex N P ls x j _ _ _ HI Hj); try done; auto;
    unfold owns; by rewrite Hcl.
Qed.

Lemma player_inv ls x j s pc t' x' :
  P <= INT_MAX -> inv N P ls x -> ls !! j = Some (Player s (Running pc)) -> (t', x') ∈ player N j s pc x ->
  inv N P (<[j := t']> ls) x'.
Proof.
  intros HP HI Hj Hs. pose proof (inv_knows _ _ _ _ HI _ _ Hj) as (Hs0 & Hc & Hk).
  pose proof (inv_owns _ _ _ _ HI _ _ Hj) as Ho. destruct (inv_board _ _ _ _ HI) as [Hlen Hpos].
  pose proof (player_dies ls x j s pc Left HI Hj) as Hdie.
  pose proof (fun t' m => board_mutex N P ls x j _ t' m HI Hj) as Hmutex.
  pose proof (fun t' => board_same N P ls x j _ t' HI Hj) as Hsame.
  destruct x as [m b am r hr sh]; destruct pc; cbn [player] in Hs; simpl in Hc, Hk, Ho, Hlen, Hpos, Hmutex.
  - apply list_elem_of_fmap in Hs as ([t m'] & [= -> ->] & Hs).
    by apply (board_lock N P ls (World m b am r hr sh) j (Player s (Running PLock)) (Player s (Running PRoll))
      (Player s (Running PConsistent)) (Player s Failed)).
  - one Hs. rewrite (consistent_owner j m) by done. apply Hmutex; try done. rewrite Ho. auto.
  - apply elem_of_cons in Hs as [[= -> ->]|Hs]; [apply Hdie; auto|].
    apply list_elem_of_bind in Hs as (y & Hs & Hy). apply list_elem_of_bind in Hs as (z & Hs & Hz).
    apply elem_of_seqZ in Hy, Hz. one Hs. apply Hsame; try done. simpl. split_and!; [done|done|nia|nia].
  - destruct (mem_load b k) as [p|] eqn:E; [|by apply not_elem_of_nil in Hs]. apply mem_load_Some in E as [Hk0 E].
    destruct (Z.eqb_spec p 0) as [->|Hp]; [one Hs; by apply Hsame|].
    destruct (checked_int (s + p)) as [w|] eqn:Ec; [|by apply not_elem_of_nil in Hs]. apply checked_int_Some in Ec as [-> _].
    one Hs. pose proof (Forall_lookup_1 _ _ _ _ Hpos E) as Hp0. simpl in Hp0.
    apply Hsame; try done; simpl; [lia|]. split_and!; lia || done.
  - destruct Hk as (Hk0 & Hv & Hp). rewrite (mem_store_one _ _ _ _ Hv Hk0) in Hs. one Hs. by eapply clear_cell.
  - one Hs. rewrite (unlock_owner j m) by done. apply Hmutex; try done. rewrite Ho. auto.
  - one Hs. rewrite (unlock_owner j m) by done. apply Hmutex; try done. rewrite Ho. auto.
Qed.
End Preservation.

(** ** The board the server fills *)
Definition point (r : Z) : Z := 1 + Z.rem r 9.
Definition points (rs : list Z) : list Z :=
  (point <$> rs) ++ replicate (Z.to_nat BOARD_BYTES - length rs) 0.

Lemma fill_row N i rs : forall j pre tail env,
  i * N + j = Z.of_nat (length pre) -> (length rs <= length tail)%nat ->
  exists t, run (for_each (fill_cell N i) (seqZ j (Z.of_nat (length rs))) (pre ++ tail)) ((rint <$> rs) ++ env)
    = (Done ((pre ++ (point <$> rs)) ++ drop (length rs) tail) env, t).
Proof.
  induction rs as [|r rs IH]; intros j pre tail env Hp Hl.
  - exists []. simpl. by rewrite app_nil_r, drop_0.
  - destruct tail as [|v tail]; [simpl in Hl; lia|]. rewrite seqZ_cons by (simpl; lia).
    replace (Z.pred (Z.of_nat (length (r :: rs)))) with (Z.of_nat (length rs)) by (simpl; lia).
    cbn [for_each fmap list_fmap app]. rewrite run_bind. unfold fill_cell at 1. cbn [pbind sys run rv rint].
    change (v :: tail) with ([v] ++ tail). rewrite (mem_store_segment pre [v]) by done. cbn [defined run].
    rewrite app_assoc. destruct (IH (Z.succ j) (pre ++ [1 + Z.rem r 9]) tail env) as (t & ->).
    { rewrite length_app. simpl. lia. }
    { simpl in Hl. lia. }
    eexists. cbn [length app drop]. by rewrite <- (app_assoc pre).
Qed.

Lemma fill_rows N n : 0 <= N -> forall i rs pre tail env,
  i * N = Z.of_nat (length pre) -> length rs = (n * Z.to_nat N)%nat -> (length rs <= length tail)%nat ->
  exists t, run (for_each (fun i => for_each (fill_cell N i) (seqZ 0 N)) (seqZ i (Z.of_nat n)) (pre ++ tail)) ((rint <$> rs) ++ env)
    = (Done ((pre ++ (point <$> rs)) ++ drop (length rs) tail) env, t).
Proof.
  intros HN. induction n as [|n IH]; intros i rs pre tail env Hp Hrs Hl.
  - destruct rs; [|done]. exists []. simpl. by rewrite app_nil_r, drop_0.
  - rewrite (seqZ_cons i) by lia. replace (Z.pred (Z.of_nat (S n))) with (Z.of_nat n) by lia.
    set (k := Z.to_nat N) in *. cbn [for_each]. rewrite run_bind, <- (take_drop k rs), fmap_app, <- app_assoc.
    assert (k <= length rs)%nat as Hkr by (rewrite Hrs; simpl; apply Nat.le_add_r).
    assert (length (take k rs) = k) as Hk by (rewrite length_take; lia).
    assert (Z.of_nat (length (take k rs)) = N) as HkN by lia.
    destruct (fill_row N i (take k rs) 0 pre tail ((rint <$> drop k rs) ++ env)) as (t & Hrow); [lia|lia|].
    rewrite HkN in Hrow. rewrite Hrow.
    destruct (IH (Z.succ i) (drop k rs) (pre ++ (point <$> take k rs)) (drop (length (take k rs)) tail) env) as (t' & ->);
      rewrite ?length_app, ?length_fmap, ?length_drop; try lia.
    eexists. f_equal. f_equal. rewrite !fmap_app, drop_drop. by rewrite <- !app_assoc.
Qed.

Lemma fill_board_run N rs env :
  0 <= N -> N * N <= BOARD_BYTES -> Z.of_nat (length rs) = N * N ->
  exists t, run (fill_board N (replicate (Z.to_nat BOARD_BYTES) 0)) ((rint <$> rs) ++ env) = (Done (points rs) env, t).
Proof.
  intros HN Hfit Hrs. unfold fill_board. destruct (fill_rows N (Z.to_nat N) HN 0 rs [] (replicate (Z.to_nat BOARD_BYTES) 0) env) as (t & H).
  - done.
  - nia.
  - rewrite length_replicate. lia.
  - rewrite Z2Nat.id in H by done. rewrite drop_replicate in H. by exists t.
Qed.

Lemma points_ok rs :
  Z.of_nat (length rs) <= BOARD_BYTES -> Forall (fun r => 0 <= r) rs ->
  Z.of_nat (length (points rs)) = BOARD_BYTES /\ Forall (fun v => 0 <= v) (points rs) /\ total id (points rs) <= INT_MAX.
Proof.
  intros Hl Hr. split; [unfold points; rewrite length_app, length_fmap, length_replicate; lia|]. split.
  - apply Forall_app. split; [|by apply Forall_replicate]. apply Forall_fmap. eapply Forall_impl; [done|].
    intros r Hr0. simpl. unfold point. pose proof (Z.rem_bound_pos r 9 Hr0 ltac:(lia)). lia.
  - assert (forall l, Forall (fun r => 0 <= r) l -> total id (point <$> l) <= 9 * Z.of_nat (length l)) as Hp.
    { induction 1 as [|r l Hr0 _ IH]; [done|]. cbn [fmap list_fmap total length]. unfold id at 1, point at 1.
      pose proof (Z.rem_bound_pos r 9 Hr0 ltac:(lia)). lia. }
    assert (total id (points rs) = total id (point <$> rs)) as ->.
    { unfold points. generalize (Z.to_nat BOARD_BYTES - length rs)%nat. intros n.
      induction (point <$> rs) as [|v l IHl]; [|cbn [app total]; by rewrite IHl].
      apply total_zero. intros i v Hv. by apply lookup_replicate in Hv as [-> _]. }
    specialize (Hp rs Hr). unfold BOARD_BYTES, SHM_SIZE, MUTEX_SIZE in Hl. limits. lia.
Qed.

(** [N] of 32 and more is accepted, and its board leaves the memory. *)
Example board_overruns :
  (run (fill_board 32 (replicate (Z.to_nat BOARD_BYTES) 0)) (replicate 1024 (rint 4))).1 = Undefined "board: overrun".
Proof. vm_compute. reflexivity. Qed.

(** ** Every interleaving *)
Section Reachable.
Context (N : Z) (HN : 0 <= N) (Hfit : N * N <= BOARD_BYTES).

Lemma board_process b players k t :
  (start b players).1 !! k = Some t ->
  (k = 0%nat /\ t = Server SLockArgs) \/ (k = 1%nat /\ t = Handler HWait) \/ ((2 <= k)%nat /\ t = Player 0 (Running PLock)).
Proof.
  destruct k as [|[|k]]; simpl; [intros [= <-]; auto..|].
  intros Hk. apply lookup_replicate in Hk as [-> _]. right; right. split; [lia|done].
Qed.

Lemma board_start b players :
  Z.of_nat (length b) = BOARD_BYTES -> Forall (fun v => 0 <= v) b ->
  inv N (total id b) (start b players).1 (start b players).2.
Proof.
  intros Hl Hb. pose proof (board_process b players) as Hp.
  constructor; simpl; try done.
  - intros [|[|j]] t Hj; apply Hp in Hj as [(? & ->)|[(? & ->)|(? & ->)]]; eauto; done || lia.
  - lia.
  - intros j t Hj. by apply Hp in Hj as [(_ & ->)|[(_ & ->)|(_ & ->)]].
  - rewrite !count_none; [done|..]; intros i t Hi; by apply lookup_replicate in Hi as [-> _].
  - rewrite (total_zero credit); [lia|]. intros i t Hi. by apply lookup_replicate in Hi as [-> _].
  - intros j t Hj. apply Hp in Hj as [(_ & ->)|[(_ & ->)|(_ & ->)]]; simpl; try done. split; split; try done. by intros [|].
Qed.

Lemma board_reachable P ls0 x0 ls x :
  P <= INT_MAX -> inv N P ls0 x0 -> reachable (step N) (ls0, x0) (ls, x) -> inv N P ls x.
Proof.
  intros HP HI. apply (reachable_invariant (step N) (fun y => inv N P y.1 y.2) _ (ls, x)); [done|].
  intros c1 c2 HI1 Hm. destruct Hm as [j t t' ls' s s' Hj Hs]. simpl in *.
  apply elem_of_app in Hs as [Hs|Hs]; destruct t as [pc|pc|score [pc| |pc|]]; cbn [program] in Hs; try by apply not_elem_of_nil in Hs.
  - by eapply server_inv.
  - by eapply sighandling_inv.
  - by eapply player_inv.
  - one Hs. eapply player_dies; eauto.
Qed.

Lemma board_credit_nonneg P ls x j t : inv N P ls x -> ls !! j = Some t -> 0 <= credit t.
Proof. intros HI Hj. pose proof (inv_knows _ _ _ _ HI _ _ Hj) as Hk. destruct t; [done|done|]. by destruct Hk as (_ & Hc & _). Qed.

(** The score of a player with the points of any cell it may still take. *)
Lemma score_bound P ls x j s pc k p :
  inv N P ls x -> ls !! j = Some (Player s (Running pc)) -> (forall i q, pc <> PClear i q) -> board x !! k = Some p ->
  0 <= s /\ s + p <= P.
Proof.
  intros HI Hj Hpc Hp. destruct (inv_board _ _ _ _ HI) as [_ Hpos]. destruct (inv_knows _ _ _ _ HI _ _ Hj) as [Hs _].
  pose proof (total_ge_at id _ _ _ (fun i v => Forall_lookup_1 _ _ i v Hpos) Hp) as Hb.
  pose proof (total_ge_at credit ls j _ (fun i t => board_credit_nonneg P ls x i t HI) Hj) as Hc.
  pose proof (inv_points _ _ _ _ HI). split; [done|]. change (id p) with p in Hb. destruct pc as [| | | |i q| |]; simpl in Hc; try lia. by destruct (Hpc i q).
Qed.

(** Whoever holds the mutex of the board can take its next step. *)
Lemma board_holder_moves P ls x k t :
  0 < N -> P <= INT_MAX -> inv N P ls x -> ls !! k = Some t -> claim k t <> None -> program N k t x <> [].
Proof.
  intros HN0 HP HI Hk Hc. pose proof (inv_knows _ _ _ _ HI _ _ Hk) as Hkn. destruct (inv_board _ _ _ _ HI) as [Hlen _].
  destruct t as [pc|pc|s [pc| |pc|]]; try done.
  - destruct x as [m b am r hr sh]. simpl in Hlen. destruct pc; simpl in Hc |- *; try done.
    destruct Hkn as [Hk0 _]. destruct (Z.ltb_spec k0 (N * N)); [|done].
    destruct (mem_load_in b k0) as (v & -> & _); [lia|done].
  - pose proof (fun i p => score_bound P ls x k s pc i p HI Hk) as Hsc.
    destruct x as [m b am r hr sh]. simpl in Hlen, Hsc. destruct Hkn as (Hs & _ & Hkn). destruct pc; simpl in Hc, Hkn |- *; try done.
    + destruct (mem_load_in b k0) as (v & -> & Hv); [lia|]. destruct (v =? 0); [done|].
      destruct (Hsc _ v ltac:(done) Hv). destruct (checked_int (s + v)) eqn:E; [done|].
      assert (checked_int (s + v) = Some (s + v)); [|congruence].
      apply checked_int_Some. pose proof (Forall_lookup_1 _ _ _ _ (proj2 (inv_board _ _ _ _ HI)) Hv). limits. simpl in *. lia.
    + destruct Hkn as (Hk0 & Hv & _). by rewrite (mem_store_one _ _ _ _ Hv Hk0).
Qed.
End Reachable.

(** C35. The points of a board that fits in the memory: the server fills it
    from the numbers drawn; in every interleaving, and wherever players are
    killed or leave with the mutex held, the points on the board and those of
    the players are the points it was filled with; the mutex stays usable, its
    holder is a live process that can take its next step (its accesses are on
    the board and its score is in range), no lock of it fails, and every board
    shown is the one before it with some cells emptied. *)
Theorem board_points N rs players ls x :
  0 < N -> N * N <= BOARD_BYTES -> Z.of_nat (length rs) = N * N -> Forall (fun r => 0 <= r) rs ->
  reachable (step N) (start (points rs) players) (ls, x) ->
  (exists t, run (fill_board N (replicate (Z.to_nat BOARD_BYTES) 0)) (rint <$> rs) = (Done (points rs) [], t)) /\
  total id (board x) + total credit ls = total id (points rs) /\
  mtx x <> NotRecoverable /\
  (forall k, owner (mtx x) = Some k -> exists u, ls !! k = Some u /\ claim k u = Some (mtx x) /\ program N k u x <> []) /\
  (forall k u, ls !! k = Some u -> u <> Server SFailed /\ forall s, u <> Player s Failed) /\
  fading (shown x) (cells N (board x)).
Proof.
  intros HN Hfit Hrs Hpos Hr. destruct (points_ok rs) as (Hlen & Hv & HP); [lia|done|].
  assert (inv N (total id (points rs)) ls x) as HI.
  { eapply board_reachable; [lia|done|exact HP| |exact Hr]. by apply board_start; [lia|..]. }
  destruct (inv_mutex _ _ _ _ HI) as [Hnr Hlt]. split; [|split; [|split; [done|split; [|split]]]].
  - destruct (fill_board_run N rs []) as (t & Ht); [lia|done|done|]. rewrite app_nil_r in Ht. by exists t.
  - apply HI.
  - intros k Hk. destruct (lookup_lt_is_Some_2 ls k (Hlt k Hk)) as [u Hu].
    pose proof (inv_owns _ _ _ _ HI _ _ Hu) as Ho. unfold owns in Ho. exists u.
    destruct (claim k u) as [m|] eqn:E; [|done]. split_and!; [done|by rewrite Ho|].
    apply (board_holder_moves N Hfit _ ls x k u HN HP HI Hu). congruence.
  - intros k u Hu. pose proof (inv_knows _ _ _ _ HI _ _ Hu) as Hk. split; [by intros ->|intros s ->].
    by destruct Hk as (_ & _ & ?).
  - apply HI.
Qed.

(** One player leaves with the mutex held; the next one repairs it and takes
    five points; the server shows the board. *)
Definition players_run : list (nat * nat) :=
  [(2, 0); (2, 0); (3, 0); (3, 0); (3, 1); (3, 0); (3, 0); (3, 0); (0, 0); (0, 0); (0, 0); (0, 0)]%nat
  ++ replicate 10 (0, 0)%nat.

Lemma board_points_witness :
  exists ls x, shown x = [0 :: replicate 8 5] /\ ls !! 2%nat = Some (Player 0 Left) /\ total credit ls = 5 /\
    total id (board x) + total credit ls = 45.
Proof.
  destruct (schedule (step 3) players_run (start (points (replicate 9 4)) 2)) as [[ls x]|] eqn:E; [|by vm_compute in E].
  exists ls, x. pose proof (schedule_reachable _ _ _ _ E) as Hr.
  destruct (board_points 3 (replicate 9 4) 2 ls x) as (_ & Hp & _); try done; [by repeat constructor|].
  rewrite Hp. vm_compute in E. injection E as <- <-. by vm_compute.
Defined.
