(* ===== verification/Personae.v ===== *)
(** * sop2/lab/l5_5: l5_5-2.c

    Four children that send messages to each other over POSIX message queues
    and are told by [SIGEV_THREAD] notifications when their own queue has
    some.  A step is one call; [rand] may return anything and the sleeps have
    no step.  The queues are new: no earlier run left messages in them.  The
    thread that runs first in a child is thread 0 of it, the others are started
    by notifications. *)

From S2P Require Import Prelude CLib Os Threads LabCommon.

Local Open Scope Z_scope.

Definition CHILD_COUNT : Z := 4.
Definition QUEUE_NAME_MAX_LEN : Z := 32.
Definition CHILD_NAME_MAX_LEN : Z := 32.
Definition MSG_SIZE : Z := 64.
Definition MAX_MSG_COUNT : Z := 4.
Definition ROUNDS : Z := 5.

(** ** A message queue, as the system keeps it *)
Record queue := Queue {
  msgs : list (list Z);        (* all of priority 0, the oldest first *)
  registered : bool;           (* by mq_notify, until it is used *)
  notified : nat }.            (* threads a notification has still to start *)

(** [EBUSY] when a request is registered. *)
Definition mq_notify (q : queue) : option queue :=
  if registered q then None else Some (Queue (msgs q) true (notified q)).
(** [EAGAIN] when the queue is full; a message in an empty queue uses up the
    request. *)
Definition mq_send (q : queue) (m : list Z) : option queue :=
  if MAX_MSG_COUNT <=? Z.of_nat (length (msgs q)) then None
  else match msgs q, registered q with
       | [], true => Some (Queue [m] false (S (notified q)))
       | ms, r => Some (Queue (ms ++ [m]) r (notified q))
       end.
(** The end of the process whose requests these are. *)
Definition mq_owner_exits (q : queue) : queue := Queue (msgs q) false 0.

(** ** The messages *)
Definition child_name (i : Z) : list Z := upto_nul (snprintf_bytes CHILD_NAME_MAX_LEN (str "Persona " ++ dec i)).
Definition phrase (name : list Z) (receiver kind : Z) : list Z :=
  if kind =? 0 then name ++ str ": Salve " ++ dec receiver ++ str "!"
  else if kind =? 1 then name ++ str ": Visne garum emere, " ++ dec receiver ++ str "?"
  else name ++ str ": Fuistine hodie in thermis, " ++ dec receiver ++ str "?".

(** ** The set-up and the end: [child] is what runs in a child *)
Definition create_queue (name : list Z) : prog Z :=
  let! res := sys (Libc "mq_open" name) in
  if rv res =? -1 then ERR_kill "mq_open" else Ret (rv res).
Definition close_queues (queues : list Z) : prog unit :=
  for_each (fun q _ => ignored "mq_close" [q]) queues tt.
Definition unlink_queues (queue_names : list (list Z)) : prog unit :=
  for_each (fun name _ =>
    let! result := sys (Libc "mq_unlink" name) in
    if (rv result =? -1) && negb (rerr result =? ENOENT) then ERR_kill "mq_close" else Ret tt) queue_names tt.
Definition spawn_child (child : Z -> prog unit) (i : Z) : prog unit :=
  let! r := sys (Libc "fork" []) in
  if rv r =? 0 then child i ;;; Exit EXIT_SUCCESS
  else if rv r =? -1 then ERR_kill "fork" else Ret tt.
Definition queue_name (i : Z) : list Z := upto_nul (snprintf_bytes QUEUE_NAME_MAX_LEN (str "/child_" ++ dec i)).
(** [while (wait(NULL) > 0);] *)
Definition wait_children (F : nat) : prog unit :=
  loop F (fun _ => let! r := sys (Libc "wait" []) in Ret (if 0 <? rv r then inl tt else inr tt)) tt.
Definition main (F : nat) (child : Z -> prog unit) : prog Z :=
  let! queues := for_each (fun i qs => let! q := create_queue (queue_name i) in Ret (qs ++ [q])) (seqZ 0 CHILD_COUNT) [] in
  for_each (fun i _ => spawn_child child i) (seqZ 0 CHILD_COUNT) tt ;;;
  close_queues queues ;;;
  wait_children F ;;;
  printf "Parens: Disceo." [] ;;;
  unlink_queues (queue_name <$> seqZ 0 CHILD_COUNT) ;;;
  Ret EXIT_SUCCESS.

(** ** handle_messages: the next call of a thread in it *)
Inductive drain := Notify | Receive | Accept (message : list Z).
Inductive outcome :=
| Goes (next : option drain) (q : queue) (accepted : list (list Z))
| Fails (source : string)
| Undefined_text.

Definition handle_messages (d : drain) (q : queue) : outcome :=
  match d with
  | Notify => match mq_notify q with Some q' => Goes (Some Receive) q' [] | None => Fails "mq_notify" end
  | Receive =>
      match msgs q with
      | m :: ms => Goes (Some (Accept m)) (Queue ms (registered q) (notified q)) []
      | [] => Goes None q []                  (* EAGAIN: break *)
      end
  | Accept m =>                               (* printf "%s", message *)
      match cstr m with Some text => Goes (Some Receive) q [text] | None => Undefined_text end
  end.

(** ** The processes *)
Inductive child_pc := Handling | Round (i : Z) | Send (i : Z) (receiver : nat) (message : list Z) | Ended.
Inductive parent_pc := PWait (reaped : Z) | PUnlink | PEnd.
Inductive process :=
| Parent (pc : parent_pc)
| Child (pc : child_pc) (threads : list (option drain)).

(** [accepted] and [sent]: what was printed by and sent to each child. *)
Record world := World {
  queues : list queue; accepted : list (list (list Z)); sent : list (list (list Z));
  zombies : Z; failed : option string }.

Definition logged (j : nat) (new : list (list Z)) (l : list (list (list Z))) : list (list (list Z)) :=
  alter (fun old => old ++ new) j l.

Section Children.
(** What the array [message] of a child holds before [snprintf] writes it. *)
Variable indeterminate : nat -> Z -> list Z.

Definition compose (j : nat) (i receiver kind : Z) : option (list Z) :=
  mem_store (indeterminate j i) 0 (snprintf_bytes MSG_SIZE (phrase (child_name (Z.of_nat j)) receiver kind)).

(** The main thread of child [j]. *)
Definition child_function (j : nat) (pc : child_pc) (ts : list (option drain)) (x : world) : list (process * world) :=
  let '(World qs ac se z f) := x in
  match pc with
  | Handling => match ts !! 0%nat with Some None => [(Child (Round 0) ts, x)] | _ => [] end
  | Round i =>
      if i <? ROUNDS then
        receiver ← seqZ 0 CHILD_COUNT; kind ← seqZ 0 3;
        match compose j i receiver kind with Some m => [(Child (Send i (Z.to_nat receiver) m) ts, x)] | None => [] end
      else [(Child Ended ts, World (alter mq_owner_exits j qs) ac se (z + 1) f)]
  | Send i receiver m =>
      match qs !! receiver with
      | Some q =>
          match mq_send q m with
          | Some q' => [(Child (Round (i + 1)) ts, World (<[receiver := q']> qs) ac (logged receiver [m] se) z f)]
          | None => [(Child pc ts, World qs ac se z (Some "mq_send"))]
          end
      | None => []
      end
  | Ended => []
  end.

Definition alive (pc : child_pc) : bool := match pc with Ended => false | _ => true end.

(** Thread [i] of child [j] in [handle_messages]. *)
Definition thread_step (j : nat) (pc : child_pc) (ts : list (option drain)) (x : world) (i : nat) : list (process * world) :=
  let '(World qs ac se z f) := x in
  match ts !! i, qs !! j with
  | Some (Some d), Some q =>
      match handle_messages d q with
      | Goes d' q' out => [(Child pc (<[i := d']> ts), World (<[j := q']> qs) (logged j out ac) se z f)]
      | Fails source => [(Child pc ts, World qs ac se z (Some source))]
      | Undefined_text => []
      end
  | _, _ => []
  end.

(** A notification starts a thread. *)
Definition notification (j : nat) (pc : child_pc) (ts : list (option drain)) (x : world) : list (process * world) :=
  let '(World qs ac se z f) := x in
  match qs !! j with
  | Some (Queue ms r (S n)) => [(Child pc (ts ++ [Some Notify]), World (<[j := Queue ms r n]> qs) ac se z f)]
  | _ => []
  end.

Definition parent (pc : parent_pc) (x : world) : list (process * world) :=
  let '(World qs ac se z f) := x in
  match pc with
  | PWait n =>
      if 0 <? z then [(Parent (PWait (n + 1)), World qs ac se (z - 1) f)]
      else if n =? CHILD_COUNT then [(Parent PUnlink, x)] else []        (* ECHILD *)
  | PUnlink => [(Parent PEnd, x)]
  | PEnd => []
  end.

(** Process 0 is the parent; [ERR] kills them all. *)
Definition step (k : nat) (t : process) (x : world) : list (process * world) :=
  match failed x, t with
  | Some _, _ => []
  | None, Parent pc => parent pc x
  | None, Child pc ts =>
      if alive pc then
        child_function (pred k) pc ts x ++ notification (pred k) pc ts x ++
        (i ← seq 0 (length ts); thread_step (pred k) pc ts x i)
      else []
  end.

Definition start : list process * world :=
  let n := Z.to_nat CHILD_COUNT in
  (Parent (PWait 0) :: replicate n (Child Handling [Some Notify]),
   World (replicate n (Queue [] false 0)) (replicate n []) (replicate n []) 0 None).
End Children.

(** ** The messages composed *)
Lemma phrase_ok j r k :
  0 <= j < CHILD_COUNT -> 0 <= r < CHILD_COUNT -> 0 <= k < 3 ->
  0 ∉ phrase (child_name j) r k /\ Z.of_nat (length (phrase (child_name j) r k)) < MSG_SIZE.
Proof.
  unfold CHILD_COUNT. intros Hj Hr Hk.
  assert (forallb (fun j => forallb (fun r => forallb (fun k =>
    bool_decide (0 ∉ phrase (child_name j) r k) && (Z.of_nat (length (phrase (child_name j) r k)) <? MSG_SIZE))
    [0; 1; 2]) [0; 1; 2; 3]) [0; 1; 2; 3] = true) as H by by vm_compute.
  rewrite forallb_forall in H. specialize (H j ltac:(simpl; lia)). rewrite forallb_forall in H.
  specialize (H r ltac:(simpl; lia)). rewrite forallb_forall in H. specialize (H k ltac:(simpl; lia)).
  apply andb_prop in H as [H1 H2]. apply bool_decide_eq_true in H1. lia || (split; [done|lia]).
Qed.

(** A message for child [j]: what the array holds is a phrase for it. *)
Definition addressed (j : nat) (m : list Z) : Prop :=
  exists sender kind, 0 <= sender < CHILD_COUNT /\ 0 <= kind < 3 /\ cstr m = Some (phrase (child_name sender) (Z.of_nat j) kind).
Definition text (m : list Z) : list Z := default [] (cstr m).

Lemma compose_ok indeterminate j i r k :
  (forall j i, length (indeterminate j i) = Z.to_nat MSG_SIZE) ->
  (j < 4)%nat -> 0 <= r < CHILD_COUNT -> 0 <= k < 3 ->
  exists m, compose indeterminate j i r k = Some m /\ addressed (Z.to_nat r) m.
Proof.
  intros Hlen Hj Hr Hk. destruct (phrase_ok (Z.of_nat j) r k) as [Hnul Hfit]; [unfold CHILD_COUNT; lia|done|done|].
  unfold compose, snprintf_bytes. set (t := phrase _ _ _) in *. cbn [Z.leb MSG_SIZE Z.compare].
  rewrite take_ge by lia. eexists. split.
  - apply mem_store_is_Some; [done|]. rewrite length_app, Hlen. simpl length. lia.
  - exists (Z.of_nat j), k. split_and!; [unfold CHILD_COUNT; lia..|lia|lia|].
    cbn [take Z.to_nat app]. rewrite <- app_assoc, Z2Nat.id by lia. by apply cstr_app.
Qed.

(** ** A queue and the threads of its child *)
Definition notifying (d : option drain) : bool := match d with Some Notify => true | _ => false end.
Definition running (d : option drain) : bool := match d with Some _ => true | None => false end.
Definition held (d : option drain) : list (list Z) := match d with Some (Accept m) => [m] | _ => [] end.

Record box (j : nat) (live : bool) (ts : list (option drain)) (q : queue) (ac se : list (list Z)) : Prop := {
  box_once : if live then Z.b2z (registered q) + Z.of_nat (notified q) + count notifying ts = 1
             else registered q = false /\ notified q = 0%nat;
  box_reader : live = true -> msgs q <> [] -> 0 < Z.of_nat (notified q) + count running ts;
  box_accepted : ac ++ (text <$> (ts ≫= held) ++ msgs q) ≡ₚ text <$> se;
  box_capacity : Z.of_nat (length (msgs q)) <= MAX_MSG_COUNT;
  box_addressed : Forall (addressed j) ((ts ≫= held) ++ msgs q) /\ Forall (addressed j) se;
}.

Lemma held_at (ts : list (option drain)) i d :
  ts !! i = Some d ->
  exists l r, ts ≫= held = l ++ held d ++ r /\ forall d', <[i := d']> ts ≫= held = l ++ held d' ++ r.
Proof.
  revert i. induction ts as [|e ts IH]; intros [|i] H; simplify_eq/=.
  - by exists [], (ts ≫= held).
  - destruct (IH i H) as (l & r & E & E'). exists (held e ++ l), r. rewrite E. split; [by rewrite <- app_assoc|].
    intros d'. rewrite E'. by rewrite <- app_assoc.
Qed.

Lemma notifying_running ts : count notifying ts <= count running ts.
Proof. induction ts as [|[[]|] ts IH]; simpl; lia. Qed.

Lemma box_send j live ts q ac se m q' :
  box j live ts q ac se -> mq_send q m = Some q' -> addressed j m -> box j live ts q' ac (se ++ [m]).
Proof.
  intros [Ho Hr Ha Hc [Hm Hs]] Hq Hj. unfold mq_send in Hq. destruct (Z.leb_spec MAX_MSG_COUNT (Z.of_nat (length (msgs q)))); [done|].
  pose proof (notifying_running ts).
  assert (q' = Queue (msgs q ++ [m]) (registered q) (notified q) \/
    (msgs q = [] /\ registered q = true /\ q' = Queue [m] false (S (notified q)))) as Hq'.
  { destruct (msgs q) as [|v l] eqn:E, (registered q); simplify_eq; auto. }
  assert (msgs q' = msgs q ++ [m]) as Em by by destruct Hq' as [->|(E & _ & ->)]; rewrite ?E.
  constructor.
  - destruct Hq' as [->|(_ & E & ->)]; [done|]. rewrite E in Ho. destruct live; [|by destruct Ho]. simpl in *. lia.
  - intros -> _. destruct Hq' as [->|(_ & _ & ->)]; simpl; [|pose proof (count_nonneg running ts); lia].
    destruct (msgs q) as [|v l] eqn:E; [|by apply Hr]. destruct (registered q) eqn:Er; simpl in *; [|lia].
    simplify_eq.
  - rewrite Em, !fmap_app, <- Ha. rewrite !fmap_app, <- !app_assoc. done.
  - rewrite Em, length_app. simpl. lia.
  - rewrite Em, app_assoc. split; apply Forall_app; auto.
Qed.

(** A thread of [handle_messages] always goes on: its request is not a second
    one, and what it prints is a string. *)
Lemma box_drain j ts q ac se i d :
  box j true ts q ac se -> ts !! i = Some (Some d) ->
  exists d' q' out, handle_messages d q = Goes d' q' out /\ box j true (<[i := d']> ts) q' (ac ++ out) se.
Proof.
  intros [Ho Hr Ha Hc [Hm Hs]] Hi. destruct (held_at ts i _ Hi) as (l & r & Hh & Hh').
  pose proof (fun d' => count_insert notifying ts i _ d' Hi) as Cn. pose proof (fun d' => count_insert running ts i _ d' Hi) as Cr.
  pose proof (count_pos running ts i _ Hi eq_refl). destruct q as [ms reg nt]. rewrite Hh in Ha, Hm. simpl in *.
  destruct d as [| |m]; simpl in Ha, Hm, Cn.
  - pose proof (count_pos notifying ts i _ Hi eq_refl). destruct reg; [simpl in Ho; lia|].
    eexists _, _, _. split; [done|]. rewrite app_nil_r. constructor; rewrite ?Cn, ?Cr, ?Hh'; simpl; try done; try lia. simpl in Ho. lia.
  - destruct ms as [|m ms]; eexists _, _, _; (split; [done|]); rewrite app_nil_r;
      constructor; rewrite ?Cn, ?Cr, ?Hh'; simpl in *; try done; try lia.
    + rewrite <- Ha, <- !app_assoc, !fmap_app. do 2 f_equiv. apply Permutation_middle.
    + split; [|done]. rewrite <- !app_assoc. rewrite <- app_assoc in Hm. simpl. by rewrite (Permutation_middle r).
  - assert (addressed j m) as (s & k & _ & _ & Et).
    { rewrite <- app_assoc in Hm. apply Forall_app in Hm as [_ Hm]. by inversion Hm. }
    assert (text m = phrase (child_name s) (Z.of_nat j) k) as Etx by (unfold text; by rewrite Et).
    cbn [handle_messages]. rewrite Et. eexists _, _, _. split; [done|]. constructor; rewrite ?Cn, ?Cr, ?Hh'; simpl in *; try done; try lia.
    + rewrite <- Ha, <- !app_assoc, !fmap_app. rewrite fmap_cons, Etx. f_equiv. cbn [app]. apply Permutation_middle.
    + split; [|done]. rewrite <- app_assoc in Hm |- *. apply Forall_app in Hm as [? Hm]. inversion Hm. apply Forall_app; auto.
Qed.

Lemma box_notification j ts ms r n ac se :
  box j true ts (Queue ms r (S n)) ac se -> box j true (ts ++ [Some Notify]) (Queue ms r n) ac se.
Proof.
  intros [Ho Hr Ha Hc Hm]. simpl in *.
  assert (forall P, count P (ts ++ [Some Notify]) = count P ts + Z.b2z (P (Some Notify))) as Hcount.
  { intros P. clear. induction ts as [|d ts IH]; simpl in *; lia. }
  constructor; rewrite ?Hcount, ?bind_app; simpl; rewrite ?app_nil_r; try done; [lia|].
  pose proof (count_nonneg running ts). lia.
Qed.

Lemma box_exit j ts q ac se : box j true ts q ac se -> box j false ts (mq_owner_exits q) ac se.
Proof. intros [Ho Hr Ha Hc Hm]. by constructor. Qed.

(** ** The whole program *)
Definition rounds (t : process) : Z :=
  match t with Child (Round i | Send i _ _) _ => i | Child Ended _ => ROUNDS | _ => 0 end.
Definition ended (t : process) : bool := match t with Child Ended _ => true | _ => false end.
Definition pc_ok (pc : child_pc) : Prop :=
  match pc with
  | Round i => 0 <= i <= ROUNDS
  | Send i r m => 0 <= i < ROUNDS /\ (r < 4)%nat /\ addressed r m
  | _ => True
  end.
Definition messages (l : list (list Z)) : Z := Z.of_nat (length l).

Definition boxes (ls : list process) (x : world) : Prop :=
  forall j pc ts q ac se, ls !! S j = Some (Child pc ts) -> queues x !! j = Some q -> accepted x !! j = Some ac ->
    sent x !! j = Some se -> box j (alive pc) ts q ac se.

Record inv (ls : list process) (x : world) : Prop := {
  inv_length : length ls = 5%nat /\ length (queues x) = 4%nat /\ length (accepted x) = 4%nat /\ length (sent x) = 4%nat;
  inv_shape k t : ls !! k = Some t ->
    match k with
    | 0%nat => exists pc, t = Parent pc
    | S _ => exists pc ts, t = Child pc ts /\ pc_ok pc /\ ts !! 0%nat <> None
    end;
  inv_boxes : boxes ls x;
  inv_rounds : total messages (sent x) = total rounds ls;
  inv_zombies : 0 <= zombies x /\ forall pc, ls !! 0%nat = Some (Parent pc) ->
    match pc with PWait n => n + zombies x = count ended ls | _ => zombies x = 0 /\ count ended ls = CHILD_COUNT end;
  inv_failed : failed x = None \/ (failed x = Some "mq_send"%string /\
    exists j q, queues x !! j = Some q /\ Z.of_nat (length (msgs q)) = MAX_MSG_COUNT);
}.

Lemma alter_as_insert {A} (f : A -> A) i (l : list A) v : l !! i = Some v -> alter f i l = <[i := f v]> l.
Proof. revert i. induction l as [|w l IH]; intros [|i] H; simplify_eq/=; [done|]. f_equal. by apply IH. Qed.

Lemma boxes_own ls qs ac se z f z' f' j pc ts pc' ts' q q' a a' s :
  boxes ls (World qs ac se z f) -> ls !! S j = Some (Child pc ts) ->
  qs !! j = Some q -> ac !! j = Some a -> se !! j = Some s ->
  (box j (alive pc) ts q a s -> box j (alive pc') ts' q' a' s) ->
  boxes (<[S j := Child pc' ts']> ls) (World (<[j := q']> qs) (<[j := a']> ac) se z' f').
Proof.
  intros HB Hj Hq Ha Hs Hb i pci tsi qi ai si Hi Hqi Hai Hsi. simpl in *. destruct (decide (i = j)) as [->|Hne].
  - rewrite list_lookup_insert_eq in Hi by (by eapply lookup_lt_Some). rewrite list_lookup_insert_eq in Hqi by (by eapply lookup_lt_Some).
    rewrite list_lookup_insert_eq in Hai by (by eapply lookup_lt_Some). simplify_eq. by apply Hb, (HB j).
  - rewrite list_lookup_insert_ne in Hi by congruence. rewrite list_lookup_insert_ne in Hqi by done. rewrite list_lookup_insert_ne in Hai by done. by apply (HB i).
Qed.

Lemma boxes_send ls qs ac se z f z' f' r q q' s m :
  boxes ls (World qs ac se z f) -> qs !! r = Some q -> se !! r = Some s -> mq_send q m = Some q' -> addressed r m ->
  boxes ls (World (<[r := q']> qs) ac (<[r := s ++ [m]]> se) z' f').
Proof.
  intros HB Hq Hs Hm Hr i pci tsi qi ai si Hi Hqi Hai Hsi. simpl in *. destruct (decide (i = r)) as [->|Hne].
  - rewrite list_lookup_insert_eq in Hqi by (by eapply lookup_lt_Some).
    rewrite list_lookup_insert_eq in Hsi by (by eapply lookup_lt_Some). simplify_eq.
    eapply box_send; [|done..]. by apply (HB r).
  - rewrite list_lookup_insert_ne in Hqi by done. rewrite list_lookup_insert_ne in Hsi by done. by apply (HB i).
Qed.

Lemma mq_send_full q m : mq_send q m = None -> MAX_MSG_COUNT <= Z.of_nat (length (msgs q)).
Proof.
  unfold mq_send. destruct (Z.leb_spec MAX_MSG_COUNT (Z.of_nat (length (msgs q)))); [done|].
  by destruct (msgs q), (registered q).
Qed.

Section Preservation.
Variable indeterminate : nat -> Z -> list Z.
Hypothesis indeterminate_length : forall j i, length (indeterminate j i) = Z.to_nat MSG_SIZE.

(** What a step of child [j] has to respect, besides the boxes. *)
Lemma personae_frame ls x j pc ts pc' ts' x' :
  inv ls x -> ls !! S j = Some (Child pc ts) -> pc_ok pc' -> ts' !! 0%nat <> None ->
  length (queues x') = 4%nat -> length (accepted x') = 4%nat -> length (sent x') = 4%nat ->
  boxes (<[S j := Child pc' ts']> ls) x' ->
  total messages (sent x') = total messages (sent x) - rounds (Child pc ts) + rounds (Child pc' ts') ->
  zombies x' = zombies x - Z.b2z (ended (Child pc ts)) + Z.b2z (ended (Child pc' ts')) -> 0 <= zombies x' ->
  (failed x' = None \/ (failed x' = Some "mq_send"%string /\
    exists j q, queues x' !! j = Some q /\ Z.of_nat (length (msgs q)) = MAX_MSG_COUNT)) ->
  (ended (Child pc ts) = ended (Child pc' ts') \/ zombies x < zombies x') ->
  inv (<[S j := Child pc' ts']> ls) x'.
Proof.
  intros HI Hj Hpc Hts L1 L2 L3 HB Hm Hz Hz0 Hf He. destruct (inv_length _ _ HI) as (L0 & _).
  constructor; rewrite ?length_insert; try done.
  - intros k t Hk. insert_cases Hk; [eauto|by apply (inv_shape _ _ HI)].
  - rewrite Hm, (sum_over_insert rounds _ _ _ _ Hj), (inv_rounds _ _ HI). lia.
  - split; [done|]. intros pp Hp. rewrite list_lookup_insert_ne in Hp by done.
    rewrite (count_insert ended _ _ _ _ Hj). pose proof (inv_zombies _ _ HI) as [_ H]. specialize (H pp Hp).
    assert (count ended ls < CHILD_COUNT \/ ended (Child pc ts) = ended (Child pc' ts')) as Hlt.
    { destruct He as [He|He]; [by right|left]. destruct (ended (Child pc ts)) eqn:E; [by destruct (ended (Child pc' ts')); simpl in Hz; lia|].
      pose proof (count_missing ended (drop 1 ls) j _ ltac:(by rewrite lookup_drop) E) as Hc. rewrite length_drop, L0 in Hc.
      destruct ls as [|t ls]; [done|]. simpl in Hp, Hc |- *. simplify_eq. rewrite drop_0 in Hc. unfold CHILD_COUNT. simpl. lia. }
    destruct pp as [n| |]; [lia|..]; (destruct Hlt as [Hlt|Hlt]; [lia|rewrite <- Hlt in Hz |- *; lia]).
Qed.

Lemma parent_inv ls x pc t' x' :
  inv ls x -> ls !! 0%nat = Some (Parent pc) -> (t', x') ∈ parent pc x -> inv (<[0%nat := t']> ls) x'.
Proof.
  intros HI Hp Hs. destruct (inv_zombies _ _ HI) as [Hz Hpc]. specialize (Hpc pc Hp). destruct (inv_length _ _ HI) as (L0 & L1 & L2 & L3).
  assert (exists pc', t' = Parent pc' /\ queues x' = queues x /\ accepted x' = accepted x /\ sent x' = sent x /\ failed x' = failed x /\
    0 <= zombies x' /\ match pc' with PWait n => n + zombies x' = count ended ls | _ => zombies x' = 0 /\ count ended ls = CHILD_COUNT end)
    as (pc' & -> & E1 & E2 & E3 & E4 & Hz' & Hpc').
  { destruct x as [qs ac se z f]; destruct pc as [n| |]; cbn [parent] in Hs; simpl in Hz, Hpc; [destruct (Z.ltb_spec 0 z); [|destruct (Z.eqb_spec n CHILD_COUNT)]| |];
      try (by apply not_elem_of_nil in Hs); apply list_elem_of_singleton in Hs as [= -> ->]; eexists; split_and!; try done; simpl; lia. }
  pose proof (count_insert ended _ _ _ (Parent pc') Hp) as Hc. simpl in Hc.
  constructor; rewrite ?length_insert, ?E1, ?E2, ?E3, ?E4; try done; try apply HI.
  - intros k t Hk. insert_cases Hk; [eauto|by apply (inv_shape _ _ HI)].
  - intros j pcj ts q ac se Hj Hq Ha Hse. rewrite E1 in Hq. rewrite E2 in Ha. rewrite E3 in Hse.
    rewrite list_lookup_insert_ne in Hj by done. by apply (inv_boxes _ _ HI j).
  - rewrite (sum_over_insert rounds _ _ _ _ Hp), (inv_rounds _ _ HI). simpl. lia.
  - split; [done|]. intros pp Hpp. rewrite list_lookup_insert_eq in Hpp by lia. simplify_eq. rewrite Hc.
    destruct pp; lia.
Qed.

(** The queue and the logs of a child. *)
Lemma child_boxes ls x j pc ts :
  inv ls x -> ls !! S j = Some (Child pc ts) ->
  exists q ac se, queues x !! j = Some q /\ accepted x !! j = Some ac /\ sent x !! j = Some se /\
    box j (alive pc) ts q ac se /\ (j < 4)%nat.
Proof.
  intros HI Hj. destruct (inv_length _ _ HI) as (L0 & L1 & L2 & L3). pose proof (lookup_lt_Some _ _ _ Hj).
  assert (j < 4)%nat as Hlt by lia.
  destruct (lookup_lt_is_Some_2 (queues x) j) as [q Hq]; [lia|]. destruct (lookup_lt_is_Some_2 (accepted x) j) as [ac Ha]; [lia|].
  destruct (lookup_lt_is_Some_2 (sent x) j) as [se Hs]; [lia|]. exists q, ac, se. split_and!; try done. by apply (inv_boxes _ _ HI j).
Qed.

Lemma child_ok ls x j pc ts : inv ls x -> ls !! S j = Some (Child pc ts) -> pc_ok pc /\ ts !! 0%nat <> None.
Proof. intros HI Hj. destruct (inv_shape _ _ HI _ _ Hj) as (pc' & ts' & E & H). by simplify_eq. Qed.

Lemma thread_inv ls x j pc ts i t' x' :
  inv ls x -> ls !! S j = Some (Child pc ts) -> alive pc = true -> failed x = None ->
  (t', x') ∈ thread_step j pc ts x i -> inv (<[S j := t']> ls) x'.
Proof.
  intros HI Hj Hal Hf Hs. destruct (child_boxes _ _ _ _ _ HI Hj) as (q & a & s & Hq & Ha & Hse & HB & Hlt).
  destruct (child_ok _ _ _ _ _ HI Hj) as [Hpc Hts]. destruct (inv_length _ _ HI) as (L0 & L1 & L2 & L3).
  pose proof (inv_boxes _ _ HI) as HBs. destruct (inv_zombies _ _ HI) as [Hz _].
  destruct x as [qs ac se z f]; simpl in *. unfold thread_step in Hs. rewrite Hq in Hs.
  destruct (ts !! i) as [[d|]|] eqn:Ei; try by apply not_elem_of_nil in Hs. rewrite Hal in HB.
  destruct (box_drain j ts q a s i d HB Ei) as (d' & q' & out & E & HB'). rewrite E in Hs.
  apply list_elem_of_singleton in Hs as [= -> ->]. unfold logged. rewrite (alter_as_insert _ _ _ _ Ha).
  eapply personae_frame; eauto; simpl; rewrite ?length_insert; auto; try lia.
  - destruct i; [|by rewrite list_lookup_insert_ne]. rewrite list_lookup_insert_eq; [done|by eapply lookup_lt_Some].
  - eapply boxes_own; eauto. by rewrite Hal.
Qed.

Lemma notification_inv ls x j pc ts t' x' :
  inv ls x -> ls !! S j = Some (Child pc ts) -> alive pc = true -> failed x = None ->
  (t', x') ∈ notification j pc ts x -> inv (<[S j := t']> ls) x'.
Proof.
  intros HI Hj Hal Hf Hs. destruct (child_boxes _ _ _ _ _ HI Hj) as (q & a & s & Hq & Ha & Hse & HB & Hlt).
  destruct (child_ok _ _ _ _ _ HI Hj) as [Hpc Hts]. destruct (inv_length _ _ HI) as (L0 & L1 & L2 & L3).
  pose proof (inv_boxes _ _ HI) as HBs. destruct (inv_zombies _ _ HI) as [Hz _].
  destruct x as [qs ac se z f]; simpl in *. unfold notification in Hs. rewrite Hq in Hs.
  destruct q as [ms r [|n]]; [by apply not_elem_of_nil in Hs|]. apply list_elem_of_singleton in Hs as [= -> ->].
  eapply personae_frame; eauto; simpl; rewrite ?length_insert; auto; try lia.
  - by destruct ts.
  - rewrite <- (list_insert_id ac j a) by done. eapply boxes_own; eauto. rewrite Hal. apply box_notification.
Qed.

Lemma pc_inv ls x j pc ts pc' :
  inv ls x -> ls !! S j = Some (Child pc ts) -> alive pc = true -> alive pc' = true -> failed x = None ->
  rounds (Child pc' ts) = rounds (Child pc ts) -> pc_ok pc' -> inv (<[S j := Child pc' ts]> ls) x.
Proof.
  intros HI Hj Hal Hal' Hf Hr Hpc. destruct (child_boxes _ _ _ _ _ HI Hj) as (q & a & s & Hq & Ha & Hse & HB & Hlt).
  destruct (child_ok _ _ _ _ _ HI Hj) as [_ Hts]. destruct (inv_length _ _ HI) as (L0 & L1 & L2 & L3).
  destruct (inv_zombies _ _ HI) as [Hz _]. pose proof (inv_boxes _ _ HI) as HBs.
  assert (ended (Child pc ts) = false /\ ended (Child pc' ts) = false) as [E E'] by by destruct pc, pc'.
  eapply personae_frame; eauto; rewrite ?E, ?E', ?Hr; simpl; auto; try lia.
  destruct x as [qs ac se z f]; simpl in *. rewrite <- (list_insert_id qs j q), <- (list_insert_id ac j a) by done.
  eapply boxes_own; eauto. by rewrite Hal, Hal'.
Qed.

(** The end of a child. *)
Lemma exit_inv ls x j ts :
  inv ls x -> ls !! S j = Some (Child (Round ROUNDS) ts) -> failed x = None ->
  inv (<[S j := Child Ended ts]> ls) (World (alter mq_owner_exits j (queues x)) (accepted x) (sent x) (zombies x + 1) (failed x)).
Proof.
  intros HI Hj Hf. destruct (child_boxes _ _ _ _ _ HI Hj) as (q & a & s & Hq & Ha & Hse & HB & Hlt).
  destruct (child_ok _ _ _ _ _ HI Hj) as [_ Hts]. destruct (inv_length _ _ HI) as (L0 & L1 & L2 & L3).
  destruct (inv_zombies _ _ HI) as [Hz _]. pose proof (inv_boxes _ _ HI) as HBs.
  eapply personae_frame; eauto; simpl; rewrite ?length_alter; auto; try lia.
  rewrite (alter_as_insert _ _ _ _ Hq). destruct x as [qs ac se z f]; simpl in *.
  rewrite <- (list_insert_id ac j a) by done. eapply boxes_own; eauto. apply box_exit.
Qed.

(** A message sent, or the end of everything. *)
Lemma send_inv ls x j ts i r m q q' :
  inv ls x -> ls !! S j = Some (Child (Send i r m) ts) -> failed x = None -> queues x !! r = Some q -> mq_send q m = Some q' ->
  inv (<[S j := Child (Round (i + 1)) ts]> ls)
    (World (<[r := q']> (queues x)) (accepted x) (logged r [m] (sent x)) (zombies x) (failed x)).
Proof.
  intros HI Hj Hf Hr Hm. destruct (child_ok _ _ _ _ _ HI Hj) as [(Hi & Hr4 & Hadd) Hts].
  destruct (inv_length _ _ HI) as (L0 & L1 & L2 & L3). destruct (inv_zombies _ _ HI) as [Hz _].
  destruct (lookup_lt_is_Some_2 (sent x) r) as [s Hs]; [lia|]. pose proof (inv_boxes _ _ HI) as HBs.
  unfold logged. rewrite (alter_as_insert _ _ _ _ Hs).
  eapply personae_frame; eauto; simpl; rewrite ?length_insert; auto; try lia.
  - destruct x as [qs ac se z f]; simpl in *.
    pose proof (boxes_send _ _ _ _ _ _ z f _ _ _ _ _ HBs Hr Hs Hm Hadd) as HB.
    destruct (lookup_lt_is_Some_2 (<[r:=q']> qs) j) as [qj Hqj].
    { rewrite length_insert, L1. apply lookup_lt_Some in Hj. lia. }
    destruct (lookup_lt_is_Some_2 ac j) as [aj Haj]. { rewrite L2. apply lookup_lt_Some in Hj. lia. }
    destruct (lookup_lt_is_Some_2 (<[r:=s ++ [m]]> se) j) as [sj Hsj].
    { rewrite length_insert, L3. apply lookup_lt_Some in Hj. lia. }
    rewrite <- (list_insert_id (<[r:=q']> qs) j qj), <- (list_insert_id ac j aj) by done. eapply boxes_own; eauto.
  - rewrite (sum_over_insert messages _ _ _ _ Hs). unfold messages. rewrite length_app. simpl. lia.
Qed.

(** A child by its number. *)
Lemma child_at ls x j : inv ls x -> (j < 4)%nat -> exists pc ts, ls !! S j = Some (Child pc ts).
Proof.
  intros HI Hj. destruct (lookup_lt_is_Some_2 ls (S j)) as [t Ht]; [pose proof (inv_length _ _ HI); lia|].
  destruct (inv_shape _ _ HI _ _ Ht) as (pc & ts & -> & _). eauto.
Qed.

Lemma queue_capacity ls x r q : inv ls x -> queues x !! r = Some q -> Z.of_nat (length (msgs q)) <= MAX_MSG_COUNT.
Proof.
  intros HI Hq. destruct (inv_length _ _ HI) as (L0 & L1 & _). pose proof (lookup_lt_Some _ _ _ Hq).
  destruct (child_at ls x r HI) as (pc & ts & Hj); [lia|].
  destruct (child_boxes _ _ _ _ _ HI Hj) as (q' & a & s & Hq' & _ & _ & HB & _). simplify_eq. apply HB.
Qed.

Lemma child_function_inv ls x j pc ts t' x' :
  inv ls x -> ls !! S j = Some (Child pc ts) -> failed x = None ->
  (t', x') ∈ child_function indeterminate j pc ts x -> inv (<[S j := t']> ls) x'.
Proof.
  intros HI Hj Hf Hs. destruct (child_boxes _ _ _ _ _ HI Hj) as (q & a & s & Hq & Ha & Hse & HB & Hlt).
  destruct (child_ok _ _ _ _ _ HI Hj) as [Hpc Hts]. pose proof (fun pc' => pc_inv _ _ _ _ _ pc' HI Hj) as Hpcs.
  destruct x as [qs ac se z f] eqn:Ex; simpl in Hf. destruct pc as [|i|i r m|]; cbn [child_function] in Hs; simpl in Hpc.
  - destruct (ts !! 0%nat) as [[d|]|]; try by apply not_elem_of_nil in Hs.
    apply list_elem_of_singleton in Hs as [= -> ->]. by apply Hpcs.
  - destruct (Z.ltb_spec i ROUNDS).
    + apply list_elem_of_bind in Hs as (r & Hs & Hr). apply list_elem_of_bind in Hs as (k & Hs & Hk).
      apply elem_of_seqZ in Hr, Hk. destruct (compose_ok indeterminate j i r k) as (m & E & Hm); [done|lia|lia|lia|].
      rewrite E in Hs. apply list_elem_of_singleton in Hs as [= -> ->]. apply Hpcs; try done.
      split_and!; [lia|done|unfold CHILD_COUNT in *; lia|done].
    + apply list_elem_of_singleton in Hs as [= -> ->]. replace i with ROUNDS in Hj by lia.
      apply (exit_inv _ _ _ _ HI Hj Hf).
  - destruct (qs !! r) as [qr|] eqn:Er; [|by apply not_elem_of_nil in Hs]. destruct (mq_send qr m) as [q'|] eqn:Em.
    + apply list_elem_of_singleton in Hs as [= -> ->]. apply (send_inv _ _ _ _ _ _ _ _ _ HI Hj Hf Er Em).
    + apply list_elem_of_singleton in Hs as [= -> ->]. rewrite list_insert_id by done.
      pose proof (queue_capacity _ _ _ _ HI Er) as Hc. apply mq_send_full in Em.
      destruct HI as [I1 I2 I3 I4 I5 I6]. constructor; try done. right. split; [done|]. exists r, qr. split; [done|lia].
  - by apply not_elem_of_nil in Hs.
Qed.

Lemma personae_start : inv start.1 start.2.
Proof.
  assert (forall k t, start.1 !! k = Some t -> (k = 0%nat /\ t = Parent (PWait 0)) \/ t = Child Handling [Some Notify]) as Hp.
  { intros [|k] t Hk; [injection Hk as <-; auto|right].
    change (replicate 4 (Child Handling [Some Notify]) !! k = Some t) in Hk. by apply lookup_replicate in Hk as [-> _]. }
  constructor; try done.
  - intros [|k] t Hk; [injection Hk as <-; eauto|]. destruct (Hp _ _ Hk) as [[? ?]| ->]; [done|]. by eexists _, _.
  - intros j pc ts q ac se Hj Hq Ha Hs. destruct (Hp _ _ Hj) as [[? ?]|E]; [done|]. injection E as -> ->.
    apply (lookup_replicate 4) in Hq as [-> _]. apply (lookup_replicate 4) in Ha as [-> _]. apply (lookup_replicate 4) in Hs as [-> _].
    by constructor.
  - split; [done|]. intros pc [= <-]. done.
  - by left.
Qed.

Lemma personae_reachable ls x : reachable (step indeterminate) start (ls, x) -> inv ls x.
Proof.
  apply (reachable_invariant (step indeterminate) (fun y => inv y.1 y.2) _ (ls, x)); [apply personae_start|].
  intros c1 c2 HI Hm. destruct Hm as [k t t' ls' s s' Hk Hs]. simpl in *. unfold step in Hs.
  destruct (failed s) eqn:Hf; [by apply not_elem_of_nil in Hs|]. pose proof (inv_shape _ _ HI _ _ Hk) as Hsh. destruct k as [|j].
  - destruct Hsh as [pc ->]. by eapply parent_inv.
  - destruct Hsh as (pc & ts & -> & _). destruct (alive pc) eqn:Hal; [|by apply not_elem_of_nil in Hs].
    cbn [pred] in Hs. apply elem_of_app in Hs as [Hs|Hs]; [by eapply child_function_inv|].
    apply elem_of_app in Hs as [Hs|Hs]; [by eapply notification_inv|].
    apply list_elem_of_bind in Hs as (i & Hs & _). by eapply thread_inv.
Qed.

(** A child that has not ended can move. *)
Lemma child_moves ls x j pc ts :
  inv ls x -> failed x = None -> ls !! S j = Some (Child pc ts) -> alive pc = true -> step indeterminate (S j) (Child pc ts) x <> [].
Proof.
  intros HI Hf Hj Hal Hs. unfold step in Hs. rewrite Hf, Hal in Hs. cbn [pred] in Hs.
  apply app_nil in Hs as [Hm Hs]. apply app_nil in Hs as [_ Hts].
  destruct (child_boxes _ _ _ _ _ HI Hj) as (q & a & s & Hq & Ha & Hse & HB & Hlt). rewrite Hal in HB.
  destruct (child_ok _ _ _ _ _ HI Hj) as [Hpc Hts0]. destruct (inv_length _ _ HI) as (L0 & L1 & L2 & L3).
  destruct x as [qs ac se z f]. cbn [queues accepted sent zombies failed] in *. destruct pc as [|i|i r m|]; cbn [child_function] in Hm; try done.
  - destruct (ts !! 0%nat) as [[d|]|] eqn:E; try done. destruct ts as [|d0 ts]; [done|]. injection E as ->.
    destruct (box_drain j _ q a s 0 d HB eq_refl) as (d' & q' & out & Eh & _). cbn [length seq mbind list_bind] in Hts.
    apply app_nil in Hts as [Hts _]. simpl in Hts. by rewrite Hq, Eh in Hts.
  - destruct (Z.ltb_spec i ROUNDS); [|done].
    destruct (compose_ok indeterminate j i 0 0) as (m & E & Hm'); [done|done|unfold CHILD_COUNT; lia|lia|].
    eapply not_elem_of_nil. rewrite <- Hm. apply list_elem_of_bind. exists 0. split; [|by apply elem_of_seqZ].
    apply list_elem_of_bind. exists 0. split; [rewrite E; by left|by apply elem_of_seqZ].
  - destruct Hpc as (_ & Hr & _). destruct (lookup_lt_is_Some_2 qs r) as [qr Er]; [lia|]. rewrite Er in Hm.
    by destruct (mq_send qr m).
Qed.

Lemma personae_stuck ls x :
  inv ls x -> failed x = None -> (forall k t, ls !! k = Some t -> step indeterminate k t x = []) ->
  ls !! 0%nat = Some (Parent PEnd) /\ (forall j t, ls !! S j = Some t -> ended t = true) /\ total messages (sent x) = 20.
Proof.
  intros HI Hf Hs. assert (forall j t, ls !! S j = Some t -> ended t = true) as Hend.
  { intros j t Hj. destruct (inv_shape _ _ HI _ _ Hj) as (pc & ts & -> & _ & _).
    destruct (alive pc) eqn:Hal; [|by destruct pc]. by destruct (child_moves _ _ _ _ _ HI Hf Hj Hal (Hs _ _ Hj)). }
  destruct (inv_length _ _ HI) as (L0 & _). destruct (lookup_lt_is_Some_2 ls 0) as [t Ht]; [lia|].
  destruct (inv_shape _ _ HI _ _ Ht) as [pc ->]. destruct (inv_zombies _ _ HI) as [Hz Hpc]. specialize (Hpc pc Ht).
  assert (count ended ls = 4 /\ total rounds ls = 20) as [Hc Hr].
  { destruct ls as [|t0 [|t1 [|t2 [|t3 [|t4 [|]]]]]]; try done. simplify_eq/=.
    pose proof (Hend 0%nat _ eq_refl). pose proof (Hend 1%nat _ eq_refl). pose proof (Hend 2%nat _ eq_refl). pose proof (Hend 3%nat _ eq_refl).
    by destruct t1 as [|[] ?], t2 as [|[] ?], t3 as [|[] ?], t4 as [|[] ?]. }
  pose proof (Hs _ _ Ht) as H0. unfold step in H0. rewrite Hf in H0. split_and!; [|done|by rewrite (inv_rounds _ _ HI)].
  destruct x as [qs ac se z f]; destruct pc as [n| |]; cbn [parent] in H0; simpl in Hpc; try done.
  destruct (Z.ltb_spec 0 z); [done|]. destruct (Z.eqb_spec n CHILD_COUNT); [done|]. simpl in Hz. unfold CHILD_COUNT in *. lia.
Qed.
End Preservation.

(** C36. Whatever the uninitialised part of the arrays holds, in every
    interleaving of the children, their notification threads and the parent:
    the messages a child has printed, holds in a thread or has in its queue
    are those sent to it, each once, and what it prints is a phrase for it; a
    live child with a message in its queue has a thread that reads it or one
    that is being started, since the request is renewed before the queue is
    emptied; the only call that fails is [mq_send] on a full queue; and
    without that the program stops only when all twenty messages are sent and
    the parent has waited for every child. *)
Theorem personae_messages indeterminate ls x :
  (forall j i, length (indeterminate j i) = Z.to_nat MSG_SIZE) ->
  reachable (step indeterminate) start (ls, x) ->
  (forall j pc ts q ac se, ls !! S j = Some (Child pc ts) -> queues x !! j = Some q -> accepted x !! j = Some ac ->
    sent x !! j = Some se ->
    ac ++ (text <$> (ts ≫= held) ++ msgs q) ≡ₚ text <$> se /\
    Forall (fun t => exists s k, 0 <= s < CHILD_COUNT /\ 0 <= k < 3 /\ t = phrase (child_name s) (Z.of_nat j) k) ac /\
    (alive pc = true -> msgs q <> [] -> notified q <> 0%nat \/ exists i d, ts !! i = Some (Some d))) /\
  (failed x = None \/ (failed x = Some "mq_send"%string /\
    exists j q, queues x !! j = Some q /\ Z.of_nat (length (msgs q)) = MAX_MSG_COUNT)) /\
  (failed x = None -> (forall k t, ls !! k = Some t -> step indeterminate k t x = []) ->
    ls !! 0%nat = Some (Parent PEnd) /\ (forall j t, ls !! S j = Some t -> ended t = true) /\ total messages (sent x) = 20).
Proof.
  intros Hlen Hr. pose proof (personae_reachable _ Hlen _ _ Hr) as HI. split_and!; [|apply HI|by apply personae_stuck].
  intros j pc ts q ac se Hj Hq Ha Hs. pose proof (inv_boxes _ _ HI _ _ _ _ _ _ Hj Hq Ha Hs) as [_ Hread Hperm _ [_ Hadd]].
  split_and!; [done| |].
  - assert (Forall (fun t => exists s k, 0 <= s < CHILD_COUNT /\ 0 <= k < 3 /\ t = phrase (child_name s) (Z.of_nat j) k) (text <$> se)) as H.
    { apply Forall_fmap. eapply Forall_impl; [exact Hadd|]. intros m (s & k & Hs' & Hk & E). exists s, k. split_and!; try lia.
      unfold text. by rewrite E. }
    rewrite <- Hperm in H. by apply Forall_app in H as [H _].
  - intros Hal Hm. specialize (Hread Hal Hm). destruct (notified q); [right|by left].
    destruct (count_exists running ts) as (i & [d|] & Hi & Hd); [lia|by exists i, d|done].
Qed.

(** Child 1 writes to child 0, a notification thread prints it. *)
Definition salve : list (nat * nat) :=
  [(1, 0); (1, 0); (1, 0); (2, 0); (2, 0); (2, 0); (2, 0); (2, 0); (1, 12); (1, 12); (1, 12); (1, 12)]%nat.

Lemma personae_messages_witness :
  exists (ls : list process) (x : world) q, reachable (step (fun _ _ => replicate 64 255)) start (ls, x) /\ accepted x !! 0%nat = Some [str "Persona 1: Salve 0!"] /\ queues x !! 0%nat = Some q /\
    (msgs q <> [] -> notified q <> 0%nat \/ exists i d, [None; Some Receive] !! i = Some (Some d)) /\
    ls !! 1%nat = Some (Child (Round 0) [None; Some Receive]) /\ failed x = None.
Proof.
  destruct (schedule (step (fun _ _ => replicate 64 255)) salve start) as [[ls x]|] eqn:E; [|by vm_compute in E].
  pose proof (schedule_reachable _ _ _ _ E) as Hr.
  destruct (personae_messages (fun _ _ => replicate 64 255) ls x (fun _ _ => eq_refl) Hr) as [Hb _].
  vm_compute in E. injection E as <- <-. eexists _, _, _. split; [exact Hr|].
  split; [reflexivity|]. split; [reflexivity|]. split; [|split; reflexivity].
  intros Hm. by apply (Hb 0%nat _ _ _ _ _ eq_refl eq_refl eq_refl eq_refl).
Defined.

(** Child 0 ends; the fifth message to it finds its queue full, and [ERR]
    kills the program. *)
Definition to_the_departed : list (nat * nat) :=
  [(2, 0); (2, 0); (2, 0); (1, 0); (1, 0); (1, 0); (1, 3); (1, 0); (1, 3); (1, 0); (1, 6); (1, 0); (1, 6); (1, 0); (1, 9); (1, 0); (1, 0)]%nat
  ++ replicate 10 (2, 0)%nat.

Lemma departed_kills :
  exists (ls : list process) (x : world) ts, reachable (step (fun _ _ => replicate 64 255)) start (ls, x) /\
    ls !! 1%nat = Some (Child Ended ts) /\ failed x = Some "mq_send"%string.
Proof.
  destruct (schedule (step (fun _ _ => replicate 64 255)) to_the_departed start) as [[ls x]|] eqn:E; [|by vm_compute in E].
  exists ls, x. pose proof (schedule_reachable _ _ _ _ E) as Hr. vm_compute in E. injection E as <- <-.
  eexists. split; [exact Hr|]. split; [reflexivity|]. by vm_compute.
Qed.
