(* ===== verification/ThreadPool.v ===== *)
(** * sop1/lab/l4/prog22.c

    Three threads that copy random bytes to files, one job for each line of
    the standard input that finds a thread idle, until SIGINT.  A step is one
    call, one load or one store; a thread holds the mutex during its changes
    of [idlethreads], which are one step.  The sleeps have no step. *)

From S2P Require Import Prelude CLib Os Threads LabCommon CondVar.

Local Open Scope Z_scope.

Definition BUFFERSIZE : Z := 256.
Definition READCHUNKS : Z := 4.
Definition THREAD_NUM : Z := 3.

Definition set_handler (sigNo : Z) : prog unit :=
  let! r := sys (Libc "sigaction" [sigNo]) in
  if rv r =? -1 then ERR "sigaction" else Ret tt.

(** [read_random]; [bulk_read] and [bulk_write] are those of the other labs,
    whose counter has another width: at most 256 bytes are asked for. *)
Definition file_name (thread_id : Z) : list Z := upto_nul (snprintf_bytes 20 (str "random" ++ dec thread_id ++ str ".bin")).
Definition copy_chunk (F : nat) (fin fout : Z) (_ : Z) (buffer : list Z) : prog (list Z) :=
  let! r := bulk_read F fin buffer BUFFERSIZE in
  if r.1 <? 0 then ERR "bulk_read" else
  let! w := bulk_write F fout r.2 r.1 in
  if w.1 <? 0 then ERR "bulk_write" else
  ignored "sleep" [1] ;;;
  Ret r.2.
Definition read_random (F : nat) (thread_id : Z) (buffer : list Z) : prog unit :=
  printf "Writing to a file %s" [PS (file_name thread_id)] ;;;
  let! fout := retry F (Libc "open" (file_name thread_id)) in
  if rv fout <? 0 then ERR "open" else
  let! fin := retry F (Libc "open" (str "/dev/urandom")) in
  if rv fin <? 0 then ERR "open" else
  for_each (copy_chunk F (rv fin) (rv fout)) (seqZ 0 READCHUNKS) buffer ;;;
  let! c := retry F (Close (rv fin)) in
  if negb (rv c =? 0) then ERR "close" else
  let! c := retry F (Close (rv fout)) in
  if negb (rv c =? 0) then ERR "close" else
  Ret tt.

Definition init : prog unit :=
  for_each (fun i _ =>
    let! r := sys (Spawn "thread_func" (i + 1)) in
    if negb (rv r =? 0) then ERR "pthread_create" else Ret tt) (seqZ 0 THREAD_NUM) tt.
Definition main (do_work_and_join : prog unit) : prog Z :=
  set_handler 2 ;;; init ;;; do_work_and_join ;;; Ret EXIT_SUCCESS.

(** ** The threads *)

(** [requests], [refused] and [jobs] count the stores of 1 to [condition],
    the lines for which no thread was idle and the threads that took a
    request. *)
Record world := World {
  mutex : bool; cond : list nat; idlethreads : Z; condition : Z; work : bool;
  terminated : list bool;
  requests : Z; refused : Z; jobs : Z; failed : bool }.

Inductive main_pc :=
| MWhile | MGets | MLock | MTest | MUnlock (available : bool) | MSet | MSignal
| MBroadcast | MJoin (i : Z) | MEnd.
Inductive worker_pc :=
| WLock | WInc | WTest | WTestWork | WWait | WSleep | WRelock
| WReset (taken : bool) | WTestExit | WCleanup | WGone
| WDec | WUnlock | WJob.
Inductive thread := Main (pc : main_pc) | Worker (pc : worker_pc) | Sigint (delivered : bool).

Section Steps.
Variable spurious : bool.

(** [do_work], the broadcast and the joins. *)
Definition do_work (pc : main_pc) (x : world) : list (thread * world) :=
  let '(World m c i k w tm rq rf jb f) := x in
  let go pc x := [(Main pc, x)] in
  match pc with
  | MWhile => go (if w then MGets else MBroadcast) x
  | MGets =>              (* a line; the end of the input; interrupted by SIGINT *)
      go MLock x ++ go MGets (World m c i k w tm rq rf jb true) ++ (if w then [] else go MWhile x)
  | MLock => match lock m with Some m => go MTest (World m c i k w tm rq rf jb f) | None => [] end
  | MTest => go (MUnlock (negb (i =? 0))) x
  | MUnlock true => go MSet (World false c i k w tm rq rf jb f)
  | MUnlock false => go MWhile (World false c i k w tm rq (rf + 1) jb f)
  | MSet => go MSignal (World m c i 1 w tm (rq + 1) rf jb f)
  | MSignal => c ← signal c; go MWhile (World m c i k w tm rq rf jb f)
  | MBroadcast => go (MJoin 0) (World m (broadcast c) i k w tm rq rf jb f)
  | MJoin n =>
      if n <? THREAD_NUM then
        match mem_load tm n with Some true => go (MJoin (n + 1)) x | _ => [] end
      else go MEnd x
  | MEnd => []
  end.

(** [thread_func] of thread [j]; [WCleanup] is [pthread_exit] with the
    cleanup handler. *)
Definition thread_func (j : nat) (pc : worker_pc) (x : world) : list (thread * world) :=
  let '(World m c i k w tm rq rf jb f) := x in
  let go pc x := [(Worker pc, x)] in
  match pc with
  | WLock => match lock m with Some m => go WInc (World m c i k w tm rq rf jb f) | None => [] end
  | WInc => match checked_int (i + 1) with Some i => go WTest (World m c i k w tm rq rf jb f) | None => [] end
  | WTest => go (if k =? 0 then WTestWork else WReset true) x
  | WTestWork => go (if w then WWait else WReset false) x
  | WWait => go WSleep (World false (c ++ [j]) i k w tm rq rf jb f)
  | WSleep => c ← wake spurious j c; go WRelock (World m c i k w tm rq rf jb f)
  | WRelock => match lock m with Some m => go WTest (World m c i k w tm rq rf jb f) | None => [] end
  | WReset taken => go WTestExit (World m c i 0 w tm rq rf (jb + Z.b2z taken) f)
  | WTestExit => go (if w then WDec else WCleanup) x
  | WCleanup => go WGone (World false c i k w (<[pred j := true]> tm) rq rf jb f)
  | WGone => []
  | WDec => match checked_int (i - 1) with Some i => go WUnlock (World m c i k w tm rq rf jb f) | None => [] end
  | WUnlock => go WJob (World false c i k w tm rq rf jb f)
  | WJob => go WLock x ++ go WJob (World m c i k w tm rq rf jb true)       (* read_random, or its ERR *)
  end.

(** After [exit] nothing moves. *)
Definition step (j : nat) (t : thread) (x : world) : list (thread * world) :=
  if failed x then [] else
  match t with
  | Main pc => do_work pc x
  | Worker pc => thread_func j pc x
  | Sigint false =>
      let '(World m c i k w tm rq rf jb f) := x in [(Sigint true, World m c i k false tm rq rf jb f)]
  | Sigint true => []
  end.
End Steps.

Definition start : list thread * world :=
  ([Main MWhile; Worker WLock; Worker WLock; Worker WLock; Sigint false],
   World false [] 0 0 true [false; false; false] 0 0 0 false).







(** The obligations of [pool_frame] for what a step leaves alone. *)
Ltac go Hf := apply Hf; simpl; auto; try lia.

Section Preservation.
Variable spurious : bool.
Implicit Types (ls : list thread) (x : world).










End Preservation.


Section WakeUps.
Variable spurious : bool.
Implicit Types (ls : list thread) (x : world) (P : list thread -> world -> Prop).









End WakeUps.




(** SIGINT and the broadcast come between the test of [work] and the wait. *)
Definition late_sleeper : list (nat * nat) :=
  (fun j => (j, 0%nat)) <$> replicate 4 1%nat ++ [4%nat] ++ replicate 2 0%nat ++ [1%nat] ++ replicate 7 2%nat ++ replicate 7 3%nat.

Lemma sigint_deadlock :
  exists (ls : list thread) (x : world), reachable (step false) start (ls, x) /\
    ls !! 0%nat = Some (Main (MJoin 0)) /\ ls !! 1%nat = Some (Worker WSleep) /\ failed x = false /\
    forall j t, ls !! j = Some t -> step false j t x = [].
Proof.
  destruct (schedule (step false) late_sleeper start) as [[ls x]|] eqn:E; [|by vm_compute in E].
  pose proof (schedule_reachable _ _ _ _ E) as Hr. exists ls, x. split; [done|].
  vm_compute in E. injection E as <- <-. split_and!; [done|done|done|].
  by intros [|[|[|[|[|j]]]]] t [= <-].
Qed.
