(* ===== verification/Dice.v ===== *)
(** * sop1/lab/l4/prog23.c

    Four players roll a die ten times; after each round the thread that a
    barrier picks gives a point to those with the highest roll, and a second
    barrier starts the next round.  A step is one call, one load or one store,
    and the increment of a score, which one thread does at a time. *)

From S2P Require Import Prelude Os Threads LabCommon.

Local Open Scope Z_scope.

Definition PLAYER_COUNT : Z := 4.
Definition ROUNDS : Z := 10.

(** ** A barrier, as the system keeps it

    [phase] counts the times it opened, [leaving] the threads that have still
    to return from the last time and [unclaimed] that none of them got
    [PTHREAD_BARRIER_SERIAL_THREAD] so far. *)
Record barrier := Barrier { arrived : Z; phase : Z; leaving : Z; unclaimed : bool }.

Definition barrier_arrive (b : barrier) : barrier :=
  if arrived b + 1 =? PLAYER_COUNT then Barrier 0 (phase b + 1) PLAYER_COUNT true
  else Barrier (arrived b + 1) (phase b) (leaving b) (unclaimed b).
(** The return of a thread that arrived in phase [p]: is it the serial one?
    POSIX leaves open which thread is. *)
Definition barrier_leave (p : Z) (b : barrier) : list (bool * barrier) :=
  if phase b =? p then [] else
  let out serial := (serial, Barrier (arrived b) (phase b) (leaving b - 1) (unclaimed b && negb serial)) in
  if unclaimed b then out true :: if leaving b =? 1 then [] else [out false] else [out false].

(** ** The players and main *)
Inductive player_pc :=
| PRoll (r : Z)
| PArrive (r : Z) (second : bool) | PWait (r : Z) (second : bool) (p : Z)
| PMax (r i max : Z) | PScore (r i max : Z)
| PReturned.
Inductive main_pc := MJoin (i : Z) | MPrint (i : Z) (out : list Z) | MEnd.
Inductive thread := Main (pc : main_pc) | Player (pc : player_pc).

(** [rolls] is not initialised. *)
Record world := World {
  rolls : list (option Z); scores : list Z; bar : barrier; returned : list bool; stdout : list (list Z) }.

Section Game.
(** [1 + rand_r(&seed) % 6] of a player in a round. *)
Variable roll : nat -> Z -> Z.

Definition thread_func (j : nat) (pc : player_pc) (x : world) : list (thread * world) :=
  let '(World rl sc b rt so) := x in
  let go pc x := [(Player pc, x)] in
  let stop {A} (o : option A) (f : A -> list (thread * world)) := match o with Some a => f a | None => [] end in
  match pc with
  | PRoll r =>
      if r <? ROUNDS then
        stop (mem_store rl (Z.of_nat j) [Some (roll j r)]) (fun rl => go (PArrive r false) (World rl sc b rt so))
      else go PReturned (World rl sc b (<[j := true]> rt) so)
  | PArrive r second => go (PWait r second (phase b)) (World rl sc (barrier_arrive b) rt so)
  | PWait r second p =>
      (fun '(serial, b) =>
        (Player (if second : bool then PRoll (r + 1) else if serial : bool then PMax r 0 (-1) else PArrive r true),
         World rl sc b rt so)) <$> barrier_leave p b
  | PMax r i max =>
      if i <? PLAYER_COUNT then
        stop (mem_load rl i ≫= id) (fun roll => go (PMax r (i + 1) (if max <? roll then roll else max)) x)
      else go (PScore r 0 max) x
  | PScore r i max =>
      if i <? PLAYER_COUNT then
        stop (mem_load rl i ≫= id) (fun roll =>
          if roll =? max then
            stop (mem_load sc i ≫= fun s => checked_int (s + 1)) (fun s =>
              stop (mem_store sc i [s]) (fun sc => go (PScore r (i + 1) max) (World rl sc b rt so)))
          else go (PScore r (i + 1) max) x)
      else go (PArrive r true) x
  | PReturned => []
  end.

Definition main_thread (pc : main_pc) (x : world) : list (thread * world) :=
  let '(World rl sc b rt so) := x in
  match pc with
  | MJoin i =>
      if i <? PLAYER_COUNT then match mem_load rt i with Some true => [(Main (MJoin (i + 1)), x)] | _ => [] end
      else [(Main (MPrint 0 []), x)]
  | MPrint i out =>
      if i <? PLAYER_COUNT then match mem_load sc i with Some s => [(Main (MPrint (i + 1) (out ++ [s])), x)] | None => [] end
      else [(Main MEnd, World rl sc b rt (so ++ [out]))]
  | MEnd => []
  end.

(** Thread [j] of the system is player [j - 1]. *)
Definition step (j : nat) (t : thread) (x : world) : list (thread * world) :=
  match t with Main pc => main_thread pc x | Player pc => thread_func (pred j) pc x end.

Definition start : list thread * world :=
  (Main (MJoin 0) :: replicate 4 (Player (PRoll 0)),
   World (replicate 4 None) (replicate 4 0) (Barrier 0 0 0 false) (replicate 4 false) []).

(** The set-up; [game] is the joins and the printing. *)
Definition create_threads : prog unit :=
  ignored "srand(time(NULL))" [] ;;;
  for_each (fun i _ =>
    let! _ := sys (Libc "rand" []) in
    let! r := sys (Spawn "thread_func" i) in
    if negb (rv r =? 0) then ERR "pthread_create" else Ret tt) (seqZ 0 PLAYER_COUNT) tt.
Definition main (game : prog unit) : prog Z :=
  ignored "pthread_barrier_init" [PLAYER_COUNT] ;;;
  create_threads ;;;
  game ;;;
  ignored "pthread_barrier_destroy" [] ;;;
  Ret 0.

(** ** What the game means: a point for each round in which nobody rolled more *)
Definition wins (i : nat) (r : Z) : bool := forallb (fun j => roll j r <=? roll i r) (seq 0 (Z.to_nat PLAYER_COUNT)).
Fixpoint points (i : nat) (n : nat) : Z :=
  match n with O => 0 | S n => points i n + Z.b2z (wins i (Z.of_nat n)) end.

(** ** What holds throughout *)
Fixpoint max_upto (r : Z) (n : nat) : Z := match n with O => -1 | S n => Z.max (max_upto r n) (roll n r) end.

Definition at_gate (p : Z) (t : thread) : bool := match t with Player (PWait _ _ q) => q =? p | _ => false end.
Definition scoring (t : thread) : bool := match t with Player (PMax _ _ _ | PScore _ _ _) => true | _ => false end.
Definition remaining (t : thread) : Z :=
  match t with Player (PMax _ _ _) => PLAYER_COUNT | Player (PScore _ i _) => PLAYER_COUNT - i | _ => 0 end.
Definition over (pc : player_pc) : bool := match pc with PReturned => true | _ => false end.
(** Points given in this round: to the players below this. *)
Definition progress (second u : bool) (ls : list thread) : Z :=
  if second && negb u then PLAYER_COUNT - total remaining ls else 0.

Definition player_ok (rd : Z) (sc : bool) (j : nat) (pc : player_pc) (rl : list (option Z)) : Prop :=
  let rolled r := rl !! j = Some (Some (roll j r)) in
  match pc with
  | PRoll r => sc = false /\ r = rd /\ 0 <= r <= ROUNDS
  | PArrive r s => s = sc /\ r = rd /\ 0 <= r < ROUNDS /\ rolled r
  | PWait r s p =>
      p = 2 * r + Z.b2z s /\ 0 <= r < ROUNDS /\ rolled r /\ (p = 2 * rd + Z.b2z sc \/ p = 2 * rd + Z.b2z sc - 1)
  | PMax r i m => sc = true /\ r = rd /\ 0 <= r < ROUNDS /\ rolled r /\ 0 <= i <= PLAYER_COUNT /\ m = max_upto r (Z.to_nat i)
  | PScore r i m => sc = true /\ r = rd /\ 0 <= r < ROUNDS /\ rolled r /\ 0 <= i <= PLAYER_COUNT /\ m = max_upto r 4
  | PReturned => sc = false /\ rd = ROUNDS
  end.

Definition main_ok (x : world) (pc : main_pc) : Prop :=
  let joined i := forall k, (k < i)%nat -> returned x !! k = Some true in
  match pc with
  | MJoin i => 0 <= i <= PLAYER_COUNT /\ joined (Z.to_nat i) /\ stdout x = []
  | MPrint i out => 0 <= i <= PLAYER_COUNT /\ joined 4%nat /\ out = take (Z.to_nat i) (scores x) /\ stdout x = []
  | MEnd => joined 4%nat /\ stdout x = [scores x]
  end.

Record inv (rd : Z) (sc : bool) (ls : list thread) (x : world) : Prop := {
  inv_sizes : length ls = 5%nat /\ length (rolls x) = 4%nat /\ length (scores x) = 4%nat /\ length (returned x) = 4%nat;
  inv_shape k t : ls !! k = Some t -> match k with O => exists pc, t = Main pc | S _ => exists pc, t = Player pc end;
  inv_phase : phase (bar x) = 2 * rd + Z.b2z sc /\ 0 <= rd;
  inv_arrived : arrived (bar x) = count (at_gate (2 * rd + Z.b2z sc)) ls /\ arrived (bar x) < PLAYER_COUNT;
  inv_leaving : leaving (bar x) = count (at_gate (2 * rd + Z.b2z sc - 1)) ls;
  inv_unclaimed : unclaimed (bar x) = true -> 1 <= leaving (bar x) /\ count scoring ls = 0;
  inv_one : count scoring ls <= 1;
  inv_player j pc : ls !! S j = Some (Player pc) -> player_ok rd sc j pc (rolls x);
  inv_scores j s : scores x !! j = Some s ->
    s = points j (Z.to_nat (rd + Z.b2z (Z.of_nat j <? progress sc (unclaimed (bar x)) ls)));
  inv_returned j pc b : ls !! S j = Some (Player pc) -> returned x !! j = Some b -> b = over pc;
  inv_main pc : ls !! 0%nat = Some (Main pc) -> main_ok x pc;
}.

Ltac one Hs := apply list_elem_of_singleton in Hs as [= -> ->].

(** ** The steps of a round *)
Lemma dice_frame rd sc ls x j pc pc' x' :
  let f := 2 * rd + Z.b2z sc in let t := Player pc in let t' := Player pc' in let ls' := <[S j := t']> ls in
  inv rd sc ls x -> ls !! S j = Some t -> over pc = false ->
  length (rolls x') = 4%nat -> length (scores x') = 4%nat ->
  phase (bar x') = phase (bar x) ->
  arrived (bar x') = arrived (bar x) - Z.b2z (at_gate f t) + Z.b2z (at_gate f t') -> arrived (bar x') < PLAYER_COUNT ->
  leaving (bar x') = leaving (bar x) - Z.b2z (at_gate (f - 1) t) + Z.b2z (at_gate (f - 1) t') ->
  (unclaimed (bar x') = true -> unclaimed (bar x) = true /\ 1 <= leaving (bar x') /\ scoring t' = false) ->
  (scoring t' = false \/ scoring t = true \/ unclaimed (bar x) = true) ->
  player_ok rd sc j pc' (rolls x') -> (forall i, i <> j -> rolls x' !! i = rolls x !! i) ->
  (forall i s, scores x' !! i = Some s ->
    s = points i (Z.to_nat (rd + Z.b2z (Z.of_nat i <? progress sc (unclaimed (bar x')) ls')))) ->
  returned x' = (if over pc' then <[j := true]> (returned x) else returned x) -> stdout x' = stdout x ->
  inv rd sc ls' x'.
Proof.
  intros f t t' ls' HI Hj Hov L1 L2 Hph Har Har4 Hlv Hun Hsc Hok Hoth Hs Hrt Hso.
  destruct (inv_sizes _ _ _ _ HI) as (L0 & _ & _ & L3). unfold ls'.
  pose proof (count_insert scoring _ _ _ t' Hj) as Hcs. pose proof (inv_one _ _ _ _ HI) as Hone.
  constructor; try done.
  - rewrite length_insert, Hrt. split_and!; try done. destruct (over pc'); by rewrite ?length_insert.
  - intros k u Hu. insert_cases Hu; [by exists pc'|by apply (inv_shape _ _ _ _ HI)].
  - rewrite Hph. apply HI.
  - destruct (inv_arrived _ _ _ _ HI) as [Ha _]. split; [|done]. rewrite (count_insert _ _ _ _ _ Hj), <- Ha. apply Har.
  - rewrite (count_insert _ _ _ _ _ Hj), <- (inv_leaving _ _ _ _ HI). apply Hlv.
  - intros Hu. destruct (Hun Hu) as (Hu0 & Hl & E). split; [done|]. destruct (inv_unclaimed _ _ _ _ HI Hu0) as [_ Hc].
    rewrite Hcs, Hc, E. destruct (scoring t) eqn:Et; [pose proof (count_pos scoring _ _ _ Hj Et); lia|done].
  - rewrite Hcs. destruct Hsc as [E|[E|E]]; rewrite ?E.
    + destruct (scoring t); simpl; lia.
    + destruct (scoring t'); simpl; lia.
    + destruct (inv_unclaimed _ _ _ _ HI E) as [_ Hc]. destruct (scoring t'), (scoring t); simpl; lia.
  - intros i q Hq. insert_cases Hq; [done|]. pose proof (inv_player _ _ _ _ HI _ _ Hq) as Hp.
    unfold player_ok in *. by rewrite Hoth by congruence.
  - intros i q b Hq Hb. rewrite Hrt in Hb. insert_cases Hq.
    + destruct (over q) eqn:E; [|rewrite <- Hov; by apply (inv_returned _ _ _ _ HI i)].
      rewrite list_lookup_insert_eq in Hb; [by simplify_eq|]. apply list_lookup_insert_Some in Hb as [(_ & _ & ?)|[? _]]; [lia|done].
    + apply (inv_returned _ _ _ _ HI i); [done|]. destruct (over pc'); [|done]. by rewrite list_lookup_insert_ne in Hb by congruence.
  - intros q Hq. rewrite list_lookup_insert_ne in Hq by done. pose proof (inv_main _ _ _ _ HI _ Hq) as Hm.
    assert (forall k, returned x !! k = Some true -> returned x' !! k = Some true) as Hmono.
    { intros k Hk. rewrite Hrt. destruct (over pc'); [|done]. destruct (decide (k = j)) as [->|]; [|by rewrite list_lookup_insert_ne].
      rewrite list_lookup_insert_eq; [done|by eapply lookup_lt_Some]. }
    assert (~ forall k, (k < 4)%nat -> returned x !! k = Some true) as Hall.
    { intros H. assert (j < 4)%nat as Hlt by (apply lookup_lt_Some in Hj; lia).
      pose proof (inv_returned _ _ _ _ HI _ _ _ Hj (H j Hlt)). congruence. }
    destruct q; simpl in *; [|by destruct Hm as (_ & ? & _)|by destruct Hm].
    destruct Hm as (? & Hjn & E). rewrite Hso. split_and!; try done; try lia. intros k Hk. by apply Hmono, Hjn.
Qed.

Lemma progress_same sc u u' ls j t t' :
  ls !! j = Some t -> remaining t' = remaining t -> (sc = true -> u' = u) -> progress sc u' (<[j := t']> ls) = progress sc u ls.
Proof.
  intros Hj Hr Hu. unfold progress. rewrite (sum_over_insert remaining _ _ _ _ Hj), Hr.
  destruct sc; [|done]. rewrite Hu by done. simpl. case_match; lia.
Qed.

(** Steps that leave the scores and the points of the round as they are. *)
Lemma scores_same rd sc ls x j t t' sc' b' :
  inv rd sc ls x -> ls !! j = Some t -> remaining t' = remaining t -> sc' = scores x ->
  (sc = true -> unclaimed b' = unclaimed (bar x)) ->
  forall i s, sc' !! i = Some s -> s = points i (Z.to_nat (rd + Z.b2z (Z.of_nat i <? progress sc (unclaimed b') (<[j := t']> ls)))).
Proof.
  intros HI Hj Hr -> Hu i s Hi. rewrite (progress_same sc (unclaimed (bar x)) _ _ _ _ _ Hj Hr Hu). by apply (inv_scores _ _ _ _ HI).
Qed.

Lemma gate_members ls p : (exists pc, ls !! 0%nat = Some (Main pc)) -> length ls = 5%nat ->
  count (at_gate p) ls <= PLAYER_COUNT /\
  (count (at_gate p) ls = PLAYER_COUNT -> forall k t, ls !! S k = Some t -> at_gate p t = true).
Proof.
  intros [pc H0] L. destruct ls as [|t0 ls]; [done|]. injection H0 as ->. injection L as L. cbn [count at_gate Z.b2z].
  pose proof (count_length (at_gate p) ls) as Hl. rewrite L in Hl. unfold PLAYER_COUNT. split; [lia|].
  intros Hc k t Hk. destruct (at_gate p t) eqn:E; [done|]. pose proof (count_missing _ ls _ _ Hk E). lia.
Qed.

Lemma none_scoring ls : count scoring ls = 0 -> total remaining ls = 0.
Proof.
  intros Hc. apply total_zero. intros i t Hi. destruct (scoring t) eqn:E; [|by destruct t as [|[]]].
  pose proof (count_pos scoring _ _ _ Hi E). lia.
Qed.

(** An arrival; the last one opens the barrier. *)
Lemma arrive_inv rd sc ls x j r s :
  inv rd sc ls x -> ls !! S j = Some (Player (PArrive r s)) ->
  exists rd' sc', inv rd' sc' (<[S j := Player (PWait r s (phase (bar x)))]> ls)
    (World (rolls x) (scores x) (barrier_arrive (bar x)) (returned x) (stdout x)).
Proof.
  intros HI Hj. destruct (inv_player _ _ _ _ HI _ _ Hj) as (-> & -> & Hr & Hroll).
  destruct (inv_sizes _ _ _ _ HI) as (L0 & L1 & L2 & L3). destruct (inv_phase _ _ _ _ HI) as [Hp _].
  destruct (inv_arrived _ _ _ _ HI) as [Ha Ha4]. pose proof (inv_leaving _ _ _ _ HI) as Hl.
  set (t' := Player (PWait rd sc (phase (bar x)))). set (f := 2 * rd + Z.b2z sc) in *.
  assert (at_gate f t' = true /\ at_gate (f - 1) t' = false) as [G1 G0] by (simpl; rewrite Hp; split; lia).
  unfold barrier_arrive. destruct (Z.eqb_spec (arrived (bar x) + 1) PLAYER_COUNT) as [E|E].
  - pose proof (count_insert (at_gate f) _ _ _ t' Hj) as Hcf. rewrite G1 in Hcf. simpl Z.b2z in Hcf.
    assert (exists pc, <[S j := t']> ls !! 0%nat = Some (Main pc)) as Hmain.
    { destruct (lookup_lt_is_Some_2 ls 0) as [t0 H0]; [lia|]. destruct (inv_shape _ _ _ _ HI _ _ H0) as [pc ->].
      exists pc. by rewrite list_lookup_insert_ne. }
    destruct (gate_members (<[S j := t']> ls) f Hmain) as [_ Hg]; [by rewrite length_insert|]. specialize (Hg ltac:(lia)).
    assert (forall P : thread -> bool, (forall t, P t = true -> at_gate f t = false) -> (forall pc, P (Main pc) = false) ->
      count P (<[S j := t']> ls) = 0) as Hnone.
    { intros P HP Hm. apply count_none. intros [|k] t Hk; [destruct Hmain as [pc Hm']; rewrite Hm' in Hk; by simplify_eq|].
      destruct (P t) eqn:Et; [|done]. apply HP in Et. by rewrite (Hg _ _ Hk) in Et. }
    assert (leaving (bar x) = 0) as Hl0.
    { rewrite Hl, <- (Hnone (at_gate (f - 1))); [|intros [|[]]; simpl; try done; lia|done].
      rewrite (count_insert _ _ _ _ _ Hj), G0. simpl. lia. }
    assert (count scoring (<[S j := t']> ls) = 0) as Hs0 by (apply Hnone; [by intros [|[]]|done]).
    assert (unclaimed (bar x) = false) as Hu.
    { destruct (unclaimed (bar x)) eqn:Eu; [|done]. destruct (inv_unclaimed _ _ _ _ HI Eu). lia. }
    exists (if sc then rd + 1 else rd), (negb sc).
    assert (2 * (if sc then rd + 1 else rd) + Z.b2z (negb sc) = f + 1) as Ef by (unfold f; destruct sc; simpl; lia).
    constructor; rewrite ?Ef; simpl.
    + by rewrite length_insert.
    + intros k u Hu'. insert_cases Hu'; [eauto|by apply (inv_shape _ _ _ _ HI)].
    + rewrite Hp. destruct sc; lia.
    + rewrite Hnone; [done|intros [|[]]; simpl; try done; lia|done].
    + replace (f + 1 - 1) with f by lia. lia.
    + intros _. done.
    + lia.
    + intros i pc Hi. pose proof (Hg _ _ Hi) as Hgi. destruct pc as [| |r s p| | |]; simpl in Hgi; try done.
      apply Z.eqb_eq in Hgi as ->. unfold player_ok. rewrite Ef.
      insert_cases Hi; [split_and!; try done; lia|]. destruct (inv_player _ _ _ _ HI _ _ Hi) as (? & ? & ? & _).
      split_and!; try done; lia.
    + intros i v Hi. rewrite (inv_scores _ _ _ _ HI i v Hi). f_equal. f_equal.
      assert (total remaining ls = 0) as Hr0.
      { pose proof (none_scoring _ Hs0) as Hn. rewrite (sum_over_insert remaining _ _ _ _ Hj) in Hn. simpl in Hn. lia. }
      unfold progress. rewrite Hr0, Hu. apply lookup_lt_Some in Hi. rewrite L2 in Hi. destruct sc; simpl; [|lia].
      destruct (Z.ltb_spec (Z.of_nat i) (PLAYER_COUNT - 0)); unfold PLAYER_COUNT in *; destruct (Z.ltb_spec (Z.of_nat i) 0); simpl; lia.
    + intros i pc b Hi Hb. apply list_lookup_insert_Some in Hi as [(Ei & E1 & _)|[_ Hi]].
      * injection Ei as <-. injection E1 as <-. by apply (inv_returned _ _ _ _ HI _ _ _ Hj Hb).
      * by apply (inv_returned _ _ _ _ HI _ _ _ Hi Hb).
    + intros pc Hpc. rewrite list_lookup_insert_ne in Hpc by done. by apply (inv_main _ _ _ _ HI).
  - exists rd, sc. eapply dice_frame; eauto; fold f; fold t'; rewrite ?G1, ?G0; simpl; try done; try lia.
    + intros Hu. destruct (inv_unclaimed _ _ _ _ HI Hu). split_and!; try done; lia.
    + split_and!; try done; lia.
    + by apply (scores_same rd sc ls x (S j) _ _ _ (Barrier 0 0 0 (unclaimed (bar x))) HI Hj).
Qed.

Hypothesis roll_range : forall j r, 1 <= roll j r <= 6.

Lemma roll_inv rd sc ls x j r t' x' :
  inv rd sc ls x -> ls !! S j = Some (Player (PRoll r)) -> (t', x') ∈ thread_func j (PRoll r) x -> inv rd sc (<[S j := t']> ls) x'.
Proof.
  intros HI Hj Hs. destruct (inv_player _ _ _ _ HI _ _ Hj) as (-> & -> & Hr). destruct (inv_sizes _ _ _ _ HI) as (L0 & L1 & L2 & L3).
  destruct (inv_arrived _ _ _ _ HI) as [_ Ha4]. pose proof (inv_unclaimed _ _ _ _ HI) as Hu.
  assert (j < 4)%nat as Hlt by (apply lookup_lt_Some in Hj; lia).
  pose proof (fun t' b' Hr => scores_same rd false ls x (S j) _ t' _ b' HI Hj Hr eq_refl) as Hsc.
  destruct x as [rl s b rt so]; simpl in *. destruct (Z.ltb_spec rd ROUNDS).
  - destruct (lookup_lt_is_Some_2 rl j) as [v Hv]; [lia|].
    rewrite (mem_store_one _ _ v) in Hs by (rewrite ?Nat2Z.id; lia || done). rewrite Nat2Z.id in Hs. one Hs.
    eapply dice_frame; eauto; simpl; rewrite ?length_insert; try done; try lia.
    + intros E. destruct (Hu E). split_and!; done.
    + split_and!; try done; try lia. apply list_lookup_insert_eq. lia.
    + intros i Hi. by rewrite list_lookup_insert_ne.
  - one Hs. eapply dice_frame; eauto; simpl; try done; try lia.
    + intros E. destruct (Hu E). split_and!; done.
Qed.

Lemma leave_inv rd sc ls x j r s p t' x' :
  inv rd sc ls x -> ls !! S j = Some (Player (PWait r s p)) -> (t', x') ∈ thread_func j (PWait r s p) x ->
  inv rd sc (<[S j := t']> ls) x'.
Proof.
  intros HI Hj Hs. destruct (inv_player _ _ _ _ HI _ _ Hj) as (Hp & Hr & Hroll & Hpf). destruct (inv_sizes _ _ _ _ HI) as (L0 & L1 & L2 & L3).
  destruct (inv_phase _ _ _ _ HI) as [Hph _]. destruct (inv_arrived _ _ _ _ HI) as [_ Ha4]. pose proof (inv_leaving _ _ _ _ HI) as Hl.
  destruct x as [rl v b rt so]; simpl in *. apply list_elem_of_fmap in Hs as ([serial b'] & [= -> ->] & Hb).
  unfold barrier_leave in Hb. destruct (Z.eqb_spec (phase b) p) as [|Hne]; [by apply not_elem_of_nil in Hb|].
  assert (p = 2 * rd + Z.b2z sc - 1) as Hpp by (destruct Hpf; [lia|done]). clear Hpf.
  assert (1 <= leaving b) as Hl1.
  { rewrite Hl. apply (count_pos _ _ _ _ Hj). simpl. by apply Z.eqb_eq. }
  assert (b' = Barrier (arrived b) (phase b) (leaving b - 1) (unclaimed b && negb serial) /\
    (serial = true -> unclaimed b = true) /\ (unclaimed b && negb serial = true -> 2 <= leaving b)) as (-> & Hser & Hun).
  { destruct (unclaimed b) eqn:Eu.
    - apply elem_of_cons in Hb as [[= -> ->]|Hb]; [done|]. destruct (Z.eqb_spec (leaving b) 1); [by apply not_elem_of_nil in Hb|].
      apply list_elem_of_singleton in Hb as [= -> ->]. split_and!; try done. lia.
    - by apply list_elem_of_singleton in Hb as [= -> ->]. }
  set (pc' := if s then _ else _). assert (s = negb sc /\ (if s then r + 1 else r) = rd) as [Es Er] by (destruct s, sc; simpl in *; lia).
  assert (forall q, at_gate q (Player pc') = false) as G by by intros q; unfold pc'; destruct s, serial.
  assert (at_gate (2 * rd + Z.b2z sc) (Player (PWait r s p)) = false /\ at_gate (2 * rd + Z.b2z sc - 1) (Player (PWait r s p)) = true) as [G0 G1]
    by (simpl; split; lia).
  eapply dice_frame; eauto; rewrite ?G, ?G0, ?G1; simpl; try done; try lia.
  - intros E. apply andb_prop in E as E'. destruct E' as [E1 E2]. split_and!; [done|specialize (Hun E); lia|].
    unfold pc'. destruct s; [done|]. by destruct serial.
  - destruct serial; [right; right; by apply Hser|left; unfold pc'; by destruct s].
  - unfold pc', player_ok. destruct s; [|destruct serial]; destruct sc; try done; simpl in *; split_and!; try done; try lia.
  - intros i w Hi. rewrite (inv_scores _ _ _ _ HI i w Hi). f_equal. f_equal. f_equal. f_equal. f_equal. simpl.
    unfold progress. destruct sc; [|done]. simpl in Es. subst s. rewrite (sum_over_insert remaining _ _ _ _ Hj). unfold pc'. simpl remaining.
    destruct serial; simpl; [|by rewrite andb_true_r, Z.sub_0_r, Z.add_0_r].
    rewrite Hser, andb_false_r by done. simpl. destruct (inv_unclaimed _ _ _ _ HI (Hser eq_refl)) as [_ Hc]. rewrite (none_scoring _ Hc). lia.
  - unfold pc'. destruct s; [done|]. by destruct serial.
Qed.

Lemma all_rolled rd ls x i : inv rd true ls x -> (i < 4)%nat -> rolls x !! i = Some (Some (roll i rd)).
Proof.
  intros HI Hi. destruct (inv_sizes _ _ _ _ HI) as (L0 & _). destruct (lookup_lt_is_Some_2 ls (S i)) as [t Ht]; [lia|].
  destruct (inv_shape _ _ _ _ HI _ _ Ht) as [pc ->]. pose proof (inv_player _ _ _ _ HI _ _ Ht) as Hp.
  destruct pc as [| |r s p| | |]; simpl in Hp; destruct_and?; try done; try (by subst).
  assert (r = rd) as <- by (destruct s; simpl in *; lia). done.
Qed.

Lemma remaining_one ls j t : ls !! j = Some t -> scoring t = true -> count scoring ls <= 1 -> total remaining ls = remaining t.
Proof.
  intros Hj Ht Hc. pose proof (count_insert scoring _ _ _ (Main MEnd) Hj) as Hi. rewrite Ht in Hi. cbn [Z.b2z scoring] in Hi.
  pose proof (count_nonneg scoring (<[j := Main MEnd]> ls)).
  assert (count scoring (<[j := Main MEnd]> ls) = 0) as H0 by lia. pose proof (none_scoring _ H0) as Hn.
  rewrite (sum_over_insert remaining _ _ _ _ Hj) in Hn. simpl in Hn. lia.
Qed.

(** How far the thread that gives the points has come. *)
Lemma scoring_progress rd sc ls x j pc :
  inv rd sc ls x -> ls !! S j = Some (Player pc) -> scoring (Player pc) = true ->
  unclaimed (bar x) = false /\ sc = true /\ total remaining ls = remaining (Player pc).
Proof.
  intros HI Hj Hs. pose proof (count_pos scoring _ _ _ Hj Hs). split_and!.
  - destruct (unclaimed (bar x)) eqn:E; [|done]. destruct (inv_unclaimed _ _ _ _ HI E). lia.
  - pose proof (inv_player _ _ _ _ HI _ _ Hj) as Hp. by destruct pc; try done; destruct Hp as (-> & _).
  - eapply remaining_one; [done|done|apply HI].
Qed.

Lemma max_wins r i : (i < 4)%nat -> (roll i r =? max_upto r 4) = wins i r.
Proof.
  intros Hi. unfold wins. pose proof (roll_range 0 r). pose proof (roll_range 1 r). pose proof (roll_range 2 r). pose proof (roll_range 3 r).
  change (seq 0 (Z.to_nat PLAYER_COUNT)) with [0; 1; 2; 3]%nat. cbn [forallb max_upto].
  apply Bool.eq_iff_eq_true. rewrite !andb_true_iff, !Z.leb_le, Z.eqb_eq.
  destruct i as [|[|[|[|i]]]]; [split; [intros; split_and!; lia|lia]..|lia].
Qed.

Lemma points_range i n : 0 <= points i n <= Z.of_nat n.
Proof. induction n as [|n IH]; [done|]. cbn [points]. destruct (wins i (Z.of_nat n)); simpl Z.b2z; lia. Qed.

(** A step of the scoring thread that touches no score. *)
Lemma scoring_frame rd sc ls x j pc pc' :
  inv rd sc ls x -> ls !! S j = Some (Player pc) -> scoring (Player pc) = true ->
  over pc' = false -> (forall q, at_gate q (Player pc') = false) -> remaining (Player pc') = remaining (Player pc) ->
  player_ok rd sc j pc' (rolls x) -> inv rd sc (<[S j := Player pc']> ls) x.
Proof.
  intros HI Hj Hs Hov Hg Hrem Hok. destruct (inv_sizes _ _ _ _ HI) as (L0 & L1 & L2 & L3). destruct (inv_arrived _ _ _ _ HI) as [_ Ha4].
  destruct (scoring_progress _ _ _ _ _ _ HI Hj Hs) as (Hu & _ & _).
  assert (forall q, at_gate q (Player pc) = false) as Hg0 by by destruct pc.
  assert (over pc = false) as Hov0 by by destruct pc.
  eapply dice_frame; eauto; rewrite ?Hg, ?Hg0, ?Hov, ?Hu; simpl; try done; try lia.
  intros i w Hi. rewrite <- Hu. exact (scores_same rd sc ls x (S j) _ _ _ (bar x) HI Hj Hrem eq_refl (fun _ => eq_refl) i w Hi).
Qed.

Lemma max_inv rd sc ls x j r i m t' x' :
  inv rd sc ls x -> ls !! S j = Some (Player (PMax r i m)) -> (t', x') ∈ thread_func j (PMax r i m) x ->
  inv rd sc (<[S j := t']> ls) x'.
Proof.
  intros HI Hj Hs. destruct (inv_player _ _ _ _ HI _ _ Hj) as (-> & -> & Hr & Hroll & Hi & ->).
  pose proof (fun pc' => scoring_frame _ _ _ _ _ _ pc' HI Hj eq_refl) as Hf. pose proof (all_rolled rd ls x (Z.to_nat i) HI) as Hall.
  destruct (inv_sizes _ _ _ _ HI) as (L0 & L1 & L2 & L3).
  destruct x as [rl v b rt so]; simpl in *. unfold PLAYER_COUNT in *. destruct (Z.ltb_spec i 4).
  - destruct (mem_load_in rl i) as (o & E & Ho); [lia|]. rewrite E in Hs. rewrite Hall in Ho by lia. injection Ho as <-.
    simpl in Hs. one Hs. apply Hf; try done. unfold player_ok, PLAYER_COUNT. split_and!; try done; try lia.
    rewrite Z2Nat.inj_add, Nat.add_1_r by lia. cbn [max_upto]. case_match eqn:El; [apply Z.ltb_lt in El|apply Z.ltb_ge in El]; lia.
  - one Hs. apply Hf; try done. assert (i = 4) as -> by lia. unfold player_ok, PLAYER_COUNT. split_and!; done || lia.
Qed.

Lemma score_inv rd sc ls x j r i m t' x' :
  inv rd sc ls x -> ls !! S j = Some (Player (PScore r i m)) -> (t', x') ∈ thread_func j (PScore r i m) x ->
  inv rd sc (<[S j := t']> ls) x'.
Proof.
  intros HI Hj Hs. destruct (inv_player _ _ _ _ HI _ _ Hj) as (-> & -> & Hr & Hroll & Hi & ->).
  pose proof (fun pc' => scoring_frame _ _ _ _ _ _ pc' HI Hj eq_refl) as Hf. pose proof (all_rolled rd ls x (Z.to_nat i) HI) as Hall.
  destruct (inv_sizes _ _ _ _ HI) as (L0 & L1 & L2 & L3). destruct (inv_arrived _ _ _ _ HI) as [_ Ha4].
  destruct (scoring_progress _ _ _ _ _ _ HI Hj eq_refl) as (Hu & _ & Hrem).
  pose proof (inv_scores _ _ _ _ HI) as Hsc.
  assert (progress true (unclaimed (bar x)) ls = i) as Hpr by (unfold progress; rewrite Hu, Hrem; simpl; lia).
  assert (PLAYER_COUNT = 4) as Hpc by done.
  destruct (Z.eq_dec i 4) as [->|Hne].
  { destruct x as [rl v b rt so]. cbn [thread_func] in Hs. simpl in Hs. one Hs. by apply Hf. }
  assert (progress true (unclaimed (bar x)) (<[S j := Player (PScore rd (i + 1) (max_upto rd 4))]> ls) = i + 1) as Hpr'.
  { unfold progress. rewrite Hu, (sum_over_insert remaining _ _ _ _ Hj), Hrem. simpl. lia. }
  pose proof (max_wins rd (Z.to_nat i) ltac:(lia)) as Hw.
  assert (forall sc', (forall k s, sc' !! k = Some s -> s = points k (Z.to_nat (rd + Z.b2z (Z.of_nat k <? i + 1)))) -> length sc' = 4%nat ->
    inv rd true (<[S j := Player (PScore rd (i + 1) (max_upto rd 4))]> ls) (World (rolls x) sc' (bar x) (returned x) (stdout x))) as Hnext.
  { intros sc' Hsc' Hl. eapply dice_frame; eauto; simpl; try done; try lia.
    - by rewrite Hu.
    - split_and!; try done; lia.
    - intros k s Hk. rewrite (Hsc' k s Hk). do 5 f_equal. symmetry. exact Hpr'. }
  destruct x as [rl v b rt so]; simpl in *. rewrite Hpr in Hsc.
  replace (i <? PLAYER_COUNT) with true in Hs by (symmetry; apply Z.ltb_lt; lia).
  destruct (mem_load_in rl i) as (o & E & Ho); [lia|]. rewrite E in Hs. rewrite Hall in Ho by lia. injection Ho as <-.
  simpl in Hs. rewrite Hw in Hs.
  assert (forall k, k = Z.to_nat i -> points k (Z.to_nat (rd + 1)) = points k (Z.to_nat rd) + Z.b2z (wins (Z.to_nat i) rd)) as Hpt.
  { intros k ->. rewrite Z2Nat.inj_add, Nat.add_1_r by lia. cbn [points]. by rewrite Z2Nat.id by lia. }
  destruct (mem_load_in v i) as (w & Ew & Hv); [lia|]. rewrite Ew in Hs. simpl in Hs.
  pose proof (Hsc _ _ Hv) as Hw0. replace (Z.of_nat (Z.to_nat i) <? i) with false in Hw0 by (symmetry; apply Z.ltb_ge; lia).
  simpl in Hw0. rewrite Z.add_0_r in Hw0.
  assert (forall k s, k <> Z.to_nat i -> v !! k = Some s -> s = points k (Z.to_nat (rd + Z.b2z (Z.of_nat k <? i + 1)))) as Hother.
  { intros k s Hk Hks. rewrite (Hsc _ _ Hks). f_equal. f_equal. f_equal. f_equal.
    destruct (Z.ltb_spec (Z.of_nat k) i), (Z.ltb_spec (Z.of_nat k) (i + 1)); lia || done. }
  assert (Z.of_nat (Z.to_nat i) <? i + 1 = true) as Hlti by (apply Z.ltb_lt; lia).
  destruct (wins (Z.to_nat i) rd) eqn:Ewin; simpl in Hpt.
  - pose proof (points_range (Z.to_nat i) (Z.to_nat rd)). unfold ROUNDS in Hr.
    assert (checked_int (w + 1) = Some (w + 1)) as Ec by (apply checked_int_Some; limits; lia). rewrite Ec in Hs.
    rewrite (mem_store_one _ _ _ _ Hv) in Hs by lia. one Hs. apply Hnext; [|by rewrite length_insert].
    intros k s Hk. insert_cases Hk; [|by apply Hother]. rewrite Hlti. simpl. rewrite Hpt by done. done.
  - one Hs. apply Hnext; [|done]. intros k s Hk. destruct (decide (k = Z.to_nat i)) as [->|]; [|by apply Hother].
    rewrite Hlti. simpl. rewrite Hpt by done. simplify_eq. lia.
Qed.

Lemma dice_main_inv rd sc ls x pc t' x' :
  inv rd sc ls x -> ls !! 0%nat = Some (Main pc) -> (t', x') ∈ main_thread pc x -> inv rd sc (<[0%nat := t']> ls) x'.
Proof.
  intros HI Hj Hs. pose proof (inv_main _ _ _ _ HI _ Hj) as Hm. destruct (inv_sizes _ _ _ _ HI) as (L0 & L1 & L2 & L3).
  assert (exists pc', t' = Main pc' /\ rolls x' = rolls x /\ scores x' = scores x /\ bar x' = bar x /\ returned x' = returned x /\ main_ok x' pc')
    as (pc' & -> & E1 & E2 & E3 & E4 & Hok).
  { destruct x as [rl v b rt so]; destruct pc as [i|i out|]; cbn [main_thread] in Hs; simpl in Hm, L2.
    - destruct Hm as (Hi & Hjn & ->). destruct (Z.ltb_spec i PLAYER_COUNT).
      + destruct (mem_load rt i) as [[]|] eqn:E; try by apply not_elem_of_nil in Hs. apply mem_load_Some in E as [_ E]. one Hs.
        eexists. do 5 (split; [done|]). unfold main_ok. split_and!; try done; try lia. intros k Hk. destruct (decide (k = Z.to_nat i)) as [->|]; [done|]. apply Hjn. lia.
      + one Hs. eexists. do 5 (split; [done|]). unfold main_ok. split_and!; try done. intros k Hk. apply Hjn. unfold PLAYER_COUNT in *. lia.
    - destruct Hm as (Hi & Hjn & -> & ->). destruct (Z.ltb_spec i PLAYER_COUNT).
      + destruct (mem_load_in v i) as (w & E & Hw); [unfold PLAYER_COUNT in *; lia|]. rewrite E in Hs. one Hs.
        eexists. do 5 (split; [done|]). unfold main_ok. split_and!; try done; try lia. simpl. rewrite Z2Nat.inj_add, Nat.add_1_r by lia. symmetry. by apply take_S_r.
      + one Hs. eexists. do 5 (split; [done|]). unfold main_ok. split_and!; try done. simpl. do 2 f_equal. apply take_ge. unfold PLAYER_COUNT in *. lia.
    - by apply not_elem_of_nil in Hs. }
  assert (forall P : thread -> bool, (forall q, P (Main q) = false) -> count P (<[0%nat := Main pc']> ls) = count P ls) as Hc.
  { intros P HP. rewrite (count_insert _ _ _ _ _ Hj), !HP. simpl. lia. }
  assert (total remaining (<[0%nat := Main pc']> ls) = total remaining ls) as Hr by (rewrite (sum_over_insert _ _ _ _ _ Hj); simpl; lia).
  constructor; rewrite ?E1, ?E2, ?E3, ?E4, ?Hc, ?length_insert; try done; try apply HI.
  - intros k u Hu. insert_cases Hu; [eauto|by apply (inv_shape _ _ _ _ HI)].
  - intros i q Hi. rewrite list_lookup_insert_ne in Hi by done. by apply (inv_player _ _ _ _ HI).
  - intros i s Hi. unfold progress. rewrite Hr. by apply (inv_scores _ _ _ _ HI).
  - intros i q b Hi. rewrite list_lookup_insert_ne in Hi by done. by apply (inv_returned _ _ _ _ HI).
  - intros q Hq. rewrite list_lookup_insert_eq in Hq by lia. by simplify_eq.
Qed.

Lemma dice_start : inv 0 false start.1 start.2.
Proof.
  assert (forall k t, start.1 !! S k = Some t -> t = Player (PRoll 0)) as Hp.
  { intros k t Hk. change (replicate 4 (Player (PRoll 0)) !! k = Some t) in Hk. by apply lookup_replicate in Hk as [-> _]. }
  constructor; try done.
  - intros [|k] t Hk; [injection Hk as <-; eauto|]. apply Hp in Hk as ->. eauto.
  - intros j pc Hj. apply Hp in Hj as [= ->]. done.
  - intros j s Hj. apply (lookup_replicate 4) in Hj as [-> Hlt]. by destruct j as [|[|[|[|]]]]; [..|lia].
  - intros j pc b Hj Hb. apply Hp in Hj as [= ->]. by apply (lookup_replicate 4) in Hb as [-> _].
  - intros pc [= <-]. split_and!; try done. intros k Hk. simpl in Hk. lia.
Qed.

Lemma dice_reachable ls x : reachable step start (ls, x) -> exists rd sc, inv rd sc ls x.
Proof.
  apply (reachable_invariant step (fun y => exists rd sc, inv rd sc y.1 y.2) _ (ls, x)); [exists 0, false; apply dice_start|].
  intros c1 c2 (rd & sc & HI) Hm. destruct Hm as [k t t' ls' s s' Hk Hs]. cbn [fst snd] in *.
  pose proof (inv_shape _ _ _ _ HI _ _ Hk) as Hsh. destruct k as [|j].
  - destruct Hsh as [pc ->]. exists rd, sc. by eapply dice_main_inv.
  - destruct Hsh as [pc ->]. cbn [step pred] in Hs. destruct pc.
    + exists rd, sc. by eapply roll_inv.
    + destruct s as [rl v b rt so]. cbn [thread_func] in Hs. one Hs. by apply (arrive_inv _ _ _ _ _ _ _ HI Hk).
    + exists rd, sc. by eapply leave_inv.
    + exists rd, sc. by eapply max_inv.
    + exists rd, sc. by eapply score_inv.
    + destruct s. by apply not_elem_of_nil in Hs.
Qed.

(** A player that cannot move has returned or waits at the closed barrier. *)
Lemma player_waits rd sc ls x j pc :
  inv rd sc ls x -> ls !! S j = Some (Player pc) -> thread_func j pc x = [] ->
  pc = PReturned \/ at_gate (2 * rd + Z.b2z sc) (Player pc) = true.
Proof.
  intros HI Hj Hs. pose proof (inv_player _ _ _ _ HI _ _ Hj) as Hp. destruct (inv_sizes _ _ _ _ HI) as (L0 & L1 & L2 & L3).
  destruct (inv_phase _ _ _ _ HI) as [Hph _]. pose proof (inv_scores _ _ _ _ HI) as Hsc.
  assert (forall i, rd < ROUNDS -> 0 <= i < 4 -> (sc = true -> exists v, mem_load (rolls x) i = Some (Some v))) as Hload.
  { intros i _ Hi ->. destruct (mem_load_in (rolls x) i) as (o & E & Ho); [lia|].
    rewrite (all_rolled _ _ _ _ HI) in Ho by lia. simplify_eq. eauto. }
  destruct x as [rl v b rt so]; destruct pc as [r|r s|r s p|r i m|r i m|]; cbn [thread_func] in Hs; simpl in Hp, L1, L2, Hph, Hload; try done; auto.
  - destruct (r <? ROUNDS); [|done]. destruct (lookup_lt_is_Some_2 rl j) as [o Ho]; [apply lookup_lt_Some in Hj; lia|].
    rewrite (mem_store_one _ _ o) in Hs by (rewrite ?Nat2Z.id; lia || done). done.
  - apply fmap_nil_inv in Hs. unfold barrier_leave in Hs. destruct (Z.eqb_spec (phase b) p); [|by destruct (unclaimed b)].
    right. simpl. lia.
  - destruct Hp as (-> & -> & Hr & _ & Hi & _). unfold PLAYER_COUNT in *. destruct (Z.ltb_spec i 4); [|done].
    destruct (Hload i) as [w E]; [lia|lia|done|]. by rewrite E in Hs.
  - destruct Hp as (-> & -> & Hr & _ & Hi & _). unfold PLAYER_COUNT in *. destruct (Z.ltb_spec i 4); [|done].
    destruct (Hload i) as [w E]; [lia|lia|done|]. rewrite E in Hs. simpl in Hs. destruct (w =? m); [|done].
    destruct (mem_load_in v i) as (s & Es & Hv); [lia|]. rewrite Es in Hs. simpl in Hs.
    pose proof (Hsc _ _ Hv) as Hw. simpl in Hw.
    match type of Hw with s = points ?k ?n => pose proof (points_range k n) as Hpt end. rewrite <- Hw in Hpt.
    assert (checked_int (s + 1) = Some (s + 1)) as Ec.
    { apply checked_int_Some. limits. unfold ROUNDS in Hr. match type of Hpt with context [Z.b2z ?c] => destruct c end; simpl in Hpt; lia. }
    rewrite Ec, (mem_store_one _ _ _ _ Hv) in Hs by lia. done.
Qed.

Lemma dice_stuck rd sc ls x :
  inv rd sc ls x -> (forall k t, ls !! k = Some t -> step k t x = []) ->
  ls !! 0%nat = Some (Main MEnd) /\ forall j t, ls !! S j = Some t -> t = Player PReturned.
Proof.
  intros HI Hs. destruct (inv_sizes _ _ _ _ HI) as (L0 & L1 & L2 & L3). destruct (inv_arrived _ _ _ _ HI) as [Ha Ha4].
  assert (forall j t, ls !! S j = Some t -> exists pc, t = Player pc /\ (pc = PReturned \/ at_gate (2 * rd + Z.b2z sc) (Player pc) = true)) as Hp.
  { intros j t Hj. destruct (inv_shape _ _ _ _ HI _ _ Hj) as [pc ->]. exists pc. split; [done|].
    eapply player_waits; [done|done|]. exact (Hs _ _ Hj). }
  assert (forall j t, ls !! S j = Some t -> t = Player PReturned) as Hall.
  { intros j t Hj. destruct (Hp j t Hj) as (pc & -> & [->|Hg]); [done|]. exfalso.
    destruct ls as [|t0 ls]; [done|]. injection L0 as L0. destruct (inv_shape _ _ _ _ HI 0%nat t0 eq_refl) as [pm ->].
    assert (forall i u, ls !! i = Some u -> at_gate (2 * rd + Z.b2z sc) u = true) as Hgate.
    { intros i u Hi. destruct (Hp i u Hi) as (pc' & -> & [->|Hg']); [|done]. exfalso.
      destruct (inv_player _ _ _ _ HI _ _ Hi) as [-> Hrd]. pose proof (inv_player _ _ _ _ HI _ _ Hj) as Hpj.
      destruct pc as [| |r s p| | |]; try done. simpl in Hg, Hpj. destruct s; simpl in *; lia. }
    assert (forall l : list thread, (forall i u, l !! i = Some u -> at_gate (2 * rd + Z.b2z sc) u = true) ->
      count (at_gate (2 * rd + Z.b2z sc)) l = Z.of_nat (length l)) as Hcount.
    { clear. induction l as [|u l IH]; intros H; [done|]. cbn [count length]. rewrite (H 0%nat u eq_refl), IH; [simpl Z.b2z; lia|].
      intros i v Hi. by apply (H (S i)). }
    cbn [count at_gate Z.b2z] in Ha. rewrite (Hcount ls Hgate), L0 in Ha. unfold PLAYER_COUNT in Ha4. lia. }
  split; [|done]. destruct (lookup_lt_is_Some_2 ls 0) as [t Ht]; [lia|]. destruct (inv_shape _ _ _ _ HI _ _ Ht) as [pc ->].
  pose proof (inv_main _ _ _ _ HI _ Ht) as Hm. pose proof (Hs _ _ Ht) as H0. cbn [step] in H0.
  assert (forall i, 0 <= i < 4 -> mem_load (returned x) i = Some true) as Hret.
  { intros i Hi. destruct (mem_load_in (returned x) i) as (b & E & Hb); [lia|]. rewrite E. f_equal.
    destruct (lookup_lt_is_Some_2 ls (S (Z.to_nat i))) as [u Hu]; [lia|]. pose proof (Hall _ _ Hu) as ->.
    by rewrite (inv_returned _ _ _ _ HI _ _ _ Hu Hb). }
  destruct x as [rl v b rt so]; destruct pc as [i|i out|]; cbn [main_thread] in H0; simpl in Hm, Hret; unfold PLAYER_COUNT in *; [| |done].
  - destruct (Z.ltb_spec i 4); [|done]. rewrite Hret in H0; [done|lia].
  - destruct (Z.ltb_spec i 4); [|done]. destruct (mem_load_in v i) as (s & E & _); [simpl in L2; lia|]. by rewrite E in H0.
Qed.
End Game.

(** C38. Whatever is rolled, in every interleaving and whichever thread the
    barrier picks: while one thread gives the points no other does and nobody
    rolls; the scores printed are the numbers of rounds in which nobody rolled
    more; and the threads stop only when every player has returned and the
    scores are printed. *)
Theorem dice_scores roll ls x :
  (forall j r, 1 <= roll j r <= 6) ->
  reachable (step roll) start (ls, x) ->
  (forall j k pc t, ls !! S j = Some (Player pc) -> scoring (Player pc) = true -> ls !! S k = Some t -> k <> j ->
    scoring t = false /\ forall r, t <> Player (PRoll r)) /\
  (ls !! 0%nat = Some (Main MEnd) -> stdout x = [(fun i => points roll i (Z.to_nat ROUNDS)) <$> [0; 1; 2; 3]%nat]) /\
  ((forall k t, ls !! k = Some t -> step roll k t x = []) ->
    ls !! 0%nat = Some (Main MEnd) /\ forall j t, ls !! S j = Some t -> t = Player PReturned).
Proof.
  intros Hroll Hr. destruct (dice_reachable roll Hroll _ _ Hr) as (rd & sc & HI). split_and!; [| |by eapply dice_stuck].
  - intros j k pc t Hj Hs Hk Hne. destruct (scoring_progress _ _ _ _ _ _ _ HI Hj Hs) as (_ & -> & _). split.
    + destruct (scoring t) eqn:E; [|done]. destruct Hne.
      assert (S k = S j) as Hkj by (eapply (count_two scoring ls); [done|done|done|done|apply HI]). by injection Hkj.
    + intros r ->. by destruct (inv_player _ _ _ _ _ HI _ _ Hk) as [? _].
  - intros H0. destruct (inv_main _ _ _ _ _ HI _ H0) as [Hj ->]. destruct (inv_sizes _ _ _ _ _ HI) as (L0 & L1 & L2 & L3).
    assert (exists t, ls !! 1%nat = Some t) as [t Ht] by (apply lookup_lt_is_Some_2; lia).
    destruct (inv_shape _ _ _ _ _ HI _ _ Ht) as [pc ->]. pose proof (inv_returned _ _ _ _ _ HI _ _ _ Ht (Hj 0%nat ltac:(lia))) as Hov.
    destruct pc; try done. destruct (inv_player _ _ _ _ _ HI _ _ Ht) as [-> ->]. do 2 f_equal.
    apply list_eq_same_length with 4%nat; [done|done|]. intros i a b Hi Ha Hb.
    rewrite (inv_scores _ _ _ _ _ HI i a Ha). unfold progress. simpl (false && _).
    destruct i as [|[|[|[|i]]]]; [..|lia]; injection Hb as <-; done.
Qed.

(** A whole game, in which player 0 always gives the points. *)
Definition some_rolls (j : nat) (r : Z) : Z := 1 + (Z.of_nat j * (r + 2) + r * r) mod 6.
Definition one_round : list nat :=
  (replicate 2 1 ++ replicate 2 2 ++ replicate 2 3 ++ replicate 2 4 ++ replicate 12 1 ++ replicate 2 2 ++ replicate 2 3
  ++ replicate 2 4 ++ [1; 2; 3; 4])%nat.
Definition whole_game : list (nat * nat) :=
  (fun j => (j, 0%nat)) <$> concat (replicate 10 one_round) ++ [1; 2; 3; 4]%nat ++ replicate 10 0%nat.

Lemma dice_scores_witness :
  exists (ls : list thread) (x : world), reachable (step some_rolls) start (ls, x) /\
    stdout x = [(fun i => points some_rolls i 10) <$> [0; 1; 2; 3]%nat] /\ stdout x = [[5; 3; 3; 6]].
Proof.
  destruct (schedule (step some_rolls) whole_game start) as [[ls x]|] eqn:E; [|vm_compute in E; discriminate E].
  pose proof (schedule_reachable _ _ _ _ E) as Hr. exists ls, x. split; [done|].
  assert (forall j r, 1 <= some_rolls j r <= 6) as Hroll.
  { intros j r. unfold some_rolls. pose proof (Z.mod_pos_bound (Z.of_nat j * (r + 2) + r * r) 6). lia. }
  destruct (dice_scores some_rolls ls x Hroll Hr) as (_ & Hp & _). clear Hr.
  vm_compute in E. injection E as <- <-. split; [exact (Hp eq_refl)|reflexivity].
Defined.
