(* ===== verification/Fifo.v ===== *)
(** * sop2/lab/l5: prog21_c.c, prog21b_s.c and prog21a_s.c

    Clients that send files through a FIFO in records of [PIPE_BUF] bytes,
    each with the process id in front, and the server that prints the letters
    and digits of the records.  Writes of [PIPE_BUF] bytes are atomic, so the
    records of several clients arrive whole, in any order between clients. *)

From S2P Require Import Prelude CLib Os Net Threads LabCommon.

Local Open Scope Z_scope.

Definition PIPE_BUF : Z := 4096.
Definition MSG_SIZE : Z := PIPE_BUF - 4.       (* sizeof(pid_t) = 4 *)

(** [isalnum] of a [char] in the C locale: its argument is an [unsigned char]
    or EOF, a negative [char] other than -1 is undefined behaviour. *)
Definition is_alnum (c : Z) : bool :=
  ((48 <=? c) && (c <=? 57)) || ((65 <=? c) && (c <=? 90)) || ((97 <=? c) && (c <=? 122)).
Definition isalnum (c : Z) : option bool :=
  if c <? 128 then Some (is_alnum c) else if c =? 255 then Some false else None.

(** ** prog21b_s.c *)
Definition server_usage {A} : prog A := printf "USAGE: %s fifo_file" [] ;;; Exit EXIT_FAILURE.

Definition print_alnum (buffer : list Z) (i : Z) (_ : unit) : prog unit :=
  let! c := defined "buffer: index" (mem_load buffer i) in
  let! a := defined "isalnum: negative char" (isalnum c) in
  if a : bool then printf "%c" [PZ c] else Ret tt.

Definition read_iter (fifo : Z) (buffer : list Z) : prog (list Z + unit) :=
  let! r := sys (Read fifo PIPE_BUF) in
  let count := rv r in
  if count <? 0 then ERR "read" else
  let! buffer := defined "buffer: overrun" (mem_store buffer 0 (rdata r)) in
  if 0 <? count then
    let! pid := defined "buffer: index" (mem_slice buffer 0 4) in
    printf "PID:%d-------------------------------------" [PZ (wrap_s 32 (of_le pid))] ;;;
    for_each (print_alnum buffer) (seqZ 4 (PIPE_BUF - 4)) tt ;;;
    Ret (inl buffer)
  else Ret (inr tt).
(** [buffer] is what the array holds before the first read. *)
Definition read_from_fifo (F : nat) (fifo : Z) (buffer : list Z) : prog unit := loop F (read_iter fifo) buffer.

Definition EEXIST : Z := 17.
Definition make_fifo (name : list Z) : prog unit :=
  let! r := sys (Libc "mkfifo" name) in
  if (rv r <? 0) && negb (rerr r =? EEXIST) then ERR "create fifo" else Ret tt.

(** prog21a_s.c, the first server: it prints the letters and digits of all
    that comes. *)
Definition read_char_iter (fifo : Z) (_ : unit) : prog (unit + unit) :=
  let! r := sys (Read fifo 1) in
  let count := rv r in
  if count <? 0 then ERR "read" else
  if 0 <? count then
    let! a := defined "isalnum: negative char" (mem_load (rdata r) 0 ≫= isalnum) in
    (if a : bool then printf "%c" [PZ (hd 0 (rdata r))] else Ret tt) ;;;
    Ret (inl tt)
  else Ret (inr tt).
Definition read_chars (F : nat) (fifo : Z) : prog unit := loop F (read_char_iter fifo) tt.
Definition first_server_main (F : nat) (args : list (list Z)) : prog Z :=
  match args with
  | [name] =>
      make_fifo name ;;;
      let! fifo := sys (Libc "open" name) in
      if rv fifo <? 0 then ERR "open" else
      read_chars F (rv fifo) ;;;
      let! c := sys (Close (rv fifo)) in
      if rv c <? 0 then ERR "close fifo:" else
      Ret EXIT_SUCCESS
  | _ => server_usage
  end.

Definition server_main (F : nat) (buffer : list Z) (args : list (list Z)) : prog Z :=
  match args with
  | [name] =>
      make_fifo name ;;;
      let! fifo := sys (Libc "open" name) in
      if rv fifo <? 0 then ERR "open" else
      read_from_fifo F (rv fifo) buffer ;;;
      let! c := sys (Close (rv fifo)) in
      if rv c <? 0 then ERR "close fifo:" else
      let! u := sys (Libc "unlink" name) in
      if rv u <? 0 then ERR "remove fifo:" else
      Ret EXIT_SUCCESS
  | _ => server_usage
  end.

(** ** prog21_c.c *)
Definition client_usage {A} : prog A := printf "USAGE: %s fifo_file file" [] ;;; Exit EXIT_FAILURE.

Definition write_iter (fifo file : Z) (buffer : list Z) : prog (list Z + unit) :=
  let! r := sys (Read file MSG_SIZE) in
  let count := rv r in
  if count <? 0 then ERR "Read:" else
  let! buffer := defined "buf: overrun" (mem_store buffer 4 (rdata r)) in
  let! buffer :=
    if count <? MSG_SIZE then
      defined "buf: overrun" (mem_store buffer (4 + count) (replicate (Z.to_nat (MSG_SIZE - count)) 0))
    else Ret buffer in
  let! _ :=
    if 0 <? count then
      let! data := defined "buffer: overread" (mem_slice buffer 0 PIPE_BUF) in
      let! w := sys (Write fifo data) in
      if rv w <? 0 then ERR "Write:" else Ret tt
    else Ret tt in
  if count =? MSG_SIZE then Ret (inl buffer) else Ret (inr tt).
Definition write_to_fifo (F : nat) (pid fifo file : Z) (buffer : list Z) : prog unit :=
  let! buffer := defined "buffer: index" (mem_store buffer 0 (le_bytes 4 pid)) in
  loop F (write_iter fifo file) buffer.

Definition client_main (F : nat) (buffer : list Z) (args : list (list Z)) : prog Z :=
  match args with
  | [name; path] =>
      make_fifo name ;;;
      let! fifo := sys (Libc "open" name) in
      if rv fifo <? 0 then ERR "open" else
      let! file := sys (Libc "open" path) in
      if rv file <? 0 then ERR "file open" else
      let! pid := sys (Libc "getpid" []) in
      write_to_fifo F (rv pid) (rv fifo) (rv file) buffer ;;;
      let! c := sys (Close (rv file)) in
      (if rv c <? 0 then perror "Close fifo:" else Ret tt) ;;;
      let! c := sys (Close (rv fifo)) in
      (if rv c <? 0 then perror "Close fifo:" else Ret tt) ;;;
      Ret EXIT_SUCCESS
  | _ => client_usage
  end.

(** ** What they exchange *)

(** A regular file is read in full pieces; each record is written at once. *)
Inductive reads_file : list Z -> list reply -> list (list Z) -> Prop :=
| file_end : reads_file [] [rint 0] []
| file_last d : d <> [] -> Z.of_nat (length d) < MSG_SIZE ->
    reads_file d [full_read d; rint PIPE_BUF] [d ++ replicate (Z.to_nat MSG_SIZE - length d) 0]
| file_piece c d env ps : Z.of_nat (length c) = MSG_SIZE -> reads_file d env ps ->
    reads_file (c ++ d) (full_read c :: rint PIPE_BUF :: env) (c :: ps).

Definition record (r : Z * list Z) : list Z := le_bytes 4 r.1 ++ r.2.

(** What is written to a descriptor, call by call. *)
Definition written (fd : Z) (t : list event) : list (list Z) :=
  omap (fun e => match e with ECall (Write f d) r => if (f =? fd) && (0 <=? rv r) then Some d else None | _ => None end) t.

(** The printed characters: those before the first process id and those after
    each of them. *)
Fixpoint shown (t : list event) : list Z * list (Z * list Z) :=
  match t with
  | [] => ([], [])
  | ESay (Printf fmt [PZ v]) :: t' =>
      let '(c, g) := shown t' in if String.eqb fmt "%c" then (v :: c, g) else ([], (v, c) :: g)
  | _ :: t' => shown t'
  end.

Definition alnum (l : list Z) : list Z := filter (fun c => is_alnum c = true) l.
(** The characters that [isalnum] is defined on. *)
Definition plain (l : list Z) : Prop := Forall (fun c => is_Some (isalnum c)) l.
#[export] Instance plain_dec l : Decision (plain l).
Proof. unfold plain. apply _. Defined.

Lemma isalnum_plain c : is_Some (isalnum c) -> isalnum c = Some (is_alnum c).
Proof.
  unfold isalnum. destruct (c <? 128); [done|]. destruct (Z.eqb_spec c 255) as [->|]; [done|]. by intros [].
Qed.

(** ** The server *)
Lemma mem_load_middle (pre : list Z) c rest post : mem_load (pre ++ (c :: rest) ++ post) (Z.of_nat (length pre)) = Some c.
Proof.
  destruct (mem_load_in (pre ++ (c :: rest) ++ post) (Z.of_nat (length pre))) as (v & -> & Hv); [rewrite !length_app; simpl; lia|].
  rewrite Nat2Z.id, lookup_app_r, Nat.sub_diag in Hv by done. by injection Hv as ->.
Qed.

Lemma print_run payload : plain payload -> forall pre post env,
  exists t, run (for_each (print_alnum (pre ++ payload ++ post)) (seqZ (Z.of_nat (length pre)) (Z.of_nat (length payload))) tt) env
      = (Done tt env, t) /\
    forall t', shown (t ++ t') = (alnum payload ++ (shown t').1, (shown t').2).
Proof.
  induction 1 as [|c payload Hc _ IH]; intros pre post env.
  - exists []. split; [done|]. intros t'. simpl. by destruct (shown t').
  - rewrite seqZ_cons by (simpl; lia). replace (Z.pred (Z.of_nat (length (c :: payload)))) with (Z.of_nat (length payload)) by (simpl; lia).
    cbn [for_each]. rewrite run_bind.
    unfold print_alnum at 1. rewrite mem_load_middle. cbn [defined pbind]. rewrite (isalnum_plain _ Hc). cbn [defined pbind].
    destruct (IH (pre ++ [c]) post env) as (t & Ht & Hs). rewrite <- app_assoc in Ht. rewrite length_app in Ht.
    replace (Z.of_nat (length pre + length [c])) with (Z.succ (Z.of_nat (length pre))) in Ht by (simpl; lia). cbn [app] in Ht |- *.
    destruct (is_alnum c) eqn:Ea.
    + cbn [printf run]. rewrite Ht. eexists. split; [done|]. intros t'. cbn [app shown]. rewrite Hs.
      unfold alnum. by rewrite filter_cons_True.
    + cbn [run]. rewrite Ht. eexists. split; [done|]. intros t'. cbn [app]. rewrite Hs. unfold alnum.
      by rewrite filter_cons_False by congruence.
Qed.

(** The loop stops at the first other character. *)
Lemma print_undefined payload : ~ plain payload -> forall pre post env,
  (run (for_each (print_alnum (pre ++ payload ++ post)) (seqZ (Z.of_nat (length pre)) (Z.of_nat (length payload))) tt) env).1
    = Undefined "isalnum: negative char".
Proof.
  induction payload as [|c payload IH]; intros Hp pre post env; [by destruct Hp; constructor|].
  rewrite seqZ_cons by (simpl; lia). replace (Z.pred (Z.of_nat (length (c :: payload)))) with (Z.of_nat (length payload)) by (simpl; lia).
  cbn [for_each]. rewrite run_bind. unfold print_alnum at 1. rewrite mem_load_middle. cbn [defined pbind].
  destruct (isalnum c) as [a|] eqn:E; [|done]. assert (~ plain payload) as Hp'.
  { intros H. apply Hp. constructor; [by rewrite E|done]. }
  pose proof (IH Hp' (pre ++ [c]) post env) as Hr. rewrite <- app_assoc, length_app in Hr.
  replace (Z.of_nat (length pre + length [c])) with (Z.succ (Z.of_nat (length pre))) in Hr by (simpl; lia). cbn [app] in Hr |- *.
  cbn [defined pbind]. destruct a; cbn [printf run].
  all: by destruct (run (for_each _ _ tt) env) as [o t].
Qed.

Definition arrives (rs : list (Z * list Z)) : list reply := (fun r => full_read (record r)) <$> rs.

(** A record is a process id and [MSG_SIZE] characters. *)
Definition record_ok (r : Z * list Z) : Prop := 0 <= r.1 < 2 ^ 31 /\ Z.of_nat (length r.2) = MSG_SIZE.
#[export] Instance record_ok_dec r : Decision (record_ok r).
Proof. unfold record_ok. apply _. Defined.

(** A turn of the loop, up to the characters. *)
Lemma read_record_run fifo buffer r env :
  record_ok r -> Z.of_nat (length buffer) = PIPE_BUF ->
  run (read_iter fifo buffer) (full_read (record r) :: env) =
    let '(o, t) := run (for_each (print_alnum (record r)) (seqZ 4 MSG_SIZE) tt ;;; Ret (inl (record r))) env in
    (o, ECall (Read fifo PIPE_BUF) (full_read (record r)) ::
        ESay (Printf "PID:%d-------------------------------------" [PZ r.1]) :: t).
Proof.
  destruct r as [pid payload]. intros [Hp Hl] Hb. cbn [fst snd] in *.
  assert (Z.of_nat (length (record (pid, payload))) = PIPE_BUF) as Hr.
  { unfold record. cbn [fst snd]. rewrite length_app, le_bytes_length. unfold MSG_SIZE in Hl. lia. }
  unfold read_iter. cbn [sys pbind run full_read rv rdata]. rewrite Hr. cbn [PIPE_BUF Z.ltb Z.compare].
  assert (mem_store buffer 0 (record (pid, payload)) = Some (record (pid, payload))) as Hst.
  { rewrite mem_store_is_Some by lia. rewrite drop_ge by lia. by rewrite app_nil_r. }
  rewrite Hst. cbn [defined pbind].
  assert (mem_slice (record (pid, payload)) 0 4 = Some (le_bytes 4 pid)) as Hs.
  { unfold mem_slice. rewrite Hr. reflexivity. }
  rewrite Hs. cbn [defined pbind printf run]. rewrite of_le_bytes by (rewrite pow256_4; lia). rewrite wrap_s_small by lia.
  unfold MSG_SIZE, PIPE_BUF. by destruct (run _ env).
Qed.

Lemma record_length r : record_ok r -> Z.of_nat (length (record r)) = PIPE_BUF.
Proof. intros [_ Hl]. unfold record. rewrite length_app, le_bytes_length. unfold MSG_SIZE in Hl. lia. Qed.

Lemma read_from_fifo_run rs fifo : Forall record_ok rs -> Forall (fun r => plain r.2) rs -> forall F buffer,
  Z.of_nat (length buffer) = PIPE_BUF -> (length rs < F)%nat ->
  exists t, run (read_from_fifo F fifo buffer) (arrives rs ++ [rint 0]) = (Done tt [], t) /\
    shown t = ([], (fun r => (r.1, alnum r.2)) <$> rs).
Proof.
  induction 1 as [|r rs Hr _ IH]; intros Hpl F buffer Hb HF; (destruct F as [|F]; [simpl in HF; lia|]);
    unfold read_from_fifo; rewrite loop_S, run_bind.
  - unfold read_iter at 1. cbn [arrives fmap list_fmap app sys pbind run rv rint rdata]. cbn [Z.ltb Z.compare].
    rewrite mem_store_is_Some by (simpl; lia). cbn [defined pbind run]. eexists. split; [reflexivity|done].
  - inversion Hpl as [|? ? Ha Hpl']; subst. change (arrives (r :: rs)) with (full_read (record r) :: arrives rs). cbn [app].
    rewrite read_record_run by done. rewrite run_bind.
    destruct (print_run r.2 Ha (le_bytes 4 r.1) [] (arrives rs ++ [rint 0])) as (t1 & Ht1 & Hs1).
    rewrite le_bytes_length, app_nil_r in Ht1. destruct Hr as [Hp Hl] eqn:E. rewrite Hl in Ht1.
    change (le_bytes 4 r.1 ++ r.2) with (record r) in Ht1. change (Z.of_nat 4) with 4 in Ht1. rewrite Ht1. cbn [run].
    destruct (IH Hpl' F (record r) (record_length r Hr)) as (t2 & Ht2 & Hs2); [simpl in HF; lia|]. unfold read_from_fifo in Ht2. rewrite Ht2.
    eexists. split; [done|]. rewrite app_nil_r. cbn [app shown]. rewrite Hs1, Hs2. cbn [fst snd String.eqb]. simpl. by rewrite app_nil_r.
Qed.

(** With another character in a record the server's behaviour is undefined. *)
Lemma read_from_fifo_undefined rs fifo : Forall record_ok rs -> ~ Forall (fun r => plain r.2) rs -> forall F buffer,
  Z.of_nat (length buffer) = PIPE_BUF -> (length rs < F)%nat ->
  (run (read_from_fifo F fifo buffer) (arrives rs ++ [rint 0])).1 = Undefined "isalnum: negative char".
Proof.
  induction 1 as [|r rs Hr _ IH]; intros Hpl F buffer Hb HF; [by destruct Hpl|]. destruct F as [|F]; [simpl in HF; lia|].
  unfold read_from_fifo; rewrite loop_S, run_bind. change (arrives (r :: rs)) with (full_read (record r) :: arrives rs). cbn [app].
  rewrite read_record_run by done. rewrite run_bind. pose proof (record_length r Hr) as Hlen. destruct Hr as [Hp Hl] eqn:E.
  destruct (decide (plain r.2)) as [Ha|Ha].
  - destruct (print_run r.2 Ha (le_bytes 4 r.1) [] (arrives rs ++ [rint 0])) as (t1 & Ht1 & _).
    rewrite le_bytes_length, app_nil_r, Hl in Ht1. change (le_bytes 4 r.1 ++ r.2) with (record r) in Ht1.
    change (Z.of_nat 4) with 4 in Ht1. rewrite Ht1. cbn [run].
    assert (~ Forall (fun r => plain r.2) rs) as Hpl' by (intros H; apply Hpl; by constructor).
    pose proof (IH Hpl' F (record r) Hlen ltac:(simpl in HF; lia)) as Hu. unfold read_from_fifo in Hu.
    by destruct (run (loop F _ (record r)) _) as [o t].
  - pose proof (print_undefined r.2 Ha (le_bytes 4 r.1) [] (arrives rs ++ [rint 0])) as Hu.
    rewrite le_bytes_length, app_nil_r, Hl in Hu. change (le_bytes 4 r.1 ++ r.2) with (record r) in Hu.
    change (Z.of_nat 4) with 4 in Hu. destruct (run (for_each _ _ tt) _) as [o t]. simpl in Hu. by subst o.
Qed.

(** The first server, on the bytes of any clients. *)
Lemma read_chars_run fifo data : plain data -> forall F, (length data < F)%nat ->
  exists t, run (read_chars F fifo) (((fun c => full_read [c]) <$> data) ++ [rint 0]) = (Done tt [], t) /\ shown t = (alnum data, []).
Proof.
  induction 1 as [|c data Hc _ IH]; intros F HF; (destruct F as [|F]; [simpl in HF; lia|]);
    unfold read_chars; rewrite loop_S, run_bind; unfold read_char_iter at 1.
  - eexists. split; [reflexivity|done].
  - destruct (IH F) as (t & Ht & Hs); [simpl in HF; lia|]. unfold read_chars in Ht.
    pose proof (isalnum_plain _ Hc) as E.
    cbn [fmap list_fmap app sys pbind run full_read rv rdata length]. change (mem_load [c] 0) with (Some c). cbn [mbind option_bind].
    rewrite E. change (Z.of_nat 1) with 1. cbn [defined pbind Z.ltb Z.compare hd]. unfold alnum in *.
    destruct (is_alnum c) eqn:Ea; cbn [printf pbind run]; rewrite Ht; (eexists; split; [reflexivity|]); cbn [app shown]; rewrite Hs.
    + by rewrite filter_cons_True.
    + by rewrite filter_cons_False by congruence.
Qed.

(** ** The client *)
Lemma fill_payload (h rest d : list Z) :
  Z.of_nat (length h) = 4 -> Z.of_nat (length rest) = MSG_SIZE -> Z.of_nat (length d) <= MSG_SIZE ->
  mem_store (h ++ rest) 4 d = Some (h ++ d ++ drop (length d) rest).
Proof.
  intros Hh Hr Hd. rewrite <- (take_drop (length d) rest) at 1.
  apply mem_store_segment; [lia|]. rewrite length_take. lia.
Qed.

Lemma record_slice (h p : list Z) : Z.of_nat (length h) = 4 -> Z.of_nat (length p) = MSG_SIZE -> mem_slice (h ++ p) 0 PIPE_BUF = Some (h ++ p).
Proof.
  intros Hh Hp. assert (Z.of_nat (length (h ++ p)) = PIPE_BUF) as Hl by (rewrite length_app; unfold MSG_SIZE in Hp; lia).
  unfold mem_slice. rewrite Hl. change (0 + PIPE_BUF <=? PIPE_BUF) with true. cbn [Z.leb Z.compare andb Z.to_nat].
  rewrite drop_0, take_ge by lia. done.
Qed.

Lemma write_to_fifo_run fifo file h : Z.of_nat (length h) = 4 -> forall d env ps, reads_file d env ps -> forall F rest,
  Z.of_nat (length rest) = MSG_SIZE -> (length env < F)%nat ->
  exists t, run (loop F (write_iter fifo file) (h ++ rest)) env = (Done tt [], t) /\ written fifo t = (fun p => h ++ p) <$> ps.
Proof.
  intros Hh. induction 1 as [|d Hne Hd|c d env ps Hc _ IH]; intros F rest Hr HF; (destruct F as [|F]; [simpl in HF; lia|]);
    rewrite loop_S, run_bind; unfold write_iter at 1.
  - cbn [sys pbind run rint rv rdata]. cbn [Z.ltb Z.compare]. rewrite fill_payload by (done || unfold MSG_SIZE, PIPE_BUF; simpl; lia).
    cbn [defined pbind app length]. rewrite drop_0. change (0 <? MSG_SIZE) with true. cbn iota. rewrite Z.add_0_r, Z.sub_0_r.
    rewrite fill_payload by (rewrite ?length_replicate; done). cbn [defined pbind run]. change (0 =? MSG_SIZE) with false.
    cbn [run]. eexists. split; [reflexivity|done].
  - cbn [sys pbind run full_read rv rdata]. destruct (Z.ltb_spec (Z.of_nat (length d)) 0); [lia|].
    rewrite fill_payload by (done || lia). cbn [defined pbind].
    destruct (Z.ltb_spec (Z.of_nat (length d)) MSG_SIZE); [|lia].
    assert (mem_store (h ++ d ++ drop (length d) rest) (4 + Z.of_nat (length d)) (replicate (Z.to_nat (MSG_SIZE - Z.of_nat (length d))) 0)
      = Some (h ++ d ++ replicate (Z.to_nat MSG_SIZE - length d) 0)) as E.
    { rewrite app_assoc. rewrite <- (app_nil_r (drop _ _)). rewrite mem_store_segment.
      - rewrite app_nil_r, <- app_assoc. do 4 f_equal. lia.
      - rewrite length_app. lia.
      - rewrite length_replicate, length_drop. lia. }
    rewrite E. cbn [defined pbind]. destruct (Z.ltb_spec 0 (Z.of_nat (length d))); [|destruct d; [done|simpl in *; lia]].
    rewrite record_slice by (done || rewrite length_app, length_replicate; lia). cbn [defined pbind sys run rint rv].
    cbn [Z.ltb Z.compare PIPE_BUF]. cbn [pbind]. destruct (Z.eqb_spec (Z.of_nat (length d)) MSG_SIZE); [lia|]. cbn [run].
    eexists. split; [reflexivity|]. cbn [app written omap list_omap]. by rewrite Z.eqb_refl.
  - cbn [sys pbind run full_read rv rdata]. rewrite Hc. change (MSG_SIZE <? 0) with false. cbn iota.
    rewrite fill_payload by (done || lia). rewrite drop_ge by lia. rewrite app_nil_r. cbn [defined pbind].
    rewrite Z.ltb_irrefl. cbn [pbind]. change (0 <? MSG_SIZE) with true. cbn iota.
    rewrite record_slice by done. cbn [defined pbind sys run rint rv]. cbn [Z.ltb Z.compare PIPE_BUF]. cbn [pbind].
    rewrite Z.eqb_refl. cbn [run]. destruct (IH F c Hc) as (t & Ht & Hw); [simpl in HF; lia|]. rewrite Ht.
    eexists. split; [reflexivity|]. cbn [app written omap list_omap]. rewrite Z.eqb_refl. cbn [andb Z.leb Z.compare].
    rewrite fmap_cons. f_equal. exact Hw.
Qed.


(** Every file can be read so. *)
Lemma reads_file_total (d : list Z) : exists env ps, reads_file d env ps.
Proof.
  induction d as [d IH] using (induction_ltof1 _ (@length Z)). unfold ltof in IH.
  destruct (decide (Z.of_nat (length d) < MSG_SIZE)) as [Hd|Hd].
  - destruct d as [|c d]; [eexists _, _; constructor|]. eexists _, _. by apply file_last.
  - assert (4092 <= length d)%nat as Hl by (unfold MSG_SIZE, PIPE_BUF in Hd; lia).
    destruct (IH (drop 4092 d)) as (env & ps & H); [rewrite length_drop; lia|].
    rewrite <- (take_drop 4092 d). eexists _, _. apply file_piece; [|exact H].
    rewrite length_take, Nat.min_l by done. done.
Qed.

Lemma alnum_app a b : alnum (a ++ b) = alnum a ++ alnum b.
Proof. apply filter_app. Qed.

Lemma reads_file_payloads d env ps : reads_file d env ps -> concat (alnum <$> ps) = alnum d.
Proof.
  induction 1 as [|d Hne Hd|c d env ps Hc _ IH]; [done|..]; cbn [fmap list_fmap concat]; rewrite alnum_app; [|by f_equal].
  rewrite app_nil_r. assert (forall n, alnum (replicate n 0) = []) as ->; [|apply app_nil_r].
  induction n; [done|]; cbn [replicate]; unfold alnum in *; by rewrite filter_cons_False.
Qed.

Lemma filter_shown (pid : Z) (rs : list (Z * list Z)) :
  filter (fun r : Z * list Z => r.1 = pid) ((fun r => (r.1, alnum r.2)) <$> rs) =
  (fun r => (r.1, alnum r.2)) <$> filter (fun r : Z * list Z => r.1 = pid) rs.
Proof.
  induction rs as [|[p s] rs IH]; [done|]. cbn [fmap list_fmap]. destruct (decide (p = pid)).
  - rewrite !filter_cons_True by done. cbn [fmap list_fmap]. f_equal. exact IH.
  - rewrite !filter_cons_False by done. exact IH.
Qed.

(** C39. Files through the FIFO: a client writes its file, whatever bytes it
    holds, in records of [PIPE_BUF] bytes.  When the server reads them among
    any records of other clients and [isalnum] is defined on all their
    characters (no byte from 128 to 254), what it prints under the process id
    of this one is exactly the letters and digits of the file, in order; with
    one other byte in any record its behaviour is undefined.  A regular file
    is read in full pieces and the calls succeed. *)
Theorem fifo_exchange (pid : Z) (data : list Z) env ps (rs : list (Z * list Z)) fifo file sfifo cbuf sbuf :
  0 <= pid < 2 ^ 31 -> reads_file data env ps ->
  Forall record_ok rs -> snd <$> filter (fun r : Z * list Z => r.1 = pid) rs = ps ->
  Z.of_nat (length cbuf) = PIPE_BUF -> Z.of_nat (length sbuf) = PIPE_BUF ->
  (exists t, run (write_to_fifo (S (length env)) pid fifo file cbuf) env = (Done tt [], t) /\
    written fifo t = (fun p => record (pid, p)) <$> ps) /\
  (Forall (fun r => plain r.2) rs ->
   exists t, run (read_from_fifo (S (length rs)) sfifo sbuf) (arrives rs ++ [rint 0]) = (Done tt [], t) /\
    (shown t).1 = [] /\ concat (snd <$> filter (fun r : Z * list Z => r.1 = pid) (shown t).2) = alnum data) /\
  (~ Forall (fun r => plain r.2) rs ->
   (run (read_from_fifo (S (length rs)) sfifo sbuf) (arrives rs ++ [rint 0])).1 = Undefined "isalnum: negative char").
Proof.
  intros Hpid Hf Hrs Hps Hc Hs. split_and!.
  - unfold write_to_fifo. rewrite mem_store_is_Some by (rewrite ?le_bytes_length; unfold PIPE_BUF in Hc; lia).
    cbn [defined pbind Z.to_nat take app Nat.add]. rewrite le_bytes_length.
    apply (write_to_fifo_run fifo file (le_bytes 4 pid) eq_refl _ _ _ Hf); [|lia].
    rewrite length_drop. unfold MSG_SIZE, PIPE_BUF in *. lia.
  - intros Hpl. destruct (read_from_fifo_run rs sfifo Hrs Hpl (S (length rs)) sbuf Hs ltac:(lia)) as (t & Ht & E). exists t. split; [done|].
    rewrite E. split; [done|]. cbn [snd]. rewrite filter_shown, <- list_fmap_compose.
    rewrite <- (reads_file_payloads _ _ _ Hf), <- Hps, <- list_fmap_compose. done.
  - intros Hpl. apply read_from_fifo_undefined; by auto with lia.
Qed.

(** A short file of process 7, with a byte 255, between two records of
    process 9; and a record of process 9 with a byte 200. *)
Definition other (c : Z) : Z * list Z := (9, replicate 4092 c).
Definition hello : list Z := str "Hello, 42!" ++ [255].
Definition padded : list Z := hello ++ replicate (Z.to_nat MSG_SIZE - length hello) 0.
Definition fresh : list Z := replicate 4096 255.

Lemma fifo_exchange_witness :
  (exists t, run (read_from_fifo 4 5 fresh) (arrives [other 65; (7, padded); other 33] ++ [rint 0]) = (Done tt [], t) /\
    concat (snd <$> filter (fun r : Z * list Z => r.1 = 7) (shown t).2) = str "Hello42") /\
  (run (read_from_fifo 3 5 fresh) (arrives [(7, padded); other 200] ++ [rint 0])).1 = Undefined "isalnum: negative char".
Proof.
  assert (reads_file hello [full_read hello; rint PIPE_BUF] [padded]) as Hf by (apply file_last; [done|vm_decide]).
  assert (Z.of_nat (length fresh) = PIPE_BUF) as Hl by vm_decide. split.
  - assert (Forall record_ok [other 65; (7, padded); other 33]) as Hr by vm_decide.
    assert (Forall (fun r : Z * list Z => plain r.2) [other 65; (7, padded); other 33]) as Hpl by vm_decide.
    assert (snd <$> filter (fun r : Z * list Z => r.1 = 7) [other 65; (7, padded); other 33] = [padded]) as Hp by vm_decide.
    destruct (fifo_exchange 7 hello _ _ _ 4 3 5 fresh fresh ltac:(lia) Hf Hr Hp Hl Hl) as (_ & H & _).
    destruct (H Hpl) as (t & Ht & _ & E). exists t. split; [exact Ht|]. rewrite E. vm_compute. reflexivity.
  - assert (Forall record_ok [(7, padded); other 200]) as Hr by vm_decide.
    assert (~ Forall (fun r : Z * list Z => plain r.2) [(7, padded); other 200]) as Hpl by vm_decide.
    assert (snd <$> filter (fun r : Z * list Z => r.1 = 7) [(7, padded); other 200] = [padded]) as Hp by vm_decide.
    destruct (fifo_exchange 7 hello _ _ _ 4 3 5 fresh fresh ltac:(lia) Hf Hr Hp Hl Hl) as (_ & _ & H).
    exact (H Hpl).
Defined.

(** A byte above 127 that is not 255 is a negative [char]. *)
Example negative_char :
  (run (read_from_fifo 2 5 (replicate 4096 0)) (arrives [(7, 200 :: replicate 4091 0)] ++ [rint 0])).1
    = Undefined "isalnum: negative char".
Proof. vm_compute. reflexivity. Qed.
