(* ===== verification/Pipes.v ===== *)
(** * sop2/lab/l5: prog22a.c and prog22b.c

    A parent with a pipe to each of its children and one pipe [R] from all of
    them.  In prog22b.c a key press (SIGINT) sends a letter to a random child,
    which answers with a message: a byte with its length and that many copies
    of the letter. *)

From S2P Require Import Prelude CLib Os Net Threads LabCommon.

Local Open Scope Z_scope.

Definition MAX_BUFF : Z := 200.
Definition SIGINT : Z := 2.

(** ** create_children_and_pipes; prog22b.c retries [close] when interrupted *)
Section Create.
Variable close_fd : Z -> prog reply.
Variable (again : reply -> bool) (K : nat).
Variable (max R : Z) (child_work : Z -> prog unit).

Definition close_ERR (fd : Z) : prog unit :=
  let! r := close_fd fd in
  if negb (rv r =? 0) then ERR_kill "close" else Ret tt.

(** [close(fds[n++])], which the macro evaluates again when [again] says so. *)
Definition close_next_iter (fds : list Z) (n : Z) : prog (Z + reply * Z) :=
  let! fd := defined "fds: index" (mem_load fds n) in
  let! r := sys (Close fd) in
  Ret (if again r then inl (n + 1) else inr (r, n + 1)).
(** [while (n < max) if (fds[n] && close(fds[n++]))]: a zero would not let [n]
    grow. *)
Definition inherited_iter (fds : list Z) (n : Z) : prog (Z + unit) :=
  if n <? max then
    let! fd := defined "fds: index" (mem_load fds n) in
    if fd =? 0 then Ret (inl n) else
    let! ' (r, n) := loop K (close_next_iter fds) n in
    if negb (rv r =? 0) then ERR_kill "close" else Ret (inl n)
  else Ret (inr tt).

Definition child_part {A} (F : nat) (n : Z) (fds : list Z) (rfd wfd : Z) : prog A :=
  loop F (inherited_iter fds) n ;;;
  ignored "free" [] ;;;
  close_ERR wfd ;;;
  child_work rfd ;;;
  close_ERR rfd ;;;
  close_ERR R ;;;
  Exit EXIT_SUCCESS.

Definition create_iter (F : nat) (s : Z * list Z) : prog (Z * list Z + list Z) :=
  let '(n, fds) := s in
  if n =? 0 then Ret (inr fds) else
  let! p := sys (Libc "pipe" []) in
  if negb (rv p =? 0) then ERR_kill "pipe" else
  let rfd := nth 0 (rdata p) (-1) in
  let wfd := nth 1 (rdata p) (-1) in
  let! r := sys (Libc "fork" []) in
  if rv r =? 0 then child_part F n fds rfd wfd
  else if rv r =? -1 then ERR_kill "Fork:" else
  close_ERR rfd ;;;
  let! fds := defined "fds: index" (mem_store fds (n - 1) [wfd]) in
  Ret (inl (n - 1, fds)).
(** [fds] comes from [malloc]. *)
Definition create_children_and_pipes (F : nat) (fds : list Z) : prog (list Z) := loop F (create_iter F) (max, fds).
End Create.

(** [main]: the end closes the pipes of [fds] again. *)
Definition usage {A} : prog A :=
  printf "USAGE: %s n" [] ;;; printf "0<n<=10 - number of children" [] ;;; Exit EXIT_FAILURE.
Definition sethandler_ERR (sigNo : Z) : prog unit :=
  let! h := sethandler sigNo in
  if negb (h =? 0) then ERR_kill "sethandler" else Ret tt.
Definition close_pipes (close_fd : Z -> prog reply) (fds : list Z) : prog unit :=
  for_each (fun fd _ => if fd =? 0 then Ret tt else close_ERR close_fd fd) (rev fds) tt.
Definition main (close_fd : Z -> prog reply) (again : reply -> bool) (K : nat) (before after : prog unit) (child_work : Z -> Z -> prog unit)
    (parent_work : Z -> list Z -> Z -> prog (list Z)) (F : nat) (junk : list Z) (args : list (list Z)) : prog Z :=
  match args with
  | [a] =>
      let n := atoi a in
      if (n <=? 0) || (10 <? n) then usage else
      before ;;;
      let! p := sys (Libc "pipe" []) in
      if negb (rv p =? 0) then ERR_kill "pipe" else
      let R0 := nth 0 (rdata p) (-1) in
      let R1 := nth 1 (rdata p) (-1) in
      let! m := sys (Malloc (4 * n)) in
      if rv m =? 0 then ERR_kill "malloc" else
      after ;;;
      let! fds := create_children_and_pipes close_fd again K n R1 (fun fd => child_work fd R1) F junk in
      close_ERR close_fd R1 ;;;
      let! fds := parent_work n fds R0 in
      close_pipes close_fd fds ;;;
      close_ERR close_fd R0 ;;;
      ignored "free" [] ;;;
      Ret EXIT_SUCCESS
  | _ => usage
  end.

(** ** prog22a.c *)
Definition letter (r : Z) : Z := 97 + Z.rem r 26.
Definition first_child (fd R : Z) : prog unit :=
  let! _ := sys (Libc "srand(getpid())" []) in
  let! r := sys (Libc "rand" []) in
  let! w := sys (Write R [letter (rv r)]) in
  if rv w <? 0 then ERR_kill "write to R" else Ret tt.
Definition first_parent_iter (R : Z) (_ : unit) : prog (unit + Z) :=
  let! r := sys (Read R 1) in
  if rv r =? 1 then printf "%c" [PZ (hd 0 (rdata r))] ;;; Ret (inl tt) else Ret (inr (rv r)).
Definition first_parent (F : nat) (R : Z) : prog unit :=
  let! status := loop F (first_parent_iter R) tt in
  if status <? 0 then ERR_kill "read from R" else printf "\n" [].

(** ** The handlers: [sigchld_handler] of both, [sig_killme] of a child *)
Definition ECHILD : Z := 10.
Definition sigchld_iter (_ : unit) : prog (unit + unit) :=
  let! pid := sys (Libc "waitpid" [0]) in
  if rv pid =? 0 then Ret (inr tt)
  else if rv pid <=? 0 then if rerr pid =? ECHILD then Ret (inr tt) else ERR_kill "waitpid:"
  else Ret (inl tt).
Definition sigchld_handler (F : nat) : prog unit := loop F sigchld_iter tt.
Definition sig_killme : prog unit :=
  let! r := sys (Libc "rand" []) in
  if Z.rem (rv r) 5 =? 0 then Exit EXIT_SUCCESS else Ret tt.

(** ** prog22b.c: a child *)
Definition message (s c : Z) : list Z := s :: replicate (Z.to_nat s) c.
Definition child_iter (F : nat) (fd R : Z) (buf : list Z) : prog (list Z + unit) :=
  let! r := retry F (Read fd 1) in
  if rv r <? 1 then ERR_kill "read" else
  let c := hd 0 (rdata r) in
  let! n := sys (Libc "rand" []) in
  let s := wrap_u 8 (1 + Z.rem (rv n) MAX_BUFF) in
  let! buf := defined "buf: overrun" (mem_store buf 0 [s]) in
  let! buf := defined "buf: overrun" (mem_store buf 1 (replicate (Z.to_nat s) c)) in
  let! data := defined "buf: overread" (mem_slice buf 0 (s + 1)) in
  let! w := retry F (Write R data) in
  if rv w <? 0 then ERR_kill "write to R" else Ret (inl buf).

(** ** prog22b.c: the parent *)
Definition search_iter (n : Z) (fds : list Z) (i : Z) : prog (Z + Z) :=
  let! fd := defined "fds: index" (mem_load fds (Z.rem i n)) in
  if (fd =? 0) && (i <? 2 * n) then Ret (inl (i + 1)) else Ret (inr i).

(** A letter for a random child, or the next one that is there; a child that
    cannot be written to is dropped. *)
Definition key_pressed (F : nat) (n : Z) (fds : list Z) : prog (list Z) :=
  let! r := sys (Libc "rand" []) in
  let! i := loop F (search_iter n fds) (Z.rem (rv r) n) in
  let i := Z.rem i n in
  let! fd := defined "fds: index" (mem_load fds i) in
  if fd =? 0 then Ret fds else
  let! c := sys (Libc "rand" []) in
  let! status := retry F (Write fd [letter (rv c)]) in
  if rv status =? 1 then Ret fds else
  let! c := retry F (Close fd) in
  if negb (rv c =? 0) then ERR_kill "close" else
  defined "fds: index" (mem_store fds i [0]).

(** [last_signal] may change whenever a handler runs. *)
Definition parent_iter (F : nat) (n R : Z) (st : list Z * list Z) : prog (list Z * list Z + list Z) :=
  let '(fds, buf) := st in
  let! sg := sys (AtomicLoad "last_signal" 0) in
  let! fds := if rv sg =? SIGINT then let! fds := key_pressed F n fds in ignored "last_signal = 0" [] ;;; Ret fds else Ret fds in
  let! r := sys (Read R 1) in
  if (rv r <? 0) && (rerr r =? EINTR) then Ret (inl (fds, buf)) else
  if rv r <? 0 then ERR_kill "read header from R" else
  if rv r =? 0 then Ret (inr fds) else
  let c := hd 0 (rdata r) in
  let! d := retry F (Read R c) in
  if rv d <? c then ERR_kill "read data from R" else
  let! buf := defined "buf: overrun" (mem_store buf 0 (rdata d)) in
  let! buf := defined "buf: overrun" (mem_store buf c [0]) in
  let! s := defined "buf: unterminated" (cstr buf) in
  printf "%s" [PS s] ;;;
  Ret (inl (fds, buf)).
(** [buf] has [MAX_BUFF] bytes. *)
Definition parent_work (F K : nat) (n : Z) (fds : list Z) (R : Z) (buf : list Z) : prog (list Z) :=
  loop F (parent_iter K n R) (fds, buf).

(** ** The two programs *)
Definition SIGPIPE : Z := 13.
Definition SIGCHLD : Z := 17.
Definition prog22a (F : nat) (junk : list Z) : list (list Z) -> prog Z :=
  main (fun fd => sys (Close fd)) (fun _ => false) 1 (Ret tt) (sethandler_ERR SIGCHLD) first_child
    (fun _ fds R => first_parent F R ;;; Ret fds) F junk.
(** [buf] and [junk]: what the arrays and [fds] hold at first. *)
Definition prog22b (F K : nat) (junk buf cbuf : list Z) : list (list Z) -> prog Z :=
  main (fun fd => retry K (Close fd)) interrupted K (sethandler_ERR SIGINT ;;; sethandler_ERR SIGPIPE ;;; sethandler_ERR SIGCHLD) (Ret tt)
    (fun fd R => sethandler_ERR SIGINT ;;; loop F (child_iter K fd R) cbuf)
    (fun n fds R => sethandler_ERR SIGINT ;;; parent_work F K n fds R buf) F junk.

(** ** What a key press does *)
Definition gone (fds : list Z) : Prop := Forall (fun fd => fd = 0) fds.

(** The child that gets the letter: the first one from [i] on, cyclically. *)
Definition target (fds : list Z) (i : Z) (k : nat) (fd : Z) : Prop :=
  let n := Z.of_nat (length fds) in
  (Z.of_nat k < n) /\ fds !! Z.to_nat ((i + Z.of_nat k) mod n) = Some fd /\ fd <> 0 /\
  forall j, (j < k)%nat -> fds !! Z.to_nat ((i + Z.of_nat j) mod n) = Some 0.

Definition interruption : reply := Reply (-1) EINTR [] [].

(** The replies during a key press, the letters written and the descriptors
    after it; a child that cannot be written to is dropped.  The [write] and
    the [close] are interrupted any number of times. *)
Inductive pressed : list Z -> list reply -> list (Z * Z) -> list Z -> Prop :=
| pressed_nobody fds r : gone fds -> 0 <= r -> pressed fds [rint r] [] fds
| pressed_sent fds r c k fd ints : 0 <= r -> target fds (r mod Z.of_nat (length fds)) k fd ->
    pressed fds (rint r :: rint c :: replicate ints interruption ++ [rint 1]) [(fd, letter c)] fds
| pressed_dropped fds r c k fd ints e ints' : 0 <= r -> target fds (r mod Z.of_nat (length fds)) k fd -> e <> EINTR ->
    pressed fds (rint r :: rint c :: replicate ints interruption ++ Reply (-1) e [] [] :: replicate ints' interruption ++ [rint 0]) []
      (<[Z.to_nat ((r mod Z.of_nat (length fds) + Z.of_nat k) mod Z.of_nat (length fds)) := 0]> fds).

(** Letters written and messages printed. *)
Definition letters (t : list event) : list (Z * Z) :=
  omap (fun e => match e with ECall (Write fd [c]) r => if rv r =? 1 then Some (fd, c) else None | _ => None end) t.
Definition texts (t : list event) : list (list Z) :=
  omap (fun e => match e with ESay (Printf fmt [PS s]) => if String.eqb fmt "%s" then Some s else None | _ => None end) t.

Lemma letters_app t t' : letters (t ++ t') = letters t ++ letters t'.
Proof. apply omap_app. Qed.
Lemma texts_app t t' : texts (t ++ t') = texts t ++ texts t'.
Proof. apply omap_app. Qed.

(** Interruptions and the repeated calls leave no trace. *)
Lemma retry_quiet ints F c r env :
  interrupted r = false -> (ints < F)%nat ->
  exists t, run (retry F c) (replicate ints interruption ++ r :: env) = (Done r env, t ++ [ECall c r]) /\
    letters t = [] /\ texts t = [] /\ Forall (fun e => e = ECall c interruption) t.
Proof.
  intros Hr Hi. destruct (retry_ints ints F c r env Hr Hi) as (t & Ht & ->). unfold interruption. rewrite Ht.
  eexists. split; [reflexivity|]. clear. induction ints as [|n (IH1 & IH2 & IH3)]; [done|]. cbn [replicate].
  split_and!; [|by simpl|by constructor]. by destruct c as [| | | | | | | | | | |? [|? []]| | | | | | | | | | | | | | | | | |].
Qed.

Lemma search_step F fds i fd env :
  0 <= i -> 0 < Z.of_nat (length fds) -> fds !! Z.to_nat (i mod Z.of_nat (length fds)) = Some fd ->
  run (loop (S F) (search_iter (Z.of_nat (length fds)) fds) i) env =
    if (fd =? 0) && (i <? 2 * Z.of_nat (length fds))
    then run (loop F (search_iter (Z.of_nat (length fds)) fds) (i + 1)) env else (Done i env, []).
Proof.
  intros Hi Hn Hfd. rewrite loop_S, run_bind. unfold search_iter at 1. rewrite Z.rem_mod_nonneg by lia.
  pose proof (Z.mod_pos_bound i (Z.of_nat (length fds)) Hn).
  destruct (mem_load_in fds (i mod Z.of_nat (length fds))) as (v & E & Hv); [lia|]. rewrite E. rewrite Hfd in Hv. injection Hv as ->.
  cbn [defined pbind run]. destruct ((v =? 0) && _); cbn [run]; [|done].
  by destruct (run (loop F _ (i + 1)) env).
Qed.

Lemma search_target k : forall F fds i fd env,
  0 <= i -> i + Z.of_nat k <= 2 * Z.of_nat (length fds) -> (k < F)%nat ->
  fds !! Z.to_nat ((i + Z.of_nat k) mod Z.of_nat (length fds)) = Some fd -> fd <> 0 ->
  (forall j, (j < k)%nat -> fds !! Z.to_nat ((i + Z.of_nat j) mod Z.of_nat (length fds)) = Some 0) ->
  run (loop F (search_iter (Z.of_nat (length fds)) fds) i) env = (Done (i + Z.of_nat k) env, []).
Proof.
  induction k as [|k IH]; intros F fds i fd env Hi Hk HF Hfd Hne Hz; (destruct F as [|F]; [lia|]);
    assert (0 < Z.of_nat (length fds)) as Hn by (apply lookup_lt_Some in Hfd; lia).
  - rewrite Z.add_0_r in Hfd |- *. rewrite (search_step F fds i fd) by done. by destruct (Z.eqb_spec fd 0).
  - pose proof (Hz 0%nat ltac:(lia)) as H0. rewrite Z.add_0_r in H0. rewrite (search_step F fds i 0) by done.
    destruct (Z.ltb_spec i (2 * Z.of_nat (length fds))); [|lia]. cbn [Z.eqb andb].
    replace (i + Z.of_nat (S k)) with (i + 1 + Z.of_nat k) in * by lia.
    apply (IH F fds (i + 1) fd); try done; try lia. intros j Hj. specialize (Hz (S j) ltac:(lia)).
    by replace (i + 1 + Z.of_nat j) with (i + Z.of_nat (S j)) by lia.
Qed.

Lemma search_nobody fds env : gone fds -> 0 < Z.of_nat (length fds) -> forall F i,
  0 <= i <= 2 * Z.of_nat (length fds) -> 2 * Z.of_nat (length fds) - i < Z.of_nat F ->
  run (loop F (search_iter (Z.of_nat (length fds)) fds) i) env = (Done (2 * Z.of_nat (length fds)) env, []).
Proof.
  intros Hg Hn. induction F as [|F IH]; intros i Hi HF; [lia|].
  pose proof (Z.mod_pos_bound i (Z.of_nat (length fds)) Hn).
  destruct (lookup_lt_is_Some_2 fds (Z.to_nat (i mod Z.of_nat (length fds)))) as [fd Hfd]; [lia|].
  pose proof (Forall_lookup_1 _ _ _ _ Hg Hfd) as H0. simpl in H0. subst fd. rewrite (search_step F fds i 0) by (done || lia). cbn [Z.eqb andb].
  destruct (Z.ltb_spec i (2 * Z.of_nat (length fds))); [apply IH; lia|]. do 2 f_equal. lia.
Qed.

Lemma target_found F fds i k fd env :
  let n := Z.of_nat (length fds) in
  0 <= i < n -> target fds i k fd -> 2 * n < Z.of_nat F ->
  run (loop F (search_iter n fds) i) env = (Done (i + Z.of_nat k) env, []) /\
  Z.rem (i + Z.of_nat k) n = (i + Z.of_nat k) mod n /\ mem_load fds ((i + Z.of_nat k) mod n) = Some fd.
Proof.
  intros n Hi (Hk & Hfd & Hne & Hz) HF. fold n in Hk, Hfd, Hz. split; [|split].
  - apply (search_target k _ _ _ fd); unfold n in *; (done || lia).
  - apply Z.rem_mod_nonneg; lia.
  - pose proof (Z.mod_pos_bound (i + Z.of_nat k) n ltac:(lia)).
    destruct (mem_load_in fds ((i + Z.of_nat k) mod n)) as (v & E & Hv); [unfold n in *; lia|]. rewrite E. congruence.
Qed.

Lemma key_pressed_run F fds env ls fds' env' :
  pressed fds env ls fds' -> 0 < Z.of_nat (length fds) -> 2 * Z.of_nat (length fds) + Z.of_nat (length env) < Z.of_nat F ->
  length fds' = length fds /\
  exists t, run (key_pressed F (Z.of_nat (length fds)) fds) (env ++ env') = (Done fds' env', t) /\ letters t = ls /\ texts t = [].
Proof.
  intros Hp Hn HF. unfold key_pressed.
  destruct Hp as [fds r Hg Hr|fds r c k fd ints Hr Ht|fds r c k fd ints e ints' Hr Ht He];
    pose proof (Z.mod_pos_bound r _ Hn) as Hrm; cbn [app sys pbind run rint rv]; rewrite run_bind, Z.rem_mod_nonneg by lia.
  1: { split; [done|]. rewrite search_nobody by (done || lia). rewrite Z.rem_mod_nonneg, Z.mod_mul by lia.
    destruct (mem_load_in fds 0) as (fd & E & Hfd); [lia|]. rewrite E. pose proof (Forall_lookup_1 _ _ _ _ Hg Hfd) as H0. simpl in H0. subst fd.
    cbn [defined pbind Z.eqb run]. eexists. split; [reflexivity|done]. }
  all: destruct (target_found F fds _ k fd (rint c :: replicate ints interruption ++ [rint 1] ++ env') Hrm Ht ltac:(lia)) as (_ & Hrem & Hld).
  all: pose proof (fun env => proj1 (target_found F fds _ k fd env Hrm Ht ltac:(lia))) as ->.
  all: rewrite Hrem, Hld; destruct Ht as (_ & Hfd & Hne & _); cbn [defined pbind]; destruct (Z.eqb_spec fd 0); [done|].
  all: cbn [sys pbind run rv rint]; rewrite run_bind, <- app_assoc; cbn [length] in HF; rewrite !length_app, length_replicate in HF; simpl in HF.
  - split; [done|]. destruct (retry_quiet ints F (Write fd [letter c]) (rint 1) env') as (t & Ht & Hl & Hx & _); [done|lia|].
    cbn [app]. rewrite Ht. cbn [rv rint Z.eqb run]. eexists. split; [reflexivity|].
    cbn [app letters texts omap list_omap]. rewrite app_nil_r, letters_app, texts_app, Hl, Hx. done.
  - split; [by rewrite length_insert|]. rewrite length_app, length_replicate in HF. simpl in HF.
    destruct (retry_quiet ints F (Write fd [letter c]) (Reply (-1) e [] []) ((replicate ints' interruption ++ [rint 0]) ++ env'))
      as (t & Ht & Hl & Hx & _); [unfold interrupted; cbn [rv rerr]; by destruct (Z.eqb_spec e EINTR)|lia|].
    cbn [app]. rewrite Ht. cbn [rv]. change (-1 =? 1) with false. cbn iota. rewrite run_bind, <- app_assoc.
    destruct (retry_quiet ints' F (Close fd) (rint 0) env') as (t' & Ht' & Hl' & Hx' & _); [done|lia|].
    cbn [app]. rewrite Ht'. cbn [rv rint negb Z.eqb].
    pose proof (Z.mod_pos_bound (r mod Z.of_nat (length fds) + Z.of_nat k) _ Hn).
    rewrite (mem_store_one _ _ fd) by (done || lia). cbn [defined run]. eexists. split; [reflexivity|].
    cbn [app letters texts omap list_omap]. rewrite !app_nil_r, !letters_app, !texts_app, Hl, Hx, Hl', Hx'. done.
Qed.

(** ** The parent, turn by turn *)
Inductive signalled (fds : list Z) : list reply -> list (Z * Z) -> list Z -> Prop :=
| no_key sg : sg <> SIGINT -> signalled fds [rint sg] [] fds
| key env ls fds' : pressed fds env ls fds' -> signalled fds (rint SIGINT :: env) ls fds'.

(** The replies until all children have closed [R], with the letters written,
    the messages printed and the descriptors at the end. *)
Inductive turns : list Z -> list reply -> list (Z * Z) -> list (list Z) -> list Z -> Prop :=
| turns_end fds env ls fds' : signalled fds env ls fds' -> turns fds (env ++ [rint 0]) ls [] fds'
| turns_quiet fds env0 ls0 fds1 env ls ts fds' :
    signalled fds env0 ls0 fds1 -> turns fds1 env ls ts fds' -> turns fds (env0 ++ interruption :: env) (ls0 ++ ls) ts fds'
| turns_message fds env0 ls0 fds1 s c ints env ls ts fds' :
    signalled fds env0 ls0 fds1 -> 1 <= s < MAX_BUFF -> c <> 0 -> turns fds1 env ls ts fds' ->
    turns fds (env0 ++ full_read [s] :: replicate ints interruption ++ full_read (replicate (Z.to_nat s) c) :: env)
      (ls0 ++ ls) (replicate (Z.to_nat s) c :: ts) fds'.

(** The first part of a turn. *)
Lemma signal_run {A} F fds env ls fds' env' (k : list Z -> prog A) :
  signalled fds env ls fds' -> 0 < Z.of_nat (length fds) -> 2 * Z.of_nat (length fds) + Z.of_nat (length env) < Z.of_nat F ->
  length fds' = length fds /\
  exists t, letters t = ls /\ texts t = [] /\
    run (let! sg := sys (AtomicLoad "last_signal" 0) in
         let! fds := if rv sg =? SIGINT then let! fds := key_pressed F (Z.of_nat (length fds)) fds in ignored "last_signal = 0" [] ;;; Ret fds
                     else Ret fds in k fds) (env ++ env') =
    let '(o, t') := run (k fds') env' in (o, t ++ t').
Proof.
  intros Hs Hn HF. destruct Hs as [sg Hsg|env ls fds' Hp].
  - split; [done|]. eexists. split; [|split]; [| |cbn [app sys pbind run rint rv]; destruct (Z.eqb_spec sg SIGINT); [done|];
      cbn [pbind]; destruct (run (k fds) env') as [o t'] eqn:E; change (ECall ?c ?r :: t') with ([ECall c r] ++ t'); reflexivity]; done.
  - destruct (key_pressed_run F fds env ls fds' env' Hp Hn ltac:(simpl in HF; lia)) as (Hl & t & Ht & Hls & Hts). split; [done|].
    exists (ECall (AtomicLoad "last_signal" 0) (rint SIGINT) :: t ++ [ESay (Ignored "last_signal = 0" [])]).
    split; [cbn [letters omap list_omap]; rewrite letters_app, Hls; by rewrite app_nil_r|].
    split; [cbn [texts omap list_omap]; rewrite texts_app, Hts; done|].
    cbn [app sys pbind run rint rv]. change (SIGINT =? SIGINT) with true. cbn iota.
    rewrite !run_bind, Ht. cbn [ignored pbind run]. destruct (run (k fds') env') as [o t']. by rewrite <- !app_assoc.
Qed.

Lemma replicate_no_nul n c : c <> 0 -> 0 ∉ replicate n c.
Proof. intros Hc H. apply elem_of_replicate in H as [H _]. congruence. Qed.

Lemma parent_work_run fds env ls ts fds' R : turns fds env ls ts fds' -> forall F K buf,
  0 < Z.of_nat (length fds) -> 2 * Z.of_nat (length fds) + Z.of_nat (length env) < Z.of_nat K -> (length env < F)%nat ->
  Z.of_nat (length buf) = MAX_BUFF ->
  exists t, run (loop F (parent_iter K (Z.of_nat (length fds)) R) (fds, buf)) env = (Done fds' [], t) /\ letters t = ls /\ texts t = ts.
Proof.
  induction 1 as [fds env ls fds' Hs|fds env0 ls0 fds1 env ls ts fds' Hs _ IH|fds env0 ls0 fds1 s c ints env ls ts fds' Hs Hr Hc _ IH];
    intros F K buf Hn HK HF Hb; (destruct F as [|F]; [lia|]); rewrite loop_S, run_bind; unfold parent_iter at 1;
    rewrite !length_app in HK, HF; simpl in HK, HF.
  - match goal with |- context [run (pbind _ (fun sg => pbind _ ?k))] =>
      destruct (signal_run K fds env ls fds' [rint 0] k Hs Hn ltac:(lia)) as (Hl & t & H1 & H2 & Hrun) end.
    rewrite Hrun. cbn [sys pbind run rint rv]. eexists. split; [reflexivity|].
    rewrite !letters_app, !texts_app, H1, H2. simpl. by rewrite !app_nil_r.
  - match goal with |- context [run (pbind _ (fun sg => pbind _ ?k))] =>
      destruct (signal_run K fds env0 ls0 fds1 (interruption :: env) k Hs Hn ltac:(lia)) as (Hl & t & H1 & H2 & Hrun) end.
    rewrite Hrun. cbn [sys pbind run interruption rv rerr]. cbn [Z.ltb Z.compare Z.eqb EINTR Pos.eqb andb run].
    destruct (IH F K buf) as (t2 & Ht2 & H3 & H4); [lia|lia|lia|done|]. rewrite Hl in Ht2. rewrite Ht2.
    eexists. split; [reflexivity|]. rewrite !letters_app, !texts_app, H1, H2, H3, H4. simpl. by rewrite ?app_nil_r.
  - rewrite length_app, length_replicate in HK, HF. simpl in HK, HF.
    match goal with |- context [run (pbind _ (fun sg => pbind _ ?k))] =>
      destruct (signal_run K fds env0 ls0 fds1 (full_read [s] :: replicate ints interruption ++ full_read (replicate (Z.to_nat s) c) :: env)
        k Hs Hn ltac:(lia)) as (Hl & t & H1 & H2 & Hrun) end.
    rewrite Hrun. cbn [sys pbind run full_read rv rerr rdata length hd]. change (Z.of_nat 1) with 1. cbn [Z.ltb Z.compare Z.eqb andb].
    rewrite run_bind. destruct (retry_ints ints K (Read R s) (full_read (replicate (Z.to_nat s) c)) env) as (tr & Htr & Etr);
      [apply not_interrupted; lia|lia|]. unfold interruption. rewrite Htr.
    cbn [full_read rv rdata]. rewrite length_replicate. destruct (Z.ltb_spec (Z.of_nat (Z.to_nat s)) s); [lia|].
    unfold MAX_BUFF in Hr, Hb.
    destruct (mem_store buf 0 (replicate (Z.to_nat s) c)) as [b|] eqn:Eb.
    2: { rewrite mem_store_is_Some in Eb by (rewrite ?length_replicate; lia). done. }
    rewrite mem_store_is_Some in Eb by (rewrite ?length_replicate; lia). injection Eb as <-. cbn [Z.to_nat take app Nat.add].
    cbn [defined pbind]. rewrite length_replicate.
    rewrite mem_store_is_Some by (rewrite ?length_app, ?length_replicate, ?length_drop; simpl; lia). cbn [defined pbind].
    rewrite take_app_length' by (by rewrite length_replicate). cbn [app].
    rewrite cstr_app by by apply replicate_no_nul. cbn [defined pbind printf run].
    destruct (IH F K (replicate (Z.to_nat s) c ++ 0 :: drop (Z.to_nat s + length [0]) (replicate (Z.to_nat s) c ++ drop (Z.to_nat s) buf)))
      as (t2 & Ht2 & H3 & H4); [lia|lia|lia| |].
    { rewrite length_app, length_replicate. cbn [length]. rewrite length_drop, length_app, length_replicate, length_drop. unfold MAX_BUFF. lia. }
    rewrite Hl in Ht2. rewrite Ht2. eexists. split; [reflexivity|].
    assert (letters tr = [] /\ texts tr = []) as [Hlt Htt].
    { rewrite Etr, letters_app, texts_app. clear. by induction ints as [|n [IH1 IH2]]. }
    rewrite !letters_app, !texts_app, H1, H2. simpl. rewrite !letters_app, !texts_app, Hlt, Htt. simpl. by rewrite H3, H4, app_nil_r.
Qed.

(** ** What a child sends *)
Definition answers (t : list event) : list (Z * list Z) :=
  omap (fun e => match e with ECall (Write fd d) r => if 0 <=? rv r then Some (fd, d) else None | _ => None end) t.

(** The replies of a round; the [read] and the [write] may be interrupted. *)
Definition child_replies (ints : nat) (c r : Z) (ints' : nat) (w : Z) : list reply :=
  replicate ints interruption ++ full_read [c] :: rint r :: replicate ints' interruption ++ [rint w].

Lemma answers_app t t' : answers (t ++ t') = answers t ++ answers t'.
Proof. apply omap_app. Qed.
Lemma interrupted_answers c t : Forall (fun e => e = ECall c interruption) t -> answers t = [].
Proof. induction 1 as [|e t -> _ IH]; [done|]. by destruct c. Qed.

Lemma child_message F fd R buf ints c r ints' w :
  (ints < F)%nat -> (ints' < F)%nat -> Z.of_nat (length buf) = MAX_BUFF + 1 -> 0 <= r -> 0 <= w ->
  exists buf' t, run (child_iter F fd R buf) (child_replies ints c r ints' w) = (Done (inl buf') [], t) /\
    Z.of_nat (length buf') = MAX_BUFF + 1 /\ 1 <= 1 + r mod MAX_BUFF <= MAX_BUFF /\
    answers t = [(R, message (1 + r mod MAX_BUFF) c)].
Proof.
  intros HF HF' Hb Hr Hw. unfold child_iter, child_replies. rewrite run_bind.
  destruct (retry_quiet ints F (Read fd 1) (full_read [c]) (rint r :: replicate ints' interruption ++ [rint w])) as (t1 & Ht1 & _ & _ & Hi1);
    [by apply not_interrupted|done|]. rewrite Ht1.
  cbn [full_read rv rdata length]. change (Z.of_nat 1 <? 1) with false. cbn iota. cbn [sys pbind run rint rv hd].
  unfold MAX_BUFF in *. rewrite Z.rem_mod_nonneg by lia. pose proof (Z.mod_pos_bound r 200 ltac:(lia)) as Hm.
  rewrite (wrap_u_small 8) by lia. set (s := 1 + r mod 200) in *.
  destruct buf as [|b0 buf]; [done|]. change (b0 :: buf) with ([] ++ [b0] ++ buf).
  rewrite (mem_store_segment [] [b0]) by done. cbn [defined pbind app].
  assert (mem_store (s :: buf) 1 (replicate (Z.to_nat s) c) = Some (message s c ++ drop (Z.to_nat s) buf)) as E.
  { simpl in Hb. rewrite <- (take_drop (Z.to_nat s) buf) at 1. change (s :: ?l) with ([s] ++ l).
    rewrite mem_store_segment; [done|done|]. rewrite length_replicate, length_take. lia. }
  rewrite E. cbn [defined pbind].
  assert (length (message s c) = Z.to_nat (s + 1)) as Hl by (unfold message; simpl; rewrite length_replicate; lia).
  assert (mem_slice (message s c ++ drop (Z.to_nat s) buf) 0 (s + 1) = Some (message s c)) as Es.
  { unfold mem_slice. rewrite length_app, Hl. destruct (Z.leb_spec (0 + (s + 1)) (Z.of_nat (Z.to_nat (s + 1) + length (drop (Z.to_nat s) buf)))); [|lia].
    destruct (Z.leb_spec 0 0); [|lia]. destruct (Z.leb_spec 0 (s + 1)); [|lia]. cbn [andb Z.to_nat]. rewrite drop_0. by rewrite take_app_length'. }
  rewrite Es. cbn [defined pbind]. rewrite run_bind.
  destruct (retry_quiet ints' F (Write R (message s c)) (rint w) []) as (t2 & Ht2 & _ & _ & Hi2); [apply not_interrupted; lia|done|].
  rewrite Ht2. cbn [rv rint]. destruct (Z.ltb_spec w 0); [lia|]. cbn [run]. eexists _, _. split; [reflexivity|]. split_and!; try lia.
  - rewrite length_app, Hl, length_drop. simpl in Hb. lia.
  - rewrite app_nil_r, <- app_assoc. cbn [app]. change (?a :: ?b :: t2 ++ ?l) with ([a; b] ++ t2 ++ l).
    rewrite !answers_app, (interrupted_answers _ _ Hi1), (interrupted_answers _ _ Hi2). cbn [answers app omap list_omap rv rint].
    by destruct (Z.leb_spec 0 w); [|lia].
Qed.

(** A message of [MAX_BUFF] letters: the terminator is stored behind [buf]. *)
Lemma full_message_overruns F K n fds R buf c env :
  Z.of_nat (length buf) = MAX_BUFF -> (0 < K)%nat ->
  exists t, run (loop (S F) (parent_iter K n R) (fds, buf))
      (rint 0 :: full_read [MAX_BUFF] :: full_read (replicate (Z.to_nat MAX_BUFF) c) :: env) = (Undefined "buf: overrun", t).
Proof.
  intros Hb HK. assert (length buf = 200%nat) as Hl by (unfold MAX_BUFF in Hb; lia). change (Z.to_nat MAX_BUFF) with 200%nat.
  rewrite loop_S, run_bind. unfold parent_iter at 1. cbn [sys pbind run rint rv]. change (0 =? SIGINT) with false. cbn iota.
  cbn [pbind sys run full_read rv rdata length hd]. change (Z.of_nat 1) with 1. cbn [Z.ltb Z.compare Z.eqb andb].
  rewrite run_bind, retry_once by (done || apply not_interrupted; lia). cbn [rv rdata full_read]. rewrite length_replicate.
  change (Z.of_nat 200 <? MAX_BUFF) with false. cbn iota.
  rewrite mem_store_is_Some by (rewrite ?length_replicate; lia). cbn [defined pbind].
  rewrite mem_store_none; [eexists; reflexivity|]. right.
  rewrite !length_app, length_take, !length_replicate, length_drop, Hl. done.
Qed.

(** ** Which ends of the pipes a child keeps *)
Definition closed (t : list event) : list Z :=
  omap (fun e => match e with ECall (Close fd) r => if rv r =? 0 then Some fd else None | _ => None end) t.
Definition pipe_reply (p : Z * Z) : reply := Reply 0 0 [p.1; p.2] [].

Section Descriptors.
Variable (close_fd : Z -> prog reply) (again : reply -> bool) (K : nat) (max R : Z) (child_work : Z -> prog unit).
Hypothesis (K_positive : (0 < K)%nat) (no_retry : again (rint 0) = false).
(** [close] succeeds. *)
Hypothesis closes : forall fd env, run (close_fd fd) (rint 0 :: env) = (Done (rint 0) env, [ECall (Close fd) (rint 0)]).

Lemma close_ERR_run fd env : run (close_ERR close_fd fd) (rint 0 :: env) = (Done tt env, [ECall (Close fd) (rint 0)]).
Proof. unfold close_ERR. by rewrite run_bind, closes. Qed.

Lemma close_next_run fds n fd env :
  mem_load fds n = Some fd ->
  run (loop K (close_next_iter again fds) n) (rint 0 :: env) = (Done (rint 0, n + 1) env, [ECall (Close fd) (rint 0)]).
Proof.
  intros E. destruct K as [|k]; [lia|]. rewrite loop_S. unfold close_next_iter at 1. rewrite E. cbn [defined pbind sys run].
  by rewrite no_retry.
Qed.

Lemma inherited_run fds env : forall k F, max = Z.of_nat (length fds) -> (k <= length fds)%nat -> (k < F)%nat ->
  Forall (fun fd => fd <> 0) (drop (length fds - k) fds) ->
  exists t, run (loop F (inherited_iter again K max fds) (max - Z.of_nat k)) (replicate k (rint 0) ++ env) = (Done tt env, t) /\
    closed t = drop (length fds - k) fds.
Proof.
  induction k as [|k IH]; intros F Hm Hk HF Hnz; (destruct F as [|F]; [lia|]); rewrite loop_S, run_bind; unfold inherited_iter at 1.
  - rewrite Z.sub_0_r, Z.ltb_irrefl. cbn [run replicate app]. eexists. split; [reflexivity|]. rewrite drop_ge by lia. done.
  - destruct (Z.ltb_spec (max - Z.of_nat (S k)) max); [|lia].
    destruct (mem_load_in fds (max - Z.of_nat (S k))) as (fd & E & Hfd); [lia|]. rewrite E. cbn [defined pbind].
    replace (Z.to_nat (max - Z.of_nat (S k))) with (length fds - S k)%nat in Hfd by lia.
    rewrite (drop_S _ _ _ Hfd) in Hnz |- *. inversion Hnz as [|? ? Hfd0 Hnz']; subst.
    replace (S (length fds - S k)) with (length fds - k)%nat in * by lia.
    destruct (Z.eqb_spec fd 0); [done|]. cbn [replicate app]. rewrite run_bind, (close_next_run fds _ fd) by done. cbn [rv rint negb Z.eqb run].
    replace (Z.of_nat (length fds) - Z.of_nat (S k) + 1) with (Z.of_nat (length fds) - Z.of_nat k) by lia.
    destruct (IH F eq_refl ltac:(lia) ltac:(lia) Hnz') as (t & Ht & Hc). rewrite Ht. eexists. split; [reflexivity|]. simpl. by rewrite Hc.
Qed.

(** The replies while the parent makes the pipes [ps]. *)
Fixpoint parent_replies (ps : list (Z * Z)) (pids : list Z) : list reply :=
  match ps, pids with
  | p :: ps, pid :: pids => pipe_reply p :: rint pid :: rint 0 :: parent_replies ps pids
  | _, _ => []
  end.

Lemma create_parent ps : forall pids F G fds k env,
  length pids = length ps -> Forall (fun pid => 0 < pid) pids -> (length ps + k)%nat = length (take (length ps + k) fds) ->
  exists t, run (loop (length ps + F) (create_iter close_fd again K max R child_work G) (Z.of_nat (length ps + k), fds)) (parent_replies ps pids ++ env) =
    (let '(o, t') := run (loop F (create_iter close_fd again K max R child_work G) (Z.of_nat k, take k fds ++ rev ps.*2 ++ drop (length ps + k) fds)) env in (o, t ++ t')) /\
    closed t = ps.*1.
Proof.
  induction ps as [|[r w] ps IH]; intros [|pid pids] F G fds k env Hl Hp Hk; try done.
  - exists []. cbn [length Nat.add parent_replies app rev fmap list_fmap]. rewrite take_drop. split; [|done].
    by destruct (run (loop F _ _) env).
  - cbn [length Nat.add parent_replies app]. rewrite loop_S, run_bind. unfold create_iter at 1.
    inversion Hp as [|? ? Hpid Hp']; subst. cbn [length] in Hk.
    destruct (Z.eqb_spec (Z.of_nat (S (length ps + k))) 0); [lia|]. cbn [sys pbind run pipe_reply rv rdata fst snd negb Z.eqb nth rint].
    destruct (Z.eqb_spec pid 0); [lia|]. destruct (Z.eqb_spec pid (-1)); [lia|]. rewrite run_bind, close_ERR_run.
    rewrite length_take in Hk. destruct (lookup_lt_is_Some_2 fds (length ps + k)) as [v Hv]; [lia|].
    replace (Z.of_nat (S (length ps + k)) - 1) with (Z.of_nat (length ps + k)) by lia.
    rewrite (mem_store_one _ _ v) by (rewrite ?Nat2Z.id; done || lia). rewrite Nat2Z.id. cbn [defined pbind run].
    destruct (IH pids F G (<[(length ps + k)%nat := w]> fds) k env) as (t & Ht & Hc); [by injection Hl|done| |].
    { rewrite length_take, length_insert. lia. }
    rewrite Ht. rewrite take_insert_ge by lia.
    assert (drop (length ps + k) (<[(length ps + k)%nat := w]> fds) = w :: drop (S (length ps + k)) fds) as ->.
    { rewrite (drop_S _ w) by (apply list_lookup_insert_eq; lia). by rewrite drop_insert_lt by lia. }
    cbn [fmap list_fmap rev fst snd]. rewrite <- app_assoc. cbn [app].
    match goal with |- context [run (loop F ?b ?st) env] => destruct (run (loop F b st) env) as [o t'] end.
    eexists (_ :: _ :: _ :: t). split; [reflexivity|]. simpl. by rewrite Hc.
Qed.

(** A child closes the writing ends of all pipes made before it and of its
    own; the reading ends of the former were closed by the parent, so of all
    pipes it keeps its own reading end while it works, and closes it and [R]
    at the end. *)
Lemma child_descriptors ps pids r w F G fds env env' tw :
  run (child_work r) env = (Done tt (rint 0 :: rint 0 :: env'), tw) ->
  length pids = length ps -> Forall (fun pid => 0 < pid) pids -> Forall (fun p => p.2 <> 0) ps ->
  max = Z.of_nat (length fds) -> (length ps < length fds)%nat -> (length ps < G)%nat ->
  exists t, run (loop (length ps + S F) (create_iter close_fd again K max R child_work G) (max, fds))
      (parent_replies ps pids ++ pipe_reply (r, w) :: rint 0 :: replicate (length ps) (rint 0) ++ rint 0 :: env) =
    (Exited EXIT_SUCCESS, t) /\
    closed t = ps.*1 ++ rev ps.*2 ++ [w] ++ closed tw ++ [r; R].
Proof.
  intros Hwork Hl Hp Hw Hm Hlt HG. set (k := (length fds - length ps)%nat).
  assert (Z.of_nat (length ps + k) = max) as Hk by lia.
  destruct (create_parent ps pids (S F) G fds k (pipe_reply (r, w) :: rint 0 :: replicate (length ps) (rint 0) ++ rint 0 :: env) Hl Hp) as (t & Ht & Hc).
  { rewrite length_take. lia. }
  rewrite Hk in Ht. rewrite Ht. rewrite (drop_ge fds) by lia. rewrite app_nil_r.
  set (fds1 := take k fds ++ rev ps.*2).
  assert (length (rev ps.*2) = length ps) as Lr by by rewrite length_rev, length_fmap.
  assert (length fds1 = length fds) as L1 by (unfold fds1; rewrite length_app, length_take, Lr; lia).
  assert (drop (length fds1 - length ps) fds1 = rev ps.*2) as Hd.
  { rewrite L1. fold k. unfold fds1. rewrite drop_app_length'; [done|]. rewrite length_take. lia. }
  rewrite loop_S, run_bind. unfold create_iter at 1. destruct (Z.eqb_spec (Z.of_nat k) 0); [lia|].
  cbn [sys pbind run pipe_reply rv rdata fst snd negb Z.eqb nth rint]. unfold child_part. rewrite run_bind.
  destruct (inherited_run fds1 (rint 0 :: env) (length ps) G) as (t1 & Ht1 & Hc1); [lia|lia|lia| |].
  { rewrite Hd. apply Forall_rev. rewrite Forall_fmap. exact Hw. }
  replace (max - Z.of_nat (length ps)) with (Z.of_nat k) in Ht1 by lia. rewrite Ht1. cbn [ignored pbind run].
  rewrite run_bind, close_ERR_run, run_bind, Hwork, run_bind, close_ERR_run, run_bind, close_ERR_run. cbn [run].
  eexists. split; [reflexivity|]. unfold closed in *. rewrite !omap_app, Hc. cbn [omap list_omap]. rewrite !omap_app, Hc1, Hd. cbn [omap list_omap].
  rewrite !omap_app. cbn [omap list_omap]. done.
Qed.
End Descriptors.

(** A [close] that is interrupted: the retried expression increments [n]
    again, here past the end of [fds]. *)
Example close_retry_overruns :
  (run (loop 5 (inherited_iter interrupted 5 2 [0; 7]) 1) [interruption]).1 = Undefined "fds: index".
Proof. reflexivity. Qed.

(** C40. The messages of the children: a child answers a letter with a message
    of up to [MAX_BUFF] copies of it, whatever its [read] and its [write] are
    interrupted; for any interruptions, also of the [write] and the [close]
    of a key press, and any key presses the parent prints every message below
    [MAX_BUFF] whole and in order, a letter goes once to the next child that
    is still there, and a child that cannot be written to is dropped, until
    all have closed the pipe; but a message of [MAX_BUFF] letters makes it
    store behind its buffer. *)
Theorem pipe_messages fds env ls ts fds' R F K buf cfd cbuf ints c r ints' w :
  turns fds env ls ts fds' -> 0 < Z.of_nat (length fds) ->
  2 * Z.of_nat (length fds) + Z.of_nat (length env) < Z.of_nat K -> (length env < F)%nat ->
  (ints < K)%nat -> (ints' < K)%nat ->
  Z.of_nat (length buf) = MAX_BUFF -> Z.of_nat (length cbuf) = MAX_BUFF + 1 -> 0 <= r -> 0 <= w ->
  (exists buf' t, run (child_iter K cfd R cbuf) (child_replies ints c r ints' w) = (Done (inl buf') [], t) /\
    1 <= 1 + r mod MAX_BUFF <= MAX_BUFF /\ answers t = [(R, message (1 + r mod MAX_BUFF) c)]) /\
  (exists t, run (parent_work F K (Z.of_nat (length fds)) fds R buf) env = (Done fds' [], t) /\ letters t = ls /\ texts t = ts) /\
  (exists t, run (parent_work F K (Z.of_nat (length fds)) fds R buf)
      (rint 0 :: full_read [MAX_BUFF] :: full_read (replicate (Z.to_nat MAX_BUFF) c) :: env) = (Undefined "buf: overrun", t)).
Proof.
  intros Ht Hn HK HF Hi Hi' Hb Hc Hr Hw. split_and!.
  - destruct (child_message K cfd R cbuf ints c r ints' w) as (buf' & t & H1 & _ & H2 & H3); try done. by exists buf', t.
  - by apply parent_work_run.
  - unfold parent_work. destruct F as [|F]; [lia|]. apply full_message_overruns; [done|lia].
Qed.

(** Two children, one of which has gone.  A key press whose [write] is
    interrupted, a message whose reading is, and a key press when the other
    child has gone as well, with the [write] and the [close] interrupted. *)
Definition sent_key : list reply := rint SIGINT :: rint 4 :: rint 1 :: replicate 2 interruption ++ [rint 1].
Definition dropping_key : list reply :=
  rint SIGINT :: rint 3 :: rint 2 :: replicate 1 interruption ++ Reply (-1) EPIPE [] [] :: replicate 2 interruption ++ [rint 0].
Definition some_turns : list reply :=
  sent_key ++ interruption :: [rint 0] ++ full_read [3] :: replicate 1 interruption ++ full_read [98; 98; 98] :: dropping_key ++ [rint 0].

Lemma pipe_messages_witness :
  (exists t, run (parent_work 40 60 2 [0; 8] 5 (replicate 200 0)) some_turns = (Done [0; 0] [], t) /\
    letters t = [(8, 98)] /\ texts t = [str "bbb"]) /\
  (exists buf t, run (child_iter 60 3 5 (replicate 201 0)) (child_replies 2 98 202 3 4) = (Done (inl buf) [], t) /\
    answers t = [(5, [3; 98; 98; 98])]).
Proof.
  assert (turns [0; 8] some_turns [(8, 98)] [str "bbb"] [0; 0]) as Ht.
  { apply (turns_quiet [0; 8] sent_key [(8, 98)] [0; 8] _ []).
    - apply key. apply (pressed_sent [0; 8] 4 1 1 8 2); [done|]. split_and!; try done. intros [|j] Hj; [done|lia].
    - apply (turns_message [0; 8] [rint 0] [] [0; 8] 3 98 1 (dropping_key ++ [rint 0]) [] [] [0; 0]); try done.
      + by apply no_key.
      + apply turns_end, key, (pressed_dropped [0; 8] 3 2 0 8 1 EPIPE 2); [done|by split_and!; [..|intros j Hj; lia]|done]. }
  destruct (pipe_messages _ _ _ _ _ 5 40 60 (replicate 200 0) 3 (replicate 201 0) 2 98 202 3 4 Ht) as (H1 & H2 & _);
    try done; try (vm_compute; lia). split; [exact H2|]. destruct H1 as (b & t & H1 & _ & H3). by exists b, t.
Defined.
